(* ===== verification/_CoqProject ===== *)
-Q . S2P
Prelude.v
Bytes.v
Text.v
Common.v
Glob.v
Identity.v
Policy.v
ProtocolDetect.v
Net.v
Metrics.v
Tunnels.v
ProxyBase.v
Addresses.v
ConfigLoad.v
Process.v
Holdings.v
Tasks.v
Handshake.v
Events.v
Provider.v
CertAuthority.v
Reload.v
Rotation.v
Bootstrap.v
Services.v
Admin.v
AdminTasks.v
Dns.v
Mux.v
TunnelDriver.v
Listener.v
Inbound.v
Outbound.v
System.v
Resolution.v
Daemon.v
Mesh.v
Conformance.v
Scenarios.v
