(* ===== verification/Prelude.v ===== *)
(** * interlink: a verification library for the service mesh proxy

    interlink is a sidecar proxy: [interlinkd] terminates mutual TLS from peer
    proxies, authorizes them by their SPIFFE identity, and relays plaintext to
    the local application; in the other direction it carries the application's
    connections to the peer's proxy over mutual TLS, multiplexed over shared
    tunnels where the peer can.  This library models the crate's own logic and
    proves the properties it rests on.  Source paths are relative to the crate.

    ** The program and its model

    Foundations.
    - [Prelude] (this file): byte strings, Rust's [Result] and [?], panics,
      reachability ([steps]), counting, and the shared tactics and hints.
    - [Bytes], [Text]: the string and byte operations of the standard library
      that the crate uses, with the bounds and UTF-8 boundary checks of [str]
      slicing; lossy decoding, lines and words.
    - [Net]: [IpAddr], [SocketAddr], their parser and display forms;
      [Addresses] shows that the two are inverse.
    - [Common]: src/common/error.rs and src/common/constants.rs.

    Identity and policy.
    - [Glob], [Identity]: src/common/identity.rs.  Module [SegmentGlob] holds
      the compiled glob ([new], [matches], [matches_multi]); [Pattern], [Id] and
      [Trust] hold the methods of [CompiledPattern], [SpiffeId] and
      [TrustDomain]; [parse_spiffe_uri] is the URI parser.  The trait
      [IdentityProvider] is a class.
    - [Policy]: src/policy/mod.rs, the engine ([Engine]) and the rule
      constructors ([patterns]).
    - [Provider]: src/identity/provider/mod.rs, two instances of the trait.
    - [CertAuthority]: src/identity/ca/mod.rs.

    The process and its tasks.
    - [Metrics]: src/metrics/mod.rs; a recording function is the list of the
      atomic operations ([MetricOp]) it makes on 64-bit counters, a
      floating-point gauge and histograms.
    - [Tunnels]: the data of the tunnel pool of src/proxy/mux.rs ([Pool]) and the
      atomic actions on it.
    - [Process]: the state all tasks share ([Proc]: metrics registry, identity
      cache, tunnel pool and creation locks, connection permits and counters of
      both proxies), the atomic calls on it ([Call], [apply_call]), and the
      programs of tasks ([Prog]): trees of calls, visible events, panics, spawned
      tasks, and [Idle], the wait for input that has not come.  [exec] runs one
      task alone.
    - [Holdings]: what tasks hold (permits, counts, locks, stream slots) and the
      invariant that ties it to the shared state; [call_sound] shows it kept by
      every call.
    - [Tasks]: a program logic for tasks ([wp], against a [Contract]) and the
      machine that interleaves any number of them ([step]); [tasks_sound] lifts
      what each task satisfies alone to every interleaving.

    Transport.
    - [ProtocolDetect]: src/protocol/mod.rs.
    - [ProxyBase]: src/proxy/mod.rs, src/proxy/config.rs and
      src/proxy/original_dst.rs.
    - [Handshake]: src/proxy/handshake.rs and src/proxy/verify.rs.  The trait
      [TlsHandshake] is a class; [TlsAuthentic] is the contract the proxies rely
      on, proved of the client, the server and (in [Reload]) the reloader.
    - [Reload]: src/proxy/reload.rs, each call from beginning to end;
      [Rotation]: any number of concurrent calls of [reload], step by step, under
      the reload lock, with files that change and handshakes in between.
    - [Events]: what the network does to a connection, and the visible events.
    - [Mux]: the rest of src/proxy/mux.rs: picking a tunnel, registering one,
      opening streams and the inbound side of a tunnel, as programs;
      [TunnelDriver]: the client driver ([drive_client]) and the callers of
      [open_stream] it serves, as one machine.
    - [Listener]: what src/proxy/tcp.rs and src/proxy/outbound.rs share:
      admission, upstream resolution, accept loops, graceful shutdown.
    - [Inbound], [Outbound]: the rest of these two files; [handle_connection]
      is the whole handler of one connection, as a program.
    - [Dns]: src/discovery/dns.rs, [resolve] as a function of one caller and as
      the atomic actions of concurrent callers.

    The whole.
    - [System]: both proxies as one process: the acceptors and every task they
      spawn, interleaved; what holds in every reachable state.
    - [Resolution]: the process over the DNS discovery, itself over a resolver
      ([resolves], which address lists it has for a name): where connections go.
    - [ConfigLoad]: src/common/config.rs.
    - [Admin]: src/admin/mod.rs; the trait [ReloadHandler] is a class.
      [AdminTasks]: concurrent requests, each a task of its own, over the shared
      reloader of [Rotation].
    - [Daemon]: src/main.rs, the start-up, the wiring of all parts, the running
      daemon across reloads, and shutdown.
    - [Mesh]: two daemons and one session between them.
    - [Bootstrap], [Services]: examples/ca_bootstrap.rs, and
      examples/backend.rs, frontend.rs and bench_server.rs.
    - [Conformance]: the crate's unit tests, replayed on the model;
      [Scenarios]: the integration tests under tests/, with a small TLS library
      and certificate generator ([Lab]) in place of the real ones.

    ** Conventions

    A Rust [str] or byte slice is the list of its bytes.  [eval A] is a
    computation that may panic, [None] being the panic; [result] is Rust's
    [Result].  A Rust string is valid UTF-8: theorems that need it say so with
    [utf8].  What the outside does during an operation (the network, the TLS
    library, the file system, the clock) is an argument of the operation, and the
    theorems quantify over it.  Code that is not the crate's (rustls,
    x509-parser, rcgen, serde, base64, PEM decoding, yamux, hickory) is a
    parameter; what is relied on is a named hypothesis: [parser_utf8] (names of a
    parsed certificate are Rust strings), [connected_session] and
    [served_session] (a session is completed only when the configured verifier
    accepts the peer's chain), [ia5_spec],
    [names_read_back] (a signed certificate that was asked for with some names is
    read with these names), [libraries_agree] (the certificates the authority
    asks for are ones the TLS library and the PEM decoder read, among them leaves
    that have names, are no CA ([end_entity]) and allow server authentication),
    [backed_by_dns] (what discovery answers a connection, a call of [resolve] over
    that resolver has returned), and [mesh_session] (each end of a session is
    handed the chain the other was configured with, and both the protocol selected
    from their offers).

    Concurrency is interleaving of atomic calls: one metric operation, one read
    or update of a counter, a map operation, a lock operation.  Between any two
    calls of a task all other tasks can act: between the metric operations of one
    recording function, and between the reads of the loads when a tunnel is
    picked (the list of a peer's tunnels is read once, under the lock of its map
    entry; the counters change meanwhile).  A future that is dropped at an
    await is a step of its own where the code can drop one: a caller of [reload]
    ([DropCaller]), of [open_stream] ([GiveUp]) and of [resolve]
    ([cancel_call]).  The connection tasks are detached and never aborted.  The
    loops of acceptors and of tunnels run over the input that has come so far, of
    any length, and then wait ([Idle]): an acceptor ends only on the shutdown
    signal, the handler of a tunnel only when the tunnel closes, so nothing is
    concluded from input running out.  Weak-memory effects are left out.

    ** What is shown

    - Authorization: in every reachable state of the process an inbound peer
      causes a write, a relay or a tunnel only with a completed handshake, an
      identity read from its certificate, and an Allow of the policy
      ([inbound_authorized]); outbound data goes only to authenticated, allowed
      peers at the address the upstream resolved to, whatever other tasks do to
      the pool ([outbound_authorized]); a connection leads where its upstream
      says, a host name being what the resolver answered for it
      ([connections_lead_to_upstream]).  In
      the running daemon, across reloads, these peers have certificates that
      chain, in the session of that very connection, to roots the daemon has
      loaded ([inbound_peers_trusted], [outbound_peers_trusted]), and the two ends
      of a session between daemons take it for the same: the same identities, both
      policies, one protocol, on raw connections and on tunnels
      ([mesh_connection]).  The policy is first-match over one list
      ([engine_first_match]), the compiled glob is the textbook glob
      ([segment_glob_correct]), the start-up policy allows the workload's own
      identity and nothing else ([startup_policy_exact]).
    - Identity: the URI parser accepts exactly the grammar ([from_uri_exact]) and
      inverts printing ([uri_print_parse]); the certificate verifier is exact
      ([server_verified_exact]), the identity cache transparent, an issued
      leaf presents its identity, and bootstrapped credentials load
      ([bootstrap_loads]).
    - Shared state under every interleaving: no task panics
      ([tasks_never_panic]); permits are conserved and the active counters exact
      ([admission_conserved]), no counter wraps ([counters_never_wrap]), the
      limit of 16 tunnels per peer holds and one tunnel is enough for as many
      connections as it takes ([tunnels_bounded]), an undisturbed connection is
      carried by a pooled tunnel with room ([pooled_tunnel_reused]), the live
      counters are exact ([live_counter_exact]), every connection is accounted
      once ([process_accounted]).  No task deadlocks ([lock_holder_acts]), and once
      all have ended or are acceptors at rest, everything has been given back
      ([quiescent_clean]).  The DNS cache and its waiters: [calls_return],
      [returned_endpoints_answered], [resolve_alone].  The opens of a tunnel are
      served in order, none lost ([opens_kept]), and none hangs while the
      multiplexer makes progress, also when the runtime's budget cuts a poll short
      ([opens_return]).
    - Operation: a reload keeps or improves the credentials
      ([reload_keeps_good]) and is atomic ([reload_atomic]); concurrent reloads
      behave as reloads in one order, in which files are never read older than
      before ([rotation_linearizable]), one that has
      reported success is not undone ([reload_takes_effect]), so an operator who
      was told that a reload is complete sees it in every later handshake
      ([reload_request_observed]), and no request hangs
      ([reload_requests_answered]); an upstream target survives printing
      ([upstream_print_parse]); shutdown stops the proxies and ends ([run_stops],
      [shutdown_stops_proxies]), start-up does not panic, the admin server
      dispatches exactly, the benchmark server echoes ([bench_echoes]).
    - Where the code falls short of what it says: [inbound_dials_itself],
      [hostname_upstream_unreachable], [concurrent_lookups_possible],
      [unchecked_trust_domain_panics], [unchecked_limit_panics],
      [wildcard_identity_widens], [portless_host_dials_zero],
      [bench_panics_exactly], [frontend_passes_unechoed],
      [star_trust_domain_literal], [signed_port_is_a_host].

    ** Bounds

    [route] makes 4 attempts, a pool holds 16 tunnels per peer and a tunnel 200
    streams before it counts as full, as in the source.  A semaphore holds at
    most 2^61 - 1 permits ([MAX_PERMITS]); the results on running processes are
    for limits within it, and for as long as at most 2^64 tunnel ids have been
    given out ([reachable]).  The counters of the registry wrap at 2^64; the active
    gauge is an f64, exact up to 2^53, and what is said of it is for processes that
    have spawned at most 2^53 tasks ([few_tasks]).  A call of [resolve] takes at most 7 actions, and so
    does a call of [reload]; the queue of open requests of a tunnel holds 256,
    as in the source. The graceful wait polls every 100 ms for 30 s, so 301
    observations are enough for it to have returned. Fuel occurs in number
    printing, trimming and lossy decoding, and is the length of the input or the
    bit length of the number; [parse_show_uint], [trim_start_done],
    [trim_end_done] and [lossy_fuel_enough] show that it is enough. [drive] runs
    a machine for a given number of steps in examples only.

    ** What is not modelled

    Logging and what the Prometheus exporter serves (I/O of libraries); the bytes
    a relay copies and how a half-close passes through it (the copy is one call of
    the runtime, whose result the model takes as given); handshakes, session
    resumption and signature checks inside the TLS library, and framing inside the
    multiplexer; module glue; benchmarks.  Of the integration tests, what they
    assert of relayed bytes and of elapsed time is left out, for the same reason. *)

From stdpp Require Export base list gmap strings.
From Stdlib Require Export Ascii.

(** ** Bytes, strings and panics

    A Rust [str] or [&[u8]] is the list of its bytes. *)

Abbreviation byte := Ascii.ascii (only parsing).
Abbreviation str := (list Ascii.ascii) (only parsing).

(** A byte-string literal of the source. *)
Definition bs (s : String.string) : str := String.list_ascii_of_string s.

(** The value of a byte as a number below 256. *)
Definition code (b : byte) : N := N_of_ascii b.

(** [eval A] is a computation that may panic: [None] is a Rust panic (an
    out-of-range or mid-character slice, a failed [unwrap] or [expect]); the
    release profile of the crate aborts the process on it. *)
Abbreviation eval := option (only parsing).

(** Rust's [Result]. *)
Inductive result (A E : Type) : Type :=
| Ok (a : A)
| Err (e : E).
Arguments Ok {A E} a.
Arguments Err {A E} e.

#[global] Instance result_eq_dec {A E} `{EqDecision A, EqDecision E} :
  EqDecision (result A E).
Proof. solve_decision. Defined.

Definition is_ok {A E} (r : result A E) : bool :=
  match r with Ok _ => true | Err _ => false end.

(** [Result::ok]. *)
Definition ok {A E} (r : result A E) : option A :=
  match r with Ok a => Some a | Err _ => None end.

(** [Option::ok_or_else]. *)
Definition ok_or {A E} (o : option A) (e : E) : result A E :=
  match o with Some a => Ok a | None => Err e end.

(** [Result::map_err]. *)
Definition map_err {A E F} (f : E -> F) (r : result A E) : result A F :=
  match r with Ok a => Ok a | Err e => Err (f e) end.

Declare Scope rust_scope.
Delimit Scope rust_scope with rust.
Open Scope rust_scope.

(** The [?] operator on a [Result]. *)
Definition rbind {A B E} (r : result A E) (k : A -> result B E) : result B E :=
  match r with Ok a => k a | Err e => Err e end.

Notation "x <-? r ;; k" := (rbind r (fun x => k))
  (at level 100, r at next level, right associativity) : rust_scope.
(** The [?] operator in a function that may panic as well. *)
Definition erbind {A B E} (r : eval (result A E)) (k : A -> eval (result B E)) :
  eval (result B E) :=
  match r with
  | None => None
  | Some (Ok a) => k a
  | Some (Err e) => Some (Err e)
  end.

Notation "x <-! r ;; k" := (erbind r (fun x => k))
  (at level 100, r at next level, right associativity) : rust_scope.

(** [Result::unwrap]: panics on [Err]. *)
Definition unwrap {A E} (r : result A E) : eval A := ok r.

(** One [?] of a body that has returned [Ok]. *)
Lemma erbind_ok {A B E} (r : eval (result A E)) (k : A -> eval (result B E)) b :
  erbind r k = Some (Ok b) -> exists a, r = Some (Ok a) /\ k a = Some (Ok b).
Proof. destruct r as [[a|e]|]; simpl; [eauto | done..]. Qed.

Lemma erbind_total {A B E} (r : eval (result A E)) (k : A -> eval (result B E)) :
  is_Some r -> (forall a, is_Some (k a)) -> is_Some (erbind r k).
Proof. intros [[a|e] ->] Hk; simpl; [apply Hk | by eexists]. Qed.

(** ** Proof automation of the library *)

Create HintDb rust.

(** Split the boolean tests and matches of a translated body, one at a time. *)
Ltac step_if :=
  match goal with
  | |- context [if ?b then _ else _] => destruct b eqn:?
  | H : context [if ?b then _ else _] |- _ => destruct b eqn:?
  end.
Ltac step_match :=
  match goal with
  | |- context [match ?x with _ => _ end] => destruct x eqn:?
  | H : context [match ?x with _ => _ end] |- _ => destruct x eqn:?
  end.

(** Run a bind of the panic monad whose first computation has returned. *)
Ltac run_bind := cbn [mbind option_bind fst snd negb].

(** Turn boolean facts into propositions. *)
Ltac bool_props :=
  repeat match goal with
  | H : _ && _ = true |- _ => apply andb_true_iff in H; destruct H
  | H : _ && _ = false |- _ => apply andb_false_iff in H
  | H : _ || _ = false |- _ => apply orb_false_iff in H; destruct H
  | H : _ || _ = true |- _ => apply orb_true_iff in H
  | H : negb _ = true |- _ => apply negb_true_iff in H
  | H : negb _ = false |- _ => apply negb_false_iff in H
  | H : bool_decide _ = true |- _ => apply bool_decide_eq_true_1 in H
  | H : bool_decide _ = false |- _ => apply bool_decide_eq_false_1 in H
  | H : Nat.eqb _ _ = true |- _ => apply Nat.eqb_eq in H
  | H : Nat.eqb _ _ = false |- _ => apply Nat.eqb_neq in H
  | H : Nat.leb _ _ = true |- _ => apply Nat.leb_le in H
  | H : Nat.leb _ _ = false |- _ => apply Nat.leb_gt in H
  | H : Nat.ltb _ _ = true |- _ => apply Nat.ltb_lt in H
  | H : Nat.ltb _ _ = false |- _ => apply Nat.ltb_ge in H
  | H : N.leb _ _ = true |- _ => apply N.leb_le in H
  | H : N.leb _ _ = false |- _ => apply N.leb_gt in H
  | H : N.ltb _ _ = true |- _ => apply N.ltb_lt in H
  | H : N.ltb _ _ = false |- _ => apply N.ltb_ge in H
  | H : N.eqb _ _ = true |- _ => apply N.eqb_eq in H
  | H : N.eqb _ _ = false |- _ => apply N.eqb_neq in H
  end.

(** ** Reachability for step relations *)

Section Steps.
Context {S : Type} (step : S -> S -> Prop).

(** Zero or more steps, extended at the end. *)
Inductive steps : S -> S -> Prop :=
| steps_refl s : steps s s
| steps_snoc s t u : steps s t -> step t u -> steps s u.

Lemma steps_trans s t u : steps s t -> steps t u -> steps s u.
Proof. intros H1 H2. induction H2; eauto using steps. Qed.

Lemma steps_one s t : step s t -> steps s t.
Proof. eauto using steps. Qed.

(** An inductive invariant holds in every reachable state. *)
Lemma steps_invariant (I : S -> Prop) s t :
  I s -> (forall a b, I a -> step a b -> I b) -> steps s t -> I t.
Proof. intros Hs Hp H. induction H; eauto. Qed.
End Steps.

#[export] Hint Constructors steps : rust.

(** Machines given by a function: [next l s] is the state after the action [l],
    or [None] when it is not possible in [s]. *)
Section Labelled.
Context {L S : Type} (next : L -> S -> option S).

Definition labelled (s s' : S) : Prop := exists l, next l s = Some s'.

Fixpoint run_labels (ls : list L) (s : S) : option S :=
  match ls with
  | [] => Some s
  | l :: ls => s' ← next l s; run_labels ls s'
  end.

Lemma run_labels_steps ls s s' : run_labels ls s = Some s' -> steps labelled s s'.
Proof.
  revert s. induction ls as [|l ls IH]; intros s; simpl; [intros [= ->]; constructor |].
  destruct (next l s) as [s1|] eqn:E; simpl; [|done]. intros H.
  eapply steps_trans; [apply steps_one; by exists l | by apply IH].
Qed.
End Labelled.

(** ** Generic facts on lists *)

Section Lists.
Context {A : Type}.
Implicit Types l k : list A.

Lemma length_nil_inv l : length l = 0 -> l = [].
Proof. by destruct l. Qed.

Lemma app_split_at l k1 k2 (n : nat) :
  l = k1 ++ k2 -> n = length k1 -> take n l = k1 /\ drop n l = k2.
Proof.
  intros -> ->. split; [apply take_app_length | apply drop_app_length].
Qed.

(** Two ways of cutting a list: one cut point is at or before the other. *)
Lemma app_eq_cases l1 l2 k1 k2 :
  l1 ++ l2 = k1 ++ k2 ->
  (exists m, k1 = l1 ++ m /\ l2 = m ++ k2) \/ (exists m, l1 = k1 ++ m /\ k2 = m ++ l2).
Proof.
  revert k1. induction l1 as [|x l1 IH]; intros k1 H; simpl in *.
  - left. eauto.
  - destruct k1 as [|y k1]; simpl in *; [right; eauto |].
    injection H as -> H. destruct (IH _ H) as [(m & -> & ->) | (m & -> & ->)]; eauto.
Qed.
End Lists.

Lemma sublist_NoDup {A} (l k : list A) : l `sublist_of` k -> NoDup k -> NoDup l.
Proof.
  induction 1 as [|x l k Hs IH|x l k Hs IH]; intros Hk; [done | |]; apply NoDup_cons in Hk as [Hx Hk]; [|by apply IH].
  apply NoDup_cons. split; [|by apply IH]. intros Hin. apply Hx. by eapply elem_of_sublist.
Qed.

(** ** Counting in a list that is updated by index *)

Section Counting.
Context {A : Type}.
Implicit Types (P : A -> bool) (l : list A).

Fixpoint count P l : nat :=
  match l with
  | [] => 0
  | x :: l' => (if P x then 1 else 0) + count P l'
  end.

Lemma count_app P l k : count P (l ++ k) = count P l + count P k.
Proof. induction l as [|x l IH]; simpl; [done |]. rewrite IH. lia. Qed.

(** Replacing one element moves the count by the difference of the two. *)
Lemma count_insert P l i x y :
  l !! i = Some x ->
  count P (<[i := y]> l) + (if P x then 1 else 0) = count P l + (if P y then 1 else 0).
Proof.
  revert i. induction l as [|z l IH]; intros [|i] H; simpl in *; [done | done | |].
  - injection H as ->. lia.
  - specialize (IH _ H). lia.
Qed.

Lemma count_pos P l i x : l !! i = Some x -> P x = true -> 1 <= count P l.
Proof.
  revert i. induction l as [|z l IH]; intros [|i] H HP; simpl in *; [done | done | |].
  - injection H as ->. rewrite HP. lia.
  - specialize (IH _ H HP). lia.
Qed.

(** Two positions that satisfy the predicate are counted twice. *)
Lemma count_two P l i j x y :
  l !! i = Some x -> l !! j = Some y -> P x = true -> P y = true -> i <> j -> 2 <= count P l.
Proof.
  revert i j. induction l as [|z l IH]; intros [|i] [|j] Hi Hj Hx Hy Hne; simpl in *; try done.
  - injection Hi as ->. rewrite Hx. pose proof (count_pos P l j y Hj Hy). lia.
  - injection Hj as ->. rewrite Hy. pose proof (count_pos P l i x Hi Hx). lia.
  - assert (i <> j) by congruence. specialize (IH _ _ Hi Hj Hx Hy ltac:(done)). lia.
Qed.

Lemma count_pos_inv P l : 1 <= count P l -> exists i x, l !! i = Some x /\ P x = true.
Proof.
  induction l as [|z l IH]; simpl; [lia |]. destruct (P z) eqn:E.
  - intros _. by exists 0, z.
  - intros (i & x & Hi & Hx)%IH. by exists (S i), x.
Qed.

Lemma count_zero P l : (forall i x, l !! i = Some x -> P x = false) -> count P l = 0.
Proof.
  intros H. destruct (count P l) eqn:E; [done |].
  destruct (count_pos_inv P l) as (i & x & Hi & Hx); [lia |]. rewrite (H _ _ Hi) in Hx. done.
Qed.

Lemma sum_insert (f : A -> nat) l i x y :
  l !! i = Some x -> sum_list_with f (<[i := y]> l) + f x = sum_list_with f l + f y.
Proof.
  revert i. induction l as [|z l IH]; intros [|i] H; simpl in *; try done; [simplify_eq; lia |].
  specialize (IH _ H). lia.
Qed.

Lemma count_le_length P l : count P l <= length l.
Proof. induction l as [|z l IH]; simpl; [done |]. destruct (P z); lia. Qed.

Lemma count_lt P l i x : l !! i = Some x -> P x = false -> count P l < length l.
Proof.
  revert i. induction l as [|z l IH]; intros [|i] Hi Hx; simpl in *; try done.
  - injection Hi as ->. rewrite Hx. pose proof (count_le_length P l). lia.
  - specialize (IH i Hi Hx). destruct (P z); lia.
Qed.
End Counting.
