(* ===== verification/Bytes.v ===== *)
(** * The byte and string operations of the Rust standard library

    The part of [core::str], [core::slice] and [u8] that the crate uses, as
    executable functions on byte lists.  String slices check their bounds and
    the UTF-8 character boundaries as [str] indexing does, and panic ([None])
    where it panics. *)

From S2P Require Import Prelude.

(** ** Classes of bytes ([u8::is_ascii_*]) *)

Definition is_ascii (b : byte) : bool := (code b <? 128)%N.
Definition is_ascii_uppercase (b : byte) : bool := (65 <=? code b)%N && (code b <=? 90)%N.
Definition is_ascii_digit (b : byte) : bool := (48 <=? code b)%N && (code b <=? 57)%N.
Definition is_ascii_control (b : byte) : bool := (code b <=? 31)%N || (code b =? 127)%N.
(** Space, tab, line feed, form feed and carriage return. *)
Definition is_ascii_whitespace (b : byte) : bool :=
  (code b =? 32)%N || (code b =? 9)%N || (code b =? 10)%N || (code b =? 12)%N || (code b =? 13)%N.

Definition byte_to_ascii_lowercase (b : byte) : byte :=
  if is_ascii_uppercase b then ascii_of_N (code b + 32) else b.
Definition to_ascii_lowercase (s : str) : str := map byte_to_ascii_lowercase s.

Definition eq_ignore_ascii_case (s t : str) : bool :=
  bool_decide (to_ascii_lowercase s = to_ascii_lowercase t).

(** [matches!(byte, b'x' | b'y' | ...)] *)
Definition one_of (set : String.string) (b : byte) : bool := bool_decide (b ∈ bs set).

(** ** UTF-8 structure

    The shape that every Rust [str] has: a sequence of characters, each a lead
    byte followed by the continuation bytes its lead byte announces. *)

Definition is_cont (b : byte) : bool := (128 <=? code b)%N && (code b <? 192)%N.
Definition utf8_width (b : byte) : nat :=
  if (code b <? 128)%N then 1
  else if (code b <? 192)%N then 0
  else if (code b <? 224)%N then 2
  else if (code b <? 240)%N then 3
  else if (code b <? 248)%N then 4 else 0.

Inductive utf8 : str -> Prop :=
| utf8_nil : utf8 []
| utf8_char b cs s :
    Forall (fun c => is_cont c = true) cs -> utf8_width b = S (length cs) ->
    utf8 s -> utf8 (b :: cs ++ s).

(** [str::is_char_boundary]. *)
Definition is_char_boundary (s : str) (i : nat) : bool :=
  if i =? 0 then true
  else if length s <=? i then i =? length s
  else match s !! i with Some b => negb (is_cont b) | None => false end.

(** [&s[a..b]], [&s[a..]] and [&s[..b]] on a [str]. *)
Definition str_slice (s : str) (a b : nat) : eval str :=
  if (a <=? b) && is_char_boundary s a && is_char_boundary s b
  then Some (take (b - a) (drop a s)) else None.
Definition str_from (s : str) (a : nat) : eval str := str_slice s a (length s).
Definition str_to (s : str) (b : nat) : eval str := str_slice s 0 b.

(** [&buf[..n]] on a byte slice. *)
Definition buf_to (buf : str) (n : nat) : eval str :=
  if n <=? length buf then Some (take n buf) else None.

(** ** Searching *)

Fixpoint starts_with (s p : str) {struct p} : bool :=
  match p, s with
  | [], _ => true
  | _ :: _, [] => false
  | x :: p', y :: s' => bool_decide (x = y) && starts_with s' p'
  end.

Definition ends_with (s p : str) : bool :=
  (length p <=? length s) && bool_decide (drop (length s - length p) s = p).

(** [str::find] on a string pattern: the offset of the first occurrence. *)
Fixpoint str_find (s p : str) : option nat :=
  if starts_with s p then Some 0
  else match s with [] => None | _ :: s' => S <$> str_find s' p end.

Definition str_contains (s p : str) : bool := bool_decide (is_Some (str_find s p)).

(** [iter().position(f)]. *)
Fixpoint position (f : byte -> bool) (s : str) : option nat :=
  match s with
  | [] => None
  | b :: s' => if f b then Some 0 else S <$> position f s'
  end.

(** [match_indices(c)] for a one-byte character, the offsets only. *)
Fixpoint match_indices_from (n : nat) (s : str) (c : byte) : list nat :=
  match s with
  | [] => []
  | b :: s' =>
      if bool_decide (b = c) then n :: match_indices_from (S n) s' c
      else match_indices_from (S n) s' c
  end.
Definition match_indices (s : str) (c : byte) : list nat := match_indices_from 0 s c.

Definition strip_prefix (s p : str) : option str :=
  if starts_with s p then Some (drop (length p) s) else None.
Definition strip_suffix (s p : str) : option str :=
  if ends_with s p then Some (take (length s - length p) s) else None.

(** [split(f)]: every piece between separators, empty ones included. *)
Fixpoint split (f : byte -> bool) (s : str) : list str :=
  match s with
  | [] => [[]]
  | b :: s' =>
      if f b then [] :: split f s'
      else match split f s' with
           | [] => [[b]]
           | p :: ps => (b :: p) :: ps
           end
  end.

(** [splitn(n, f)]: at most [n] pieces, the last one unsplit. *)
Fixpoint splitn (n : nat) (f : byte -> bool) (s : str) : list str :=
  match n with
  | 0 => []
  | 1 => [s]
  | S n' =>
      match position f s with
      | None => [s]
      | Some i => take i s :: splitn n' f (drop (S i) s)
      end
  end.

(** [split_once(p)] at the first occurrence and [rsplit_once(c)] at the last. *)
Definition split_once (s p : str) : option (str * str) :=
  match str_find s p with
  | Some i => Some (take i s, drop (i + length p) s)
  | None => None
  end.
Fixpoint rsplit_once (s : str) (c : byte) : option (str * str) :=
  match s with
  | [] => None
  | b :: s' =>
      match rsplit_once s' c with
      | Some (l, r) => Some (b :: l, r)
      | None => if bool_decide (b = c) then Some ([], s') else None
      end
  end.

(** ** [str::trim]: the UTF-8 encodings of the White_Space characters *)
Definition byte_str (codes : list N) : str := map ascii_of_N codes.
Definition white_space : list str :=
  map (fun c => byte_str [c]) [9; 10; 11; 12; 13; 32]%N
  ++ [byte_str [194; 133]; byte_str [194; 160]; byte_str [225; 154; 128]]%N
  ++ map (fun c => byte_str [226; 128; c]%N)
       [128; 129; 130; 131; 132; 133; 134; 135; 136; 137; 138; 168; 169; 175]%N
  ++ [byte_str [226; 129; 159]; byte_str [227; 128; 128]]%N.

Fixpoint trim_start_fuel (fuel : nat) (s : str) : str :=
  match fuel with
  | 0 => s
  | S f =>
      match List.find (starts_with s) white_space with
      | Some w => trim_start_fuel f (drop (length w) s)
      | None => s
      end
  end.
Fixpoint trim_end_fuel (fuel : nat) (s : str) : str :=
  match fuel with
  | 0 => s
  | S f =>
      match List.find (ends_with s) white_space with
      | Some w => trim_end_fuel f (take (length s - length w) s)
      | None => s
      end
  end.
(** Every removed character has at least one byte, so the length is enough
    fuel. *)
Definition trim (s : str) : str :=
  let s' := trim_start_fuel (length s) s in trim_end_fuel (length s') s'.

(** ** Numbers: [parse::<u16>()], [parse::<usize>()]

    An optional [+], then at least one digit; an overflow of the type is an
    error, found while the digits are consumed. *)
Inductive ParseIntError := Empty | InvalidDigit | PosOverflow.

Fixpoint parse_digits (max : N) (acc : N) (s : str) : result N ParseIntError :=
  match s with
  | [] => Ok acc
  | b :: s' =>
      if is_ascii_digit b then
        let acc' := (acc * 10 + (code b - 48))%N in
        if (acc' <=? max)%N then parse_digits max acc' s' else Err PosOverflow
      else Err InvalidDigit
  end.

Definition parse_uint (max : N) (s : str) : result N ParseIntError :=
  match s with
  | [] => Err Empty
  | b :: s' =>
      if bool_decide (b = "+"%char)
      then match s' with [] => Err InvalidDigit | _ => parse_digits max 0 s' end
      else parse_digits max 0 s
  end.

Definition u16_max : N := 65535.
Definition usize_max : N := 18446744073709551615.
Definition parse_u16 : str -> result N ParseIntError := parse_uint u16_max.
Definition parse_usize : str -> result N ParseIntError := parse_uint usize_max.

(** [Display] of an unsigned integer: its decimal digits. *)
Fixpoint show_uint_fuel (fuel : nat) (n : N) (acc : str) : str :=
  match fuel with
  | 0 => acc
  | S f =>
      let acc' := ascii_of_N (48 + n mod 10) :: acc in
      if (n <? 10)%N then acc' else show_uint_fuel f (n / 10) acc'
  end.
Definition show_uint (n : N) : str := show_uint_fuel (S (N.to_nat (N.log2 n))) n [].

(** ** Lemmas: trimming *)

Lemma white_space_nonnil w : In w white_space -> 1 <= length w.
Proof.
  assert (H : forallb (fun w => 1 <=? length w) white_space = true) by (vm_compute; reflexivity).
  rewrite forallb_forall in H. intros Hw. by apply Nat.leb_le, H.
Qed.

(** The fuel is enough: what is left neither starts nor ends with white space. *)
Lemma trim_start_done f s :
  length s <= f -> List.find (starts_with (trim_start_fuel f s)) white_space = None.
Proof.
  revert s. induction f as [|f IH]; intros s Hl; cbn [trim_start_fuel].
  - destruct s; [vm_compute; reflexivity | simpl in Hl; lia].
  - destruct (List.find (starts_with s) white_space) as [w|] eqn:E; [|exact E]. apply IH.
    apply find_some in E as [Hw%white_space_nonnil _]. rewrite length_drop. lia.
Qed.

Lemma trim_end_done f s :
  length s <= f -> List.find (ends_with (trim_end_fuel f s)) white_space = None.
Proof.
  revert s. induction f as [|f IH]; intros s Hl; cbn [trim_end_fuel].
  - destruct s; [vm_compute; reflexivity | simpl in Hl; lia].
  - destruct (List.find (ends_with s) white_space) as [w|] eqn:E; [|exact E]. apply IH.
    apply find_some in E as [Hw%white_space_nonnil _]. rewrite length_take. lia.
Qed.

(** ** Lemmas: searching *)

Lemma starts_with_spec s p : starts_with s p = true <-> exists r, s = p ++ r.
Proof.
  revert s. induction p as [|x p IH]; intros [|y s]; simpl.
  - split; eauto.
  - split; eauto.
  - split; [done | by intros [r ?]].
  - rewrite andb_true_iff, bool_decide_eq_true, IH. split.
    + intros [-> [r ->]]. eauto.
    + intros [r ?]; simplify_eq/=. eauto.
Qed.

Lemma starts_with_app p r : starts_with (p ++ r) p = true.
Proof. apply starts_with_spec. eauto. Qed.

Lemma ends_with_spec s p : ends_with s p = true <-> exists r, s = r ++ p.
Proof.
  unfold ends_with. rewrite andb_true_iff, Nat.leb_le, bool_decide_eq_true. split.
  - intros [_ H]. exists (take (length s - length p) s).
    rewrite <- H at 2. by rewrite take_drop.
  - intros [r ->]. rewrite length_app. split; [lia |].
    replace (length r + length p - length p) with (length r) by lia.
    apply drop_app_length.
Qed.

Lemma str_find_Some s p i :
  str_find s p = Some i ->
  exists x y, s = x ++ p ++ y /\ length x = i /\
    (forall x' y', s = x' ++ p ++ y' -> length x <= length x').
Proof.
  revert i. induction s as [|b s IH]; intros i; simpl.
  - destruct (starts_with [] p) eqn:E; [|done]. intros [= <-].
    apply starts_with_spec in E as [r ->]. exists [], r. repeat split; simpl; lia.
  - destruct (starts_with (b :: s) p) eqn:E.
    + intros [= <-]. apply starts_with_spec in E as [r ->]. exists [], r.
      repeat split; simpl; lia.
    + destruct (str_find s p) as [j|] eqn:F; simpl; [|done]. intros [= <-].
      destruct (IH j eq_refl) as (x & y & -> & Hl & Hmin).
      exists (b :: x), y. split; [done |]. split; [simpl; lia |].
      intros [|b' x'] y' H; simpl in *.
      * rewrite H, starts_with_app in E. done.
      * injection H as <- H. specialize (Hmin _ _ H). lia.
Qed.

Lemma str_find_None s p x y : str_find s p = None -> s = x ++ p ++ y -> False.
Proof.
  revert x. induction s as [|b s IH]; intros x; simpl.
  - destruct (starts_with [] p) eqn:E; [done |]. intros _ H.
    symmetry in H. apply app_eq_nil in H as [_ [-> _]%app_eq_nil]. done.
  - destruct (starts_with (b :: s) p) eqn:E; [done |].
    destruct (str_find s p) eqn:F; simpl; [done |]. intros _ H.
    destruct x as [|b' x]; simpl in *.
    + rewrite H, starts_with_app in E. done.
    + injection H as <- H. by eapply IH.
Qed.

Lemma str_find_is_Some s x p y : s = x ++ p ++ y -> is_Some (str_find s p).
Proof.
  intros H. destruct (str_find s p) eqn:E; [eauto |]. by destruct (str_find_None _ _ _ _ E H).
Qed.

Lemma str_contains_spec s p : str_contains s p = true <-> exists x y, s = x ++ p ++ y.
Proof.
  unfold str_contains. rewrite bool_decide_eq_true. split.
  - intros [i (x & y & ? & _)%str_find_Some]. eauto.
  - intros (x & y & H). by eapply str_find_is_Some.
Qed.

Lemma position_Some f s i :
  position f s = Some i ->
  exists x b y, s = x ++ b :: y /\ length x = i /\ f b = true /\ forallb (fun c => negb (f c)) x = true.
Proof.
  revert i. induction s as [|b s IH]; intros i; simpl; [done |].
  destruct (f b) eqn:Hb.
  - intros [= <-]. exists [], b, s. eauto.
  - destruct (position f s) as [j|]; simpl; [|done]. intros [= <-].
    destruct (IH j eq_refl) as (x & c & y & -> & Hl & Hc & Hx).
    exists (b :: x), c, y. simpl. rewrite Hb, Hx. auto.
Qed.

Lemma position_None f s : position f s = None <-> forallb (fun c => negb (f c)) s = true.
Proof.
  induction s as [|b s IH]; simpl; [done |].
  destruct (f b); simpl; [done |]. rewrite <- IH. by destruct (position f s).
Qed.

Lemma position_app f x b y :
  forallb (fun c => negb (f c)) x = true -> f b = true -> position f (x ++ b :: y) = Some (length x).
Proof.
  induction x as [|c x IH]; simpl; intros Hx Hb; [by rewrite Hb |].
  apply andb_true_iff in Hx as [Hc%negb_true_iff Hx]. rewrite Hc, IH; done.
Qed.

Lemma strip_prefix_Some s p r : strip_prefix s p = Some r <-> s = p ++ r.
Proof.
  unfold strip_prefix. split.
  - destruct (starts_with s p) eqn:E; [|done]. apply starts_with_spec in E as [q ->].
    intros [= <-]. by rewrite drop_app_length.
  - intros ->. by rewrite starts_with_app, drop_app_length.
Qed.

Lemma strip_suffix_Some s p r : strip_suffix s p = Some r <-> s = r ++ p.
Proof.
  unfold strip_suffix. split.
  - destruct (ends_with s p) eqn:E; [|done]. apply ends_with_spec in E as [q ->].
    intros [= <-]. by rewrite length_app, Nat.add_sub, take_app_length.
  - intros ->. rewrite (proj2 (ends_with_spec _ _)) by eauto.
    by rewrite length_app, Nat.add_sub, take_app_length.
Qed.

(** The last separator is the one before a piece without separators. *)
Lemma rsplit_once_app l c r :
  c ∉ r -> rsplit_once (l ++ c :: r) c = Some (l, r).
Proof.
  intros Hr. assert (rsplit_once r c = None) as Hn.
  { induction r as [|b r IH]; [done |]. simpl.
    apply not_elem_of_cons in Hr as [Hb Hr]. rewrite IH by done.
    by rewrite bool_decide_false by congruence. }
  induction l as [|b l IH]; simpl; [by rewrite Hn, bool_decide_true |]. by rewrite IH.
Qed.

Lemma rsplit_once_Some s c l r : rsplit_once s c = Some (l, r) -> s = l ++ c :: r /\ c ∉ r.
Proof.
  revert l r. induction s as [|b s IH]; intros l r; simpl; [done |].
  destruct (rsplit_once s c) as [[l' r']|] eqn:E.
  - intros [= <- <-]. destruct (IH _ _ eq_refl) as [-> ?]. done.
  - case_bool_decide; [|done]. intros [= <- <-]. subst. split; [done |]. clear IH.
    induction s as [|b s IH]; [apply not_elem_of_nil |]. simpl in E.
    destruct (rsplit_once s c) as [[]|]; [done |]. case_bool_decide; [done |].
    apply not_elem_of_cons. auto.
Qed.

(** ** Lemmas: decimal numbers *)

Lemma digit_byte d : (d < 10)%N ->
  is_ascii_digit (ascii_of_N (48 + d)) = true /\ code (ascii_of_N (48 + d)) = (48 + d)%N.
Proof.
  intros Hd. unfold is_ascii_digit, code. rewrite N_ascii_embedding by lia.
  split; [|done]. apply andb_true_iff. split; apply N.leb_le; lia.
Qed.

Lemma parse_show_fuel f : forall max n acc, (n < 2 ^ N.of_nat f)%N -> (n <= max)%N ->
  parse_digits max 0 (show_uint_fuel f n acc) = parse_digits max n acc.
Proof.
  induction f as [|f IH]; intros max n acc Hf Hn.
  - simpl in *. by replace n with 0%N by lia.
  - cbn [show_uint_fuel].
    assert (Hm : (n mod 10 < 10)%N) by (by apply N.mod_lt).
    destruct (digit_byte _ Hm) as [Hd Hc].
    destruct (N.ltb_spec n 10) as [Hlt|Hge].
    + cbn [parse_digits]. rewrite Hd, Hc. rewrite N.mod_small in * by done.
      replace (0 * 10 + (48 + n - 48))%N with n by lia.
      by rewrite (proj2 (N.leb_le n max)).
    + assert (Hdiv : n = (10 * (n / 10) + n mod 10)%N) by (apply N.div_mod; done).
      rewrite Nat2N.inj_succ, N.pow_succ_r' in Hf.
      rewrite IH by lia. cbn [parse_digits]. rewrite Hd, Hc.
      replace (n / 10 * 10 + (48 + n mod 10 - 48))%N with n
        by (clear -Hdiv; revert Hdiv; generalize (n / 10)%N (n mod 10)%N; intros; lia).
      by rewrite (proj2 (N.leb_le n max)).
Qed.

Lemma show_uint_fuel_digits f : forall n acc,
  Forall (fun b => is_ascii_digit b = true) acc ->
  Forall (fun b => is_ascii_digit b = true) (show_uint_fuel f n acc).
Proof.
  induction f as [|f IH]; intros n acc Ha; [done |]. cbn [show_uint_fuel].
  assert (Forall (fun b => is_ascii_digit b = true) (ascii_of_N (48 + n mod 10) :: acc))
    by (constructor; [apply digit_byte; by apply N.mod_lt | done]).
  destruct (n <? 10)%N; auto.
Qed.

Lemma show_uint_digits n : Forall (fun b => is_ascii_digit b = true) (show_uint n).
Proof. by apply show_uint_fuel_digits. Qed.

Lemma show_uint_fuel_nonnil f n acc : f <> 0 \/ acc <> [] -> show_uint_fuel f n acc <> [].
Proof.
  revert n acc. induction f as [|f IH]; intros n acc H; [by destruct H |]. cbn [show_uint_fuel].
  destruct (n <? 10)%N; [done |]. apply IH. by right.
Qed.

(** Printing and parsing an unsigned integer of a type are inverse. *)
Lemma parse_show_uint max n : (n <= max)%N -> parse_uint max (show_uint n) = Ok n.
Proof.
  intros Hn. pose proof (show_uint_digits n) as Hd.
  assert (parse_digits max 0 (show_uint n) = Ok n) as Hp.
  { unfold show_uint. rewrite parse_show_fuel; [done | | done].
    rewrite Nat2N.inj_succ, N2Nat.id. destruct (decide (n = 0%N)) as [->|]; [done |].
    apply N.log2_spec. lia. }
  unfold parse_uint. destruct (show_uint n) as [|b s] eqn:E.
  - exfalso. revert E. unfold show_uint. apply show_uint_fuel_nonnil. by left.
  - apply Forall_cons in Hd as [Hb _]. rewrite bool_decide_false; [done |]. by intros ->.
Qed.

(** A parsed number is one of its type. *)
Lemma parse_digits_bound max s : forall acc n,
  (acc <= max)%N -> parse_digits max acc s = Ok n -> (n <= max)%N.
Proof.
  induction s as [|b s IH]; intros acc n Ha; simpl; [by intros [= <-] |].
  destruct (is_ascii_digit b); [|done].
  destruct (N.leb_spec (acc * 10 + (code b - 48)) max); [|done]. eauto.
Qed.

Lemma parse_uint_bound max s n : parse_uint max s = Ok n -> (n <= max)%N.
Proof.
  unfold parse_uint. destruct s as [|b s]; [done |]. case_bool_decide.
  - destruct s; [done |]. apply parse_digits_bound. lia.
  - apply parse_digits_bound. lia.
Qed.

(** ** Lemmas: UTF-8 *)

Lemma is_cont_not_lead b : is_cont b = true -> utf8_width b = 0.
Proof.
  unfold is_cont, utf8_width. intros H. bool_props.
  destruct (N.ltb_spec (code b) 128); [lia |]. by destruct (N.ltb_spec (code b) 192); [|lia].
Qed.

Lemma is_ascii_width b : is_ascii b = true -> utf8_width b = 1.
Proof. unfold is_ascii, utf8_width. by intros ->. Qed.

Lemma utf8_cons_ascii b s : is_ascii b = true -> utf8 s -> utf8 (b :: s).
Proof. intros Hb Hs. by apply (utf8_char b []), Hs; [| rewrite is_ascii_width]. Qed.

Lemma utf8_ascii s : forallb is_ascii s = true -> utf8 s.
Proof.
  induction s as [|b s IH]; simpl; [constructor |].
  intros [? ?]%andb_true_iff. by apply utf8_cons_ascii; auto.
Qed.

Lemma utf8_app s t : utf8 s -> utf8 t -> utf8 (s ++ t).
Proof.
  induction 1 as [|b cs s Hcs Hw Hs IH]; simpl; [done |].
  intros Ht. rewrite <- app_assoc. by constructor; auto.
Qed.

Lemma utf8_cons_inv b s :
  utf8 (b :: s) ->
  exists cs r, s = cs ++ r /\ Forall (fun c => is_cont c = true) cs /\
    utf8_width b = S (length cs) /\ utf8 r.
Proof. inversion 1; subst; eauto 10. Qed.

Lemma utf8_head_not_cont b s : utf8 (b :: s) -> is_cont b = false.
Proof.
  intros (cs & r & _ & _ & Hw & _)%utf8_cons_inv.
  destruct (is_cont b) eqn:E; [|done]. apply is_cont_not_lead in E. lia.
Qed.

(** Removing a well-formed prefix leaves a well-formed string. *)
Lemma utf8_app_inv_r s t : utf8 (s ++ t) -> utf8 s -> utf8 t.
Proof.
  intros Hst Hs. induction Hs as [|b cs s Hcs Hw Hs IH]; simpl in *; [done |].
  apply utf8_cons_inv in Hst as (cs' & r & Heq & _ & Hw' & Hr). apply IH.
  rewrite <- app_assoc in Heq. rewrite Hw in Hw'. injection Hw' as Hl.
  by apply app_inj_1 in Heq as [_ ->].
Qed.

(** An occurrence of a well-formed needle splits a well-formed string at
    character boundaries: the string is self-synchronising. *)
Lemma utf8_occurrence s x p y :
  s = x ++ p ++ y -> utf8 s -> utf8 p -> p <> [] -> utf8 x /\ utf8 y.
Proof.
  intros Hs Hu Hp Hne. revert x Hs. induction Hu as [|b cs s Hcs Hw Hu IH]; intros x Hs.
  - symmetry in Hs. apply app_eq_nil in Hs as [_ [-> _]%app_eq_nil]. done.
  - destruct x as [|b' x]; simpl in Hs.
    + split; [constructor |]. apply (utf8_app_inv_r p); [|done].
      rewrite <- Hs. by constructor.
    + injection Hs as <- Hs.
      destruct (app_eq_cases _ _ _ _ Hs) as [(m & -> & Hm) | (m & -> & Hm)].
      * destruct (IH _ Hm) as [? ?]. split; [by constructor | done].
      * destruct m as [|c m].
        { rewrite app_nil_r in *. simpl in Hm. destruct (IH [] (eq_sym Hm)) as [_ ?].
          split; [|done]. rewrite <- (app_nil_r x). by constructor; [| | constructor]. }
        exfalso. destruct p as [|c' p]; [done |]. simpl in Hm. injection Hm as <- _.
        apply utf8_head_not_cont in Hp. apply Forall_app in Hcs as [_ Hc].
        apply Forall_cons in Hc as [Hc _]. congruence.
Qed.

Lemma utf8_occurrence_ascii s x b y :
  s = x ++ b :: y -> is_ascii b = true -> utf8 s -> utf8 x /\ utf8 y.
Proof.
  intros -> Hb Hu. apply (utf8_occurrence (x ++ [b] ++ y) x [b] y); auto.
  apply utf8_ascii. simpl. by rewrite Hb.
Qed.

Lemma boundary_app x y : utf8 y -> is_char_boundary (x ++ y) (length x) = true.
Proof.
  intros Hy. unfold is_char_boundary. rewrite length_app.
  destruct (Nat.eqb_spec (length x) 0); [done |].
  destruct y as [|b y]; simpl.
  - destruct (Nat.leb_spec (length x + 0) (length x)); [apply Nat.eqb_eq; lia | lia].
  - destruct (Nat.leb_spec (length x + S (length y)) (length x)); [lia |].
    rewrite lookup_app_r, Nat.sub_diag by lia. simpl.
    by rewrite (utf8_head_not_cont _ _ Hy).
Qed.

Lemma boundary_len s : is_char_boundary s (length s) = true.
Proof.
  unfold is_char_boundary. destruct (length s =? 0); [done |].
  by rewrite Nat.leb_refl, Nat.eqb_refl.
Qed.

Lemma str_slice_app x y z :
  utf8 y -> utf8 z -> str_slice (x ++ y ++ z) (length x) (length x + length y) = Some y.
Proof.
  intros Hy Hz. unfold str_slice.
  rewrite boundary_app by (by apply utf8_app).
  replace (x ++ y ++ z) with ((x ++ y) ++ z) at 1 by (by rewrite app_assoc).
  rewrite <- length_app, boundary_app by done.
  rewrite length_app. rewrite (proj2 (Nat.leb_le _ _)) by lia. simpl. f_equal.
  rewrite drop_app_length. replace (_ - _) with (length y) by lia. apply take_app_length.
Qed.

Lemma str_from_app x y : utf8 y -> str_from (x ++ y) (length x) = Some y.
Proof.
  intros Hy. unfold str_from. rewrite length_app.
  rewrite <- (app_nil_r y) at 1. apply str_slice_app; [done | constructor].
Qed.

Lemma str_to_app x y : utf8 x -> utf8 y -> str_to (x ++ y) (length x) = Some x.
Proof. intros Hx Hy. exact (str_slice_app [] x y Hx Hy). Qed.

#[export] Hint Resolve utf8_nil utf8_app utf8_ascii utf8_cons_ascii starts_with_app : rust.

(** ** Splitting on a separator class *)

Lemma split_free f s : forallb (fun c => negb (f c)) s = true -> split f s = [s].
Proof.
  induction s as [|b s IH]; simpl; [done |]. intros [Hb Hs]%andb_true_iff.
  apply negb_true_iff in Hb. rewrite Hb, IH; done.
Qed.

Lemma split_app f s b r :
  forallb (fun c => negb (f c)) s = true -> f b = true -> split f (s ++ b :: r) = s :: split f r.
Proof.
  induction s as [|c s IH]; simpl; [by intros _ -> |]. intros [Hc Hs]%andb_true_iff Hb.
  apply negb_true_iff in Hc. by rewrite Hc, IH.
Qed.

(** The pieces of a split hold no separator and rebuild the string. *)
Lemma split_free_pieces f s : Forall (fun p => forallb (fun c => negb (f c)) p = true) (split f s).
Proof.
  induction s as [|b s IH]; simpl; [by repeat constructor |].
  destruct (f b) eqn:E; [by constructor |].
  destruct (split f s) as [|p ps]; [repeat constructor; simpl; by rewrite E |].
  apply Forall_cons in IH as [? ?]. constructor; [simpl; by rewrite E | done].
Qed.

Lemma split_join c s :
  forall p ps, split (fun b => bool_decide (b = c)) s = p :: ps ->
  s = p ++ concat (map (fun q => c :: q) ps).
Proof.
  induction s as [|b s IH]; simpl; intros p ps.
  - by intros [= <- <-].
  - destruct (split _ s) as [|q qs] eqn:E; [exfalso; destruct s; simpl in E; repeat step_if; repeat step_match; done |].
    specialize (IH _ _ eq_refl). case_bool_decide as Hb; intros [= <- <-]; by subst.
Qed.

(** The words of a string: the non-empty pieces between separators. *)
Definition words (f : byte -> bool) (s : str) : list str := filter (fun part => part <> []) (split f s).

Lemma head_split f x y :
  forallb (fun c => negb (f c)) x = true ->
  head (split f (x ++ y)) = Some (x ++ default [] (head (split f y))).
Proof.
  induction x as [|b x IH]; simpl.
  - intros _. destruct y as [|c y]; simpl; [done |]. destruct (f c); simpl; [done |].
    by destruct (split f y).
  - intros [Hb Hx]%andb_true_iff. apply negb_true_iff in Hb. rewrite Hb.
    specialize (IH Hx). destruct (split f (x ++ y)); simpl in *; [done |]. by injection IH as ->.
Qed.

Lemma words_skip f sp s : forallb f sp = true -> words f (sp ++ s) = words f s.
Proof.
  unfold words. induction sp as [|b sp IH]; simpl; [done |]. intros [Hb Hs]%andb_true_iff.
  rewrite Hb. rewrite filter_cons_False by naive_solver. auto.
Qed.

Lemma words_word f m t :
  m <> [] -> forallb (fun c => negb (f c)) m = true ->
  match t with [] => True | b :: _ => f b = true end ->
  words f (m ++ t) = m :: words f t.
Proof.
  intros Hm Hf Ht. unfold words. destruct t as [|b t].
  - rewrite app_nil_r, split_free by done. simpl. rewrite filter_cons_True by done.
    rewrite filter_cons_False by naive_solver. done.
  - rewrite split_app by done. rewrite filter_cons_True by done. simpl. rewrite Ht.
    rewrite (filter_cons_False _ []) by naive_solver. done.
Qed.
