(* ===== verification/Text.v ===== *)
(** * Text processing of the Rust standard library

    What the demonstration services use beyond [Bytes]: lossy UTF-8 decoding,
    lines, white-space separated words, repeated trimming, and chunks. *)

From S2P Require Import Prelude Bytes.

(** ** UTF-8 decoding ([core::str::lossy])

    The character at the head of a non-empty byte string: whether it is valid,
    and how many bytes it has.  An ill-formed sequence ends where a continuation
    byte was expected and not found. *)

(** A byte past the end reads as zero. *)
Definition safe_get (s : str) (i : nat) : N := match s !! i with Some b => code b | None => 0%N end.
Definition in_range (lo hi n : N) : bool := (lo <=? n)%N && (n <=? hi)%N.
Definition cont_at (s : str) (i : nat) : bool := in_range 128 191 (safe_get s i).

(** The second byte of a three- or four-byte character: no overlong forms, no
    surrogates, nothing past U+10FFFF. *)
Definition second_ok (lead second : N) : bool :=
  if (lead =? 224)%N then in_range 160 191 second
  else if (lead =? 237)%N then in_range 128 159 second
  else if (lead =? 240)%N then in_range 144 191 second
  else if (lead =? 244)%N then in_range 128 143 second
  else in_range 128 191 second.

Definition decode_char (s : str) : bool * nat :=
  let lead := safe_get s 0 in
  if (lead <? 128)%N then (true, 1)
  else if in_range 194 223 lead then if cont_at s 1 then (true, 2) else (false, 1)
  else if in_range 224 239 lead then
    if negb (second_ok lead (safe_get s 1)) then (false, 1)
    else if cont_at s 2 then (true, 3) else (false, 2)
  else if in_range 240 244 lead then
    if negb (second_ok lead (safe_get s 1)) then (false, 1)
    else if negb (cont_at s 2) then (false, 2)
    else if cont_at s 3 then (true, 4) else (false, 3)
  else (false, 1).

(** U+FFFD. *)
Definition REPLACEMENT : str := byte_str [239; 191; 189]%N.

(** [String::from_utf8_lossy]: every ill-formed sequence becomes one
    replacement character.  A character has at least one byte, so the length is
    enough fuel. *)
Fixpoint lossy_fuel (fuel : nat) (s : str) : str :=
  match fuel, s with
  | S f, _ :: _ =>
      let '(valid, n) := decode_char s in
      (if valid then take n s else REPLACEMENT) ++ lossy_fuel f (drop n s)
  | _, _ => []
  end.
Definition from_utf8_lossy (s : str) : str := lossy_fuel (length s) s.

(** [str::from_utf8]: valid throughout. *)
Fixpoint valid_fuel (fuel : nat) (s : str) : bool :=
  match fuel, s with
  | S f, _ :: _ => let '(valid, n) := decode_char s in valid && valid_fuel f (drop n s)
  | _, [] => true
  | 0, _ => false
  end.
Definition from_utf8 (s : str) : result str unit :=
  if valid_fuel (length s) s then Ok s else Err tt.

(** ** Lines and words *)

Definition newline : byte := "010"%char.
Definition carriage_return : byte := "013"%char.

Fixpoint split_inclusive (c : byte) (s : str) : list str :=
  match s with
  | [] => []
  | b :: s' =>
      if bool_decide (b = c) then [b] :: split_inclusive c s'
      else match split_inclusive c s' with
           | [] => [[b]]
           | p :: ps => (b :: p) :: ps
           end
  end.

(** [str::lines]: without the line end, which is a line feed or a carriage
    return and a line feed. *)
Definition strip_line (l : str) : str :=
  match strip_suffix l [newline] with
  | None => l
  | Some l' => default l' (strip_suffix l' [carriage_return])
  end.
Definition lines (s : str) : list str := map strip_line (split_inclusive newline s).

(** [str::split_whitespace]: the non-empty pieces between White_Space
    characters; [skip] bytes of the current separator are still to be passed. *)
Definition flush (word : str) (rest : list str) : list str :=
  match word with [] => rest | _ => word :: rest end.
Fixpoint words_from (skip : nat) (word : str) (s : str) : list str :=
  match s with
  | [] => flush word []
  | b :: s' =>
      match skip with
      | S k => words_from k word s'
      | 0 =>
          match List.find (starts_with s) white_space with
          | Some w => flush word (words_from (length w - 1) [] s')
          | None => words_from 0 (word ++ [b]) s'
          end
      end
  end.
Definition split_whitespace (s : str) : list str := words_from 0 [] s.

(** [trim_end_matches(p)]: suffixes [p] removed as often as there are any. *)
Fixpoint trim_end_matches_fuel (fuel : nat) (p s : str) : str :=
  match fuel with
  | 0 => s
  | S f => match strip_suffix s p with Some s' => trim_end_matches_fuel f p s' | None => s end
  end.
Definition trim_end_matches (p s : str) : str := trim_end_matches_fuel (length s) p s.

(** [chunks(n)] for a positive [n]. *)
Fixpoint chunks_fuel {A} (fuel n : nat) (l : list A) : list (list A) :=
  match fuel, l with
  | S f, _ :: _ => take n l :: chunks_fuel f n (drop n l)
  | _, _ => []
  end.
Definition chunks {A} (n : nat) (l : list A) : list (list A) := chunks_fuel (length l) n l.

(** ** Lemmas: decoding *)

Lemma decode_char_size s : 1 <= (decode_char s).2 <= 4.
Proof. unfold decode_char. repeat case_match; simpl; lia. Qed.

Lemma cont_at_Some s i : cont_at s i = true -> exists b, s !! i = Some b /\ is_cont b = true.
Proof.
  unfold cont_at, safe_get. destruct (s !! i) as [b|]; [|done]. intros H. exists b. split; [done |].
  unfold in_range in H. bool_props. apply andb_true_iff. split; [by apply N.leb_le |].
  apply N.ltb_lt. lia.
Qed.

(** The bytes a valid character has are there. *)
Lemma cont_at_length s i : cont_at s i = true -> i < length s.
Proof. intros (b & H & _)%cont_at_Some. by apply lookup_lt_Some in H. Qed.

Lemma decode_char_ascii b s : is_ascii b = true -> decode_char (b :: s) = (true, 1).
Proof. unfold is_ascii, decode_char, safe_get. simpl. by intros ->. Qed.

Lemma lossy_fuel_enough f g s :
  length s <= f -> length s <= g -> lossy_fuel f s = lossy_fuel g s.
Proof.
  revert g s. induction f as [|f IH]; intros [|g] [|b s] Hf Hg; simpl in *; try done; [lia | lia |].
  destruct (decode_char (b :: s)) as [v n] eqn:E. f_equal.
  pose proof (decode_char_size (b :: s)) as Hn. rewrite E in Hn. simpl in Hn.
  apply IH; rewrite length_drop; simpl; lia.
Qed.

Lemma valid_fuel_enough f g s :
  length s <= f -> length s <= g -> valid_fuel f s = valid_fuel g s.
Proof.
  revert g s. induction f as [|f IH]; intros [|g] [|b s] Hf Hg; simpl in *; try done; [lia | lia |].
  destruct (decode_char (b :: s)) as [v n] eqn:E. f_equal.
  pose proof (decode_char_size (b :: s)) as Hn. rewrite E in Hn. simpl in Hn.
  apply IH; rewrite length_drop; simpl; lia.
Qed.

Lemma lossy_cons b s :
  from_utf8_lossy (b :: s) =
    (if (decode_char (b :: s)).1 then take (decode_char (b :: s)).2 (b :: s) else REPLACEMENT)
    ++ from_utf8_lossy (drop (decode_char (b :: s)).2 (b :: s)).
Proof.
  unfold from_utf8_lossy. cbn [lossy_fuel length].
  pose proof (decode_char_size (b :: s)) as Hn. destruct (decode_char (b :: s)) as [v n]. simpl in Hn |- *.
  f_equal. apply lossy_fuel_enough; rewrite length_drop; simpl; lia.
Qed.

(** Decoding changes nothing of what is valid. *)
Lemma lossy_valid s t : from_utf8 s = Ok t -> from_utf8_lossy s = s.
Proof.
  unfold from_utf8, from_utf8_lossy. destruct (valid_fuel (length s) s) eqn:E; [|done]. intros _.
  revert E. generalize (length s). intros n. revert s. induction n as [|n IH]; intros [|b s]; simpl; try done.
  destruct (decode_char (b :: s)) as [v k]. intros [-> Hv]%andb_true_iff.
  rewrite (IH _ Hv). apply take_drop.
Qed.

Lemma valid_ascii s : forallb is_ascii s = true -> from_utf8 s = Ok s.
Proof.
  intros H. unfold from_utf8. replace (valid_fuel (length s) s) with true; [done |].
  induction s as [|b s IH]; [done |]. cbn [length valid_fuel]. simpl in H. apply andb_true_iff in H as [Hb H].
  rewrite decode_char_ascii by done. cbn [drop andb]. by apply IH.
Qed.

Lemma lossy_ascii s : forallb is_ascii s = true -> from_utf8_lossy s = s.
Proof. intros H. eapply lossy_valid, valid_ascii, H. Qed.

(** A valid character is a lead byte and the continuation bytes it announces. *)
Lemma decode_char_utf8 b s :
  (decode_char (b :: s)).1 = true ->
  utf8 (take (decode_char (b :: s)).2 (b :: s)) /\ (decode_char (b :: s)).2 <= length (b :: s).
Proof.
  assert (Hcs : forall n, utf8_width b = S n -> (forall i, i < n -> cont_at (b :: s) (S i) = true) ->
    utf8 (take (S n) (b :: s)) /\ S n <= length (b :: s)).
  { intros n Hw Hc. assert (Hlen : n <= length s).
    { destruct n as [|n]; [lia |]. specialize (Hc n (Nat.lt_succ_diag_r n)).
      apply cont_at_length in Hc. simpl in Hc. lia. }
    split; [| simpl; lia]. simpl. rewrite <- (app_nil_r (take n s)). constructor; [| | constructor].
    - apply Forall_lookup. intros i c Hi. pose proof (lookup_lt_Some _ _ _ Hi) as Hl.
      rewrite length_take in Hl. destruct (cont_at_Some (b :: s) (S i)) as (c' & Hc' & Hk); [apply Hc; lia |].
      simpl in Hc'. rewrite lookup_take_lt in Hi by lia. congruence.
    - rewrite Hw, length_take. lia. }
  assert (Hsec : second_ok (code b) (safe_get (b :: s) 1) = true -> cont_at (b :: s) 1 = true).
  { unfold second_ok, cont_at, in_range. repeat case_match; intros ?; bool_props;
      apply andb_true_iff; split; apply N.leb_le; lia. }
  unfold decode_char. change (safe_get (b :: s) 0) with (code b). unfold in_range.
  repeat case_match; simpl; intros ?; try done; bool_props;
    (apply Hcs; [unfold utf8_width; repeat case_match; bool_props; lia
                | intros [|[|[|i]]] ?; try lia; auto]).
Qed.

(** The result of a lossy decoding is a Rust string. *)
Lemma lossy_utf8 s : utf8 (from_utf8_lossy s).
Proof.
  induction s as [s IH] using (induction_ltof1 _ (@length byte)). unfold ltof in IH.
  destruct s as [|b s]; [constructor |]. rewrite lossy_cons. apply utf8_app.
  - destruct (decode_char (b :: s)).1 eqn:E; [by apply decode_char_utf8 |].
    apply (utf8_char _ (byte_str [191; 189]%N) []); [| done | constructor].
    by repeat constructor.
  - apply IH. pose proof (decode_char_size (b :: s)). rewrite length_drop. simpl. lia.
Qed.

(** ** Lemmas: lines *)

Lemma split_inclusive_line c l s :
  c ∉ l -> split_inclusive c (l ++ c :: s) = (l ++ [c]) :: split_inclusive c s.
Proof.
  induction l as [|b l IH]; simpl; intros Hc; [by rewrite bool_decide_true |].
  apply not_elem_of_cons in Hc as [Hb Hc]. rewrite bool_decide_false by congruence. by rewrite IH.
Qed.

Lemma strip_suffix_app x p : strip_suffix (x ++ p) p = Some x.
Proof. by apply strip_suffix_Some. Qed.

(** A line that ends in a carriage return and a line feed. *)
Lemma lines_crlf l s :
  newline ∉ l -> lines (l ++ carriage_return :: newline :: s) = l :: lines s.
Proof.
  intros Hl. unfold lines. rewrite (cons_middle carriage_return), app_assoc.
  rewrite split_inclusive_line; simpl.
  - f_equal. unfold strip_line. by rewrite !strip_suffix_app.
  - rewrite not_elem_of_app, list_elem_of_singleton. by split.
Qed.

(** A line that ends in a line feed and not in a carriage return. *)
Lemma lines_lf l s :
  newline ∉ l -> last l <> Some carriage_return -> lines (l ++ newline :: s) = l :: lines s.
Proof.
  intros Hl Hcr. unfold lines. rewrite split_inclusive_line by done. simpl. f_equal.
  unfold strip_line. rewrite strip_suffix_app.
  destruct (strip_suffix l _) as [r|] eqn:E; [|done]. apply strip_suffix_Some in E as ->.
  by rewrite last_snoc in Hcr.
Qed.

(** ** Lemmas: words *)

(** Printable ASCII other than the space. *)
Definition is_graphic (b : byte) : bool := in_range 33 126 (code b).
Definition token (s : str) : Prop := forallb is_graphic s = true.

Lemma token_ascii s : token s -> forallb is_ascii s = true.
Proof.
  intros H. apply forallb_forall. intros b Hb. unfold token in H. rewrite forallb_forall in H.
  specialize (H b Hb). unfold is_graphic, in_range in H. bool_props. apply N.ltb_lt. lia.
Qed.

(** A token contains none of the bytes that end lines. *)
Lemma token_no_break t : token t -> carriage_return ∉ t /\ newline ∉ t.
Proof.
  unfold token. rewrite forallb_forall. intros H. split; intros Hn%list_elem_of_In%H; done.
Qed.

Lemma white_space_heads w :
  w ∈ white_space -> exists c w', w = c :: w' /\ is_graphic c = false /\ is_graphic (List.last w c) = false.
Proof.
  intros H%list_elem_of_In. assert (Hall : forallb (fun w => match w with
    | c :: _ => negb (is_graphic c) && negb (is_graphic (List.last w c))
    | [] => false end) white_space = true) by reflexivity.
  rewrite forallb_forall in Hall. specialize (Hall _ H). destruct w as [|c w']; [done |].
  bool_props. eauto.
Qed.

Lemma find_none {A} (f : A -> bool) l : (forall x, x ∈ l -> f x = false) -> List.find f l = None.
Proof.
  induction l as [|x l IH]; simpl; intros H; [done |].
  rewrite (H x) by left. apply IH. intros y Hy. apply H. by right.
Qed.

Lemma graphic_not_space b s :
  is_graphic b = true -> List.find (starts_with (b :: s)) white_space = None.
Proof.
  intros Hb. apply find_none. intros w (c & w' & -> & Hc & _)%white_space_heads. simpl.
  rewrite bool_decide_false; [done |]. intros ->. congruence.
Qed.

Lemma graphic_no_space_end s b :
  is_graphic b = true -> List.find (ends_with (s ++ [b])) white_space = None.
Proof.
  intros Hb. apply find_none. intros w Hw.
  destruct (ends_with (s ++ [b]) w) eqn:E; [exfalso | done]. apply ends_with_spec in E as [r Hr].
  destruct (white_space_heads w Hw) as (c & w' & -> & _ & Hl).
  destruct (exists_last (l := c :: w')) as (i & d & Hi); [done |]. rewrite Hi in *.
  rewrite app_assoc in Hr. apply app_inj_tail in Hr as [_ <-]. rewrite last_last in Hl. congruence.
Qed.

Lemma words_from_token word t s :
  token t -> words_from 0 word (t ++ s) = words_from 0 (word ++ t) s.
Proof.
  revert word. induction t as [|b t IH]; intros word Ht; [by rewrite app_nil_r |].
  apply andb_true_iff in Ht as [Hb Ht]. cbn [app words_from].
  rewrite graphic_not_space by done. rewrite IH by done. by rewrite <- app_assoc.
Qed.

Lemma split_whitespace_token t s :
  token t -> t <> [] -> split_whitespace (t ++ " "%char :: s) = t :: split_whitespace s.
Proof.
  intros Ht Hne. unfold split_whitespace. rewrite words_from_token by done. simpl. by destruct t.
Qed.

Lemma split_whitespace_last t : token t -> t <> [] -> split_whitespace t = [t].
Proof.
  intros Ht Hne. rewrite <- (app_nil_r t) at 1. unfold split_whitespace.
  rewrite words_from_token by done. simpl. by destruct t.
Qed.

(** ** Lemmas: trimming *)

Lemma trim_start_token f b s : is_graphic b = true -> trim_start_fuel f (b :: s) = b :: s.
Proof. intros Hb. destruct f; cbn [trim_start_fuel]; [done |]. by rewrite graphic_not_space. Qed.

Lemma trim_end_token f t : token t -> trim_end_fuel f t = t.
Proof.
  intros Ht. destruct f as [|f]; cbn [trim_end_fuel]; [done |].
  destruct t as [|b t _] using rev_ind; [done |]. unfold token in Ht. rewrite forallb_app in Ht.
  apply andb_true_iff in Ht as [_ Hb]. simpl in Hb. rewrite andb_true_r in Hb.
  by rewrite graphic_no_space_end.
Qed.

Lemma trim_space t : token t -> t <> [] -> trim (" "%char :: t) = t.
Proof.
  intros Ht Hne. destruct t as [|b t]; [done |]. unfold trim.
  assert (Hb : is_graphic b = true) by by apply andb_true_iff in Ht as [? ?].
  change (trim_start_fuel _ _) with (trim_start_fuel (length (b :: t)) (b :: t)).
  rewrite trim_start_token by done. by apply trim_end_token.
Qed.

Lemma digits_token s : Forall (fun b => is_ascii_digit b = true) s -> token s.
Proof.
  intros H. apply forallb_forall. intros b Hb%list_elem_of_In. rewrite Forall_forall in H.
  specialize (H _ Hb). unfold is_ascii_digit in H. unfold is_graphic, in_range. bool_props.
  apply andb_true_iff. split; apply N.leb_le; lia.
Qed.

(** ** Lemmas: chunks *)

Lemma chunks_concat {A} n (l : list A) : 0 < n -> concat (chunks n l) = l.
Proof.
  intros Hn. unfold chunks. assert (H : length l <= length l) by done. revert H.
  generalize (length l) at 2 3. intros f. revert l. induction f as [|f IH]; intros [|x l] H; simpl in *;
    try done; [lia |].
  destruct n as [|n]; [lia |]. simpl. f_equal. rewrite IH by (rewrite length_drop; lia). apply take_drop.
Qed.

Lemma chunks_size {A} n (l : list A) c : 0 < n -> c ∈ chunks n l -> c <> [] /\ length c <= n.
Proof.
  intros Hn. unfold chunks. generalize (length l) at 1. intros f. revert l.
  induction f as [|f IH]; intros [|x l]; simpl; try by intros ?%elem_of_nil.
  destruct n as [|n]; [lia |]. intros [->|H]%elem_of_cons; [| by apply (IH (drop n l))].
  simpl. rewrite length_take. split; [done | lia].
Qed.
