(* ===== verification/Common.v ===== *)
(** * Errors and constants of the crate ([src/common/error.rs],
    [src/common/constants.rs]) *)

From S2P Require Import Prelude Bytes.

(** [std::io::ErrorKind], the kinds the crate constructs or passes on. *)
Inductive ErrorKind :=
| NotFound | PermissionDenied | ConnectionReset | BrokenPipe | InvalidData | OtherKind.

(** [std::io::Error]: a kind and a message. *)
Record IoError := { io_kind : ErrorKind; io_msg : str }.

(** [rustls::Error]: the crate builds [General]; the other variants come from
    inside the TLS library and are carried by their display text. *)
Inductive TlsError :=
| General (msg : str)
| Rustls (display : str).

Inductive InterlinkError :=
| Tls (e : TlsError)
| Io (e : IoError)
| Protocol (msg : str)
| Identity (msg : str)
| PolicyViolation (msg : str)
| DnsResolution (msg : str)
| Config (msg : str).

#[global] Instance ErrorKind_eq_dec : EqDecision ErrorKind.
Proof. solve_decision. Defined.
#[global] Instance IoError_eq_dec : EqDecision IoError.
Proof. solve_decision. Defined.
#[global] Instance TlsError_eq_dec : EqDecision TlsError.
Proof. solve_decision. Defined.
#[global] Instance InterlinkError_eq_dec : EqDecision InterlinkError.
Proof. solve_decision. Defined.

(** ** Default ports, timeouts (milliseconds), certificate lifetimes (seconds)
    and buffer sizes *)
Module ports.
Definition INBOUND_PROXY : N := 4143.
Definition OUTBOUND_PROXY : N := 4140.
Definition METRICS : N := 4190.
Definition IDENTITY_GRPC : N := 4191.
Definition ADMIN : N := 4192.
End ports.

Module timeouts.
Definition TLS_HANDSHAKE : N := 10 * 1000.
Definition TCP_IDLE : N := 300 * 1000.
Definition DNS_RESOLVE : N := 5 * 1000.
Definition SHUTDOWN_GRACE : N := 30 * 1000.
End timeouts.

Module cert.
Definition LEAF_TTL : Z := 86400.
Definition ROOT_CA_TTL : Z := 365 * 86400.
Definition CLOCK_SKEW_TOLERANCE : Z := 3600.
End cert.

Module buffers.
Definition PROTOCOL_DETECT : nat := 32.
Definition SOCKET_READ : N := 16384.
Definition MAX_FRAME_SIZE : N := 16777215.
End buffers.

(** [Display] of [InterlinkError] (the [#[error(...)]] attributes). *)
Definition show_tls_error (e : TlsError) : str :=
  match e with
  | General msg => bs "unexpected error: " ++ msg
  | Rustls display => display
  end.

Definition show_error (e : InterlinkError) : str :=
  match e with
  | Tls e => bs "TLS error: " ++ show_tls_error e
  | Io e => bs "I/O error: " ++ io_msg e
  | Protocol m => bs "Protocol error: " ++ m
  | Identity m => bs "Identity error: " ++ m
  | PolicyViolation m => bs "Policy violation: " ++ m
  | DnsResolution m => bs "DNS resolution failed: " ++ m
  | Config m => bs "Configuration error: " ++ m
  end.
