(* ===== verification/Glob.v ===== *)
(** * Compiled segment globs ([SegmentGlob], src/common/identity.rs)

    A pattern segment with [*] wildcards is compiled once to byte offsets into
    itself.  The compiled matcher is shown equal to the textbook glob
    semantics, without panics, on every UTF-8 pattern and value. *)

From S2P Require Import Prelude Bytes.

Definition star : byte := "*"%char.

(** ** The compiled form *)

Inductive SegmentGlobKind :=
| Any
| Exact
| Prefix (end_ : nat)
| Suffix (start : nat)
| Contains (start end_ : nat)
| PrefixSuffix (prefix_end suffix_start : nat)
| Multi (parts : list (nat * nat)) (anchored_start anchored_end : bool).

Record SegmentGlob := MkSegmentGlob { pattern : str; kind : SegmentGlobKind }.

#[global] Instance SegmentGlobKind_eq_dec : EqDecision SegmentGlobKind.
Proof. solve_decision. Defined.
#[global] Instance SegmentGlob_eq_dec : EqDecision SegmentGlob.
Proof. solve_decision. Defined.

Module SegmentGlob.

(** One turn of the loop over the wildcard positions: push the literal that
    ends at [index] unless it is empty. *)
Definition parts_step (st : list (nat * nat) * nat) (index : nat) : list (nat * nat) * nat :=
  let '(parts, start) := st in
  ((if start =? index then parts else parts ++ [(start, index)]), index + 1).

Definition new_parts (pattern : str) : list (nat * nat) :=
  let '(parts, start) := foldl parts_step ([], 0) (match_indices pattern star) in
  if start =? length pattern then parts else parts ++ [(start, length pattern)].

(** The [match parts.as_slice()] that picks the compiled shape. *)
Definition choose_kind (parts : list (nat * nat)) (anchored_start anchored_end : bool) :
    SegmentGlobKind :=
  match parts with
  | [] => Any
  | [(start, end_)] =>
      if anchored_start then Prefix end_
      else if anchored_end then Suffix start
      else Contains start end_
  | [(_, prefix_end); (suffix_start, _)] =>
      if anchored_start && anchored_end then PrefixSuffix prefix_end suffix_start
      else Multi parts anchored_start anchored_end
  | _ => Multi parts anchored_start anchored_end
  end.

Definition new (pattern : str) : SegmentGlob :=
  let wildcard_count := length (filter (fun b => b = star) pattern) in
  if wildcard_count =? 0 then MkSegmentGlob pattern Exact
  else
    let parts := new_parts pattern in
    let anchored_start := negb (starts_with pattern [star]) in
    let anchored_end := negb (ends_with pattern [star]) in
    MkSegmentGlob pattern (choose_kind parts anchored_start anchored_end).

(** The loop over the inner literals of [matches_multi]. *)
Fixpoint multi_loop (pattern value : str) (parts : list (nat * nat))
    (search_start search_end : nat) : eval bool :=
  match parts with
  | [] => Some true
  | (start, end_) :: rest =>
      literal ← str_slice pattern start end_;
      hay ← str_slice value search_start search_end;
      match str_find hay literal with
      | None => Some false
      | Some offset =>
          multi_loop pattern value rest (search_start + (offset + length literal)) search_end
      end
  end.

(** [matches_multi]; the inner [None] of the two anchor blocks is the early
    [return false]. *)
Definition matches_multi (pattern value : str) (parts : list (nat * nat))
    (anchored_start anchored_end : bool) : eval bool :=
  a ← (if anchored_start then
         '(start, end_) ← parts !! 0;
         prefix ← str_slice pattern start end_;
         Some (if starts_with value prefix then Some (length prefix, 1) else None)
       else Some (Some (0, 0)));
  match a with
  | None => Some false
  | Some (search_start, first) =>
      z ← (if anchored_end then
             '(start, end_) ← parts !! (length parts - 1);
             suffix ← str_slice pattern start end_;
             Some (if ends_with value suffix
                   then Some (length value - length suffix, length parts - 1) else None)
           else Some (Some (length value, length parts)));
      match z with
      | None => Some false
      | Some (search_end, last) =>
          if search_end <? search_start then Some false
          else
            if (first <=? last) && (last <=? length parts)
            then multi_loop pattern value (take (last - first) (drop first parts))
                   search_start search_end
            else None
      end
  end.

Definition matches (self : SegmentGlob) (value : str) : eval bool :=
  match kind self with
  | Any => Some true
  | Exact => Some (bool_decide (value = pattern self))
  | Prefix end_ =>
      prefix ← str_to (pattern self) end_;
      Some (starts_with value prefix)
  | Suffix start =>
      suffix ← str_from (pattern self) start;
      Some (ends_with value suffix)
  | Contains start end_ =>
      literal ← str_slice (pattern self) start end_;
      Some (str_contains value literal)
  | PrefixSuffix prefix_end suffix_start =>
      prefix ← str_to (pattern self) prefix_end;
      suffix ← str_from (pattern self) suffix_start;
      Some ((length prefix + length suffix <=? length value)
            && starts_with value prefix && ends_with value suffix)
  | Multi parts anchored_start anchored_end =>
      matches_multi (pattern self) value parts anchored_start anchored_end
  end.

End SegmentGlob.

(** ** Reference semantics: [*] stands for any sequence of bytes *)

Fixpoint glob (p : str) : str -> bool :=
  match p with
  | [] => fun v => bool_decide (v = [])
  | c :: p' =>
      if bool_decide (c = star) then
        fix skip (v : str) : bool :=
          glob p' v || match v with [] => false | _ :: v' => skip v' end
      else fun v =>
        match v with [] => false | d :: v' => bool_decide (c = d) && glob p' v' end
  end.

Definition star_free (s : str) : Prop := Forall (fun b => b <> star) s.

Lemma glob_star p v : glob (star :: p) v = true <-> exists x y, v = x ++ y /\ glob p y = true.
Proof.
  simpl. induction v as [|d v IH].
  - rewrite orb_false_r. split; [intros; exists [], []; auto |].
    intros (x & y & H & ?). by symmetry in H; apply app_eq_nil in H as [-> ->].
  - rewrite orb_true_iff, IH. split.
    + intros [H | (x & y & -> & H)]; [exists [], (d :: v); auto | exists (d :: x), y; auto].
    + intros ([|d' x] & y & H & Hg); simplify_eq/=; [by left | right; eauto].
Qed.

Lemma glob_char c p v :
  c <> star -> glob (c :: p) v = true <-> exists v', v = c :: v' /\ glob p v' = true.
Proof.
  intros Hc. simpl. rewrite bool_decide_false by done. destruct v as [|d v].
  - split; [done | by intros (? & ? & ?)].
  - rewrite andb_true_iff, bool_decide_eq_true. split.
    + intros [-> ?]. eauto.
    + intros (v' & ? & ?); by simplify_eq.
Qed.

(** Literal text of a star-free prefix is consumed exactly. *)
Lemma glob_lit l p v :
  star_free l -> glob (l ++ p) v = true <-> exists v', v = l ++ v' /\ glob p v' = true.
Proof.
  intros Hl. revert v. induction Hl as [|c l Hc Hl IH]; intros v.
  - split; [eauto |]. by intros (? & -> & ?).
  - simpl app. rewrite glob_char by done. setoid_rewrite IH. split.
    + intros (v' & -> & v'' & -> & ?). eauto.
    + intros (v'' & -> & ?). eauto 10.
Qed.

(** ** Segments: the pieces of a pattern between its wildcards *)

Definition is_star (b : byte) : bool := bool_decide (b = star).
Definition segs (p : str) : list str := split is_star p.
Definition nonempty (s : str) : Prop := s <> [].
#[global] Instance nonempty_dec s : Decision (nonempty s).
Proof. unfold nonempty. solve_decision. Defined.

(** [floats ls w]: the literals occur in [w] in order, without overlap. *)
Fixpoint floats (ls : list str) (w : str) : Prop :=
  match ls with
  | [] => True
  | l :: ls' => exists x y, w = x ++ l ++ y /\ floats ls' y
  end.

(** [tails ls r]: as [floats], the last literal ending [r]. *)
Fixpoint tails (ls : list str) (r : str) : Prop :=
  match ls with
  | [] => r = []
  | l :: ls' => exists x y, r = x ++ l ++ y /\ tails ls' y
  end.

Lemma segs_nonnil p : segs p <> [].
Proof.
  unfold segs. destruct p as [|b p]; simpl; [done |].
  destruct (is_star b); [done |]. by destruct (split is_star p).
Qed.

Lemma segs_star_free p : Forall star_free (segs p).
Proof.
  unfold segs. induction p as [|b p IH]; simpl; [by repeat constructor |].
  unfold is_star at 1. case_bool_decide as Hb.
  - constructor; [constructor | done].
  - destruct (split is_star p) as [|s ss]; [by repeat constructor |].
    apply Forall_cons in IH as [? ?]. constructor; [by constructor | done].
Qed.

Lemma glob_segs p v :
  glob p v = true <->
  match segs p with
  | [] => False
  | s :: ss => exists r, v = s ++ r /\ tails ss r
  end.
Proof.
  unfold segs. revert v. induction p as [|b p IH]; intros v.
  - simpl. rewrite bool_decide_eq_true. split; [intros ->; by exists [] |].
    by intros (r & -> & ->).
  - simpl split. unfold is_star at 1. case_bool_decide as Hb.
    + subst b. rewrite glob_star.
      pose proof (segs_nonnil p) as Hn. unfold segs in Hn.
      destruct (split is_star p) as [|s ss] eqn:E; [done |].
      split.
      * intros (x & y & -> & Hg). apply IH in Hg as (r & -> & Ht).
        exists (x ++ s ++ r). split; [done |]. simpl. eauto.
      * intros (r & -> & (x & y & -> & Ht)). exists x, (s ++ y).
        split; [done |]. apply IH. eauto.
    + rewrite glob_char by done. setoid_rewrite IH.
      pose proof (segs_nonnil p) as Hn. unfold segs in Hn.
      destruct (split is_star p) as [|s ss] eqn:E; [done |].
      split.
      * intros (v' & -> & r & -> & ?). eauto.
      * intros (r & -> & ?). simpl. eauto 10.
Qed.

Lemma floats_app_l ls x w : floats ls w -> floats ls (x ++ w).
Proof.
  destruct ls as [|l ls]; [done |]. intros (y & z & -> & ?).
  exists (x ++ y), z. by rewrite <- app_assoc.
Qed.

Lemma tails_snoc ls s r :
  tails (ls ++ [s]) r <-> exists w, r = w ++ s /\ floats ls w.
Proof.
  revert r. induction ls as [|l ls IH]; intros r; simpl.
  - split.
    + intros (x & y & -> & ->). exists x. by rewrite app_nil_r.
    + intros (w & -> & _). exists w, []. by rewrite app_nil_r.
  - setoid_rewrite IH. split.
    + intros (x & y & -> & w & -> & ?). exists (x ++ l ++ w). split; [by rewrite <- !app_assoc | eauto].
    + intros (w & -> & x & y & -> & ?). exists x, (y ++ s). split; [by rewrite <- !app_assoc | eauto].
Qed.

(** Empty literals place no constraint. *)
Lemma floats_filter ls w : floats ls w <-> floats (filter nonempty ls) w.
Proof.
  revert w. induction ls as [|l ls IH]; intros w; [done |].
  rewrite filter_cons. case_decide as Hl; simpl.
  - by setoid_rewrite IH.
  - assert (l = []) as -> by (by destruct l; [| exfalso; apply Hl]). simpl. split.
    + intros (x & y & -> & ?%IH). by apply floats_app_l.
    + intros ?%IH. exists [], w. auto.
Qed.

(** Searching each literal at its first occurrence loses no match. *)
Lemma floats_greedy l ls w :
  floats (l :: ls) w <->
  exists i, str_find w l = Some i /\ floats ls (drop (i + length l) w).
Proof.
  simpl. split.
  - intros (x & y & Hw & Hf).
    destruct (str_find_is_Some w x l y Hw) as [i Hi]. exists i. split; [done |].
    destruct (str_find_Some _ _ _ Hi) as (x' & y' & Hw' & Hl & Hmin).
    specialize (Hmin _ _ Hw). subst i.
    assert (exists d, y' = d ++ y) as [d Hd].
    { rewrite Hw in Hw'. rewrite !app_assoc in Hw'.
      destruct (app_eq_cases _ _ _ _ Hw') as [(m & Hm & ->) | (m & Hm & ->)]; [|eauto].
      apply (f_equal length) in Hm. rewrite !length_app in Hm.
      assert (m = []) as -> by (apply length_nil_inv; lia). by exists []. }
    rewrite Hw', app_assoc, <- length_app, drop_app_length, Hd. by apply floats_app_l.
  - intros (i & Hi & Hf). destruct (str_find_Some _ _ _ Hi) as (x & y & -> & <- & _).
    exists x, y. split; [done |].
    by rewrite app_assoc, <- length_app, drop_app_length in Hf.
Qed.

(** ** The offsets recorded by [new] *)

(** The parts of a list of segments laid out from offset [off], one wildcard
    between neighbours, empty segments skipped. *)
Fixpoint seg_parts (off : nat) (ss : list str) : list (nat * nat) :=
  match ss with
  | [] => []
  | s :: ss' =>
      (if bool_decide (s = []) then [] else [(off, off + length s)])
      ++ seg_parts (off + length s + 1) ss'
  end.

(** The length of a segment list once joined by wildcards. *)
Fixpoint joined (ss : list str) : str :=
  match ss with
  | [] => []
  | [s] => s
  | s :: ss' => s ++ star :: joined ss'
  end.

Lemma joined_cons s s' ss : joined (s :: s' :: ss) = s ++ star :: joined (s' :: ss).
Proof. done. Qed.

Lemma joined_segs p : joined (segs p) = p.
Proof.
  unfold segs. induction p as [|b p IH]; [done |]. simpl split.
  pose proof (segs_nonnil p) as Hn. unfold segs in Hn.
  destruct (split is_star p) as [|s ss] eqn:E; [done |].
  unfold is_star. case_bool_decide as Hb.
  - subst b. by rewrite joined_cons, <- IH.
  - destruct ss; simpl in *; by rewrite <- IH.
Qed.

(** The loop of [new] from a point where [cur] is the literal being scanned. *)
Lemma parts_loop_spec rest : forall cur parts start,
  let '(parts', start') :=
    foldl SegmentGlob.parts_step (parts, start)
      (match_indices_from (start + length cur) rest star) in
  (if start' =? start + length cur + length rest then parts'
   else parts' ++ [(start', start + length cur + length rest)])
  = parts ++ match segs rest with
             | [] => []
             | s :: ss => seg_parts start ((cur ++ s) :: ss)
             end.
Proof.
  unfold segs. induction rest as [|b rest IH]; intros cur parts start.
  - simpl. rewrite !app_nil_r, Nat.add_0_r.
    case_bool_decide as Hc.
    + subst. simpl. by rewrite Nat.add_0_r, Nat.eqb_refl, app_nil_r.
    + destruct (Nat.eqb_spec start (start + length cur)) as [He|]; [|done].
      destruct cur; simpl in *; [done | lia].
  - pose proof (segs_nonnil rest) as Hn. unfold segs in Hn.
    simpl split. simpl match_indices_from. unfold is_star at 1.
    destruct (split is_star rest) as [|s ss] eqn:E; [done |].
    case_bool_decide as Hb.
    + subst b. simpl foldl.
      specialize (IH [] (if start =? start + length cur then parts
                         else parts ++ [(start, start + length cur)])
                    (start + length cur + 1)).
      simpl in IH. rewrite Nat.add_0_r in IH.
      replace (S (start + length cur)) with (start + length cur + 1) by lia.
      destruct (foldl _ _ _) as [parts' start'].
      replace (start + length cur + length (star :: rest))
        with (start + length cur + 1 + length rest) by (simpl; lia).
      rewrite IH, app_nil_r. simpl seg_parts.
      destruct (decide (cur = [])) as [->|Hc].
      * simpl. by rewrite Nat.add_0_r, Nat.eqb_refl.
      * rewrite (bool_decide_false (cur = [])) by done.
        destruct (Nat.eqb_spec start (start + length cur)); [by destruct cur; simpl in *; [| lia] |].
        by rewrite <- app_assoc.
    + specialize (IH (cur ++ [b]) parts start). rewrite length_app in IH. simpl in IH.
      replace (S (start + length cur)) with (start + (length cur + 1)) by lia.
      destruct (foldl _ _ _) as [parts' start'].
      replace (start + length cur + length (b :: rest))
        with (start + (length cur + 1) + length rest) by (simpl; lia).
      rewrite IH. by rewrite <- app_assoc.
Qed.

Lemma new_parts_spec p : SegmentGlob.new_parts p = seg_parts 0 (segs p).
Proof.
  unfold SegmentGlob.new_parts, match_indices.
  pose proof (parts_loop_spec p [] [] 0) as H. simpl in H.
  pose proof (segs_nonnil p).
  destruct (foldl _ _ _). rewrite H. by destruct (segs p).
Qed.

(** [part_ok p (a, b) l]: the literal [l] lies at [a..b] of [p], between
    character boundaries. *)
Definition part_ok (p : str) (ab : nat * nat) (l : str) : Prop :=
  str_slice p ab.1 ab.2 = Some l /\ utf8 l /\ l <> [].

Lemma utf8_segs p : utf8 p -> Forall utf8 (segs p).
Proof.
  intros Hp. rewrite <- (joined_segs p) in Hp. remember (segs p) as ss eqn:E. clear E p.
  induction ss as [|s ss IH]; [done |].
  destruct ss as [|s' ss]; [by repeat constructor |]. rewrite joined_cons in Hp.
  apply (utf8_occurrence_ascii _ s star (joined (s' :: ss))) in Hp as [? ?]; [|done..].
  constructor; auto.
Qed.

Lemma utf8_joined ss : Forall utf8 ss -> utf8 (joined ss).
Proof.
  induction 1 as [|s ss Hs Hss IH]; [constructor |].
  destruct ss; [done |]. rewrite joined_cons. auto with rust.
Qed.

Lemma seg_parts_ok p x ss :
  p = x ++ joined ss -> Forall utf8 ss ->
  Forall2 (part_ok p) (seg_parts (length x) ss) (filter nonempty ss).
Proof.
  intros Hp Hss. revert x Hp. induction Hss as [|s ss Hs Hss IH]; intros x Hp; [constructor |].
  rewrite filter_cons. simpl.
  assert (exists z, joined (s :: ss) = s ++ z /\ utf8 z) as (z & Hz & Uz).
  { destruct ss as [|s' ss]; [exists []; rewrite app_nil_r; eauto with rust |].
    eexists. split; [apply joined_cons |].
    apply utf8_cons_ascii; [done | by apply utf8_joined]. }
  assert (Forall2 (part_ok p) (seg_parts (length x + length s + 1) ss) (filter nonempty ss)).
  { destruct ss as [|s' ss]; [constructor |].
    replace (length x + length s + 1) with (length (x ++ s ++ [star]))
      by (rewrite !length_app; simpl; lia).
    apply IH. rewrite Hp, joined_cons, <- !app_assoc. done. }
  case_bool_decide as He; case_decide as Hn; try done.
  constructor; [|done]. repeat split; [|done..].
  rewrite Hp, Hz. simpl. by apply str_slice_app.
Qed.

Lemma length_joined_snoc ss s :
  exists k, length (joined (ss ++ [s])) = k + length s /\
    forall off, seg_parts off (ss ++ [s]) =
      seg_parts off ss ++ (if bool_decide (s = []) then [] else [(off + k, off + k + length s)]).
Proof.
  induction ss as [|s' ss (k & Hk & IH)].
  - exists 0. split; [done |]. intros off. simpl. by rewrite Nat.add_0_r, app_nil_r.
  - exists (length s' + 1 + k). split.
    + replace (joined ((s' :: ss) ++ [s])) with (s' ++ star :: joined (ss ++ [s]))
        by (by destruct ss).
      rewrite length_app. simpl. lia.
    + intros off. simpl. rewrite IH, <- app_assoc.
      by replace (off + length s' + 1 + k) with (off + (length s' + 1 + k)) by lia.
Qed.

(** ** Shape of a pattern with wildcards *)

(** Such a pattern is [s0 * mids * sl]; the parts recorded by [new] are its
    non-empty literals, at their offsets. *)
Record shape (p s0 : str) (mids : list str) (sl : str) (k : nat) : Prop := {
  shape_segs : segs p = s0 :: mids ++ [sl];
  shape_len : length p = k + length sl;
  shape_parts : SegmentGlob.new_parts p =
    (if bool_decide (s0 = []) then [] else [(0, length s0)])
    ++ seg_parts (length s0 + 1) mids
    ++ (if bool_decide (sl = []) then [] else [(k, length p)]);
  shape_start : starts_with p [star] = bool_decide (s0 = []);
  shape_end : ends_with p [star] = bool_decide (sl = []);
}.

Lemma star_in_segs p : star ∈ p -> exists s0 mids sl, segs p = s0 :: mids ++ [sl].
Proof.
  intros Hin. pose proof (segs_nonnil p) as Hn. pose proof (joined_segs p) as Hj.
  pose proof (segs_star_free p) as Hf.
  destruct (segs p) as [|s0 ss]; [done |].
  destruct ss as [|sl mids _] using rev_ind; [|eauto].
  simpl in Hj. subst s0. apply Forall_cons in Hf as [Hf _].
  unfold star_free in Hf. rewrite Forall_forall in Hf. by destruct (Hf star).
Qed.

Lemma joined_snoc s ss sl : joined (s :: ss ++ [sl]) = joined (s :: ss) ++ star :: sl.
Proof.
  revert s. induction ss as [|s' ss IH]; intros s; [done |].
  simpl app. rewrite !joined_cons, <- app_assoc. simpl. f_equal. f_equal. apply IH.
Qed.

Lemma joined_cons_ne s ss : ss <> [] -> joined (s :: ss) = s ++ star :: joined ss.
Proof. by destruct ss. Qed.

Lemma new_shape p : star ∈ p -> exists s0 mids sl k, shape p s0 mids sl k.
Proof.
  intros Hin. destruct (star_in_segs p Hin) as (s0 & mids & sl & Hs).
  pose proof (joined_segs p) as Hj. rewrite Hs in Hj.
  pose proof (segs_star_free p) as Hf. rewrite Hs in Hf.
  apply Forall_cons in Hf as [Hf0 Hf]. apply Forall_app in Hf as [_ Hfl].
  rewrite Forall_singleton in Hfl. unfold star_free in Hfl.
  destruct (length_joined_snoc mids sl) as (k & Hk & Hparts).
  assert (Hl : length p = length s0 + 1 + k + length sl).
  { rewrite <- Hj, joined_cons_ne, length_app by (by destruct mids). simpl. lia. }
  exists s0, mids, sl, (length s0 + 1 + k). split; [done | done | | |].
  - rewrite new_parts_spec, Hs. simpl. rewrite Hparts, Hl. done.
  - rewrite <- Hj, joined_cons_ne by (by destruct mids).
    destruct s0 as [|c s0]; [done |]. apply Forall_cons in Hf0 as [Hc _].
    simpl. by rewrite (bool_decide_false (star = c)) by congruence.
  - rewrite <- Hj, joined_snoc.
    destruct sl as [|c sl _] using rev_ind.
    + rewrite bool_decide_true by done. apply ends_with_spec. eauto.
    + rewrite bool_decide_false by (by destruct sl).
      apply not_true_iff_false. rewrite ends_with_spec. intros [r Hr].
      rewrite app_comm_cons, app_assoc in Hr. apply app_inj_tail in Hr as [_ ->].
      apply Forall_app in Hfl as [_ Hc]. by rewrite Forall_singleton in Hc.
Qed.

(** What a pattern [s0 * mids * sl] matches. *)
Lemma glob_shape p s0 mids sl k v :
  shape p s0 mids sl k ->
  glob p v = true <-> exists w, v = s0 ++ w ++ sl /\ floats (filter nonempty mids) w.
Proof.
  intros Hsh. rewrite glob_segs, (shape_segs _ _ _ _ _ Hsh). setoid_rewrite tails_snoc. split.
  - intros (r & -> & w & -> & ?%floats_filter). eauto.
  - intros (w & -> & ?%floats_filter). eauto.
Qed.

(** ** The compiled matcher against the reference *)

Section Multi.
Context (p v : str) (Hv : utf8 v).

Lemma multi_loop_spec parts ls :
  Forall2 (part_ok p) parts ls -> forall a w z,
  v = a ++ w ++ z -> utf8 w -> utf8 z ->
  exists b, SegmentGlob.multi_loop p v parts (length a) (length a + length w) = Some b
    /\ (b = true <-> floats ls w).
Proof.
  induction 1 as [|[start end_] l parts ls Hp Hps IH]; intros a w z Hvw Hw Hz; [by exists true |].
  destruct Hp as (Hsl & Hu & Hne). cbn [SegmentGlob.multi_loop fst snd] in *.
  rewrite Hsl. simpl.
  assert (str_slice v (length a) (length a + length w) = Some w) as ->
    by (rewrite Hvw; by apply str_slice_app).
  simpl. destruct (str_find w l) as [i|] eqn:F.
  - destruct (str_find_Some _ _ _ F) as (x & y & Hxy & Hx & _).
    destruct (utf8_occurrence _ _ _ _ Hxy Hw Hu Hne) as [Ux Uy].
    destruct (IH (a ++ x ++ l) y z) as (b & Hb & Hiff); [by rewrite Hvw, Hxy, <- !app_assoc | done | done |].
    exists b. split.
    + rewrite <- Hb. f_equal; [rewrite !length_app; lia |].
      rewrite Hxy, !length_app. lia.
    + rewrite Hiff. change (floats ls y <-> floats (l :: ls) w). rewrite floats_greedy.
      assert (drop (i + length l) w = y) as Hd
        by (subst; by rewrite app_assoc, <- length_app, drop_app_length).
      split; [intros; exists i; by rewrite Hd |].
      intros (j & Hj & Hf). assert (j = i) as -> by congruence. by rewrite Hd in Hf.
  - exists false. split; [done |]. split; [done |].
    intros (x & y & Hxy & _). by destruct (str_find_None _ _ _ _ F Hxy).
Qed.

(** The anchor blocks of [matches_multi]: an absent anchor behaves as an
    empty literal. *)
Lemma start_block s0 ab0 rest (anchored : bool) :
  (if anchored then part_ok p ab0 s0 else s0 = []) ->
  (if anchored then
     '(start, end_) ← ((if anchored then [ab0] else []) ++ rest) !! 0;
     prefix ← str_slice p start end_;
     Some (if starts_with v prefix then Some (length prefix, 1) else None)
   else Some (Some (0, 0)))
  = Some (if starts_with v s0 then Some (length s0, Nat.b2n anchored) else None).
Proof.
  destruct anchored; [|by intros ->]. destruct ab0. intros [H _]. simpl in *. by rewrite H.
Qed.

Lemma end_block sl abl rest (anchored : bool) :
  (if anchored then part_ok p abl sl else sl = []) ->
  let all := rest ++ (if anchored then [abl] else []) in
  (if anchored then
     '(start, end_) ← all !! (length all - 1);
     suffix ← str_slice p start end_;
     Some (if ends_with v suffix
           then Some (length v - length suffix, length all - 1) else None)
   else Some (Some (length v, length all)))
  = Some (if ends_with v sl then Some (length v - length sl, length rest) else None).
Proof.
  destruct anchored; simpl.
  - destruct abl. intros [H _]. rewrite length_app. simpl.
    replace (length rest + 1 - 1) with (length rest) by lia.
    rewrite lookup_app_r, Nat.sub_diag by lia. simpl in *. by rewrite H.
  - intros ->. replace (ends_with v []) with true.
    + simpl. by rewrite app_nil_r, Nat.sub_0_r.
    + symmetry. apply ends_with_spec. exists v. by rewrite app_nil_r.
Qed.

(** A prefix and a suffix that fit side by side leave a middle. *)
Lemma fit_middle s0 sl :
  starts_with v s0 = true -> ends_with v sl = true -> length s0 <= length v - length sl ->
  exists w, v = s0 ++ w ++ sl.
Proof.
  intros [r Hr]%starts_with_spec [q Hq]%ends_with_spec Hle.
  rewrite Hq, length_app in Hle. rewrite Hr in Hq.
  destruct (app_eq_cases _ _ _ _ Hq) as [(m & _ & Hm) | (m & Hm & Hsl)].
  - exists m. by rewrite Hr, Hm.
  - exists []. apply (f_equal length) in Hm. rewrite length_app in Hm.
    assert (m = []) as -> by (apply length_nil_inv; lia). by rewrite Hr, Hsl.
Qed.

Lemma utf8_middle s0 w sl : v = s0 ++ w ++ sl -> utf8 s0 -> utf8 sl -> utf8 w.
Proof.
  intros Hw U0 Ul.
  assert (utf8 (w ++ sl)) as Uw by (eapply utf8_app_inv_r; [rewrite <- Hw; done | done]).
  destruct (decide (sl = [])) as [->|Hne]; [by rewrite app_nil_r in Uw |].
  apply (utf8_occurrence (w ++ sl) w sl []); [by rewrite app_nil_r | done..].
Qed.

Lemma matches_multi_spec s0 ls sl ab0 parts abl (anchored_start anchored_end : bool) :
  (if anchored_start then part_ok p ab0 s0 else s0 = []) ->
  (if anchored_end then part_ok p abl sl else sl = []) ->
  Forall2 (part_ok p) parts ls ->
  exists b,
    SegmentGlob.matches_multi p v
      (((if anchored_start then [ab0] else []) ++ parts) ++ (if anchored_end then [abl] else []))
      anchored_start anchored_end = Some b
    /\ (b = true <-> exists w, v = s0 ++ w ++ sl /\ floats ls w).
Proof.
  intros H0 Hl HM. unfold SegmentGlob.matches_multi.
  assert (U0 : utf8 s0) by (destruct anchored_start; [apply H0 | subst; constructor]).
  assert (Ul : utf8 sl) by (destruct anchored_end; [apply Hl | subst; constructor]).
  pose proof (start_block s0 ab0 (parts ++ (if anchored_end then [abl] else [])) _ H0) as HB.
  rewrite app_assoc in HB. rewrite HB. clear HB. simpl.
  destruct (starts_with v s0) eqn:E0.
  2: { exists false. split; [done |]. split; [done |]. intros (w & -> & _).
       by rewrite starts_with_app in E0. }
  rewrite (end_block sl abl _ _ Hl). simpl. destruct (ends_with v sl) eqn:El.
  2: { exists false. split; [done |]. split; [done |]. intros (w & Hw & _).
       rewrite app_assoc in Hw. assert (ends_with v sl = true); [|congruence].
       apply ends_with_spec. eauto. }
  destruct (Nat.ltb_spec (length v - length sl) (length s0)) as [Hlt|Hge].
  { exists false. split; [done |]. split; [done |]. intros (w & Hw & _).
    rewrite Hw, !length_app in Hlt. lia. }
  destruct (fit_middle s0 sl E0 El Hge) as [w Hw].
  replace (Nat.b2n anchored_start) with (length (if anchored_start then [ab0] else []))
    by (by destruct anchored_start).
  rewrite !length_app, (proj2 (Nat.leb_le _ _)), (proj2 (Nat.leb_le _ _)) by lia. simpl.
  rewrite <- app_assoc, drop_app_length, Nat.add_comm, Nat.add_sub, take_app_length.
  destruct (multi_loop_spec parts ls HM s0 w sl Hw) as (b & Hb & Hiff); [by eapply utf8_middle | done |].
  exists b. split.
  - rewrite <- Hb. f_equal. rewrite Hw, !length_app. lia.
  - rewrite Hiff. split; [eauto |]. intros (w' & Hw' & ?).
    assert (w' = w) as ->; [|done].
    rewrite Hw in Hw'. by apply app_inv_head, app_inv_tail in Hw'.
Qed.
End Multi.

Lemma shape_ok p s0 mids sl k :
  shape p s0 mids sl k -> utf8 p ->
  (if negb (bool_decide (s0 = [])) then part_ok p (0, length s0) s0 else s0 = []) /\
  (if negb (bool_decide (sl = [])) then part_ok p (k, length p) sl else sl = []) /\
  Forall2 (part_ok p) (seg_parts (length s0 + 1) mids) (filter nonempty mids).
Proof.
  intros Hsh Hp. pose proof (utf8_segs p Hp) as Hu. pose proof (joined_segs p) as Hj.
  rewrite (shape_segs _ _ _ _ _ Hsh) in Hu, Hj.
  apply Forall_cons in Hu as [U0 Hu]. pose proof Hu as Hul. apply Forall_app in Hul as [_ Ul].
  rewrite Forall_singleton in Ul.
  rewrite joined_cons_ne in Hj by (by destruct mids).
  assert (HL : Forall2 (part_ok p) (seg_parts (length s0 + 1) (mids ++ [sl])) (filter nonempty (mids ++ [sl]))).
  { replace (length s0 + 1) with (length (s0 ++ [star])) by (rewrite length_app; simpl; lia).
    apply seg_parts_ok; [|done]. by rewrite <- Hj, <- app_assoc. }
  destruct (length_joined_snoc mids sl) as (k' & Hk & Hparts).
  assert (k = length s0 + 1 + k') as ->.
  { pose proof (shape_len _ _ _ _ _ Hsh) as Hl. rewrite <- Hj, length_app in Hl. simpl in Hl. lia. }
  rewrite Hparts, filter_app in HL. rewrite (shape_len _ _ _ _ _ Hsh).
  assert (Hs0 : if negb (bool_decide (s0 = [])) then part_ok p (0, length s0) s0 else s0 = []).
  { destruct (bool_decide_reflect (s0 = [])); simpl; [done |]. split; [|by split]. rewrite <- Hj. simpl.
    apply (str_slice_app [] s0); [done |]. apply utf8_cons_ascii; [done | by apply utf8_joined]. }
  split; [exact Hs0 |]. destruct (bool_decide_reflect (sl = [])) as [Hsl|Hsl]; simpl.
  - subst sl. rewrite app_nil_r in HL. split; [done |]. by rewrite app_nil_r in HL.
  - rewrite filter_cons, decide_True in HL by done. simpl in HL.
    apply Forall2_app_inv_l in HL as (L1 & L2 & HM & HT & Heq).
    inversion HT as [|? y ? L2' Hy HT']; subst. inversion HT'; subst.
    apply app_inj_tail in Heq as [-> ->]. done.
Qed.

(** A pattern without wildcard matches itself only. *)
Lemma glob_exact p v : star_free p -> glob p v = bool_decide (v = p).
Proof.
  intros Hp. apply eq_true_iff_eq. rewrite <- (app_nil_r p) at 1.
  rewrite glob_lit, bool_decide_eq_true by done. split.
  - intros (v' & -> & Hv'). simpl in Hv'. apply bool_decide_eq_true in Hv' as ->. apply app_nil_r.
  - intros ->. exists []. by rewrite app_nil_r.
Qed.

Lemma no_wildcard_star_free p :
  length (filter (fun b => b = star) p) = 0 -> star_free p.
Proof.
  intros H%length_nil_inv. apply Forall_forall. intros b Hb ->.
  assert (star ∈ filter (fun b => b = star) p) as Hin by (by apply list_elem_of_filter).
  rewrite H in Hin. by apply not_elem_of_nil in Hin.
Qed.

Lemma wildcard_star_in p : length (filter (fun b => b = star) p) <> 0 -> star ∈ p.
Proof.
  intros H. destruct (filter _ p) as [|b l] eqn:E; [done |].
  assert (b ∈ filter (fun b => b = star) p) as Hin by (rewrite E; by left).
  apply list_elem_of_filter in Hin as [-> ?]. done.
Qed.

(** One literal floats in [w] when [w] contains it. *)
Lemma floats_one l w : floats [l] w <-> str_contains w l = true.
Proof. rewrite str_contains_spec. simpl. split; [intros (x & y & ? & _) | intros (x & y & ?)]; eauto. Qed.

Lemma choose_multi parts anchored_start anchored_end :
  2 <= length parts -> (length parts = 2 -> anchored_start && anchored_end = false) ->
  SegmentGlob.choose_kind parts anchored_start anchored_end
  = Multi parts anchored_start anchored_end.
Proof.
  destruct parts as [|[a b] [|[c d] [|? ?]]]; simpl; try lia; [|done].
  intros _ H. by rewrite H.
Qed.

(** ** The compiled matcher equals the reference, without panics *)
Lemma matches_new p v :
  utf8 p -> utf8 v -> SegmentGlob.matches (SegmentGlob.new p) v = Some (glob p v).
Proof.
  intros Hp Hv. unfold SegmentGlob.new.
  destruct (Nat.eqb_spec (length (filter (fun b => b = star) p)) 0) as [H0|H0].
  { by rewrite (glob_exact p v (no_wildcard_star_free p H0)). }
  destruct (new_shape p (wildcard_star_in p H0)) as (s0 & mids & sl & k & Hsh).
  destruct (shape_ok _ _ _ _ _ Hsh Hp) as (Hs0 & Hsl & HM).
  pose proof (matches_multi_spec p v Hv _ _ _ _ _ _ _ _ Hs0 Hsl HM) as (b & Hb & Hiff).
  rewrite <- (glob_shape p s0 mids sl k v Hsh) in Hiff. apply eq_true_iff_eq in Hiff. subst b.
  rewrite (shape_start _ _ _ _ _ Hsh), (shape_end _ _ _ _ _ Hsh).
  rewrite (shape_parts _ _ _ _ _ Hsh), app_assoc.
  pose proof (glob_shape p s0 mids sl k v Hsh) as Hg.
  remember (seg_parts (length s0 + 1) mids) as M eqn:EM. clear EM.
  remember (filter nonempty mids) as L eqn:EL. clear EL.
  destruct (bool_decide_reflect (s0 = [])) as [->|N0], (bool_decide_reflect (sl = [])) as [->|Nl];
    simpl in Hs0, Hsl; cbn [negb] in *.
  - destruct HM as [|[a e] l M L Hpart [|? ? ? ? ? ?]]; [ | |rewrite choose_multi; [exact Hb | simpl; lia | done]].
    + unfold SegmentGlob.matches. simpl. rewrite (proj2 Hg); [done |]. exists v. by rewrite app_nil_r.
    + unfold SegmentGlob.matches. simpl. destruct Hpart as [Hpart _]. simpl in Hpart.
      rewrite Hpart. simpl. f_equal. apply eq_true_iff_eq. rewrite Hg, <- floats_one.
      setoid_rewrite app_nil_r. naive_solver.
  - destruct HM as [|[a e] l M L Hpart [|? ? ? ? ? ?]]; [ |rewrite choose_multi; [exact Hb | simpl; rewrite ?length_app; simpl; lia | simpl; rewrite ?length_app; simpl; first [done | lia]]..].
    unfold SegmentGlob.matches. simpl. destruct Hsl as [Hsl _]. unfold str_from. simpl in Hsl.
    rewrite Hsl. simpl. f_equal. apply eq_true_iff_eq. rewrite Hg, ends_with_spec. simpl. naive_solver.
  - destruct HM as [|[a e] l M L Hpart [|? ? ? ? ? ?]]; [ |rewrite choose_multi; [exact Hb | simpl; rewrite ?length_app; simpl; lia | simpl; rewrite ?length_app; simpl; first [done | lia]]..].
    unfold SegmentGlob.matches. simpl. destruct Hs0 as [Hs0 _]. unfold str_to. simpl in Hs0.
    rewrite Hs0. simpl. f_equal. apply eq_true_iff_eq. rewrite Hg, starts_with_spec. simpl.
    setoid_rewrite app_nil_r. naive_solver.
  - destruct HM as [|[a e] l M L Hpart [|? ? ? ? ? ?]]; [ |rewrite choose_multi; [exact Hb | simpl; rewrite ?length_app; simpl; lia | simpl; rewrite ?length_app; simpl; first [done | lia]]..].
    unfold SegmentGlob.matches. simpl. destruct Hs0 as [Hs0 _], Hsl as [Hsl _].
    unfold str_to, str_from. simpl in Hs0, Hsl. rewrite Hs0, Hsl. simpl. f_equal.
    apply eq_true_iff_eq. rewrite Hg, !andb_true_iff, Nat.leb_le. simpl. split.
    + intros [[? ?] ?]. destruct (fit_middle v s0 sl) as [w Hw]; [done | done | lia | eauto].
    + intros (w & Hw & _). rewrite Hw. split; [split; [rewrite !length_app; lia | apply starts_with_app] |].
      apply ends_with_spec. exists (s0 ++ w). by rewrite app_assoc.
Qed.

(** ** Properties *)

(** C8: segment globs: compiling a pattern and matching a segment never panics
    (no slice is out of range or inside a character) and decides exactly the
    reference semantics of the glob, in which each [*] stands for any run of
    bytes: the specialised exact, prefix, suffix and multi-part matchers are all
    equivalent to it. *)
Theorem segment_glob_correct p v :
  utf8 p -> utf8 v -> SegmentGlob.matches (SegmentGlob.new p) v = Some (glob p v).
Proof. apply matches_new. Qed.

Lemma segment_glob_correct_witness :
  SegmentGlob.matches (SegmentGlob.new (bs "a*b*c")) (bs "axxbyc") = Some true.
Proof. apply (segment_glob_correct (bs "a*b*c") (bs "axxbyc")); by apply utf8_ascii. Defined.
