(* ===== verification/Identity.v ===== *)
(** * SPIFFE identities and policy patterns ([src/common/identity.rs])

    Parsing of SPIFFE URIs, identities, compiled patterns and matching.  The
    parser is characterised by its grammar, shown total on UTF-8 input, and
    rendering and parsing are shown inverse on valid identities. *)

From S2P Require Import Prelude Bytes Common Glob.

(** ** Data *)

Record SpiffeUriParts := MkParts {
  uri_trust_domain : str;
  uri_namespace : str;
  uri_service_account : str;
}.

Record SpiffeId := MkSpiffeId {
  trust_domain : str;
  namespace : str;
  service_account : str;
}.

Record CompiledPattern := MkCompiledPattern {
  pat_trust_domain : str;
  pat_namespace : SegmentGlob;
  pat_service_account : SegmentGlob;
}.

Record TrustDomain := MkTrustDomain { td_name : str; ca_certs : list str }.

#[global] Instance SpiffeId_eq_dec : EqDecision SpiffeId.
Proof. solve_decision. Defined.
#[global] Instance SpiffeUriParts_eq_dec : EqDecision SpiffeUriParts.
Proof. solve_decision. Defined.
#[global] Instance CompiledPattern_eq_dec : EqDecision CompiledPattern.
Proof. solve_decision. Defined.

(** ** Parsing *)

Definition slash : byte := "/"%char.
Definition PREFIX : str := bs "spiffe://".
Definition is_slash (b : byte) : bool := bool_decide (b = slash).

(** Bytes that may not occur in the authority. *)
Definition bad_authority_byte (b : byte) : bool :=
  is_ascii_control b || is_ascii_whitespace b || one_of "@:[]\?#" b.
(** Bytes that end a path segment. *)
Definition segment_delim (b : byte) : bool := one_of "/?#" b.

Definition malformed (got : str) : InterlinkError :=
  Identity (bs "malformed SPIFFE path: expected /ns/<ns>/sa/<sa>, got " ++ got).

(** The part of [parse_spiffe_uri] after the authority, on the path that
    follows its slash. *)
Definition parse_spiffe_path (trust_domain path : str) :
    eval (result SpiffeUriParts InterlinkError) :=
  match strip_prefix path (bs "ns/") with
  | None => Some (Err (malformed (bs "/" ++ path)))
  | Some path =>
      match position segment_delim path with
      | None => Some (Err (malformed (bs "/ns/" ++ path)))
      | Some namespace_end =>
          b ← path !! namespace_end;
          if negb (is_slash b) then
            Some (Err (Identity (bs "SPIFFE URI must not contain a query or fragment")))
          else
            namespace ← str_to path namespace_end;
            rest ← str_from path (namespace_end + 1);
            match strip_prefix rest (bs "sa/") with
            | None => Some (Err (malformed (bs "/ns/" ++ path)))
            | Some service_account =>
                if bool_decide (namespace = []) || bool_decide (service_account = [])
                   || existsb segment_delim service_account
                then Some (Err (malformed (bs "/ns/" ++ path)))
                else Some (Ok (MkParts trust_domain namespace service_account))
            end
      end
  end.

Definition parse_spiffe_uri (uri context : str) :
    eval (result SpiffeUriParts InterlinkError) :=
  if length uri <? length PREFIX then
    Some (Err (Identity (bs "invalid " ++ context ++ bs ": missing URI scheme separator")))
  else if negb (eq_ignore_ascii_case (take (length PREFIX) uri) PREFIX) then
    let scheme := match split_once uri (bs "://") with
                  | Some (scheme, _) => scheme | None => uri end in
    Some (Err (Identity (bs "expected spiffe:// scheme, got " ++ scheme)))
  else
    remainder ← str_from uri (length PREFIX);
    match position is_slash remainder with
    | None => Some (Err (malformed (bs "empty path")))
    | Some authority_end =>
        trust_domain ← str_to remainder authority_end;
        if bool_decide (trust_domain = []) then
          Some (Err (Identity (bs "missing trust domain in SPIFFE URI")))
        else if existsb bad_authority_byte trust_domain then
          Some (Err (Identity (bs "SPIFFE URI authority must contain only a trust domain")))
        else
          path ← str_from remainder (authority_end + 1);
          parse_spiffe_path trust_domain path
    end.

Module Pattern.

Definition from_uri (uri : str) : eval (result CompiledPattern InterlinkError) :=
  parts <-! parse_spiffe_uri uri (bs "pattern URI") ;;
  Some (Ok (MkCompiledPattern
    (to_ascii_lowercase (uri_trust_domain parts))
    (SegmentGlob.new (uri_namespace parts))
    (SegmentGlob.new (uri_service_account parts)))).

Definition any : CompiledPattern :=
  MkCompiledPattern [] (SegmentGlob.new (bs "*")) (SegmentGlob.new (bs "*")).

End Pattern.

Module Id.

(** The unvalidated constructor of the crate. *)
Definition new (trust_domain namespace service_account : str) : SpiffeId :=
  MkSpiffeId trust_domain namespace service_account.

Definition validate_segments (self : SpiffeId) : result unit InterlinkError :=
  if bool_decide (trust_domain self = []) then
    Err (Identity (bs "trust domain must not be empty"))
  else if bool_decide (namespace self = []) then
    Err (Identity (bs "namespace must not be empty"))
  else if bool_decide (service_account self = []) then
    Err (Identity (bs "service account must not be empty"))
  else Ok tt.

Definition try_new (trust_domain namespace service_account : str) :
    result SpiffeId InterlinkError :=
  let id := MkSpiffeId trust_domain namespace service_account in
  _ <-? validate_segments id ;;
  Ok id.

Definition to_uri (self : SpiffeId) : str :=
  bs "spiffe://" ++ trust_domain self ++ bs "/ns/" ++ namespace self
  ++ bs "/sa/" ++ service_account self.

(** [Display]: the pieces are written to the formatter one after the other. *)
Definition fmt (self : SpiffeId) : str :=
  foldl app [] [bs "spiffe://"; trust_domain self; bs "/ns/"; namespace self; bs "/sa/";
                service_account self].

Definition from_uri (uri : str) : eval (result SpiffeId InterlinkError) :=
  parts <-! parse_spiffe_uri uri (bs "URI") ;;
  Some (try_new (to_ascii_lowercase (uri_trust_domain parts))
    (uri_namespace parts) (uri_service_account parts)).

Definition from_str (s : str) : eval (result SpiffeId InterlinkError) := from_uri s.

(** [&&] and [||] evaluate their right operand only when needed. *)
Definition matches_compiled (self : SpiffeId) (pattern : CompiledPattern) : eval bool :=
  if bool_decide (pat_trust_domain pattern = [])
     || bool_decide (trust_domain self = pat_trust_domain pattern) then
    b ← SegmentGlob.matches (pat_namespace pattern) (namespace self);
    if b : bool then SegmentGlob.matches (pat_service_account pattern) (service_account self)
    else Some false
  else Some false.

Definition matches_pattern (self : SpiffeId) (pattern : str) : eval bool :=
  r ← Pattern.from_uri pattern;
  match r with
  | Ok cp => matches_compiled self cp
  | Err _ => Some false
  end.

End Id.

Module Trust.
Definition new (name : str) : TrustDomain := MkTrustDomain name [].
Definition with_ca (self : TrustDomain) (cert_der : str) : TrustDomain :=
  MkTrustDomain (td_name self) (ca_certs self ++ [cert_der]).
End Trust.

(** The identity provider is the source of truth for local identity. *)
Class IdentityProvider (P : Type) := {
  get_identity : P -> result SpiffeId InterlinkError;
  get_trust_domain : P -> TrustDomain;
}.

(** What is displayed is the URI. *)
Lemma fmt_to_uri id : Id.fmt id = Id.to_uri id.
Proof. unfold Id.fmt, Id.to_uri. cbn [foldl app]. by rewrite <- !app_assoc. Qed.

(** ** The grammar of SPIFFE URIs *)

Definition none_of (f : byte -> bool) (s : str) : Prop := existsb f s = false.

Record valid_parts (td ns sa : str) : Prop := {
  vp_td : td <> [];
  vp_td_chars : none_of (fun b => is_slash b || bad_authority_byte b) td;
  vp_ns : ns <> [];
  vp_ns_chars : none_of segment_delim ns;
  vp_sa : sa <> [];
  vp_sa_chars : none_of segment_delim sa;
}.

(** [spiffe_uri uri td ns sa]: [uri] is [spiffe://td/ns/ns/sa/sa], the scheme
    in any letter case. *)
Definition spiffe_uri (uri td ns sa : str) : Prop :=
  exists scheme,
    uri = scheme ++ td ++ slash :: bs "ns/" ++ ns ++ slash :: bs "sa/" ++ sa
    /\ length scheme = length PREFIX /\ eq_ignore_ascii_case scheme PREFIX = true
    /\ valid_parts td ns sa.

Lemma none_of_forallb f s : none_of f s <-> forallb (fun b => negb (f b)) s = true.
Proof.
  unfold none_of. induction s as [|b s IH]; simpl; [done |].
  rewrite orb_false_iff, andb_true_iff, negb_true_iff, IH. done.
Qed.

Lemma none_of_or f g s : none_of (fun b => f b || g b) s <-> none_of f s /\ none_of g s.
Proof.
  unfold none_of. induction s as [|b s IH]; simpl; [done |].
  rewrite !orb_false_iff, IH. tauto.
Qed.

Lemma lower_ascii b c :
  is_ascii c = true -> byte_to_ascii_lowercase b = c -> is_ascii b = true.
Proof.
  intros Hc <-. revert Hc. unfold byte_to_ascii_lowercase.
  destruct (is_ascii_uppercase b) eqn:E; [|done]. intros _.
  unfold is_ascii_uppercase, is_ascii in *. bool_props. apply N.ltb_lt. lia.
Qed.

Lemma lower_eq_ascii s t :
  to_ascii_lowercase s = t -> forallb is_ascii t = true -> forallb is_ascii s = true.
Proof.
  intros <-. induction s as [|b s IH]; simpl; [done |].
  rewrite !andb_true_iff. intros [Hb Hs]. eauto using lower_ascii.
Qed.

Lemma scheme_utf8 s : eq_ignore_ascii_case s PREFIX = true -> utf8 s.
Proof.
  unfold eq_ignore_ascii_case. intros H%bool_decide_eq_true_1.
  apply utf8_ascii. eapply lower_eq_ascii; [exact H |]. reflexivity.
Qed.

Lemma is_slash_ascii b : is_slash b = true -> is_ascii b = true.
Proof. unfold is_slash. by intros ->%bool_decide_eq_true_1. Qed.

Lemma segment_delim_ascii b : segment_delim b = true -> is_ascii b = true.
Proof.
  unfold segment_delim, one_of. intros H%bool_decide_eq_true_1%list_elem_of_In.
  simpl in H. by destruct H as [<- | [<- | [<- | []]]].
Qed.

(** ** The parser accepts exactly the grammar *)

(** A branch that returns an error: nothing to show of a parsed value. *)
Ltac err_branch := eexists; split; [reflexivity | by intros ? [=]].

Lemma parse_path_complete td ns sa :
  utf8 ns -> utf8 sa -> ns <> [] -> sa <> [] ->
  none_of segment_delim ns -> none_of segment_delim sa ->
  parse_spiffe_path td (bs "ns/" ++ ns ++ slash :: bs "sa/" ++ sa) = Some (Ok (MkParts td ns sa)).
Proof.
  intros Un Us Nn Ns Cn Cs. unfold parse_spiffe_path.
  rewrite (proj2 (strip_prefix_Some _ (bs "ns/") _) eq_refl).
  rewrite position_app by (by rewrite <- ?none_of_forallb).
  rewrite (list_lookup_middle _ _ _ _ eq_refl). run_bind. change (is_slash slash) with true.
  cbn [negb]. rewrite str_to_app by auto 6 with rust. run_bind.
  replace (ns ++ slash :: bs "sa/" ++ sa) with ((ns ++ [slash]) ++ bs "sa/" ++ sa)
    by (by rewrite <- app_assoc).
  replace (length ns + 1) with (length (ns ++ [slash])) by (by rewrite length_app).
  rewrite str_from_app by auto 6 with rust. run_bind.
  rewrite (proj2 (strip_prefix_Some _ (bs "sa/") sa) eq_refl).
  rewrite !bool_decide_false, Cs by done. done.
Qed.

Lemma parse_path_sound td path :
  utf8 path ->
  exists r, parse_spiffe_path td path = Some r /\
    forall parts, r = Ok parts ->
      exists ns sa, path = bs "ns/" ++ ns ++ slash :: bs "sa/" ++ sa /\
        ns <> [] /\ none_of segment_delim ns /\ sa <> [] /\ none_of segment_delim sa /\
        parts = MkParts td ns sa.
Proof.
  intros Hu. unfold parse_spiffe_path.
  destruct (strip_prefix path (bs "ns/")) as [q|] eqn:E1; [|err_branch].
  apply strip_prefix_Some in E1 as ->.
  assert (Uq : utf8 q) by (apply (utf8_app_inv_r (bs "ns/")); [done | by apply utf8_ascii]).
  destruct (position segment_delim q) as [i|] eqn:E2; [|err_branch].
  destruct (position_Some _ _ _ E2) as (ns & b & rest & -> & <- & Hb & Hns).
  destruct (utf8_occurrence_ascii _ _ _ _ eq_refl (segment_delim_ascii _ Hb) Uq) as [Uns Urest].
  rewrite (list_lookup_middle _ _ _ _ eq_refl). run_bind.
  destruct (is_slash b) eqn:Es; cbn [negb]; [|err_branch].
  apply bool_decide_eq_true_1 in Es as ->.
  rewrite str_to_app by auto with rust. run_bind.
  replace (ns ++ slash :: rest) with ((ns ++ [slash]) ++ rest) by (by rewrite <- app_assoc).
  replace (length ns + 1) with (length (ns ++ [slash])) by (by rewrite length_app).
  rewrite str_from_app by done. run_bind.
  destruct (strip_prefix rest (bs "sa/")) as [sa|] eqn:E3; [|err_branch].
  apply strip_prefix_Some in E3 as ->.
  destruct (bool_decide (ns = []) || bool_decide (sa = []) || existsb segment_delim sa) eqn:E4;
    [err_branch |].
  bool_props. eexists. split; [done |]. intros parts [= <-].
  exists ns, sa. rewrite <- app_assoc. apply none_of_forallb in Hns. by repeat split.
Qed.

Lemma parse_uri_complete uri td ns sa ctx :
  utf8 uri -> spiffe_uri uri td ns sa -> parse_spiffe_uri uri ctx = Some (Ok (MkParts td ns sa)).
Proof.
  intros Hu (scheme & -> & Hlen & Hci & [Ntd Ctd Nns Cns Nsa Csa]).
  pose proof (scheme_utf8 _ Hci) as Us. apply none_of_or in Ctd as [Cslash Cbad].
  assert (Ur : utf8 (td ++ slash :: bs "ns/" ++ ns ++ slash :: bs "sa/" ++ sa))
    by (by apply (utf8_app_inv_r scheme)).
  destruct (utf8_occurrence_ascii _ td slash _ eq_refl eq_refl Ur) as [Utd Up].
  assert (Up' : utf8 (ns ++ slash :: bs "sa/" ++ sa))
    by (apply (utf8_app_inv_r (bs "ns/")); [done | by apply utf8_ascii]).
  destruct (utf8_occurrence_ascii _ ns slash _ eq_refl eq_refl Up') as [Uns Up''].
  assert (Usa : utf8 sa) by (apply (utf8_app_inv_r (bs "sa/")); [done | by apply utf8_ascii]).
  unfold parse_spiffe_uri. rewrite length_app, <- Hlen, (proj2 (Nat.ltb_ge _ _)) by lia.
  rewrite take_app_length, Hci. cbn [negb]. rewrite str_from_app by done. run_bind.
  rewrite position_app by (by rewrite <- ?none_of_forallb).
  rewrite str_to_app by auto with rust. run_bind.
  rewrite bool_decide_false, Cbad by done.
  match goal with |- context [str_from (td ++ slash :: ?r) _] =>
    replace (td ++ slash :: r) with ((td ++ [slash]) ++ r) by (by rewrite <- app_assoc) end.
  replace (length td + 1) with (length (td ++ [slash])) by (by rewrite length_app).
  rewrite str_from_app by done. run_bind. by apply parse_path_complete.
Qed.

Lemma parse_uri_sound uri ctx :
  utf8 uri ->
  exists r, parse_spiffe_uri uri ctx = Some r /\
    forall parts, r = Ok parts ->
      spiffe_uri uri (uri_trust_domain parts) (uri_namespace parts) (uri_service_account parts).
Proof.
  intros Hu. unfold parse_spiffe_uri.
  destruct (Nat.ltb_spec (length uri) (length PREFIX)) as [|Hlen]; [err_branch |].
  destruct (eq_ignore_ascii_case (take (length PREFIX) uri) PREFIX) eqn:Hci; cbn [negb];
    [|err_branch].
  pose proof (scheme_utf8 _ Hci) as Us.
  pose proof (take_drop (length PREFIX) uri) as Huri.
  assert (Hl : length (take (length PREFIX) uri) = length PREFIX) by (rewrite length_take; lia).
  remember (take (length PREFIX) uri) as scheme eqn:Es. clear Es.
  remember (drop (length PREFIX) uri) as rem eqn:Er. clear Er. subst uri. rewrite <- Hl.
  assert (Ur : utf8 rem) by (by apply (utf8_app_inv_r scheme)).
  rewrite str_from_app by done. run_bind.
  destruct (position is_slash rem) as [i|] eqn:E; [|err_branch].
  destruct (position_Some _ _ _ E) as (td & b & path & -> & <- & Hb & Htd).
  destruct (utf8_occurrence_ascii _ _ _ _ eq_refl (is_slash_ascii _ Hb) Ur) as [Utd Upath].
  apply bool_decide_eq_true_1 in Hb as ->.
  rewrite str_to_app by auto with rust. run_bind.
  destruct (bool_decide_reflect (td = [])) as [|Ntd]; [err_branch |].
  destruct (existsb bad_authority_byte td) eqn:Hbad; [err_branch |].
  replace (td ++ slash :: path) with ((td ++ [slash]) ++ path) by (by rewrite <- app_assoc).
  replace (length td + 1) with (length (td ++ [slash])) by (by rewrite length_app).
  rewrite str_from_app by done. run_bind.
  destruct (parse_path_sound td path Upath) as (r & -> & Hr). eexists. split; [done |].
  intros parts Hp. destruct (Hr parts Hp) as (ns & sa & -> & Nns & Cns & Nsa & Csa & ->).
  exists scheme. rewrite <- app_assoc. split; [done |]. split; [done |]. split; [done |].
  split; try done. apply none_of_or. split; [by apply none_of_forallb | done].
Qed.

(** ** Case folding *)

(** Facts about single bytes, by inspection of all 256. *)
Ltac all_bytes b := destruct b as [[] [] [] [] [] [] [] []]; reflexivity.

Lemma lower_byte_idem b : byte_to_ascii_lowercase (byte_to_ascii_lowercase b) = byte_to_ascii_lowercase b.
Proof. all_bytes b. Qed.
Lemma lower_byte_bad b :
  is_slash (byte_to_ascii_lowercase b) || bad_authority_byte (byte_to_ascii_lowercase b)
  = is_slash b || bad_authority_byte b.
Proof. all_bytes b. Qed.
Lemma lower_byte_cont b : is_cont (byte_to_ascii_lowercase b) = is_cont b.
Proof. all_bytes b. Qed.
Lemma lower_byte_width b : utf8_width (byte_to_ascii_lowercase b) = utf8_width b.
Proof. all_bytes b. Qed.

Lemma lower_idem s : to_ascii_lowercase (to_ascii_lowercase s) = to_ascii_lowercase s.
Proof. induction s; simpl; [done |]. by rewrite lower_byte_idem, IHs. Qed.

Lemma lower_nil s : to_ascii_lowercase s = [] <-> s = [].
Proof. by destruct s. Qed.

Lemma lower_utf8 s : utf8 s -> utf8 (to_ascii_lowercase s).
Proof.
  induction 1 as [|b cs s Hcs Hw Hs IH]; simpl; [constructor |].
  unfold to_ascii_lowercase in *. rewrite map_app. constructor; [| |done].
  - apply Forall_forall. intros c (c' & -> & Hc)%list_elem_of_fmap.
    rewrite lower_byte_cont. rewrite Forall_forall in Hcs. by apply Hcs.
  - by rewrite lower_byte_width, length_map.
Qed.

Lemma lower_valid td ns sa : valid_parts td ns sa -> valid_parts (to_ascii_lowercase td) ns sa.
Proof.
  intros [Ntd Ctd ? ? ? ?]. split; [by rewrite lower_nil | | done..].
  unfold none_of in *. clear -Ctd. induction td as [|b td IH]; [done |].
  cbn [to_ascii_lowercase map existsb] in *. rewrite lower_byte_bad.
  apply orb_false_iff in Ctd as [-> Ctd]. by apply IH.
Qed.

(** ** Identities *)

(** What [from_uri] produces: the grammar's fields, the trust domain in lower
    case. *)
Definition valid_id (id : SpiffeId) : Prop :=
  valid_parts (trust_domain id) (namespace id) (service_account id)
  /\ to_ascii_lowercase (trust_domain id) = trust_domain id.

(** Every Rust [String] is UTF-8. *)
Record utf8_id (id : SpiffeId) : Prop := {
  utf8_td : utf8 (trust_domain id);
  utf8_ns : utf8 (namespace id);
  utf8_sa : utf8 (service_account id);
}.

Lemma try_new_ok td ns sa :
  td <> [] -> ns <> [] -> sa <> [] -> Id.try_new td ns sa = Ok (MkSpiffeId td ns sa).
Proof.
  intros. unfold Id.try_new, Id.validate_segments. simpl.
  by rewrite !bool_decide_false by done.
Qed.

Lemma try_new_spec td ns sa id :
  Id.try_new td ns sa = Ok id <->
  id = MkSpiffeId td ns sa /\ td <> [] /\ ns <> [] /\ sa <> [].
Proof.
  split.
  - unfold Id.try_new, Id.validate_segments. simpl. repeat case_bool_decide; simpl; try done.
    by intros [= <-].
  - intros (-> & ? & ? & ?). by apply try_new_ok.
Qed.

Lemma from_uri_complete uri td ns sa :
  utf8 uri -> spiffe_uri uri td ns sa ->
  Id.from_uri uri = Some (Ok (MkSpiffeId (to_ascii_lowercase td) ns sa)).
Proof.
  intros Hu Hg. unfold Id.from_uri. rewrite (parse_uri_complete _ _ _ _ _ Hu Hg).
  destruct Hg as (_ & _ & _ & _ & []). simpl. f_equal.
  by apply try_new_ok; [rewrite lower_nil | ..].
Qed.

Lemma from_uri_sound uri :
  utf8 uri ->
  exists r, Id.from_uri uri = Some r /\
    forall id, r = Ok id ->
      exists td, spiffe_uri uri td (namespace id) (service_account id)
        /\ trust_domain id = to_ascii_lowercase td.
Proof.
  intros Hu. destruct (parse_uri_sound uri (bs "URI") Hu) as (r & Hr & Hok).
  unfold Id.from_uri. rewrite Hr. destruct r as [parts|e]; simpl; [|err_branch].
  eexists. split; [done |]. intros id (-> & _)%try_new_spec. eauto.
Qed.

(** The pieces of a UTF-8 URI are UTF-8. *)
Lemma spiffe_uri_utf8 uri td ns sa :
  utf8 uri -> spiffe_uri uri td ns sa -> utf8 td /\ utf8 ns /\ utf8 sa.
Proof.
  intros Hu (scheme & -> & _ & Hci & _). apply (utf8_app_inv_r scheme) in Hu; [|by apply scheme_utf8].
  destruct (utf8_occurrence_ascii _ td slash _ eq_refl eq_refl Hu) as [? Hu1].
  apply (utf8_app_inv_r (bs "ns/")) in Hu1; [|by apply utf8_ascii].
  destruct (utf8_occurrence_ascii _ ns slash _ eq_refl eq_refl Hu1) as [? Hu2].
  apply (utf8_app_inv_r (bs "sa/")) in Hu2; [done | by apply utf8_ascii].
Qed.

Lemma from_uri_valid uri id :
  utf8 uri -> Id.from_uri uri = Some (Ok id) -> valid_id id /\ utf8_id id.
Proof.
  intros Hu Hf. destruct (from_uri_sound uri Hu) as (r & Hr & Hok).
  rewrite Hr in Hf. injection Hf as ->. destruct (Hok id eq_refl) as (td & Hg & Htd).
  destruct (spiffe_uri_utf8 _ _ _ _ Hu Hg) as (? & ? & ?).
  destruct Hg as (scheme & _ & _ & _ & Hv). split.
  - split; rewrite Htd; [by apply lower_valid | by apply lower_idem].
  - split; rewrite ?Htd; auto using lower_utf8.
Qed.

Lemma to_uri_utf8 id : utf8_id id -> utf8 (Id.to_uri id).
Proof. intros []. unfold Id.to_uri. repeat apply utf8_app; auto with rust. Qed.

Lemma to_uri_grammar id :
  valid_parts (trust_domain id) (namespace id) (service_account id) ->
  spiffe_uri (Id.to_uri id) (trust_domain id) (namespace id) (service_account id).
Proof. intros Hv. exists PREFIX. split; [done |]. split; [done |]. by split. Qed.

Lemma uri_roundtrip id : utf8_id id -> valid_id id -> Id.from_uri (Id.to_uri id) = Some (Ok id).
Proof.
  intros Hu [Hv Hl].
  rewrite (from_uri_complete _ _ _ _ (to_uri_utf8 id Hu) (to_uri_grammar id Hv)), Hl.
  by destruct id.
Qed.

(** ** Patterns *)

(** Compiled from a UTF-8 source. *)
Definition wf_glob (g : SegmentGlob) : Prop := g = SegmentGlob.new (pattern g) /\ utf8 (pattern g).
Definition wf_pattern (cp : CompiledPattern) : Prop :=
  wf_glob (pat_namespace cp) /\ wf_glob (pat_service_account cp).

(** What a pattern means: an empty trust domain is a wildcard, the two segments
    are globs. *)
Definition pattern_matches (cp : CompiledPattern) (id : SpiffeId) : bool :=
  (bool_decide (pat_trust_domain cp = []) || bool_decide (trust_domain id = pat_trust_domain cp))
  && glob (pattern (pat_namespace cp)) (namespace id)
  && glob (pattern (pat_service_account cp)) (service_account id).

Lemma pattern_new p : pattern (SegmentGlob.new p) = p.
Proof. unfold SegmentGlob.new. by destruct (_ =? 0). Qed.

Lemma wf_glob_new p : utf8 p -> wf_glob (SegmentGlob.new p).
Proof. intros. split; by rewrite pattern_new. Qed.

Lemma wf_any : wf_pattern Pattern.any.
Proof. by split; apply wf_glob_new, utf8_ascii. Qed.

Lemma wf_from_uri uri cp : utf8 uri -> Pattern.from_uri uri = Some (Ok cp) -> wf_pattern cp.
Proof.
  intros Hu. destruct (parse_uri_sound uri (bs "pattern URI") Hu) as (r & Hr & Hok).
  unfold Pattern.from_uri. rewrite Hr. destruct r as [parts|e]; simpl; [|done].
  intros [= <-]. destruct (spiffe_uri_utf8 _ _ _ _ Hu (Hok parts eq_refl)) as (_ & ? & ?).
  by split; apply wf_glob_new.
Qed.

Lemma pattern_from_uri uri td ns sa :
  utf8 uri -> spiffe_uri uri td ns sa ->
  Pattern.from_uri uri = Some (Ok (MkCompiledPattern (to_ascii_lowercase td)
    (SegmentGlob.new ns) (SegmentGlob.new sa))).
Proof. intros Hu Hg. unfold Pattern.from_uri. by rewrite (parse_uri_complete _ _ _ _ _ Hu Hg). Qed.

Lemma matches_compiled_spec cp id :
  wf_pattern cp -> utf8_id id ->
  Id.matches_compiled id cp = Some (pattern_matches cp id).
Proof.
  intros [[Hn Un] [Hs Us]] [_ Uin Uis]. unfold Id.matches_compiled, pattern_matches.
  destruct (bool_decide (pat_trust_domain cp = []) || _); [|done].
  rewrite Hn, Hs, !pattern_new, !matches_new by done. simpl.
  by destruct (glob _ (namespace id)).
Qed.

Lemma glob_refl p : glob p p = true.
Proof.
  induction p as [|c p IH]; [done |]. destruct (decide (c = star)) as [->|Hc].
  - apply glob_star. by exists [star], p.
  - apply glob_char; eauto.
Qed.

(** The URI of an identity, read as a pattern, matches that identity; without
    wildcard characters in it, it matches nothing else. *)
Lemma identity_as_pattern id cp :
  utf8_id id -> valid_id id -> Pattern.from_uri (Id.to_uri id) = Some (Ok cp) ->
  pattern_matches cp id = true /\
  (star_free (namespace id) -> star_free (service_account id) ->
   forall id', pattern_matches cp id' = true -> id' = id).
Proof.
  intros Hu [Hv Hl].
  rewrite (pattern_from_uri _ _ _ _ (to_uri_utf8 id Hu) (to_uri_grammar id Hv)).
  intros [= <-]. unfold pattern_matches. simpl. rewrite Hl, !pattern_new. split.
  - rewrite !glob_refl, !andb_true_r, orb_true_iff, !bool_decide_eq_true. by right.
  - intros Fn Fs id'. rewrite !glob_exact by done.
    rewrite (bool_decide_false (trust_domain id = [])) by apply Hv.
    rewrite !andb_true_iff. simpl. rewrite !bool_decide_eq_true. intros [[? ?] ?].
    destruct id, id'; simpl in *; congruence.
Qed.

#[export] Hint Resolve wf_any wf_glob_new : rust.

(** ** Properties *)



(** C18: identities survive a round trip through their URI: an identity parsed
    from any string is valid, its printed URI parses back to it, so certificates
    that carry the printed URI carry the identity. *)
Theorem uri_print_parse uri id :
  utf8 uri -> Id.from_uri uri = Some (Ok id) ->
  valid_id id /\ Id.from_uri (Id.to_uri id) = Some (Ok id).
Proof.
  intros Hu Hf. destruct (from_uri_valid uri id Hu Hf) as [Hv Hi]. split; [done | by apply uri_roundtrip].
Qed.

Lemma uri_print_parse_witness :
  Id.from_uri (Id.to_uri (MkSpiffeId (bs "td") (bs "prod") (bs "web")))
  = Some (Ok (MkSpiffeId (bs "td") (bs "prod") (bs "web"))).
Proof.
  apply (uri_print_parse (bs "spiffe://TD/ns/prod/sa/web"));
    [by apply utf8_ascii | vm_compute; reflexivity].
Defined.

(** A compiled pattern matches an identity, without panicking, exactly when
    the trust domains agree (or the pattern's is empty) and both segments match
    their globs. *)
Theorem compiled_pattern_correct uri cp id :
  utf8 uri -> utf8_id id -> Pattern.from_uri uri = Some (Ok cp) ->
  Id.matches_compiled id cp = Some (pattern_matches cp id).
Proof. intros Hu Hi Hf. apply matches_compiled_spec; [by eapply wf_from_uri | done]. Qed.

Lemma compiled_pattern_correct_witness :
  exists cp, Pattern.from_uri (bs "spiffe://td/ns/prod/sa/w*") = Some (Ok cp)
    /\ Id.matches_compiled (MkSpiffeId (bs "td") (bs "prod") (bs "web")) cp = Some true.
Proof.
  destruct (Pattern.from_uri (bs "spiffe://td/ns/prod/sa/w*")) as [[cp|]|] eqn:E;
    [|vm_compute in E; discriminate..].
  exists cp. split; [reflexivity |].
  rewrite (compiled_pattern_correct (bs "spiffe://td/ns/prod/sa/w*") cp);
    [|by apply utf8_ascii | by split; apply utf8_ascii | exact E].
  vm_compute in E. injection E as <-. vm_compute. reflexivity.
Defined.

(** A star in the place of the trust domain parses, as an identity and as a
    pattern, but it is no wildcard: the trust domain is compared as it stands. *)
Theorem star_trust_domain_literal id :
  Id.from_uri (bs "spiffe://*/ns/prod/sa/web") = Some (Ok (MkSpiffeId (bs "*") (bs "prod") (bs "web")))
  /\ exists cp, Pattern.from_uri (bs "spiffe://*/ns/prod/sa/web") = Some (Ok cp)
       /\ (pattern_matches cp id = true -> trust_domain id = bs "*").
Proof.
  split; [by vm_compute |]. destruct (Pattern.from_uri (bs "spiffe://*/ns/prod/sa/web")) as [[cp|]|] eqn:E;
    [|vm_compute in E; discriminate..].
  exists cp. split; [done |]. vm_compute in E. injection E as <-. unfold pattern_matches. simpl.
  intros H. repeat (apply andb_prop in H as [H _]). by apply bool_decide_eq_true in H.
Qed.
