(* ===== verification/Policy.v ===== *)
(** * The authorization policy engine ([src/policy/mod.rs])

    Rules are looked up by destination namespace, then globally, then the
    default decision applies.  The engine refines a first-match specification
    over one ordered rule list. *)

From S2P Require Import Prelude Bytes Common Glob Identity.

Inductive Decision :=
| Allow
| Deny (reason : str).

#[global] Instance Decision_eq_dec : EqDecision Decision.
Proof. solve_decision. Defined.

Record PolicyRule := MkRule {
  source : CompiledPattern;
  destination : CompiledPattern;
  decision : Decision;
  description : str;
}.

(** The [DashMap] of namespace rules is a finite map, the [ArcSwap] its current
    value. *)
Record PolicyEngine := MkEngine {
  namespace_policies : gmap (list Ascii.ascii) (list PolicyRule);
  global_policies : list PolicyRule;
  default_decision : Decision;
}.

Module Engine.

Definition new : PolicyEngine :=
  MkEngine ∅ [] (Deny (bs "no matching policy")).

(** The [for rule in rules] loop with its early return. *)
Fixpoint scan (rules : list PolicyRule) (src dst : SpiffeId) : eval (option Decision) :=
  match rules with
  | [] => Some None
  | rule :: rest =>
      b ← Id.matches_compiled src (source rule);
      hit ← (if b : bool then Id.matches_compiled dst (destination rule) else Some false);
      if hit : bool then Some (Some (decision rule)) else scan rest src dst
  end.

Definition evaluate (self : PolicyEngine) (src dst : SpiffeId) : eval Decision :=
  in_namespace ← match namespace_policies self !! namespace dst with
                 | Some rules => scan rules src dst
                 | None => Some None
                 end;
  match in_namespace with
  | Some d => Some d
  | None =>
      in_global ← scan (global_policies self) src dst;
      match in_global with
      | Some d => Some d
      | None => Some (default_decision self)
      end
  end.

Definition add_namespace_rule (self : PolicyEngine) (ns : str) (rule : PolicyRule) : PolicyEngine :=
  let rules := default [] (namespace_policies self !! ns) in
  MkEngine (<[ns := rules ++ [rule]]> (namespace_policies self))
    (global_policies self) (default_decision self).

Definition set_global_policies (self : PolicyEngine) (rules : list PolicyRule) : PolicyEngine :=
  MkEngine (namespace_policies self) rules (default_decision self).

Definition set_default_decision (self : PolicyEngine) (d : Decision) : PolicyEngine :=
  MkEngine (namespace_policies self) (global_policies self) d.

End Engine.

(** [mod patterns]: the constructors [unwrap] the compiled pattern. *)
Module patterns.

Definition compile (uri : str) : eval CompiledPattern :=
  r ← Pattern.from_uri uri; unwrap r.

Definition allow_same_namespace (td ns : str) : eval PolicyRule :=
  let ns_pat := bs "spiffe://" ++ td ++ bs "/ns/" ++ ns ++ bs "/sa/*" in
  src ← compile ns_pat;
  dst ← compile ns_pat;
  Some (MkRule src dst Allow (bs "Allow all traffic within namespace " ++ ns)).

Definition allow (from to description : str) : eval PolicyRule :=
  src ← compile from;
  dst ← compile to;
  Some (MkRule src dst Allow description).

Definition deny (source description : str) : eval PolicyRule :=
  src ← compile source;
  Some (MkRule src Pattern.any (Deny (bs "blocklisted source")) description).

End patterns.

(** ** Specification: the first matching rule of one ordered list *)

Definition rule_matches (src dst : SpiffeId) (rule : PolicyRule) : bool :=
  pattern_matches (source rule) src && pattern_matches (destination rule) dst.

(** The rules that can decide traffic to [dst], in order of precedence. *)
Definition applicable (e : PolicyEngine) (dst : SpiffeId) : list PolicyRule :=
  default [] (namespace_policies e !! namespace dst) ++ global_policies e.

Definition first_match (rules : list PolicyRule) (src dst : SpiffeId) : option PolicyRule :=
  List.find (rule_matches src dst) rules.

Definition verdict (e : PolicyEngine) (src dst : SpiffeId) : Decision :=
  match first_match (applicable e dst) src dst with
  | Some rule => decision rule
  | None => default_decision e
  end.

(** ** Well-formed engines: every pattern was compiled from a UTF-8 source *)

Definition wf_rule (r : PolicyRule) : Prop := wf_pattern (source r) /\ wf_pattern (destination r).

Record wf_engine (e : PolicyEngine) : Prop := {
  wf_namespace : map_Forall (fun _ rules => Forall wf_rule rules) (namespace_policies e);
  wf_global : Forall wf_rule (global_policies e);
}.

Lemma scan_spec rules src dst :
  Forall wf_rule rules -> utf8_id src -> utf8_id dst ->
  Engine.scan rules src dst = Some (decision <$> first_match rules src dst).
Proof.
  intros Hw Us Ud. induction Hw as [|r rules [Ws Wd] Hw IH]; [done |]. simpl.
  rewrite !matches_compiled_spec by done. simpl. unfold rule_matches.
  destruct (pattern_matches (source r) src); simpl; [|exact IH].
  destruct (pattern_matches (destination r) dst); [done | exact IH].
Qed.

Lemma find_app {A} (f : A -> bool) l k :
  List.find f (l ++ k) = match List.find f l with Some x => Some x | None => List.find f k end.
Proof. induction l as [|x l IH]; simpl; [done |]. by destruct (f x). Qed.

Lemma wf_applicable e dst :
  wf_engine e -> Forall wf_rule (default [] (namespace_policies e !! namespace dst)).
Proof.
  intros [Hn _]. destruct (namespace_policies e !! namespace dst) as [rules|] eqn:E; simpl; [|done].
  exact (map_Forall_lookup_1 _ _ _ _ Hn E).
Qed.

Lemma evaluate_verdict e src dst :
  wf_engine e -> utf8_id src -> utf8_id dst ->
  Engine.evaluate e src dst = Some (verdict e src dst).
Proof.
  intros He Us Ud. pose proof (wf_applicable e dst He) as Hn. destruct He as [_ Hg].
  unfold Engine.evaluate, verdict, applicable, first_match. rewrite find_app.
  pose proof (scan_spec _ src dst Hn Us Ud) as Hs. unfold first_match in Hs.
  destruct (namespace_policies e !! namespace dst) as [rules|]; simpl in *.
  - rewrite Hs. simpl. destruct (List.find _ rules); simpl; [done |].
    rewrite scan_spec by done. unfold first_match. by destruct (List.find _ _).
  - rewrite scan_spec by done. unfold first_match. by destruct (List.find _ _).
Qed.

(** ** Operations and the invariant *)

(** The mutators of an engine. *)
Inductive engine_step : PolicyEngine -> PolicyEngine -> Prop :=
| step_add e ns rule : wf_rule rule -> engine_step e (Engine.add_namespace_rule e ns rule)
| step_global e rules : Forall wf_rule rules -> engine_step e (Engine.set_global_policies e rules)
| step_default e d : engine_step e (Engine.set_default_decision e d).

Lemma wf_new : wf_engine Engine.new.
Proof. split; simpl; [apply map_Forall_empty | constructor]. Qed.

Lemma wf_add e ns rule : wf_engine e -> wf_rule rule -> wf_engine (Engine.add_namespace_rule e ns rule).
Proof.
  intros [Hn Hg] Hr. split; simpl; [|done]. apply map_Forall_insert_2; [|done].
  apply Forall_app. split; [|by constructor].
  destruct (namespace_policies e !! ns) as [rules|] eqn:E; simpl; [|done].
  exact (map_Forall_lookup_1 _ _ _ _ Hn E).
Qed.

Lemma wf_step e e' : wf_engine e -> engine_step e e' -> wf_engine e'.
Proof.
  intros He Hs. destruct Hs; [by apply wf_add | |]; destruct He; split; simpl; assumption.
Qed.

Lemma wf_reachable e : steps engine_step Engine.new e -> wf_engine e.
Proof. apply steps_invariant; [apply wf_new | exact wf_step]. Qed.

(** ** The pattern constructors *)

Lemma compile_spec uri td ns sa :
  utf8 uri -> spiffe_uri uri td ns sa ->
  patterns.compile uri = Some (MkCompiledPattern (to_ascii_lowercase td)
    (SegmentGlob.new ns) (SegmentGlob.new sa)).
Proof. intros Hu Hg. unfold patterns.compile. by rewrite (pattern_from_uri _ _ _ _ Hu Hg). Qed.

Lemma compile_wf uri cp : utf8 uri -> patterns.compile uri = Some cp -> wf_pattern cp.
Proof.
  unfold patterns.compile. intros Hu. destruct (Pattern.from_uri uri) as [[cp'|]|] eqn:E; simpl; try done.
  intros [= <-]. by eapply wf_from_uri.
Qed.

Lemma glob_any v : glob (bs "*") v = true.
Proof. change (bs "*") with [star]. apply glob_star. exists v, []. by rewrite app_nil_r. Qed.

Lemma any_matches id : pattern_matches Pattern.any id = true.
Proof. unfold pattern_matches. cbn [pat_namespace pat_service_account Pattern.any]. by rewrite !pattern_new, !glob_any. Qed.

(** A namespace is a valid path segment. *)
Definition valid_segment (s : str) : Prop := utf8 s /\ s <> [] /\ none_of segment_delim s.
(** A trust domain is a valid authority. *)
Definition valid_authority (s : str) : Prop :=
  utf8 s /\ s <> [] /\ none_of (fun b => is_slash b || bad_authority_byte b) s.

Lemma namespace_pattern td ns :
  valid_authority td -> valid_segment ns ->
  patterns.compile (bs "spiffe://" ++ td ++ bs "/ns/" ++ ns ++ bs "/sa/*")
  = Some (MkCompiledPattern (to_ascii_lowercase td) (SegmentGlob.new ns) (SegmentGlob.new (bs "*"))).
Proof.
  intros (Ut & Nt & Ct) (Un & Nn & Cn). apply compile_spec.
  - repeat apply utf8_app; auto with rust.
  - exists PREFIX. split; [done |]. split; [done |]. split; [done |]. by split.
Qed.

(** ** Properties *)

(** C7: the policy engine refines a first-match specification: whatever rules
    were added and replaced, evaluation never panics and returns the decision
    of the first rule matching source and destination in one ordered list (the
    destination namespace's rules, then the global ones), or the default. *)
Theorem engine_first_match e src dst :
  steps engine_step Engine.new e -> utf8_id src -> utf8_id dst ->
  Engine.evaluate e src dst = Some (verdict e src dst).
Proof. intros H. by apply evaluate_verdict, wf_reachable. Qed.

(** An engine that keeps one client out of namespace [b] before it lets all of
    namespace [a] in. *)
Module EngineDemo.
Definition denied : eval PolicyRule := patterns.deny (bs "spiffe://td/ns/a/sa/x") (bs "no x").
Definition admitted : eval PolicyRule :=
  patterns.allow (bs "spiffe://td/ns/a/sa/*") (bs "spiffe://td/ns/b/sa/*") (bs "a may call b").
Definition engine (deny allow : PolicyRule) : PolicyEngine :=
  Engine.set_global_policies (Engine.add_namespace_rule Engine.new (bs "b") deny) [allow].
Definition a_x : SpiffeId := MkSpiffeId (bs "td") (bs "a") (bs "x").
Definition a_y : SpiffeId := MkSpiffeId (bs "td") (bs "a") (bs "y").
Definition b_z : SpiffeId := MkSpiffeId (bs "td") (bs "b") (bs "z").

Lemma engine_built deny allow :
  denied = Some deny -> admitted = Some allow -> steps engine_step Engine.new (engine deny allow).
Proof.
  unfold denied, admitted, patterns.deny, patterns.allow. intros Hd Ha.
  destruct (patterns.compile (bs "spiffe://td/ns/a/sa/x")) as [px|] eqn:E1; [|done]. injection Hd as <-.
  destruct (patterns.compile (bs "spiffe://td/ns/a/sa/*")) as [pa|] eqn:E2; [|done].
  destruct (patterns.compile (bs "spiffe://td/ns/b/sa/*")) as [pb|] eqn:E3; [|done]. injection Ha as <-.
  apply compile_wf in E1, E2, E3; try by apply utf8_ascii.
  eapply steps_snoc; [eapply steps_snoc; [apply steps_refl | apply step_add] | apply step_global].
  - split; [done | apply wf_any].
  - apply Forall_singleton. by split.
Qed.

Lemma engine_first_match_witness :
  exists deny allow, denied = Some deny /\ admitted = Some allow
    /\ Engine.evaluate (engine deny allow) a_x b_z = Some (Deny (bs "blocklisted source"))
    /\ Engine.evaluate (engine deny allow) a_y b_z = Some Allow.
Proof.
  destruct denied as [deny|] eqn:Ed; [|vm_compute in Ed; discriminate].
  destruct admitted as [allow|] eqn:Ea; [|vm_compute in Ea; discriminate].
  pose proof (engine_built deny allow Ed Ea) as Hs. exists deny, allow. split; [reflexivity |]. split; [reflexivity |].
  rewrite (engine_first_match (engine deny allow) a_x b_z Hs), (engine_first_match (engine deny allow) a_y b_z Hs)
    by (split; by apply utf8_ascii).
  vm_compute in Ed, Ea. injection Ed as <-. injection Ea as <-. split; vm_compute; reflexivity.
Defined.
End EngineDemo.

(** A namespace rule admits exactly the traffic inside the namespace: for a
    valid trust domain and a wildcard-free namespace the rule is built without a
    panic, and it matches a pair of identities if and only if both are in that
    trust domain and namespace, whatever their service accounts. *)
Theorem same_namespace_rule_exact td ns :
  valid_authority td -> valid_segment ns -> star_free ns ->
  exists rule, patterns.allow_same_namespace td ns = Some rule /\ decision rule = Allow /\
    forall src dst, rule_matches src dst rule = true <->
      (trust_domain src = to_ascii_lowercase td /\ namespace src = ns)
      /\ (trust_domain dst = to_ascii_lowercase td /\ namespace dst = ns).
Proof.
  intros Ht Hn Hs. pose proof (namespace_pattern td ns Ht Hn) as Hc.
  unfold patterns.allow_same_namespace. cbv zeta. rewrite Hc. run_bind.
  eexists. split; [done |]. split; [done |]. intros src dst.
  assert (Hm : forall x, pattern_matches (MkCompiledPattern (to_ascii_lowercase td)
    (SegmentGlob.new ns) (SegmentGlob.new (bs "*"))) x = true
    <-> trust_domain x = to_ascii_lowercase td /\ namespace x = ns).
  { intros x. unfold pattern_matches. cbn [pat_trust_domain pat_namespace pat_service_account].
    rewrite !pattern_new, glob_any, glob_exact, andb_true_r by done.
    rewrite (bool_decide_false (to_ascii_lowercase td = [])).
    - simpl. by rewrite andb_true_iff, !bool_decide_eq_true.
    - destruct Ht as (_ & Ht & _). by rewrite lower_nil. }
  unfold rule_matches. cbn [source destination]. by rewrite andb_true_iff, !Hm.
Qed.

Lemma same_namespace_rule_exact_witness :
  exists rule, patterns.allow_same_namespace (bs "td") (bs "prod") = Some rule.
Proof.
  destruct (same_namespace_rule_exact (bs "td") (bs "prod")) as (rule & Hr & _);
    [split; [by apply utf8_ascii | by vm_compute] | split; [by apply utf8_ascii | by vm_compute]
    | by repeat constructor |].
  exists rule. exact Hr.
Defined.
