(* ===== verification/ProtocolDetect.v ===== *)
(** * Protocol detection ([src/protocol/mod.rs])

    Classification of the first plaintext bytes of a connection, and
    validation of HTTP/1.1 request lines. *)

From S2P Require Import Prelude Bytes Common.

Inductive DetectedProtocol := Http11 | Http2 | Tcp.

#[global] Instance DetectedProtocol_eq_dec : EqDecision DetectedProtocol.
Proof. solve_decision. Defined.

Definition space : byte := " "%char.
Definition is_space (b : byte) : bool := bool_decide (b = space).

(** [ProtocolDetector::detect]; [buf[0]] and [&buf[..pos]] are checked. *)
Definition detect (buf : str) : eval DetectedProtocol :=
  if length buf <? 8 then Some Tcp
  else if starts_with buf (bs "PRI * HTTP/2") then Some Http2
  else
    upper0 ← (if 4 <=? length buf then b0 ← buf !! 0; Some (is_ascii_uppercase b0) else Some false);
    if upper0 : bool then
      match position is_space buf with
      | Some pos =>
          if (3 <=? pos) && (pos <=? 7) then
            method ← buf_to buf pos;
            if forallb is_ascii_uppercase method then Some Http11 else Some Tcp
          else Some Tcp
      | None => Some Tcp
      end
    else Some Tcp.

Definition method_byte (b : byte) : bool := is_ascii_uppercase b || bool_decide (b = "-"%char).
Definition CR : byte := ascii_of_N 13.

(** [validate_http11_request_line]; the three [parts.next()] read the pieces of
    [splitn] in order. *)
Definition validate_http11_request_line (line : str) : result unit InterlinkError :=
  let parts := splitn 3 is_space line in
  match parts !! 0, parts !! 1, parts !! 2 with
  | Some method, Some target, Some version =>
      if bool_decide (method = []) || negb (forallb method_byte method) then
        Err (Protocol (bs "invalid method token"))
      else if bool_decide (target = []) then Err (Protocol (bs "empty request-target"))
      else
        let version_trimmed := default version (strip_suffix version [CR]) in
        if negb (bool_decide (version_trimmed = bs "HTTP/1.0"))
           && negb (bool_decide (version_trimmed = bs "HTTP/1.1"))
        then Err (Protocol (bs "unsupported HTTP version"))
        else Ok tt
  | _, _, _ => Err (Protocol (bs "malformed request line"))
  end.

(** ** What the detector recognises *)

(** A method token followed by a space at the head of the buffer. *)
Definition http1_head (buf : str) : Prop :=
  exists m rest, buf = m ++ space :: rest /\ 3 <= length m <= 7 /\
    forallb is_ascii_uppercase m = true.

Lemma upper_not_space m :
  forallb is_ascii_uppercase m = true -> forallb (fun c => negb (is_space c)) m = true.
Proof.
  induction m as [|b m IH]; simpl; [done |]. rewrite !andb_true_iff. intros [Hb Hm].
  split; [|auto]. unfold is_space. case_bool_decide; [by subst | done].
Qed.

(** The space that ends the method is the first one. *)
Lemma http1_head_position buf :
  http1_head buf <->
  exists pos, position is_space buf = Some pos /\ 3 <= pos <= 7 /\
    forallb is_ascii_uppercase (take pos buf) = true.
Proof.
  split.
  - intros (m & rest & -> & Hl & Hm). exists (length m).
    by rewrite position_app, take_app_length by auto using upper_not_space.
  - intros (pos & Hp & Hr & Hm). apply position_Some in Hp as (x & b & y & -> & <- & Hb & _).
    apply bool_decide_eq_true_1 in Hb as ->. rewrite take_app_length in Hm. by exists x, y.
Qed.

Lemma detect_rest buf :
  8 <= length buf -> starts_with buf (bs "PRI * HTTP/2") = false ->
  exists p, detect buf = Some p /\ p <> Http2 /\ (p = Http11 <-> http1_head buf).
Proof.
  intros Hl H2. setoid_rewrite http1_head_position. unfold detect.
  rewrite (proj2 (Nat.ltb_ge _ _)), H2, (proj2 (Nat.leb_le _ _)) by lia.
  destruct buf as [|b0 buf]; [simpl in *; lia |]. remember (b0 :: buf) as l eqn:El.
  replace (l !! 0) with (Some b0) by (by subst). run_bind.
  destruct (is_ascii_uppercase b0) eqn:Hu.
  2: { exists Tcp. repeat split; try done. intros ([|pos] & _ & ? & Hm); [lia |].
       subst l. simpl in Hm. by rewrite Hu in Hm. }
  destruct (position is_space l) as [pos|] eqn:Hp; [|exists Tcp; repeat split; try done; by intros (? & ? & _)].
  assert (pos <= length l)
    by (apply position_Some in Hp as (x & b & y & -> & <- & _); rewrite length_app; lia).
  unfold buf_to. rewrite (proj2 (Nat.leb_le pos (length l))) by done. run_bind.
  destruct ((3 <=? pos) && (pos <=? 7)) eqn:Hr.
  - bool_props. destruct (forallb _ _) eqn:Hm; eexists; repeat split; try done; [eauto |].
    intros (? & [= <-] & _ & ?). congruence.
  - exists Tcp. repeat split; try done. intros (? & [= <-] & ? & _).
    apply andb_false_iff in Hr as [?%Nat.leb_gt | ?%Nat.leb_gt]; lia.
Qed.

(** The classification, in full. *)
Lemma detect_spec buf :
  exists p, detect buf = Some p /\
    (p = Http2 <-> exists rest, buf = bs "PRI * HTTP/2" ++ rest) /\
    (p = Http11 <->
       8 <= length buf /\ http1_head buf /\ ~ exists rest, buf = bs "PRI * HTTP/2" ++ rest).
Proof.
  destruct (starts_with buf (bs "PRI * HTTP/2")) eqn:H2.
  { apply starts_with_spec in H2 as [rest ->]. exists Http2. split; [done |].
    split; [by split; eauto |]. split; [done |]. intros (_ & _ & []). eauto. }
  setoid_rewrite <- starts_with_spec; rewrite H2.
  destruct (Nat.ltb_spec (length buf) 8) as [Hl|Hl].
  - exists Tcp. unfold detect. rewrite (proj2 (Nat.ltb_lt _ _)) by done.
    repeat split; try done. intros []. lia.
  - destruct (detect_rest buf Hl H2) as (p & -> & ? & Hp). exists p. split; [done |].
    split; [by split | rewrite Hp; by split; [|intros (? & ? & ?)]].
Qed.

(** ** What the request-line validator accepts *)

Definition not_space (s : str) : Prop := forallb (fun c => negb (is_space c)) s = true.

Record request_line (line : str) : Prop := {
  rl_pieces : exists method target version,
    line = method ++ space :: target ++ space :: version
    /\ method <> [] /\ forallb method_byte method = true
    /\ target <> [] /\ not_space target
    /\ (exists v, v ∈ [bs "HTTP/1.0"; bs "HTTP/1.1"] /\ (version = v \/ version = v ++ [CR]));
}.

Lemma method_not_space m : forallb method_byte m = true -> not_space m.
Proof.
  unfold not_space. induction m as [|b m IH]; simpl; [done |]. rewrite !andb_true_iff.
  intros [Hb Hm]. split; [|auto]. unfold is_space. case_bool_decide; [by subst | done].
Qed.

Lemma splitn3 m t v :
  not_space m -> not_space t -> splitn 3 is_space (m ++ space :: t ++ space :: v) = [m; t; v].
Proof.
  intros Hm Ht. cbn [splitn]. rewrite position_app, take_app_length by done.
  replace (S (length m)) with (length (m ++ [space])) by (rewrite length_app; simpl; lia).
  replace (m ++ space :: t ++ space :: v) with ((m ++ [space]) ++ t ++ space :: v)
    by (by rewrite <- app_assoc).
  rewrite drop_app_length, position_app, take_app_length by done.
  replace (S (length t)) with (length (t ++ [space])) by (rewrite length_app; simpl; lia).
  replace (t ++ space :: v) with ((t ++ [space]) ++ v) by (by rewrite <- app_assoc).
  by rewrite drop_app_length.
Qed.

Lemma splitn3_inv line m t v :
  splitn 3 is_space line = [m; t; v] ->
  line = m ++ space :: t ++ space :: v /\ not_space m /\ not_space t.
Proof.
  cbn [splitn]. destruct (position is_space line) as [i|] eqn:E1; [|done].
  apply position_Some in E1 as (x & b & y & -> & <- & Hb & Hx).
  apply bool_decide_eq_true_1 in Hb as ->. rewrite take_app_length.
  replace (drop (S (length x)) (x ++ space :: y)) with y
    by (symmetry; rewrite cons_middle, app_assoc; apply drop_app_length'; rewrite length_app; simpl; lia).
  destruct (position is_space y) as [j|] eqn:E2; [|done].
  apply position_Some in E2 as (x' & b & y' & -> & <- & Hb & Hx').
  apply bool_decide_eq_true_1 in Hb as ->. rewrite take_app_length.
  replace (drop (S (length x')) (x' ++ space :: y')) with y'
    by (symmetry; rewrite cons_middle, app_assoc; apply drop_app_length'; rewrite length_app; simpl; lia).
  by intros [= <- <- <-].
Qed.

Lemma trimmed_version version v :
  v ∈ [bs "HTTP/1.0"; bs "HTTP/1.1"] ->
  default version (strip_suffix version [CR]) = v <-> version = v \/ version = v ++ [CR].
Proof.
  intros Hv. unfold strip_suffix. destruct (ends_with version [CR]) eqn:E; simpl.
  - apply ends_with_spec in E as [r ->]. rewrite length_app. simpl.
    replace (length r + 1 - 1) with (length r) by lia. rewrite take_app_length. split.
    + intros ->. by right.
    + intros [H | H]; [|by apply app_inj_tail in H as [-> _]]. exfalso.
      apply list_elem_of_In in Hv. simpl in Hv.
      destruct Hv as [<- | [<- | []]]; apply (f_equal (fun s => ends_with s [CR])) in H;
        rewrite (proj2 (ends_with_spec _ _)) in H by eauto; by vm_compute in H.
  - split; [auto |]. intros [? | ->]; [done |].
    assert (ends_with (v ++ [CR]) [CR] = true) by (apply ends_with_spec; eauto). congruence.
Qed.

Lemma validate_spec line :
  validate_http11_request_line line = Ok tt <-> request_line line.
Proof.
  split.
  - unfold validate_http11_request_line.
    destruct (splitn 3 is_space line) as [|m [|t [|v [|? ?]]]] eqn:E; cbn [lookup list_lookup]; try done.
    2: { exfalso. clear -E. revert E. cbn [splitn].
         destruct (position is_space line); [|done]. by destruct (position is_space _). }
    apply splitn3_inv in E as (-> & Hm & Ht).
    destruct (bool_decide_reflect (m = [])); cbn [orb negb]; [done |].
    destruct (forallb method_byte m) eqn:Hmb; cbn [orb negb]; [|done].
    destruct (bool_decide_reflect (t = [])); cbn [orb negb]; [done |].
    set (vt := default v _). intros Hv. split. exists m, t, v. repeat split; try done.
    exists vt. destruct (bool_decide_reflect (vt = bs "HTTP/1.0")) as [Hvt|];
      [|destruct (bool_decide_reflect (vt = bs "HTTP/1.1")) as [Hvt|]; [|done]];
      (assert (vt ∈ [bs "HTTP/1.0"; bs "HTTP/1.1"]) as Hin by (rewrite Hvt; set_solver));
      (split; [done |]); by apply trimmed_version.
  - intros [(m & t & v & -> & Nm & Hm & Nt & Ht & w & Hw & Hv)].
    apply (trimmed_version _ _ Hw) in Hv. unfold validate_http11_request_line.
    rewrite splitn3 by auto using method_not_space. cbn [lookup list_lookup].
    rewrite !bool_decide_false, Hm by done. cbn [negb orb]. rewrite Hv.
    apply list_elem_of_In in Hw. simpl in Hw. by destruct Hw as [<- | [<- | []]].
Qed.

(** ** Properties *)

(** Protocol detection never panics and is exact: HTTP/2 exactly for the
    connection preface's first 12 bytes, HTTP/1.1 exactly for at least eight
    bytes that start with an upper-case token of three to seven letters and a
    space, raw TCP otherwise. *)
Theorem detect_exact buf :
  exists p, detect buf = Some p /\
    (p = Http2 <-> exists rest, buf = bs "PRI * HTTP/2" ++ rest) /\
    (p = Http11 <->
       8 <= length buf /\ http1_head buf /\ ~ exists rest, buf = bs "PRI * HTTP/2" ++ rest).
Proof. apply detect_spec. Qed.

(** The request-line validator accepts exactly the well-formed lines: a
    method of upper-case letters and dashes, one space, a non-empty target
    without spaces, one space, and a supported version. *)
Theorem request_line_exact line : validate_http11_request_line line = Ok tt <-> request_line line.
Proof. apply validate_spec. Qed.
