(* ===== verification/Net.v ===== *)
(** * Socket addresses ([core::net])

    [IpAddr] and [SocketAddr] with their standard parser and display forms. *)

From S2P Require Import Prelude Bytes.

Inductive IpAddr :=
| V4 (a b c d : N)
| V6 (groups : list N).

(** [SocketAddr]; the scope id is 0 except for parsed IPv6 addresses with one. *)
Record SocketAddr := MkAddr { sa_ip : IpAddr; sa_port : N; sa_scope : N }.

(** [SocketAddr::new]. *)
Definition socket_addr (ip : IpAddr) (port : N) : SocketAddr := MkAddr ip port 0.

#[global] Instance IpAddr_eq_dec : EqDecision IpAddr.
Proof. solve_decision. Defined.
#[global] Instance SocketAddr_eq_dec : EqDecision SocketAddr.
Proof. solve_decision. Defined.
#[global] Program Instance IpAddr_countable : Countable IpAddr :=
  inj_countable
    (fun ip => match ip with V4 a b c d => inl (a, b, c, d) | V6 g => inr g end)
    (fun x => match x with inl (a, b, c, d) => Some (V4 a b c d) | inr g => Some (V6 g) end) _.
Next Obligation. by intros []. Qed.
#[global] Program Instance SocketAddr_countable : Countable SocketAddr :=
  inj_countable
    (fun sa => (sa_ip sa, sa_port sa, sa_scope sa))
    (fun '(ip, port, scope) => Some (MkAddr ip port scope)) _.
Next Obligation. by intros []. Qed.

(** ** The parser: each reader consumes a prefix or fails *)

(** [char::to_digit]. *)
Definition to_digit (radix : N) (b : byte) : option N :=
  let c := code b in
  let d := if is_ascii_digit b then Some (c - 48)%N
           else if (97 <=? c)%N && (c <=? 122)%N then Some (c - 87)%N
           else if (65 <=? c)%N && (c <=? 90)%N then Some (c - 55)%N
           else None in
  match d with
  | Some n => if (n <? radix)%N then Some n else None
  | None => None
  end.

Definition read_given_char (c : byte) (s : str) : option (unit * str) :=
  match s with
  | b :: s' => if bool_decide (b = c) then Some (tt, s') else None
  | [] => None
  end.

(** The digit loop of [read_number]: with a digit limit the value is checked at
    the end, without one the arithmetic is checked at every digit. *)
Fixpoint read_digits (radix : N) (max_digits : option nat) (max : N)
    (acc : N) (count : nat) (s : str) : option (N * nat * str) :=
  match s with
  | [] => Some (acc, count, [])
  | b :: s' =>
      match to_digit radix b with
      | None => Some (acc, count, s)
      | Some d =>
          let acc' := (acc * radix + d)%N in
          match max_digits with
          | Some m => if m <? S count then None else read_digits radix max_digits max acc' (S count) s'
          | None => if (max <? acc')%N then None else read_digits radix max_digits max acc' (S count) s'
          end
      end
  end.

Definition read_number (radix : N) (max_digits : option nat) (max : N)
    (allow_zero_prefix : bool) (s : str) : option (N * str) :=
  '(n, count, rest) ← read_digits radix max_digits max 0 0 s;
  if (max <? n)%N then None
  else if count =? 0 then None
  else if negb allow_zero_prefix && bool_decide (s !! 0 = Some "0"%char) && (1 <? count) then None
  else Some (n, rest).

Definition read_separator {A} (sep : byte) (index : nat)
    (inner : str -> option (A * str)) (s : str) : option (A * str) :=
  if index =? 0 then inner s else '(_, s') ← read_given_char sep s; inner s'.

Definition dot : byte := "."%char.
Definition colon : byte := ":"%char.

Definition read_octet (index : nat) (s : str) : option (N * str) :=
  read_separator dot index (read_number 10 (Some 3) 255 false) s.

Definition read_ipv4_addr (s : str) : option ((N * N * N * N) * str) :=
  '(a, s) ← read_octet 0 s;
  '(b, s) ← read_octet 1 s;
  '(c, s) ← read_octet 2 s;
  '(d, s) ← read_octet 3 s;
  Some ((a, b, c, d), s).

(** [read_groups]: at most [n] more groups, [i] read so far; a trailing embedded
    IPv4 address counts as two. *)
Fixpoint read_groups (n i : nat) (acc : list N) (s : str) : list N * bool * str :=
  match n with
  | 0 => (acc, false, s)
  | S n' =>
      let group :=
        match read_separator colon i (read_number 16 (Some 4) 65535 true) s with
        | Some (g, s') => read_groups n' (S i) (acc ++ [g]) s'
        | None => (acc, false, s)
        end in
      match n' with
      | 0 => group
      | S _ =>
          match read_separator colon i read_ipv4_addr s with
          | Some ((a, b, c, d), s') => (acc ++ [a * 256 + b; c * 256 + d]%N, true, s')
          | None => group
          end
      end
  end.

Definition read_ipv6_addr (s : str) : option (list N * str) :=
  let '(head, head_ipv4, s1) := read_groups 8 0 [] s in
  if length head =? 8 then Some (head, s1)
  else if head_ipv4 : bool then None
  else
    '(_, s2) ← read_given_char colon s1;
    '(_, s3) ← read_given_char colon s2;
    let '(tail, _, s4) := read_groups (8 - (length head + 1)) 0 [] s3 in
    Some (head ++ replicate (8 - length head - length tail) 0%N ++ tail, s4).

Definition read_port (s : str) : option (N * str) :=
  '(_, s') ← read_given_char colon s;
  read_number 10 None 65535 true s'.

Definition read_scope_id (s : str) : option (N * str) :=
  '(_, s') ← read_given_char "%"%char s;
  read_number 10 None 4294967295 true s'.

Definition read_socket_addr_v4 (s : str) : option (SocketAddr * str) :=
  '((a, b, c, d), s) ← read_ipv4_addr s;
  '(port, s) ← read_port s;
  Some (socket_addr (V4 a b c d) port, s).

Definition read_socket_addr_v6 (s : str) : option (SocketAddr * str) :=
  '(_, s) ← read_given_char "["%char s;
  '(ip, s) ← read_ipv6_addr s;
  let '(scope, s) := default (0%N, s) (read_scope_id s) in
  '(_, s) ← read_given_char "]"%char s;
  '(port, s) ← read_port s;
  Some (MkAddr (V6 ip) port scope, s).

Definition parse_with {A} (inner : str -> option (A * str)) (s : str) : option A :=
  match inner s with
  | Some (a, []) => Some a
  | _ => None
  end.

(** [str::parse::<SocketAddr>] and [str::parse::<IpAddr>]. *)
Definition parse_socket_addr (s : str) : option SocketAddr :=
  parse_with (fun s => match read_socket_addr_v4 s with
                       | Some r => Some r
                       | None => read_socket_addr_v6 s
                       end) s.

Definition parse_ip_addr (s : str) : option IpAddr :=
  parse_with (fun s => match read_ipv4_addr s with
                       | Some ((a, b, c, d), r) => Some (V4 a b c d, r)
                       | None => '(g, r) ← read_ipv6_addr s; Some (V6 g, r)
                       end) s.

(** ** Display *)

Definition show_ipv4 (a b c d : N) : str :=
  show_uint a ++ [dot] ++ show_uint b ++ [dot] ++ show_uint c ++ [dot] ++ show_uint d.

(** [{:x}] of a 16-bit group. *)
Definition hex_digit (d : N) : byte := ascii_of_N (if (d <? 10)%N then 48 + d else 87 + d).
Definition show_hex (g : N) : str :=
  if (g <? 16)%N then [hex_digit g]
  else if (g <? 256)%N then [hex_digit (g / 16); hex_digit (g mod 16)]
  else if (g <? 4096)%N then
    [hex_digit (g / 256); hex_digit (g / 16 mod 16); hex_digit (g mod 16)]
  else [hex_digit (g / 4096); hex_digit (g / 256 mod 16); hex_digit (g / 16 mod 16); hex_digit (g mod 16)].

Definition show_groups (gs : list N) : str :=
  match gs with
  | [] => []
  | g :: rest => show_hex g ++ concat (map (fun h => colon :: show_hex h) rest)
  end.

(** The longest run of zero groups, the first of equals: (start, length). *)
Fixpoint zero_span (i : nat) (current longest : nat * nat) (gs : list N) : nat * nat :=
  match gs with
  | [] => longest
  | g :: rest =>
      if (g =? 0)%N then
        let current := ((if current.2 =? 0 then i else current.1), S current.2) in
        zero_span (S i) current (if longest.2 <? current.2 then current else longest) rest
      else zero_span (S i) (0, 0) longest rest
  end.

Definition show_ipv6 (gs : list N) : str :=
  match gs with
  | [0; 0; 0; 0; 0; 65535; ab; cd]%N =>
      bs "::ffff:" ++ show_ipv4 (ab / 256) (ab mod 256) (cd / 256) (cd mod 256)
  | _ =>
      let '(start, len) := zero_span 0 (0, 0) (0, 0) gs in
      if 1 <? len
      then show_groups (take start gs) ++ bs "::" ++ show_groups (drop (start + len) gs)
      else show_groups gs
  end.

Definition show_socket_addr (sa : SocketAddr) : str :=
  match sa_ip sa with
  | V4 a b c d => show_ipv4 a b c d ++ [colon] ++ show_uint (sa_port sa)
  | V6 gs =>
      bs "[" ++ show_ipv6 gs
      ++ (if (sa_scope sa =? 0)%N then [] else bs "%" ++ show_uint (sa_scope sa))
      ++ bs "]:" ++ show_uint (sa_port sa)
  end.

Example show_v6 : show_socket_addr (MkAddr (V6 [8193;3512;0;0;0;0;0;1]%N) 443 0) = bs "[2001:db8::1]:443".
Proof. vm_compute. reflexivity. Qed.
Example parse_v4 : parse_socket_addr (bs "127.0.0.1:8080") = Some (socket_addr (V4 127 0 0 1) 8080).
Proof. vm_compute. reflexivity. Qed.
Example parse_v6 : parse_socket_addr (bs "[::1%3]:80") = Some (MkAddr (V6 [0;0;0;0;0;0;0;1]%N) 80 3).
Proof. vm_compute. reflexivity. Qed.
Example parse_v6_mapped : parse_ip_addr (bs "::ffff:10.0.0.1") = Some (V6 [0;0;0;0;0;65535;2560;1]%N).
Proof. vm_compute. reflexivity. Qed.
Example parse_leading_zero : parse_socket_addr (bs "127.0.0.01:80") = None.
Proof. vm_compute. reflexivity. Qed.

(** ** Bounds of what the parser returns *)

Lemma read_number_bound radix lim max z s n r :
  read_number radix lim max z s = Some (n, r) -> (n <= max)%N.
Proof.
  unfold read_number. destruct (read_digits _ _ _ _ _ _) as [[[m k] r']|]; simpl; [|done].
  destruct (N.ltb_spec max m); [done |]. repeat step_if; try done. intros [= -> ->]. done.
Qed.

Lemma read_port_bound s p r : read_port s = Some (p, r) -> (p <= 65535)%N.
Proof.
  unfold read_port. destruct (read_given_char _ _) as [[]|]; simpl; [|done].
  apply read_number_bound.
Qed.

(** A parsed socket address has a 16-bit port. *)
Lemma parse_socket_addr_port s sa : parse_socket_addr s = Some sa -> (sa_port sa <= 65535)%N.
Proof.
  unfold parse_socket_addr, parse_with.
  destruct (read_socket_addr_v4 s) as [[sa' r]|] eqn:E4.
  - destruct r; [|done]. intros [= ->]. revert E4. unfold read_socket_addr_v4.
    destruct (read_ipv4_addr s) as [[[[[a b] c] d] s1]|]; simpl; [|done].
    destruct (read_port s1) as [[p s2]|] eqn:Ep; simpl; [|done].
    intros [= <- ->]. by eapply read_port_bound.
  - destruct (read_socket_addr_v6 s) as [[sa' r]|] eqn:E6; [|done].
    destruct r; [|done]. intros [= ->]. revert E6. unfold read_socket_addr_v6.
    destruct (read_given_char _ s) as [[[] s1]|]; simpl; [|done].
    destruct (read_ipv6_addr s1) as [[g s2]|]; simpl; [|done].
    destruct (default _ _) as [scope s3].
    destruct (read_given_char _ s3) as [[[] s4]|]; simpl; [|done].
    destruct (read_port s4) as [[p s5]|] eqn:Ep; simpl; [|done].
    intros [= <- ->]. by eapply read_port_bound.
Qed.
