(* ===== verification/Metrics.v ===== *)
(** * Metrics ([src/metrics/mod.rs])

    The registry as a record of 64-bit counters, one floating-point gauge and two
    histograms (the list of their observations).  An operation of the metrics
    library is atomic ([MetricOp]); a recording function is the sequence of
    operations it makes, between which other tasks and a scrape can act.  What an
    operation charges to the connection metrics ([charge]) adds up over the
    tasks. *)

From S2P Require Import Prelude Bytes Common Policy Net.

(** [std::time::Duration] in nanoseconds. *)
Abbreviation Duration := N (only parsing).

Definition wrap_u64 (n : N) : N := (n mod 2 ^ 64)%N.

(** [fetch_add(1)] and [fetch_sub(1)] of a 64-bit atomic ([usize] is 64 bits
    wide on the targets of the crate). *)
Definition fetch_add_1 (n : N) : N := wrap_u64 (n + 1).
Definition fetch_sub_1 (n : N) : N := wrap_u64 (n + (2 ^ 64 - 1)).

Lemma fetch_add_1_small n : (n + 1 < 2 ^ 64)%N -> fetch_add_1 n = (n + 1)%N.
Proof. intros H. by apply N.mod_small. Qed.

Lemma fetch_sub_1_small n : (1 <= n < 2 ^ 64)%N -> fetch_sub_1 n = (n - 1)%N.
Proof.
  intros H. unfold fetch_sub_1, wrap_u64. replace (n + (2 ^ 64 - 1))%N with ((n - 1) + 1 * 2 ^ 64)%N by lia.
  rewrite N.Div0.mod_add. apply N.mod_small. lia.
Qed.

Record InterlinkMetrics := MkMetrics {
  connections_total : N;
  connection_errors_total : N;
  connections_active : Z;
  handshakes_total : N;
  bytes_total : N;
  connection_duration : list Duration;
  handshake_duration : list Duration;
  policy_allowed_total : N;
  policy_denied_total : N;
  saturation_rejections_total : N;
  handshake_full_total : N;
  handshake_resumed_total : N;
  mux_tunnels_opened_total : N;
  mux_streams_total : N;
}.

#[global] Instance InterlinkMetrics_eq_dec : EqDecision InterlinkMetrics.
Proof. solve_decision. Defined.

(** ** The operations of the metrics library *)

(** The counters: atomic [u64]s, which wrap. *)
Inductive Counter :=
| ConnectionsTotal | ConnectionErrorsTotal | HandshakesTotal | BytesTotal | PolicyAllowedTotal
| PolicyDeniedTotal | SaturationRejectionsTotal | HandshakeFullTotal | HandshakeResumedTotal
| MuxTunnelsOpenedTotal | MuxStreamsTotal.

#[global] Instance Counter_eq_dec : EqDecision Counter.
Proof. solve_decision. Defined.

(** The gauge is an [f64] that starts at 0 and moves by 1.0.  Up to 2^53 such a
    step is exact; one beyond it is a tie, which rounds back to 2^53. *)
Definition F64_EXACT : Z := 2 ^ 53.
Definition f64_increment (x : Z) : Z := if (x <? F64_EXACT)%Z then (x + 1)%Z else x.
Definition f64_decrement (x : Z) : Z := if (- F64_EXACT <? x)%Z then (x - 1)%Z else x.

Inductive MetricOp :=
| Increment (c : Counter) (n : N)
| GaugeIncrement
| GaugeDecrement
| ObserveConnection (d : Duration)
| ObserveHandshake (d : Duration).

Definition apply_metric (op : MetricOp) (m : InterlinkMetrics) : InterlinkMetrics :=
  let count c v :=
    match op with Increment c' n => if decide (c = c') then wrap_u64 (v + n) else v | _ => v end in
  MkMetrics (count ConnectionsTotal (connections_total m))
    (count ConnectionErrorsTotal (connection_errors_total m))
    (match op with
     | GaugeIncrement => f64_increment (connections_active m)
     | GaugeDecrement => f64_decrement (connections_active m)
     | _ => connections_active m
     end)
    (count HandshakesTotal (handshakes_total m))
    (count BytesTotal (bytes_total m))
    (match op with ObserveConnection d => connection_duration m ++ [d] | _ => connection_duration m end)
    (match op with ObserveHandshake d => handshake_duration m ++ [d] | _ => handshake_duration m end)
    (count PolicyAllowedTotal (policy_allowed_total m))
    (count PolicyDeniedTotal (policy_denied_total m))
    (count SaturationRejectionsTotal (saturation_rejections_total m))
    (count HandshakeFullTotal (handshake_full_total m))
    (count HandshakeResumedTotal (handshake_resumed_total m))
    (count MuxTunnelsOpenedTotal (mux_tunnels_opened_total m))
    (count MuxStreamsTotal (mux_streams_total m)).

(** ** The recording functions: the operations each makes, in order *)
Module Met.

Definition new : InterlinkMetrics := MkMetrics 0 0 0 0 0 [] [] 0 0 0 0 0 0 0.

(** The sum of the byte counts is a [u64] addition. *)
Definition record_connection (bytes_up bytes_down : N) (duration : Duration) : list MetricOp :=
  [ObserveConnection duration; Increment ConnectionsTotal 1;
   Increment BytesTotal (wrap_u64 (bytes_up + bytes_down)); GaugeDecrement].
Definition record_connection_failed : list MetricOp :=
  [Increment ConnectionsTotal 1; Increment ConnectionErrorsTotal 1; GaugeDecrement].
Definition record_connection_start : list MetricOp := [GaugeIncrement].
Definition record_handshake (duration : Duration) : list MetricOp :=
  [ObserveHandshake duration; Increment HandshakesTotal 1].
Definition record_handshake_error : list MetricOp := [Increment HandshakesTotal 1].
Definition record_handshake_kind (resumed : bool) : list MetricOp :=
  [Increment (if resumed then HandshakeResumedTotal else HandshakeFullTotal) 1].
Definition record_tunnel_closed : list MetricOp := [GaugeDecrement].
Definition record_mux_tunnel_opened : list MetricOp := [Increment MuxTunnelsOpenedTotal 1].
Definition record_mux_stream : list MetricOp := [Increment MuxStreamsTotal 1].
Definition record_saturation_rejection : list MetricOp := [Increment SaturationRejectionsTotal 1].
Definition record_policy (d : Decision) : list MetricOp :=
  [Increment (match d with Allow => PolicyAllowedTotal | Deny _ => PolicyDeniedTotal end) 1].

End Met.

(** [init_metrics_exporter]: the exporter listens on the fixed metrics port;
    [install] is what the exporter reports. *)
Definition init_metrics_exporter {E} (install : SocketAddr -> result unit E) : result unit E :=
  install (socket_addr (V4 0 0 0 0) ports.METRICS).

(** ** [mod test_helpers]: five atomic 64-bit counters; [fetch_add] wraps *)
Module test_helpers.

Record counters := MkCounters {
  TEST_CONNECTIONS : N;
  TEST_BYTES : N;
  TEST_ALLOWED : N;
  TEST_DENIED : N;
  TEST_HANDSHAKE_ERRORS : N;
}.

Definition record_connection (c : counters) : counters :=
  MkCounters (wrap_u64 (TEST_CONNECTIONS c + 1)) (TEST_BYTES c) (TEST_ALLOWED c) (TEST_DENIED c)
    (TEST_HANDSHAKE_ERRORS c).
Definition record_bytes (n : N) (c : counters) : counters :=
  MkCounters (TEST_CONNECTIONS c) (wrap_u64 (TEST_BYTES c + n)) (TEST_ALLOWED c) (TEST_DENIED c)
    (TEST_HANDSHAKE_ERRORS c).
Definition increment_connections (c : counters) : counters := record_connection c.
Definition add_bytes (n : N) (c : counters) : counters := record_bytes n c.
Definition increment_allowed (c : counters) : counters :=
  MkCounters (TEST_CONNECTIONS c) (TEST_BYTES c) (wrap_u64 (TEST_ALLOWED c + 1)) (TEST_DENIED c)
    (TEST_HANDSHAKE_ERRORS c).
Definition increment_denied (c : counters) : counters :=
  MkCounters (TEST_CONNECTIONS c) (TEST_BYTES c) (TEST_ALLOWED c) (wrap_u64 (TEST_DENIED c + 1))
    (TEST_HANDSHAKE_ERRORS c).
Definition record_policy (allowed : bool) (c : counters) : counters :=
  if allowed then increment_allowed c else increment_denied c.
Definition increment_handshake_errors (c : counters) : counters :=
  MkCounters (TEST_CONNECTIONS c) (TEST_BYTES c) (TEST_ALLOWED c) (TEST_DENIED c)
    (wrap_u64 (TEST_HANDSHAKE_ERRORS c + 1)).
Definition reset (_ : counters) : counters := MkCounters 0 0 0 0 0.

End test_helpers.

(** ** Accounting of one connection *)

(** What operations have added to the metrics of connections. *)
Record charge := MkCharge {
  d_total : Z;       (** connections recorded *)
  d_errors : Z;      (** failures recorded *)
  d_active : Z;      (** slots taken minus slots released *)
  d_observed : Z;    (** duration observations *)
}.

(** Charges add up. *)
Definition no_charge : charge := MkCharge 0 0 0 0.
Definition add_charge (x y : charge) : charge :=
  MkCharge (d_total x + d_total y) (d_errors x + d_errors y) (d_active x + d_active y)
    (d_observed x + d_observed y).

Definition op_charge (op : MetricOp) : charge :=
  match op with
  | Increment ConnectionsTotal n => MkCharge (Z.of_N n) 0 0 0
  | Increment ConnectionErrorsTotal n => MkCharge 0 (Z.of_N n) 0 0
  | GaugeIncrement => MkCharge 0 0 1 0
  | GaugeDecrement => MkCharge 0 0 (-1) 0
  | ObserveConnection _ => MkCharge 0 0 0 1
  | _ => no_charge
  end.

(** What a recording function charges, once it has made all its operations. *)
Definition ops_charge (ops : list MetricOp) : charge := foldr (fun op => add_charge (op_charge op)) no_charge ops.

Lemma charge_eq (x y : charge) :
  d_total x = d_total y -> d_errors x = d_errors y -> d_active x = d_active y ->
  d_observed x = d_observed y -> x = y.
Proof. destruct x, y; simpl; congruence. Qed.

#[global] Instance add_charge_assoc : Assoc (=) add_charge.
Proof. intros x y z. apply charge_eq; simpl; lia. Qed.
#[global] Instance add_charge_comm : Comm (=) add_charge.
Proof. intros x y. apply charge_eq; simpl; lia. Qed.
#[global] Instance add_charge_right : RightId (=) no_charge add_charge.
Proof. intros x. apply charge_eq; simpl; lia. Qed.
#[global] Instance add_charge_left : LeftId (=) no_charge add_charge.
Proof. intros x. apply charge_eq; simpl; lia. Qed.

(** The counters and the histogram of connections hold what was charged, as far
    as their width goes. *)
Record tallies (m : InterlinkMetrics) (ch : charge) : Prop := {
  tally_total : Z.of_N (connections_total m) = (d_total ch mod 2 ^ 64)%Z;
  tally_errors : Z.of_N (connection_errors_total m) = (d_errors ch mod 2 ^ 64)%Z;
  tally_observed : Z.of_nat (length (connection_duration m)) = d_observed ch;
}.

Lemma wrap_tally v n x :
  Z.of_N v = (x mod 2 ^ 64)%Z -> Z.of_N (wrap_u64 (v + n)) = ((x + Z.of_N n) mod 2 ^ 64)%Z.
Proof.
  intros H. unfold wrap_u64. rewrite N2Z.inj_mod, N2Z.inj_add, H.
  change (Z.of_N (2 ^ 64)) with (2 ^ 64)%Z. by rewrite Zplus_mod_idemp_l.
Qed.

Lemma apply_tallies op m ch : tallies m ch -> tallies (apply_metric op m) (add_charge ch (op_charge op)).
Proof.
  intros [Ht He Ho].
  assert (Hsame : forall v x, Z.of_N v = (x mod 2 ^ 64)%Z -> Z.of_N v = ((x + 0) mod 2 ^ 64)%Z)
    by (intros v x ->; by rewrite Z.add_0_r).
  destruct op as [[] n| | | |]; split; cbn -[Z.modulo Z.of_N Z.of_nat wrap_u64 Z.pow Z.add];
    try (by apply Hsame); try (by apply wrap_tally); rewrite ?length_app; cbn [length]; lia.
Qed.
