(* ===== verification/Tunnels.v ===== *)
(** * The tunnel pool ([src/proxy/mux.rs])

    The data of the pool of multiplexed tunnels, and the atomic actions on it of
    which its methods are made; the methods that take several are programs
    ([Mux]).  The concurrent use of the pool is in [Holdings] and [Tasks]. *)

From S2P Require Import Prelude Bytes Common Glob Identity Policy Net Metrics.

Definition STREAMS_PER_TUNNEL : N := 200.
Definition MAX_TUNNELS_PER_PEER : nat := 16.

(** A tunnel; its [live] counter is shared by all clones and kept in the pool
    state under the tunnel's id.  [tunnel_link] stands for [open_tx]: it leads to
    the driver that owns the connection, and names the address dialled for it. *)
Record Tunnel := MkTunnel { tunnel_id : N; tunnel_peer : SpiffeId; tunnel_link : SocketAddr }.

#[global] Instance Tunnel_eq_dec : EqDecision Tunnel.
Proof. solve_decision. Defined.

Record MuxPool := MkPool {
  peers : gmap SocketAddr (list Tunnel);
  live : gmap N N;
}.

(** [Iterator::min_by_key]: the first element with the least key. *)
Fixpoint min_by_key {A} (key : A -> N) (l : list A) : option A :=
  match l with
  | [] => None
  | x :: l' =>
      match min_by_key key l' with
      | Some y => if (key y <? key x)%N then Some y else Some x
      | None => Some x
      end
  end.

Module Pool.

Definition new : MuxPool := MkPool ∅ ∅.

(** [Tunnel::load]. *)
Definition load (pool : MuxPool) (t : Tunnel) : N := default 0%N (live pool !! tunnel_id t).

(** The least loaded tunnel of the peer among those under the cap, and among all:
    what a pick finds when no counter changes under it ([Mux.pick_alone]). *)
Definition least_under_cap (pool : MuxPool) (addr : SocketAddr) : option Tunnel :=
  tunnels ← peers pool !! addr;
  min_by_key (load pool) (filter (fun t => (load pool t < STREAMS_PER_TUNNEL)%N) tunnels).
Definition least_loaded (pool : MuxPool) (addr : SocketAddr) : option Tunnel :=
  tunnels ← peers pool !! addr;
  min_by_key (load pool) tunnels.

Definition tunnel_count (pool : MuxPool) (addr : SocketAddr) : nat :=
  default 0 (length <$> peers pool !! addr).

Definition can_grow (pool : MuxPool) (addr : SocketAddr) : bool :=
  tunnel_count pool addr <? MAX_TUNNELS_PER_PEER.

Definition evict (pool : MuxPool) (addr : SocketAddr) (tunnel : Tunnel) : MuxPool :=
  match peers pool !! addr with
  | Some tunnels =>
      MkPool (<[addr := filter (fun t => tunnel_id t <> tunnel_id tunnel) tunnels]> (peers pool))
        (live pool)
  | None => pool
  end.

(** A tunnel that is not pooled yet, with a fresh live counter; the push. *)
Definition create (pool : MuxPool) (tunnel : Tunnel) : MuxPool :=
  MkPool (peers pool) (<[tunnel_id tunnel := 0%N]> (live pool)).
Definition push (pool : MuxPool) (addr : SocketAddr) (tunnel : Tunnel) : MuxPool :=
  MkPool (<[addr := default [] (peers pool !! addr) ++ [tunnel]]> (peers pool)) (live pool).

(** [live.fetch_add(1)] and the drop of a [LiveGuard]. *)
Definition reserve (pool : MuxPool) (t : Tunnel) : MuxPool :=
  MkPool (peers pool) (<[tunnel_id t := fetch_add_1 (load pool t)]> (live pool)).
Definition release (pool : MuxPool) (t : Tunnel) : MuxPool :=
  MkPool (peers pool) (<[tunnel_id t := fetch_sub_1 (load pool t)]> (live pool)).

End Pool.

(** ** Lemmas *)

Lemma min_by_key_Some {A} (key : A -> N) l x :
  min_by_key key l = Some x -> x ∈ l /\ forall y, y ∈ l -> (key x <= key y)%N.
Proof.
  revert x. induction l as [|z l IH]; intros x; simpl; [done |].
  destruct (min_by_key key l) as [y|] eqn:E.
  - destruct (IH _ eq_refl) as [Hy Hmin]. destruct (N.ltb_spec (key y) (key z)); intros [= <-].
    + split; [by right |]. intros w [->|Hw]%elem_of_cons; [lia | by apply Hmin].
    + split; [by left |]. intros w [->|Hw]%elem_of_cons; [lia |]. specialize (Hmin _ Hw). lia.
  - intros [= <-]. split; [by left |]. intros w [->|Hw]%elem_of_cons; [lia |].
    destruct l as [|v l]; [by apply not_elem_of_nil in Hw |].
    simpl in E. repeat step_match; done.
Qed.

Lemma min_by_key_None {A} (key : A -> N) l : min_by_key key l = None <-> l = [].
Proof. destruct l; simpl; [done |]. repeat step_match; done. Qed.

Lemma tunnel_count_insert pool m addr a l :
  Pool.tunnel_count (MkPool (<[addr := l]> (peers pool)) m) a =
  if decide (addr = a) then length l else Pool.tunnel_count pool a.
Proof.
  unfold Pool.tunnel_count. simpl. destruct (decide (addr = a)) as [->|].
  - by rewrite lookup_insert_eq.
  - by rewrite lookup_insert_ne.
Qed.

Lemma evict_count pool addr t a : Pool.tunnel_count (Pool.evict pool addr t) a <= Pool.tunnel_count pool a.
Proof.
  unfold Pool.evict. destruct (peers pool !! addr) as [l|] eqn:E; [|done].
  rewrite tunnel_count_insert. destruct (decide (addr = a)) as [->|]; [|done].
  unfold Pool.tunnel_count. rewrite E. simpl. apply length_filter.
Qed.

Lemma push_count pool addr t a :
  Pool.tunnel_count (Pool.push pool addr t) a =
  Pool.tunnel_count pool a + if decide (addr = a) then 1 else 0.
Proof.
  unfold Pool.push. rewrite tunnel_count_insert.
  destruct (decide (addr = a)) as [->|]; [|lia]. unfold Pool.tunnel_count.
  rewrite length_app. simpl. by destruct (peers pool !! a).
Qed.

Lemma evict_peers p a t b ts u :
  peers (Pool.evict p a t) !! b = Some ts -> u ∈ ts -> exists ts', peers p !! b = Some ts' /\ u ∈ ts'.
Proof.
  unfold Pool.evict. destruct (peers p !! a) as [l|] eqn:E; [|eauto]. simpl.
  intros [[-> <-]|[_ H]]%lookup_insert_Some Hu; [|eauto].
  apply list_elem_of_filter in Hu as [_ Hu]. eauto.
Qed.

Lemma push_peers p a t b ts u :
  peers (Pool.push p a t) !! b = Some ts -> u ∈ ts ->
  (u = t /\ b = a) \/ exists ts', peers p !! b = Some ts' /\ u ∈ ts'.
Proof.
  unfold Pool.push. simpl. intros [[-> <-]|[_ H]]%lookup_insert_Some Hu; [|eauto].
  apply elem_of_app in Hu as [Hu|Hu%list_elem_of_singleton]; [|by left].
  right. destruct (peers p !! b) as [l|]; [eauto | by apply not_elem_of_nil in Hu].
Qed.

Lemma evict_load p a t u : Pool.load (Pool.evict p a t) u = Pool.load p u.
Proof. unfold Pool.evict. by destruct (peers p !! a). Qed.

(** The load of a tunnel after one live counter was written. *)
Lemma load_update m p t n u :
  Pool.load (MkPool m (<[tunnel_id t := n]> (live p))) u
  = if (tunnel_id t =? tunnel_id u)%N then n else Pool.load p u.
Proof.
  unfold Pool.load. simpl. destruct (N.eqb_spec (tunnel_id t) (tunnel_id u)) as [->|Hne].
  - by rewrite lookup_insert_eq.
  - by rewrite lookup_insert_ne.
Qed.

Lemma load_same p t u : tunnel_id t = tunnel_id u -> Pool.load p t = Pool.load p u.
Proof. unfold Pool.load. by intros ->. Qed.

(** ** Properties *)

(** [least_under_cap] is a pooled tunnel of the peer that has spare
    capacity and that no pooled tunnel of the peer undercuts in load; there is
    none exactly when every pooled tunnel is at the cap. *)
Theorem least_under_cap_spec pool addr :
  match Pool.least_under_cap pool addr with
  | Some t => exists ts, peers pool !! addr = Some ts /\ t ∈ ts
      /\ (Pool.load pool t < STREAMS_PER_TUNNEL)%N
      /\ forall u, u ∈ ts -> (Pool.load pool t <= Pool.load pool u)%N
  | None => forall ts u, peers pool !! addr = Some ts -> u ∈ ts ->
      (STREAMS_PER_TUNNEL <= Pool.load pool u)%N
  end.
Proof.
  unfold Pool.least_under_cap. destruct (peers pool !! addr) as [ts|]; simpl; [|done].
  destruct (min_by_key _ _) as [t|] eqn:E.
  - apply min_by_key_Some in E as [[Hcap Hin]%list_elem_of_filter Hmin]. exists ts.
    split; [done |]. split; [done |]. split; [done |]. intros u Hu.
    destruct (decide (Pool.load pool u < STREAMS_PER_TUNNEL)%N) as [Hlt|Hge]; [|lia].
    apply Hmin. by apply list_elem_of_filter.
  - apply min_by_key_None in E. intros ts' u [= <-] Hu.
    destruct (decide (Pool.load pool u < STREAMS_PER_TUNNEL)%N) as [Hlt|Hge]; [|lia].
    assert (u ∈ filter (fun t => (Pool.load pool t < STREAMS_PER_TUNNEL)%N) ts) as Hf
      by (by apply list_elem_of_filter).
    rewrite E in Hf. by apply not_elem_of_nil in Hf.
Qed.

(** Evicting a tunnel removes exactly the pooled tunnels with its id: a
    replacement registered later under another id stays, other peers are
    untouched, and no live counter changes. *)
Theorem evict_exact pool addr t a :
  default [] (peers (Pool.evict pool addr t) !! a)
  = (if decide (a = addr) then filter (fun u => tunnel_id u <> tunnel_id t)
     else id) (default [] (peers pool !! a))
  /\ live (Pool.evict pool addr t) = live pool.
Proof.
  unfold Pool.evict. destruct (peers pool !! addr) as [l|] eqn:E; simpl.
  - split; [|done]. destruct (decide (a = addr)) as [->|].
    + by rewrite lookup_insert_eq, E.
    + by rewrite lookup_insert_ne.
  - split; [|done]. destruct (decide (a = addr)) as [->|]; [by rewrite E | done].
Qed.
