(* ===== verification/ProxyBase.v ===== *)
(** * Shared proxy plumbing ([src/proxy/mod.rs], [src/proxy/config.rs],
    [src/proxy/original_dst.rs])

    Upstream targets, tuning knobs read from the environment, shutdown
    signalling, socket set-up and the recovery of the original destination. *)

From S2P Require Import Prelude Bytes Common Net Policy Metrics.

(** The process environment: the variables that are set to valid Unicode. *)
Abbreviation env := (gmap (list Ascii.ascii) (list Ascii.ascii)) (only parsing).

(** ** Proxy configuration *)

Record ProxyConfig := MkProxyConfig {
  pc_trust_domain : str;
  pc_identity : option str;
  pc_default_upstream : option str;
  pc_max_connections : option N;
  pc_mux : bool;
}.

Definition default_mux_true : bool := true.

Definition proxy_config_default : ProxyConfig :=
  MkProxyConfig (bs "cluster.local") None None (Some 1024%N) true.

(** ** Upstream targets *)

Inductive UpstreamTarget :=
| Socket (addr : SocketAddr)
| Host (name : str) (port : option N).

#[global] Instance UpstreamTarget_eq_dec : EqDecision UpstreamTarget.
Proof. solve_decision. Defined.

Module Upstream.

Definition from_config (value : option str) : option UpstreamTarget :=
  match value with
  | None => None
  | Some v =>
      if bool_decide (v = []) then None
      else match parse_socket_addr v with
           | Some addr => Some (Socket addr)
           | None =>
               let '(name, port) :=
                 match rsplit_once v colon with
                 | Some (name, port) =>
                     match parse_u16 port with
                     | Ok p => (name, Some p)
                     | Err _ => (v, None)
                     end
                 | None => (v, None)
                 end in
               Some (Host name port)
           end
  end.

Definition fmt (t : UpstreamTarget) : str :=
  match t with
  | Socket addr => show_socket_addr addr
  | Host name (Some port) => name ++ [colon] ++ show_uint port
  | Host name None => name
  end.

End Upstream.

(** ** Tuning knobs *)

Definition clamp (lo hi n : N) : N := N.max lo (N.min hi n).

Definition DEFAULT_COPY_BUF_SIZE : N := 65536.

Definition copy_buf_size (e : env) : N :=
  clamp 4096 1048576
    (default DEFAULT_COPY_BUF_SIZE
      (v ← e !! bs "INTERLINK_COPY_BUF_SIZE"; ok (parse_usize v))).

(** [copy_bidirectional]: the runtime's copy ([copy], with the buffer sizes of
    the two directions) with the configured size on both sides. *)
Definition copy_bidirectional {A B R} (copy : A -> B -> N -> N -> R) (e : env) (a : A) (b : B) : R :=
  let n := copy_buf_size e in copy a b n n.

(** [available_parallelism] is the result of the system query. *)
Definition num_acceptors (e : env) (available_parallelism : option N) : N :=
  match (v ← e !! bs "INTERLINK_ACCEPTORS"; ok (parse_usize v)) with
  | Some n => clamp 1 16 n
  | None => N.max 2 (N.min (default 2%N available_parallelism) 4)
  end.

(** ** Shutdown signal: a watch channel

    What a receiver observes after the value it has seen last: values sent, and
    the sender going away. *)
Inductive watch_event := Send (b : bool) | SenderDropped.

(** [wait_shutdown]: [true] when the future resolves on these events, [false]
    while it is still pending. *)
Fixpoint wait_shutdown_from (borrowed : bool) (events : list watch_event) : bool :=
  if borrowed then true
  else match events with
       | [] => false
       | Send b :: rest => wait_shutdown_from b rest
       | SenderDropped :: _ => true
       end.

Definition wait_shutdown (shutdown : option bool) (events : list watch_event) : bool :=
  match shutdown with
  | Some current => wait_shutdown_from current events
  | None => false
  end.

(** A receiver is the history of the events it can observe; the channel holds
    [false] first.  What it borrows, and whether the sender is gone. *)
Definition watch_value (history : list watch_event) : bool :=
  foldl (fun v e => match e with Send b => b | SenderDropped => v end) false history.
Definition sender_gone (history : list watch_event) : bool :=
  existsb (fun e => match e with SenderDropped => true | Send _ => false end) history.

(** The receiver after further signals. *)
Definition heard (rx : option (list watch_event)) (more : list watch_event) :
    option (list watch_event) := (fun history => history ++ more) <$> rx.

(** The shutdown branch of one turn of an accept loop: a new wait on a clone of
    the receiver, with the events that arrive during the turn. *)
Definition shutdown_ready (rx : option (list watch_event)) (arrived : list watch_event) : bool :=
  match rx with
  | Some history =>
      wait_shutdown (Some (watch_value history))
        ((if sender_gone history then [SenderDropped] else []) ++ arrived)
  | None => wait_shutdown None arrived
  end.

(** ** Socket set-up: the system calls in order, each of which may fail *)

Inductive SockOp :=
| SocketNew (ipv6 : bool)
| SetReuseAddress
| SetReusePort
| SetNonblocking
| BindTo (addr : SocketAddr)
| Listen (backlog : N)
| IntoTokio
| SetNodelay
| SetKeepalive
| SetTcpKeepalive (seconds : N).

(** Run the operations until one fails: the operations that ran and the
    result. *)
Fixpoint run_ops (sys : SockOp -> result unit IoError) (ops : list SockOp) :
    list SockOp * result unit IoError :=
  match ops with
  | [] => ([], Ok tt)
  | op :: rest =>
      match sys op with
      | Ok _ => let '(done, r) := run_ops sys rest in (op :: done, r)
      | Err e => ([op], Err e)
      end
  end.

(** The Linux build. *)
Definition bind_reuseport (sys : SockOp -> result unit IoError) (addr : SocketAddr) :
    list SockOp * result unit IoError :=
  let ipv6 := match sa_ip addr with V6 _ => true | V4 _ _ _ _ => false end in
  run_ops sys [SocketNew ipv6; SetReuseAddress; SetReusePort; SetNonblocking;
               BindTo addr; Listen 1024; IntoTokio].

Definition configure_socket (sys : SockOp -> result unit IoError) :
    list SockOp * result unit IoError :=
  run_ops sys [SetNodelay; SetKeepalive; SetTcpKeepalive 300].

(** The acceptor loop of [run]: bind up to [n] listeners, skipping failures. *)
Fixpoint bind_all (sys : nat -> SockOp -> result unit IoError) (addr : SocketAddr)
    (i : nat) (n : nat) : list nat :=
  match n with
  | 0 => []
  | S n' =>
      match (bind_reuseport (sys i) addr).2 with
      | Ok _ => i :: bind_all sys addr (S i) n'
      | Err _ => bind_all sys addr (S i) n'
      end
  end.

(** ** Original destination of a redirected connection (Linux)

    The two [getsockopt] calls fill [sockaddr_in] and [sockaddr_in6] in network
    byte order; a record field holds the bytes as they lie in memory. *)
Record sockaddr_in := { sin_port : N * N; s_addr : N * N * N * N }.
Record sockaddr_in6 := { sin6_port : N * N; s6_addr : list N }.

Definition u16_from_be (b : N * N) : N := (b.1 * 256 + b.2)%N.
Definition u32_from_be (b : N * N * N * N) : N :=
  let '(a, b, c, d) := b in (((a * 256 + b) * 256 + c) * 256 + d)%N.

(** [Ipv4Addr::from(u32)] and [Ipv6Addr::from([u8; 16])]. *)
Definition ipv4_from_u32 (n : N) : IpAddr :=
  V4 (n / 16777216 mod 256) (n / 65536 mod 256) (n / 256 mod 256) (n mod 256).
Fixpoint groups_from_octets (bytes : list N) : list N :=
  match bytes with
  | h :: l :: rest => (h * 256 + l)%N :: groups_from_octets rest
  | _ => []
  end.

Definition get_original_dst (getsockopt4 : option sockaddr_in) (getsockopt6 : option sockaddr_in6) :
    option SocketAddr :=
  match getsockopt4 with
  | Some v4 => Some (socket_addr (ipv4_from_u32 (u32_from_be (s_addr v4))) (u16_from_be (sin_port v4)))
  | None =>
      match getsockopt6 with
      | Some v6 => Some (socket_addr (V6 (groups_from_octets (s6_addr v6))) (u16_from_be (sin6_port v6)))
      | None => None
      end
  end.

(** ** Lemmas *)

Lemma clamp_bounds lo hi n : (lo <= hi)%N -> (lo <= clamp lo hi n <= hi)%N.
Proof. unfold clamp. lia. Qed.

Lemma clamp_id lo hi n : (lo <= n <= hi)%N -> clamp lo hi n = n.
Proof. unfold clamp. lia. Qed.

Lemma wait_shutdown_from_spec b evs :
  wait_shutdown_from b evs = true <-> b = true \/ Send true ∈ evs \/ SenderDropped ∈ evs.
Proof.
  revert b. induction evs as [|[b'|] evs IH]; intros [|]; simpl; try tauto.
  - split; [done |]. intros [? | [H%not_elem_of_nil | H%not_elem_of_nil]]; done.
  - rewrite IH. rewrite !elem_of_cons. naive_solver.
  - split; [|done]. intros _. right. right. by left.
Qed.

Lemma shutdown_ready_spec rx arrived :
  shutdown_ready rx arrived = true <->
  exists history, rx = Some history
    /\ (watch_value history = true \/ SenderDropped ∈ history
        \/ Send true ∈ arrived \/ SenderDropped ∈ arrived).
Proof.
  unfold shutdown_ready. destruct rx as [h|]; simpl; [|naive_solver].
  rewrite wait_shutdown_from_spec, !elem_of_app.
  assert (Hg : sender_gone h = true <-> SenderDropped ∈ h).
  { unfold sender_gone. rewrite existsb_exists. setoid_rewrite <- list_elem_of_In.
    split; [intros ([b|] & Hin & He); done | by exists SenderDropped]. }
  assert (Hn : forall e, e ∈ (if sender_gone h then [SenderDropped] else [])
                 <-> e = SenderDropped /\ SenderDropped ∈ h).
  { intros e. rewrite <- Hg. destruct (sender_gone h).
    - rewrite list_elem_of_singleton. tauto.
    - rewrite elem_of_nil. naive_solver. }
  rewrite !Hn. naive_solver.
Qed.

Lemma from_config_host name port :
  (port <= 65535)%N ->
  parse_socket_addr (Upstream.fmt (Host name (Some port))) = None ->
  Upstream.from_config (Some (Upstream.fmt (Host name (Some port)))) = Some (Host name (Some port)).
Proof.
  intros Hp Hn. unfold Upstream.from_config. rewrite Hn, bool_decide_false by (by destruct name).
  cbn [Upstream.fmt app]. rewrite rsplit_once_app.
  - unfold parse_u16. by rewrite parse_show_uint.
  - intros Hin. pose proof (show_uint_digits port) as Hd.
    rewrite Forall_forall in Hd. by specialize (Hd _ Hin).
Qed.

Lemma run_ops_ok sys ops :
  (run_ops sys ops).2 = Ok tt <-> Forall (fun op => is_ok (sys op) = true) ops.
Proof.
  induction ops as [|op ops IH]; simpl; [by split |].
  rewrite Forall_cons, <- IH. destruct (sys op); simpl; [|naive_solver].
  destruct (run_ops sys ops). simpl. tauto.
Qed.

(** ** Properties *)

(** The proxies' shutdown wait resolves exactly when the signal is on: it is
    already on, is turned on later, or its sender is gone; toggling it off and
    waiting without a signal never resolve it. *)
Theorem shutdown_wait_exact shutdown events :
  wait_shutdown shutdown events = true <->
  exists current, shutdown = Some current
    /\ (current = true \/ Send true ∈ events \/ SenderDropped ∈ events).
Proof.
  unfold wait_shutdown. destruct shutdown as [b|]; [|naive_solver].
  rewrite wait_shutdown_from_spec. naive_solver.
Qed.
