(* ===== verification/Addresses.v ===== *)
(** * Socket addresses as text, and configured upstreams ([src/proxy/mod.rs])

    Printing a socket address and parsing it back, for both families, and what
    that means for upstream targets, which are configured as text and printed in
    logs and errors. *)

From S2P Require Import Prelude Bytes Common Net Policy Metrics ProxyBase.

(** ** Numbers *)

(** The number that a list of digits denotes, from [acc] on. *)
Definition number (radix acc : N) (vs : list N) : N := foldl (fun a v => a * radix + v)%N acc vs.

(** The text cannot continue a number of this radix. *)
Definition stops (radix : N) (r : str) : Prop :=
  match r with [] => True | b :: _ => to_digit radix b = None end.

Lemma number_ge radix acc vs : (1 <= radix)%N -> (acc <= number radix acc vs)%N.
Proof.
  intros Hr. revert acc. induction vs as [|v vs IH]; intros acc; [done |]. cbn [number foldl].
  etrans; [|apply IH]. nia.
Qed.

Lemma read_digits_stop radix lim max acc cnt r :
  stops radix r -> read_digits radix lim max acc cnt r = Some (acc, cnt, r).
Proof. destruct r as [|b r]; [done |]. cbn [stops read_digits]. by intros ->. Qed.

(** The digits of a text are consumed up to where it stops. *)
Lemma read_digits_app radix lim max ds vs acc cnt r :
  (1 <= radix)%N -> map (to_digit radix) ds = map Some vs ->
  match lim with Some m => cnt + length ds <= m | None => (number radix acc vs <= max)%N end ->
  read_digits radix lim max acc cnt (ds ++ r) = read_digits radix lim max (number radix acc vs) (cnt + length ds) r.
Proof.
  intros Hr. revert vs acc cnt. induction ds as [|b ds IH]; intros [|v vs] acc cnt Hm Hl; try done.
  - cbn [app length number foldl]. by rewrite Nat.add_0_r.
  - cbn [map] in Hm. injection Hm as Hb Hm. cbn [app read_digits]. rewrite Hb. cbv zeta. cbn [length] in *.
    replace (cnt + S (length ds)) with (S cnt + length ds) by lia.
    destruct lim as [m|].
    + destruct (Nat.ltb_spec m (S cnt)); [lia |]. apply (IH vs); [done | lia].
    + pose proof (number_ge radix (acc * radix + v) vs Hr).
      change (number radix acc (v :: vs)) with (number radix (acc * radix + v) vs) in *.
      destruct (N.ltb_spec max (acc * radix + v)); [lia |]. by apply (IH vs).
Qed.

Lemma read_number_text radix lim max zero ds vs r :
  (1 <= radix)%N -> ds <> [] -> map (to_digit radix) ds = map Some vs -> (number radix 0 vs <= max)%N ->
  match lim with Some m => length ds <= m | None => True end ->
  (zero = true \/ length ds = 1 \/ head ds <> Some "0"%char) -> stops radix r ->
  read_number radix lim max zero (ds ++ r) = Some (number radix 0 vs, r).
Proof.
  intros Hr Hne Hm Hmax Hlim Hz Hs. unfold read_number.
  rewrite (read_digits_app _ _ _ ds vs) by (by destruct lim). rewrite read_digits_stop by done.
  cbn [mbind option_bind]. destruct (N.ltb_spec max (number radix 0 vs)); [lia |].
  destruct ds as [|b ds]; [done |]. cbn [length Nat.add Nat.eqb app].
  destruct zero; [done |]. cbn [negb andb]. destruct Hz as [?|[Hz|Hz]]; [done | |].
  - cbn [length] in Hz. rewrite Hz. by rewrite andb_false_r.
  - rewrite bool_decide_false; [done |]. cbn [head lookup list_lookup] in *. done.
Qed.

(** *** Decimal *)

Lemma show_uint_fuel_value f : forall n acc va,
  (n < 2 ^ N.of_nat f)%N -> map (to_digit 10) acc = map Some va ->
  exists vs, map (to_digit 10) (show_uint_fuel f n acc) = map Some vs /\ number 10 0 vs = number 10 n va.
Proof.
  induction f as [|f IH]; intros n acc va Hf Ha.
  - simpl in Hf. replace n with 0%N by lia. by exists va.
  - cbn [show_uint_fuel]. assert (Hm : (n mod 10 < 10)%N) by (by apply N.mod_lt).
    assert (Hd : to_digit 10 (ascii_of_N (48 + n mod 10)) = Some (n mod 10)%N).
    { destruct (digit_byte _ Hm) as [Hd Hc]. unfold to_digit. rewrite Hd, Hc.
      replace (48 + n mod 10 - 48)%N with (n mod 10)%N by (generalize (n mod 10)%N; intros; lia). by rewrite (proj2 (N.ltb_lt _ _) Hm). }
    assert (Ha' : map (to_digit 10) (ascii_of_N (48 + n mod 10) :: acc) = map Some (n mod 10 :: va)%N).
    { cbn [map]. by rewrite Hd, Ha. }
    destruct (N.ltb_spec n 10) as [Hlt|Hge].
    + exists (n mod 10 :: va)%N. split; [done |]. by rewrite N.mod_small by done.
    + assert (Hdiv : n = (10 * (n / 10) + n mod 10)%N) by (apply N.div_mod; done).
      rewrite Nat2N.inj_succ, N.pow_succ_r' in Hf.
      assert (Hq : (n / 10 < 2 ^ N.of_nat f)%N).
      { clear -Hdiv Hf Hge. revert Hdiv Hf. generalize (n / 10)%N (n mod 10)%N (2 ^ N.of_nat f)%N. intros; lia. }
      destruct (IH (n / 10)%N _ _ Hq Ha') as (vs & Hvs & Hn). exists vs. split; [done |].
      rewrite Hn. unfold number. cbn [foldl]. f_equal.
      revert Hdiv. generalize (n / 10)%N (n mod 10)%N. intros; lia.
Qed.

Lemma show_uint_value n :
  exists vs, map (to_digit 10) (show_uint n) = map Some vs /\ number 10 0 vs = n.
Proof.
  unfold show_uint. destruct (show_uint_fuel_value (S (N.to_nat (N.log2 n))) n [] []) as (vs & ? & Hn); [|done|by exists vs].
  rewrite Nat2N.inj_succ, N2Nat.id. destruct (decide (n = 0%N)) as [->|]; [done |]. apply N.log2_spec. lia.
Qed.

Lemma show_uint_nonnil n : show_uint n <> [].
Proof. apply show_uint_fuel_nonnil. by left. Qed.

(** A number without a digit limit: a port or a scope. *)
Lemma read_uint max n r :
  (n <= max)%N -> stops 10 r -> read_number 10 None max true (show_uint n ++ r) = Some (n, r).
Proof.
  intros Hn Hs. destruct (show_uint_value n) as (vs & Hv & <-).
  apply read_number_text; try done; [apply show_uint_nonnil | by left].
Qed.

Lemma octets_text : forallb (fun n => let s := show_uint (N.of_nat n) in
  (length s <=? 3) && ((length s =? 1) || negb (bool_decide (head s = Some "0"%char)))) (seq 0 256) = true.
Proof. vm_compute. reflexivity. Qed.

Lemma read_octet_text n r :
  (n <= 255)%N -> stops 10 r -> read_number 10 (Some 3) 255 false (show_uint n ++ r) = Some (n, r).
Proof.
  intros Hn Hs. destruct (show_uint_value n) as (vs & Hv & Hval).
  pose proof octets_text as Ho. rewrite forallb_forall in Ho.
  specialize (Ho (N.to_nat n) ltac:(apply in_seq; lia)). cbv zeta in Ho. rewrite N2Nat.id in Ho. bool_props.
  rewrite <- Hval at 2. apply read_number_text; try done; [apply show_uint_nonnil | by rewrite Hval | right].
  destruct H0; bool_props; auto.
Qed.

(** *** IPv4 *)

Lemma to_digit_dot radix : to_digit radix dot = None.
Proof. done. Qed.

Lemma read_ipv4_text a b c d r :
  (a <= 255)%N -> (b <= 255)%N -> (c <= 255)%N -> (d <= 255)%N -> stops 10 r ->
  read_ipv4_addr (show_ipv4 a b c d ++ r) = Some ((a, b, c, d), r).
Proof.
  intros Ha Hb Hc Hd Hr. unfold read_ipv4_addr, read_octet, show_ipv4, read_separator. rewrite <- !app_assoc.
  cbn [Nat.eqb]. rewrite read_octet_text by done. cbn [mbind option_bind app read_given_char].
  rewrite bool_decide_true by done. cbn [mbind option_bind]. rewrite read_octet_text by done.
  cbn [mbind option_bind app read_given_char]. rewrite bool_decide_true by done. cbn [mbind option_bind].
  rewrite read_octet_text by done. cbn [mbind option_bind app read_given_char].
  rewrite bool_decide_true by done. cbn [mbind option_bind]. by rewrite read_octet_text.
Qed.

(** *** Hexadecimal groups *)

Lemma hex_digit_value d : (d < 16)%N -> to_digit 16 (hex_digit d) = Some d.
Proof.
  intros Hd. assert (Hall : forallb (fun n => bool_decide (to_digit 16 (hex_digit (N.of_nat n)) = Some (N.of_nat n)))
    (seq 0 16) = true) by (vm_compute; reflexivity).
  rewrite forallb_forall in Hall. specialize (Hall (N.to_nat d) ltac:(apply in_seq; lia)).
  rewrite N2Nat.id in Hall. by apply bool_decide_eq_true_1 in Hall.
Qed.

Lemma show_hex_value g : (g <= 65535)%N ->
  exists vs, map (to_digit 16) (show_hex g) = map Some vs /\ number 16 0 vs = g
    /\ show_hex g <> [] /\ length (show_hex g) <= 4.
Proof.
  intros Hg. unfold show_hex.
  assert (Hmod : forall n, (n mod 16 < 16)%N) by (intros; by apply N.mod_lt).
  assert (Hdiv : forall n, n = (16 * (n / 16) + n mod 16)%N) by (intros; apply N.div_mod; done).
  assert (H256 : (g / 256 = g / 16 / 16)%N) by (by rewrite N.Div0.div_div).
  assert (H4096 : (g / 4096 = g / 256 / 16)%N) by (by rewrite N.Div0.div_div).
  pose proof (Hdiv g). pose proof (Hdiv (g / 16)%N) as H2. pose proof (Hdiv (g / 256)%N) as H3.
  rewrite <- H256 in H2. rewrite <- H4096 in H3.
  pose proof (Hmod g). pose proof (Hmod (g / 16)%N). pose proof (Hmod (g / 256)%N).
  clear H256 H4096 Hdiv Hmod. revert H H2 H3 H0 H1 H4.
  generalize (g / 16)%N (g / 256)%N (g / 4096)%N. intros x y z. generalize (x mod 16)%N (y mod 16)%N (g mod 16)%N.
  intros mx my mg H H2 H3 H0 H1 H4.
  repeat match goal with |- context [(g <? ?n)%N] => destruct (N.ltb_spec g n) end.
  - exists [g]. cbn [map length number foldl]. rewrite hex_digit_value by lia. split; [done |]. split; [lia |]. split; [done | lia].
  - exists [x; mg]. cbn [map length number foldl]. rewrite !hex_digit_value by lia. split; [done |]. split; [lia |]. split; [done | lia].
  - exists [y; mx; mg]. cbn [map length number foldl]. rewrite !hex_digit_value by lia. split; [done |]. split; [lia |]. split; [done | lia].
  - exists [z; my; mx; mg]. cbn [map length number foldl]. rewrite !hex_digit_value by lia. split; [done |]. split; [lia |]. split; [done | lia].
Qed.

Lemma read_hex g r : (g <= 65535)%N -> stops 16 r ->
  read_number 16 (Some 4) 65535 true (show_hex g ++ r) = Some (g, r).
Proof.
  intros Hg Hs. destruct (show_hex_value g Hg) as (vs & Hv & Hn & Hne & Hl).
  rewrite <- Hn at 2. apply read_number_text; try done; [by rewrite Hn | by left].
Qed.

(** *** IPv6 *)

(** What may follow a group that is not the beginning of an embedded IPv4
    address. *)
Definition ends_group (r : str) : Prop := stops 16 r /\ head r <> Some dot.

Lemma show_hex_no_dot g : (g <= 65535)%N -> dot ∉ show_hex g.
Proof.
  intros Hg Hin. destruct (show_hex_value g Hg) as (vs & Hv & _).
  apply (list_elem_of_fmap_2 (to_digit 16)) in Hin. unfold fmap in Hin.
  change (to_digit 16 dot ∈ map (to_digit 16) (show_hex g)) in Hin. rewrite Hv, to_digit_dot in Hin.
  by apply list_elem_of_fmap in Hin as (v & ? & _).
Qed.

(** A number consumes decimal digits only. *)
Lemma read_digits_rest radix lim max acc cnt s n k r :
  read_digits radix lim max acc cnt s = Some (n, k, r) ->
  exists p, s = p ++ r /\ Forall (fun b => is_Some (to_digit radix b)) p.
Proof.
  revert acc cnt. induction s as [|b s IH]; intros acc cnt; simpl; [intros [= _ _ <-]; by exists [] |].
  destruct (to_digit radix b) as [d|] eqn:Ed; [|intros [= _ _ <-]; by exists []].
  assert (Hgo : forall acc' cnt', read_digits radix lim max acc' cnt' s = Some (n, k, r) ->
    exists p, b :: s = p ++ r /\ Forall (fun b => is_Some (to_digit radix b)) p).
  { intros acc' cnt' (p & -> & Hp)%IH. exists (b :: p). split; [done |]. constructor; [by eexists | done]. }
  destruct lim; step_if; try done; apply Hgo.
Qed.

Lemma to_digit_10_16 b : is_Some (to_digit 10 b) -> to_digit 16 b <> None.
Proof.
  unfold to_digit. destruct (is_ascii_digit b) eqn:E.
  - destruct (N.ltb_spec (code b - 48) 10) as [Hlt|]; [|by intros []]. intros _.
    by rewrite (proj2 (N.ltb_lt (code b - 48) 16)) by lia.
  - repeat step_if; try (by intros []); bool_props; lia.
Qed.

(** A hexadecimal group without a dot behind it is no IPv4 address. *)
Lemma read_ipv4_hex g r : (g <= 65535)%N -> ends_group r -> read_ipv4_addr (show_hex g ++ r) = None.
Proof.
  intros Hg [Hs Hd]. unfold read_ipv4_addr.
  change (read_octet 0 (show_hex g ++ r)) with (read_number 10 (Some 3) 255 false (show_hex g ++ r)).
  unfold read_number at 1. destruct (read_digits 10 (Some 3) 255 0 0 (show_hex g ++ r)) as [[[n k] rest]|] eqn:E; [|done].
  cbn [mbind option_bind]. apply read_digits_rest in E as (p & Hp & Hdig).
  assert (Hrest : head rest <> Some dot).
  { intros Hh. destruct rest as [|b x]; [done |]. injection Hh as ->.
    destruct (app_eq_cases _ _ _ _ Hp) as [(m & -> & ->)|(m & Hm & Hx)].
    - destruct m as [|b m]; [done |].
      apply Forall_app in Hdig as [_ Hb]. apply Forall_cons in Hb as [Hb _].
      by apply to_digit_10_16 in Hb.
    - destruct m as [|b m]; [by simpl in Hx; subst r |]. injection Hx as <- _.
      apply (show_hex_no_dot g Hg). rewrite Hm. apply elem_of_app. right. by left. }
  repeat step_if; try done. cbn [mbind option_bind]. unfold read_octet, read_separator. cbn [Nat.eqb].
  destruct rest as [|b x]; [done |]. cbn [read_given_char]. rewrite bool_decide_false; [done |]. by intros ->.
Qed.

(** Groups from the [i]-th on, each with its separator. *)
Fixpoint groups_text (i : nat) (gs : list N) : str :=
  match gs with
  | [] => []
  | g :: rest => (if i =? 0 then [] else [colon]) ++ show_hex g ++ groups_text (S i) rest
  end.

Lemma show_groups_text gs : show_groups gs = groups_text 0 gs.
Proof.
  destruct gs as [|g rest]; [done |]. simpl. f_equal. generalize 0 as i.
  induction rest as [|h rest IH]; intros i; [done |]. simpl. f_equal. f_equal. apply (IH (S i)).
Qed.

Lemma read_separator_text {A} i (inner : str -> option (A * str)) s :
  read_separator colon i inner ((if i =? 0 then [] else [colon]) ++ s) = inner s.
Proof. unfold read_separator. destruct i; [done |]. cbn. by rewrite bool_decide_true. Qed.

(** Where the groups end. *)
Definition no_group (i : nat) (r : str) : Prop :=
  read_separator colon i (read_number 16 (Some 4) 65535 true) r = None
  /\ read_separator colon i read_ipv4_addr r = None.

Lemma read_groups_stop n i acc r : no_group i r -> read_groups n i acc r = (acc, false, r).
Proof. intros [H1 H2]. destruct n as [|[|n]]; cbn [read_groups]; [done | by rewrite H1 |]. by rewrite H2, H1. Qed.

Lemma ends_group_text i gs r : ends_group r -> ends_group (groups_text (S i) gs ++ r).
Proof. by destruct gs. Qed.

Lemma read_groups_text gs n i acc r :
  length gs <= n -> Forall (fun g => (g <= 65535)%N) gs -> ends_group r ->
  (length gs = n \/ no_group (i + length gs) r) ->
  read_groups n i acc (groups_text i gs ++ r) = (acc ++ gs, false, r).
Proof.
  intros Hl Hg Hr. revert n i acc Hl. induction Hg as [|g gs Hg Hgs IH]; intros n i acc Hl Hend.
  - rewrite app_nil_r. cbn [groups_text app]. destruct Hend as [Hend|Hend].
    + cbn [length] in Hend. by subst n.
    + cbn [length] in Hend. rewrite Nat.add_0_r in Hend. by apply read_groups_stop.
  - destruct n as [|n]; [simpl in Hl; lia |]. cbn [groups_text length] in *. rewrite <- !app_assoc.
    assert (Hnext : ends_group (groups_text (S i) gs ++ r)) by (by apply ends_group_text).
    cbn [read_groups]. rewrite !read_separator_text, read_hex by (done || apply Hnext).
    rewrite read_ipv4_hex by done.
    rewrite IH by (lia || (destruct Hend as [?|Hend]; [left; lia | right; by replace (S i + length gs) with (i + S (length gs)) by lia])).
    rewrite <- app_assoc. by destruct n.
Qed.

(** The end of an address in brackets, or of the text. *)
Definition closes (r : str) : Prop :=
  match r with [] => True | b :: _ => b = "]"%char \/ b = "%"%char end.

Lemma closes_ends r : closes r -> ends_group r /\ (forall i, no_group i r) /\ stops 10 r.
Proof.
  destruct r as [|b r]; [intros _; split; [done |]; split; [by intros [] | done] |].
  intros [->| ->]; (split; [done |]); (split; [by intros [] | done]).
Qed.

Lemma double_colon_ends r i : no_group i (bs "::" ++ r) /\ ends_group (bs "::" ++ r).
Proof. split; [|done]. by destruct i. Qed.

(** The span of zero groups that is left out. *)
Definition zeros_at (gs : list N) (span : nat * nat) : Prop :=
  span.1 + span.2 <= length gs /\ forall k, span.1 <= k < span.1 + span.2 -> gs !! k = Some 0%N.

Lemma zero_span_zeros rest : forall pre current longest,
  zeros_at (pre ++ rest) longest ->
  (current.2 <> 0 -> current.1 + current.2 = length pre) ->
  (forall k, length pre - current.2 <= k < length pre -> pre !! k = Some 0%N) -> current.2 <= length pre ->
  zeros_at (pre ++ rest) (zero_span (length pre) current longest rest).
Proof.
  induction rest as [|g rest IH]; intros pre [cs cl] longest Hlon Hcur Hz Hle; [done |].
  cbn [zero_span fst snd] in *.
  replace (pre ++ g :: rest) with ((pre ++ [g]) ++ rest) in * by (by rewrite <- app_assoc).
  replace (S (length pre)) with (length (pre ++ [g])) by (rewrite length_app; simpl; lia).
  destruct (N.eqb_spec g 0) as [->|Hne].
  - cbv zeta. set (cur := ((if cl =? 0 then length pre else cs), S cl)).
    assert (Hsum : cur.1 + cur.2 = length (pre ++ [0%N])).
    { subst cur. rewrite length_app. cbn [fst snd length]. destruct (Nat.eqb_spec cl 0) as [->|Hn]; [lia |].
      specialize (Hcur Hn). lia. }
    assert (Hzero : forall k, length (pre ++ [0%N]) - cur.2 <= k < length (pre ++ [0%N]) -> (pre ++ [0%N]) !! k = Some 0%N).
    { intros k. rewrite length_app. subst cur. cbn [fst snd length]. intros Hk.
      destruct (decide (k = length pre)) as [->|]; [by rewrite lookup_app_r, Nat.sub_diag by done |].
      rewrite lookup_app_l by lia. apply Hz. lia. }
    apply IH; try done; [|subst cur; rewrite length_app; simpl; lia].
    destruct (_ <? _); [|done]. split; [rewrite Hsum, !length_app; lia |].
    intros k Hk. rewrite lookup_app_l by (rewrite <- Hsum; lia). apply Hzero. rewrite <- Hsum. lia.
  - apply IH; [done | by simpl | simpl; intros k; lia | simpl; lia].
Qed.

Lemma zeros_split gs span : zeros_at gs span ->
  gs = take span.1 gs ++ replicate span.2 0%N ++ drop (span.1 + span.2) gs.
Proof.
  intros [Hl Hz]. rewrite <- (take_drop span.1 gs) at 1. f_equal. rewrite <- drop_drop.
  rewrite <- (take_drop span.2 (drop span.1 gs)) at 1. f_equal. apply list_eq. intros k.
  destruct (decide (k < span.2)) as [Hk|Hk].
  - rewrite lookup_take_lt, lookup_drop, Hz by lia. by rewrite lookup_replicate_2.
  - rewrite !lookup_ge_None_2; [done | rewrite length_replicate; lia | rewrite length_take; lia].
Qed.

(** The three ways of printing an IPv6 address. *)
Lemma show_ipv6_cases gs : length gs = 8 ->
  (exists ab cd, gs = [0; 0; 0; 0; 0; 65535; ab; cd]%N
     /\ show_ipv6 gs = bs "::ffff:" ++ show_ipv4 (ab / 256) (ab mod 256) (cd / 256) (cd mod 256))
  \/ show_ipv6 gs =
     let '(start, len) := zero_span 0 (0, 0) (0, 0) gs in
     if 1 <? len
     then show_groups (take start gs) ++ bs "::" ++ show_groups (drop (start + len) gs)
     else show_groups gs.
Proof.
  intros Hl. destruct gs as [|g0 [|g1 [|g2 [|g3 [|g4 [|g5 [|g6 [|g7 [|]]]]]]]]]; try done.
  destruct (decide (g0 = 0 /\ g1 = 0 /\ g2 = 0 /\ g3 = 0 /\ g4 = 0 /\ g5 = 65535)%N) as [Hm|Hm].
  - destruct Hm as (-> & -> & -> & -> & -> & ->). left. by exists g6, g7.
  - right. unfold show_ipv6.
    destruct g0; [|done]. destruct g1; [|done]. destruct g2; [|done]. destruct g3; [|done]. destruct g4; [|done].
    destruct (decide (g5 = 65535%N)) as [->|Hne]; [by destruct Hm |].
    repeat (case_match; subst; try done).
Qed.

Lemma read_char c s : read_given_char c (c :: s) = Some (tt, s).
Proof. cbn. by rewrite bool_decide_true. Qed.

Lemma read_ipv6_compressed hd n tl r :
  length hd + n + length tl = 8 -> 1 < n ->
  Forall (fun g => (g <= 65535)%N) hd -> Forall (fun g => (g <= 65535)%N) tl -> closes r ->
  read_ipv6_addr ((show_groups hd ++ bs "::" ++ show_groups tl) ++ r) = Some (hd ++ replicate n 0%N ++ tl, r).
Proof.
  intros Hl Hn Hh Ht Hr. destruct (closes_ends r Hr) as (Hre & Hrn & _).
  unfold read_ipv6_addr. rewrite !show_groups_text, <- !app_assoc.
  destruct (double_colon_ends (groups_text 0 tl ++ r) (0 + length hd)) as [Hd1 Hd2].
  rewrite read_groups_text by (done || lia || by right). cbn [app].
  replace (length hd =? 8) with false by (symmetry; apply Nat.eqb_neq; lia).
  change (bs "::" ++ groups_text 0 tl ++ r) with (colon :: colon :: groups_text 0 tl ++ r).
  rewrite read_char. cbn [mbind option_bind]. rewrite read_char. cbn [mbind option_bind].
  rewrite read_groups_text; [|lia | done | done | right; apply Hrn]. cbn [app].
  by replace (8 - length hd - length tl) with n by lia.
Qed.

Lemma byte_pair g : (g <= 65535)%N ->
  (g / 256 <= 255)%N /\ (g mod 256 <= 255)%N /\ (g / 256 * 256 + g mod 256 = g)%N.
Proof.
  intros Hg. pose proof (N.div_mod g 256 ltac:(done)) as Hd. pose proof (N.mod_lt g 256 ltac:(done)).
  revert Hd H. generalize (g / 256)%N (g mod 256)%N. intros; lia.
Qed.

Lemma read_ipv6_mapped ab cd r :
  (ab <= 65535)%N -> (cd <= 65535)%N -> closes r ->
  read_ipv6_addr ((bs "::ffff:" ++ show_ipv4 (ab / 256) (ab mod 256) (cd / 256) (cd mod 256)) ++ r)
  = Some ([0; 0; 0; 0; 0; 65535; ab; cd]%N, r).
Proof.
  intros Hab Hcd Hr. destruct (closes_ends r Hr) as (_ & _ & Hs). destruct (byte_pair ab Hab) as (Ha & Hb & Eab).
  destruct (byte_pair cd Hcd) as (Hc & Hd & Ecd).
  unfold read_ipv6_addr. rewrite <- app_assoc.
  set (v4 := show_ipv4 (ab / 256) (ab mod 256) (cd / 256) (cd mod 256) ++ r).
  assert (H0 : read_groups 8 0 [] (bs "::ffff:" ++ v4) = ([], false, bs "::ffff:" ++ v4)).
  { apply read_groups_stop. by split. }
  rewrite H0. cbn [length Nat.eqb].
  change (bs "::ffff:" ++ v4) with (colon :: colon :: bs "ffff" ++ colon :: v4).
  rewrite read_char. cbn [mbind option_bind]. rewrite read_char. cbn [mbind option_bind Nat.add Nat.sub].
  assert (H1 : read_groups 7 0 [] (bs "ffff" ++ colon :: v4) = ([65535; ab; cd]%N, true, r)).
  { cbn [read_groups]. change (bs "ffff") with ((if 0 =? 0 then [] else [colon]) ++ show_hex 65535).
    rewrite <- app_assoc, !read_separator_text, read_hex, read_ipv4_hex by done.
    change (colon :: v4) with ((if 1 =? 0 then [] else [colon]) ++ v4). rewrite !read_separator_text.
    subst v4. rewrite read_ipv4_text by done. cbn [app]. by rewrite Eab, Ecd. }
  by rewrite H1.
Qed.

(** Printing an IPv6 address and reading it back. *)
Lemma read_ipv6_text gs r :
  length gs = 8 -> Forall (fun g => (g <= 65535)%N) gs -> closes r ->
  read_ipv6_addr (show_ipv6 gs ++ r) = Some (gs, r).
Proof.
  intros Hl Hg Hr. destruct (show_ipv6_cases gs Hl) as [(ab & cd & Egs & ->)| ->].
  - rewrite Egs. rewrite Egs in Hg. repeat (apply Forall_cons in Hg as [? Hg]). by apply read_ipv6_mapped.
  - pose proof (zero_span_zeros gs [] (0, 0) (0, 0)) as Hz. cbn [app length] in Hz.
    specialize (Hz ltac:(split; simpl; [lia | intros; lia]) ltac:(simpl; done) ltac:(simpl; intros; lia) ltac:(simpl; lia)).
    destruct (zero_span 0 (0, 0) (0, 0) gs) as [start len]. destruct (Nat.ltb_spec 1 len) as [Hlen|].
    + pose proof (zeros_split gs _ Hz) as Hsp. destruct Hz as [Hb _]. cbn [fst snd] in *.
      rewrite Hsp at 3. apply read_ipv6_compressed; [|done|by apply Forall_take|by apply Forall_drop|done].
      rewrite length_take, length_drop. lia.
    + destruct (closes_ends r Hr) as (Hre & _ & _). unfold read_ipv6_addr. rewrite show_groups_text.
      rewrite read_groups_text by (done || lia || by left). cbn [app]. by rewrite Hl.
Qed.

(** ** Socket addresses *)

(** The addresses Rust's [SocketAddr] can hold: octets, groups, ports and scopes
    of their width; only IPv6 addresses have a scope. *)
Definition wf_addr (sa : SocketAddr) : Prop :=
  (sa_port sa <= 65535)%N /\
  match sa_ip sa with
  | V4 a b c d => (a <= 255)%N /\ (b <= 255)%N /\ (c <= 255)%N /\ (d <= 255)%N /\ sa_scope sa = 0%N
  | V6 gs => length gs = 8 /\ Forall (fun g => (g <= 65535)%N) gs /\ (sa_scope sa <= 4294967295)%N
  end.

Lemma read_port_text p : (p <= 65535)%N -> read_port (colon :: show_uint p) = Some (p, []).
Proof.
  intros Hp. unfold read_port. rewrite read_char. cbn [mbind option_bind].
  rewrite <- (app_nil_r (show_uint p)). by apply read_uint.
Qed.

Lemma parse_show_socket_addr sa : wf_addr sa -> parse_socket_addr (show_socket_addr sa) = Some sa.
Proof.
  destruct sa as [ip port scope]. intros [Hp Hip]. cbn [sa_ip sa_port sa_scope] in *.
  unfold parse_socket_addr, parse_with, show_socket_addr. cbn [sa_ip sa_port sa_scope].
  destruct ip as [a b c d|gs].
  - destruct Hip as (Ha & Hb & Hc & Hd & ->). unfold read_socket_addr_v4.
    rewrite read_ipv4_text by done. cbn [mbind option_bind app]. by rewrite read_port_text.
  - destruct Hip as (Hl & Hg & Hs). cbn [bs String.list_ascii_of_string app].
    assert (H4 : forall s, read_socket_addr_v4 ("["%char :: s) = None) by done. rewrite H4.
    unfold read_socket_addr_v6. rewrite read_char. cbn [mbind option_bind].
    set (tail := "]"%char :: ":"%char :: show_uint port).
    assert (Ht : closes (match scope with 0%N => [] | _ => "%"%char :: show_uint scope end ++ tail)).
    { destruct scope; simpl; [by left | by right]. }
    assert (Htext : (if (scope =? 0)%N then [] else "%"%char :: show_uint scope) ++ tail
      = match scope with 0%N => [] | _ => "%"%char :: show_uint scope end ++ tail) by (by destruct scope).
    rewrite Htext, read_ipv6_text by done. cbn [mbind option_bind].
    assert (Hscope : default (0%N, match scope with 0%N => [] | _ => "%"%char :: show_uint scope end ++ tail)
      (read_scope_id (match scope with 0%N => [] | _ => "%"%char :: show_uint scope end ++ tail)) = (scope, tail)).
    { destruct scope as [|q]; [done |]. unfold read_scope_id. cbn [app]. rewrite read_char. cbn [mbind option_bind].
      by rewrite read_uint. }
    rewrite Hscope. subst tail. rewrite read_char. cbn [mbind option_bind]. by rewrite read_port_text.
Qed.

(** *** What the parser returns *)

Lemma read_ipv4_bound s a b c d r :
  read_ipv4_addr s = Some ((a, b, c, d), r) -> (a <= 255)%N /\ (b <= 255)%N /\ (c <= 255)%N /\ (d <= 255)%N.
Proof.
  assert (Ho : forall i s n r, read_octet i s = Some (n, r) -> (n <= 255)%N).
  { intros i s' n r'. unfold read_octet, read_separator. destruct (i =? 0); [apply read_number_bound |].
    destruct (read_given_char _ _) as [[]|]; simpl; [|done]. apply read_number_bound. }
  unfold read_ipv4_addr. intros H.
  apply bind_Some in H as ([a' s1] & Ha & H). apply bind_Some in H as ([b' s2] & Hb & H).
  apply bind_Some in H as ([c' s3] & Hc & H). apply bind_Some in H as ([d' s4] & Hd & H).
  injection H as -> -> -> -> ->. eauto 10.
Qed.

Lemma read_groups_bound n : forall i acc s gs v4 r,
  read_groups n i acc s = (gs, v4, r) ->
  exists more, gs = acc ++ more /\ length more <= n /\ Forall (fun g => (g <= 65535)%N) more.
Proof.
  induction n as [|n IH]; intros i acc s gs v4 r.
  { intros [= <- _ _]. exists []. by rewrite app_nil_r. }
  assert (Hgroup : forall x, x = (gs, v4, r) ->
    x = match read_separator colon i (read_number 16 (Some 4) 65535 true) s with
        | Some (g, s') => read_groups n (S i) (acc ++ [g]) s'
        | None => (acc, false, s)
        end ->
    exists more, gs = acc ++ more /\ length more <= S n /\ Forall (fun g => (g <= 65535)%N) more).
  { intros x -> Hx. destruct (read_separator _ _ _ _) as [[g s']|] eqn:E; symmetry in Hx.
    - apply IH in Hx as (more & -> & Hl & Hm). exists (g :: more). rewrite <- app_assoc. split; [done |].
      split; [simpl; lia |]. constructor; [|done]. revert E. unfold read_separator.
      destruct (i =? 0); [apply read_number_bound |].
      destruct (read_given_char _ _) as [[]|]; simpl; [|done]. apply read_number_bound.
    - injection Hx as <- _ _. exists []. rewrite app_nil_r. split; [done |]. split; [simpl; lia | done]. }
  cbn [read_groups]. destruct n as [|n]; [intros H; by eapply Hgroup |].
  destruct (read_separator colon i read_ipv4_addr s) as [[[[[a b] c] d] s']|] eqn:E; [|intros H; by eapply Hgroup].
  intros [= <- _ _]. exists [a * 256 + b; c * 256 + d]%N. split; [done |]. split; [simpl; lia |].
  assert (Hb : exists s, read_ipv4_addr s = Some ((a, b, c, d), s')).
  { revert E. unfold read_separator. destruct (i =? 0); [by exists s |].
    destruct (read_given_char _ _) as [[[] s1]|]; simpl; [by exists s1 | done]. }
  destruct Hb as [s1 Hb%read_ipv4_bound]. repeat constructor; lia.
Qed.

Lemma read_ipv6_bound s gs r :
  read_ipv6_addr s = Some (gs, r) -> length gs = 8 /\ Forall (fun g => (g <= 65535)%N) gs.
Proof.
  unfold read_ipv6_addr. destruct (read_groups 8 0 [] s) as [[hd v4] s1] eqn:E1.
  apply read_groups_bound in E1 as (more & -> & Hl & Hm). cbn [app].
  destruct (Nat.eqb_spec (length more) 8); [intros [= <- <-]; done |]. destruct v4; [done |]. intros H.
  apply bind_Some in H as ([[] s2] & _ & H). apply bind_Some in H as ([[] s3] & _ & H).
  destruct (read_groups _ 0 [] s3) as [[tl v4] s4] eqn:E2. injection H as <- <-.
  apply read_groups_bound in E2 as (more' & -> & Hl' & Hm'). cbn [app].
  split; [rewrite !length_app, length_replicate; lia |].
  apply Forall_app. split; [done |]. apply Forall_app. split; [|done]. by apply Forall_replicate.
Qed.

Lemma parse_socket_addr_wf s sa : parse_socket_addr s = Some sa -> wf_addr sa.
Proof.
  intros Hs. split; [by eapply parse_socket_addr_port |]. revert Hs. unfold parse_socket_addr, parse_with.
  destruct (read_socket_addr_v4 s) as [[sa' r]|] eqn:E4.
  - destruct r; [|done]. intros [= ->]. unfold read_socket_addr_v4 in E4.
    apply bind_Some in E4 as ([[[[a b] c] d] s1] & Hip & E4). apply bind_Some in E4 as ([p s2] & _ & E4).
    injection E4 as <- _. apply read_ipv4_bound in Hip. simpl. tauto.
  - destruct (read_socket_addr_v6 s) as [[sa' r]|] eqn:E6; [|done]. destruct r; [|done]. intros [= ->].
    unfold read_socket_addr_v6 in E6. apply bind_Some in E6 as ([[] s1] & _ & E6).
    apply bind_Some in E6 as ([gs s2] & Hip & E6). destruct (default _ _) as [scope s3] eqn:Es.
    apply bind_Some in E6 as ([[] s4] & _ & E6). apply bind_Some in E6 as ([p s5] & _ & E6).
    injection E6 as <- _. apply read_ipv6_bound in Hip as [Hl Hg]. simpl. split; [done |]. split; [done |].
    destruct (read_scope_id s2) as [[n s3']|] eqn:Er; simpl in Es; injection Es as <- _; [|lia].
    unfold read_scope_id in Er. apply bind_Some in Er as ([[] s5'] & _ & Er). by eapply read_number_bound.
Qed.

(** ** Properties *)

(** The target of a host name with a port prints as something that is itself a
    socket address. *)
Definition reads_as_socket (u : UpstreamTarget) : Prop :=
  match u with Host _ (Some _) => parse_socket_addr (Upstream.fmt u) <> None | _ => False end.

(** C19: an upstream target survives its text form: the target of any configured
    value, printed as in logs and errors and configured again, is the same
    target, whether an IPv4 or IPv6 socket address (zero compression, embedded
    IPv4 addresses and scopes included) or a host name with or without a port;
    only a host name that looks like an address is taken for one. *)
Theorem upstream_print_parse v u :
  Upstream.from_config (Some v) = Some u -> ~ reads_as_socket u ->
  Upstream.from_config (Some (Upstream.fmt u)) = Some u
  /\ match u with
     | Socket sa => wf_addr sa
     | Host name (Some p) => (p <= 65535)%N
     | Host name None => name = v
     end.
Proof.
  unfold Upstream.from_config at 1. case_bool_decide as Hv; [done |]. intros Hu Hn.
  destruct (parse_socket_addr v) as [sa|] eqn:Hp.
  { injection Hu as <-. pose proof (parse_socket_addr_wf v sa Hp) as Hw. split; [|done].
    pose proof (parse_show_socket_addr sa Hw) as Hs. cbn [Upstream.from_config Upstream.fmt].
    rewrite bool_decide_false; [by rewrite Hs |]. intros E. by rewrite E in Hs. }
  assert (Hhost : (u = Host v None /\ match rsplit_once v colon with
      | Some (_, port) => match parse_u16 port with Ok _ => False | Err _ => True end | None => True end)
    \/ exists name p, u = Host name (Some p) /\ (p <= 65535)%N).
  { destruct (rsplit_once v colon) as [[name port]|]; [|injection Hu as <-; by left].
    destruct (parse_u16 port) as [p|] eqn:E; injection Hu as <-; [right | by left].
    exists name, p. split; [done | by eapply parse_uint_bound]. }
  destruct Hhost as [[-> Hv']|(name & p & -> & Hle)].
  - split; [|done]. cbn [Upstream.from_config Upstream.fmt]. rewrite bool_decide_false, Hp by done.
    destruct (rsplit_once v colon) as [[name port]|]; [|done]. by destruct (parse_u16 port).
  - split; [|done]. cbn [reads_as_socket] in Hn.
    destruct (parse_socket_addr (Upstream.fmt (Host name (Some p)))) eqn:Hs; [by destruct Hn |].
    cbn [Upstream.from_config Upstream.fmt] in *. rewrite bool_decide_false by (by intros [_ [=]]%app_nil).
    rewrite Hs. cbn [app]. rewrite rsplit_once_app.
    + unfold parse_u16. by rewrite parse_show_uint.
    + intros Hin. pose proof (proj1 (Forall_forall _ _) (show_uint_digits p) _ Hin) as Hd. done.
Qed.

Lemma upstream_print_parse_witness :
  let u := Socket (MkAddr (V6 [65152; 0; 0; 0; 0; 0; 0; 1]%N) 443 7) in
  Upstream.fmt u = bs "[fe80::1%7]:443" /\ Upstream.from_config (Some (Upstream.fmt u)) = Some u.
Proof.
  split; [vm_compute; reflexivity |].
  exact (proj1 (upstream_print_parse (bs "[fe80:0:0::0:1%7]:00443")
    (Socket (MkAddr (V6 [65152; 0; 0; 0; 0; 0; 0; 1]%N) 443 7)) ltac:(vm_compute; reflexivity) (fun H => H))).
Defined.

(** The exception: a sign makes an address with a port a host name of this
    spelling, which prints as the address. *)
Theorem signed_port_is_a_host :
  Upstream.from_config (Some (bs "10.0.0.1:+80")) = Some (Host (bs "10.0.0.1") (Some 80%N))
  /\ Upstream.fmt (Host (bs "10.0.0.1") (Some 80%N)) = bs "10.0.0.1:80"
  /\ Upstream.from_config (Some (bs "10.0.0.1:80")) = Some (Socket (socket_addr (V4 10 0 0 1) 80)).
Proof. repeat split. Qed.
