(* ===== verification/ConfigLoad.v ===== *)
(** * Runtime configuration ([src/common/config.rs])

    Three layers: built-in defaults, an optional JSON file, environment
    variables.  The JSON decoder (serde) and the file system are parameters. *)

From S2P Require Import Prelude Bytes Common Identity Net Policy Metrics ProxyBase.

Record Config := MkConfig {
  cfg_trust_domain : str;
  cfg_identity : option str;
  proxy_inbound_port : N;
  proxy_outbound_port : N;
  metrics_port : N;
  log_level : str;
  max_connections : N;
  ca_bundle_path : option str;
  cert_path : option str;
  key_path : option str;
  cfg_default_upstream : option str;
  cfg_mux : bool;
}.

(** [Display] of [ParseIntError]. *)
Definition show_parse_error (e : ParseIntError) : str :=
  match e with
  | Empty => bs "cannot parse integer from empty string"
  | InvalidDigit => bs "invalid digit found in string"
  | PosOverflow => bs "number too large to fit in target type"
  end.

Definition parse_port (s : str) : result N InterlinkError :=
  map_err (fun e => Common.Config (bs "invalid port '" ++ s ++ bs "': " ++ show_parse_error e)) (parse_u16 s).

Module Cfg.

(** [Config::default]. *)
Definition default_config : Config :=
  MkConfig (bs "cluster.local") None ports.INBOUND_PROXY ports.OUTBOUND_PROXY ports.METRICS
    (bs "info") 1024 None None None None true.

(** [if let Ok(v) = std::env::var(name) { field = v }] and its variants. *)
Definition over {A} (o : option A) (a : A) : A := default a o.
Definition over_some (o : option str) (a : option str) : option str :=
  match o with Some v => Some v | None => a end.
Definition over_parsed {A} (o : option str) (parse : str -> result A InterlinkError) (a : A) :
    result A InterlinkError :=
  match o with Some v => parse v | None => Ok a end.

Definition with_env (self : Config) (e : env) : result Config InterlinkError :=
  let var name := e !! bs name in
  let trust_domain := over (var "INTERLINK_TRUST_DOMAIN") (cfg_trust_domain self) in
  let identity := over_some (var "INTERLINK_IDENTITY") (cfg_identity self) in
  inbound <-? over_parsed (var "INTERLINK_PROXY_INBOUND_PORT") parse_port (proxy_inbound_port self) ;;
  outbound <-? over_parsed (var "INTERLINK_PROXY_OUTBOUND_PORT") parse_port (proxy_outbound_port self) ;;
  metrics <-? over_parsed (var "INTERLINK_METRICS_PORT") parse_port (metrics_port self) ;;
  let log := over (var "INTERLINK_LOG_LEVEL") (log_level self) in
  max <-? over_parsed (var "INTERLINK_MAX_CONNECTIONS")
            (fun v => map_err (fun e => Common.Config (bs "INTERLINK_MAX_CONNECTIONS: " ++ show_parse_error e))
                        (parse_usize v))
            (max_connections self) ;;
  Ok (MkConfig trust_domain identity inbound outbound metrics log max
        (over_some (var "INTERLINK_CA_BUNDLE_PATH") (ca_bundle_path self))
        (over_some (var "INTERLINK_CERT_PATH") (cert_path self))
        (over_some (var "INTERLINK_KEY_PATH") (key_path self))
        (over_some (var "INTERLINK_DEFAULT_UPSTREAM") (cfg_default_upstream self))
        (match var "INTERLINK_MUX" with
         | Some v => negb (bool_decide (v = bs "false")) && negb (bool_decide (v = bs "0"))
         | None => cfg_mux self
         end)).

Definition to_proxy_config (self : Config) : ProxyConfig :=
  MkProxyConfig (cfg_trust_domain self) (cfg_identity self) (cfg_default_upstream self)
    (Some (max_connections self)) (cfg_mux self).

Definition validate (self : Config) : eval (result unit InterlinkError) :=
  if bool_decide (cfg_trust_domain self = []) then
    Some (Err (Common.Config (bs "trust_domain must not be empty")))
  else if (max_connections self =? 0)%N then
    Some (Err (Common.Config (bs "max_connections must be > 0")))
  else
    match cfg_identity self with
    | Some id =>
        r ← Id.from_uri id;
        Some (match r with
              | Ok _ => Ok tt
              | Err e => Err (Common.Config (bs "invalid INTERLINK_IDENTITY: " ++ show_error e))
              end)
    | None => Some (Ok tt)
    end.

(** Layering the values a decoded file holds. *)
Definition merge_file (self file_cfg : Config) : Config :=
  MkConfig (cfg_trust_domain file_cfg)
    (over_some (cfg_identity file_cfg) (cfg_identity self))
    (proxy_inbound_port file_cfg) (proxy_outbound_port file_cfg) (metrics_port file_cfg)
    (log_level file_cfg) (max_connections file_cfg)
    (over_some (ca_bundle_path file_cfg) (ca_bundle_path self))
    (over_some (cert_path file_cfg) (cert_path self))
    (over_some (key_path file_cfg) (key_path self))
    (over_some (cfg_default_upstream file_cfg) (cfg_default_upstream self))
    (cfg_mux file_cfg).

Section Load.
(** The JSON decoder of [Config] and the file system: an error is carried by
    its display text. *)
Context (serde_json_from_str : str -> result Config str).
Context (path_exists : str -> bool) (read_to_string : str -> result str str).

Definition with_file (self : Config) (path : str) : result Config InterlinkError :=
  contents <-? map_err (fun e => Common.Config (bs "failed to read config file: " ++ e)) (read_to_string path) ;;
  file_cfg <-? map_err (fun e => Common.Config (bs "invalid config file: " ++ e)) (serde_json_from_str contents) ;;
  Ok (merge_file self file_cfg).

Definition config_file (e : env) : str :=
  match e !! bs "INTERLINK_CONFIG_FILE" with
  | Some s => if bool_decide (s = []) then bs "/etc/interlink/config.json" else s
  | None => bs "/etc/interlink/config.json"
  end.

Definition load (e : env) : eval (result Config InterlinkError) :=
  let path := config_file e in
  cfg <-! Some (if path_exists path then with_file default_config path else Ok default_config) ;;
  cfg <-! Some (with_env cfg e) ;;
  _ <-! validate cfg ;;
  Some (Ok cfg).
End Load.

(** The identity a component derives from its configuration: the configured
    URI when it parses, else the default service account of the trust domain.
    The [expect] panics on an empty trust domain. *)
Definition local_identity (identity : option str) (trust_domain : str) : eval SpiffeId :=
  parsed ← match identity with
           | Some s => r ← Id.from_uri s; Some (ok r)
           | None => Some None
           end;
  match parsed with
  | Some id => Some id
  | None => unwrap (Id.try_new trust_domain (bs "default") (bs "proxy"))
  end.

End Cfg.

(** ** Lemmas *)

Lemma parse_port_bound s n : parse_port s = Ok n -> (n <= 65535)%N.
Proof.
  unfold parse_port. destruct (parse_u16 s) eqn:E; simpl; [|done]. intros [= <-].
  by apply parse_uint_bound in E.
Qed.

Lemma over_parsed_Ok {A} o (p : str -> result A InterlinkError) a r :
  Cfg.over_parsed o p a = Ok r ->
  (o = None /\ r = a) \/ (exists v, o = Some v /\ p v = Ok r).
Proof. destruct o; simpl; [eauto |]. intros [= <-]. eauto. Qed.

(** The well-typed configurations: ports are 16-bit, the limit is a [usize]. *)
Record typed_config (c : Config) : Prop := {
  ty_in : (proxy_inbound_port c <= u16_max)%N;
  ty_out : (proxy_outbound_port c <= u16_max)%N;
  ty_metrics : (metrics_port c <= u16_max)%N;
  ty_max : (max_connections c <= usize_max)%N;
}.

Lemma with_env_typed c e c' : typed_config c -> Cfg.with_env c e = Ok c' -> typed_config c'.
Proof.
  intros [Hi Ho Hm Hx]. unfold Cfg.with_env, rbind.
  destruct (Cfg.over_parsed _ _ (proxy_inbound_port c)) as [i|] eqn:Ei; [|done].
  destruct (Cfg.over_parsed _ _ (proxy_outbound_port c)) as [o|] eqn:Eo; [|done].
  destruct (Cfg.over_parsed _ _ (metrics_port c)) as [m|] eqn:Em; [|done].
  destruct (Cfg.over_parsed _ _ (max_connections c)) as [x|] eqn:Ex; [|done].
  intros [= <-]. split; simpl.
  - apply over_parsed_Ok in Ei as [[_ ->] | (v & _ & Hv)]; [done | by eapply parse_port_bound].
  - apply over_parsed_Ok in Eo as [[_ ->] | (v & _ & Hv)]; [done | by eapply parse_port_bound].
  - apply over_parsed_Ok in Em as [[_ ->] | (v & _ & Hv)]; [done | by eapply parse_port_bound].
  - apply over_parsed_Ok in Ex as [[_ ->] | (v & _ & Hv)]; [done |].
    destruct (parse_usize v) eqn:E; simpl in Hv; [|done]. injection Hv as ->.
    by eapply parse_uint_bound.
Qed.

Lemma validate_total c : from_option utf8 True (cfg_identity c) -> is_Some (Cfg.validate c).
Proof.
  intros Hu. unfold Cfg.validate. repeat step_if; [by eexists.. |].
  destruct (cfg_identity c) as [id|]; [|by eexists]. simpl in Hu.
  destruct (from_uri_sound id Hu) as (r & -> & _). by eexists.
Qed.

Lemma validate_ok c :
  Cfg.validate c = Some (Ok tt) <->
  cfg_trust_domain c <> [] /\ max_connections c <> 0%N /\
  match cfg_identity c with
  | Some s => exists id, Id.from_uri s = Some (Ok id)
  | None => True
  end.
Proof.
  unfold Cfg.validate. destruct (bool_decide_reflect (cfg_trust_domain c = [])); [naive_solver |].
  destruct (N.eqb_spec (max_connections c) 0); [naive_solver |].
  destruct (cfg_identity c) as [s|]; [|naive_solver].
  destruct (Id.from_uri s) as [[id|e]|]; simpl; split; try done; naive_solver.
Qed.

(** A valid configuration always yields a local identity. *)
Lemma local_identity_ok identity td :
  td <> [] -> from_option utf8 True identity -> is_Some (Cfg.local_identity identity td).
Proof.
  intros Ht Hu. unfold Cfg.local_identity. destruct identity as [s|]; simpl in *.
  - destruct (from_uri_sound s Hu) as (r & -> & _). simpl. destruct r; simpl; [by eexists |].
    by rewrite try_new_ok.
  - by rewrite try_new_ok.
Qed.

Lemma default_typed : typed_config Cfg.default_config.
Proof. by split. Qed.

Lemma merge_typed c f : typed_config f -> typed_config (Cfg.merge_file c f).
Proof. intros []. by split. Qed.

(** ** Properties *)

(** C39: a configuration that loads is valid: when the decoder yields well-typed
    records, the loaded configuration has 16-bit ports, a positive [usize]
    connection limit, a non-empty trust domain, and an identity that parses, if
    it has one. *)
Theorem loaded_config_valid serde exists_ read e cfg :
  (forall s c, serde s = Ok c -> typed_config c) ->
  Cfg.load serde exists_ read e = Some (Ok cfg) ->
  typed_config cfg /\ cfg_trust_domain cfg <> [] /\ max_connections cfg <> 0%N /\
  match cfg_identity cfg with
  | Some s => exists id, Id.from_uri s = Some (Ok id)
  | None => True
  end.
Proof.
  intros Hs. unfold Cfg.load. cbv zeta. intros H.
  apply erbind_ok in H as (c0 & H0 & H). apply erbind_ok in H as (c1 & H1 & H).
  apply erbind_ok in H as ([] & Hv & H). injection H as <-. injection H1 as H1.
  split; [|by apply validate_ok]. eapply with_env_typed; [|exact H1]. injection H0 as H0.
  destruct (exists_ _); [|injection H0 as <-; apply default_typed]. unfold Cfg.with_file in H0.
  destruct (read _) as [contents|]; simpl in H0; [|done].
  destruct (serde contents) as [f|] eqn:Ef; simpl in H0; [|done]. injection H0 as <-.
  by eapply merge_typed, Hs.
Qed.

Lemma loaded_config_valid_witness :
  exists cfg, Cfg.load (fun _ => Err []) (fun _ => false) (fun _ => Err [])
    {[ bs "INTERLINK_PROXY_INBOUND_PORT" := bs "9000" ]} = Some (Ok cfg)
    /\ proxy_inbound_port cfg = 9000%N /\ typed_config cfg.
Proof.
  destruct (Cfg.load (fun _ => Err []) (fun _ => false) (fun _ => Err [])
    {[ bs "INTERLINK_PROXY_INBOUND_PORT" := bs "9000" ]}) as [[cfg|]|] eqn:E;
    [|vm_compute in E; discriminate..].
  exists cfg. split; [reflexivity |]. split; [vm_compute in E; injection E as <-; reflexivity |].
  apply (loaded_config_valid (fun _ => Err []) (fun _ => false) (fun _ => Err [])
    {[ bs "INTERLINK_PROXY_INBOUND_PORT" := bs "9000" ]}); [intros ? ? [=] | exact E].
Defined.

(** The environment has the last word, field by field: every variable that
    is set determines its field (ports and the limit must parse, or loading
    fails), and a variable that is not set leaves the field alone. *)
Theorem environment_overrides c e c' :
  Cfg.with_env c e = Ok c' ->
  let port_of name old new := match e !! bs name with Some v => parse_u16 v = Ok new | None => new = old end in
  cfg_trust_domain c' = default (cfg_trust_domain c) (e !! bs "INTERLINK_TRUST_DOMAIN")
  /\ cfg_identity c' = match e !! bs "INTERLINK_IDENTITY" with Some v => Some v | None => cfg_identity c end
  /\ port_of "INTERLINK_PROXY_INBOUND_PORT"%string (proxy_inbound_port c) (proxy_inbound_port c')
  /\ port_of "INTERLINK_PROXY_OUTBOUND_PORT"%string (proxy_outbound_port c) (proxy_outbound_port c')
  /\ port_of "INTERLINK_METRICS_PORT"%string (metrics_port c) (metrics_port c')
  /\ cfg_default_upstream c'
     = match e !! bs "INTERLINK_DEFAULT_UPSTREAM" with Some v => Some v | None => cfg_default_upstream c end
  /\ cfg_mux c' = match e !! bs "INTERLINK_MUX" with
                  | Some v => negb (bool_decide (v = bs "false" \/ v = bs "0"))
                  | None => cfg_mux c end.
Proof.
  assert (Hport : forall o old new, Cfg.over_parsed o parse_port old = Ok new ->
    match o with Some v => parse_u16 v = Ok new | None => new = old end).
  { intros [v|] old new; simpl; [|by intros [= <-]]. unfold parse_port.
    destruct (parse_u16 v); simpl; [by intros [= <-] | done]. }
  unfold Cfg.with_env, rbind.
  destruct (Cfg.over_parsed _ _ (proxy_inbound_port c)) as [i|] eqn:Ei; [|done].
  destruct (Cfg.over_parsed _ _ (proxy_outbound_port c)) as [o|] eqn:Eo; [|done].
  destruct (Cfg.over_parsed _ _ (metrics_port c)) as [m|] eqn:Em; [|done].
  destruct (Cfg.over_parsed _ _ (max_connections c)) as [x|]; [|done].
  match goal with |- Ok ?x = Ok c' -> _ => intros H; assert (x = c') as <- by congruence; clear H end.
  cbn [cfg_trust_domain cfg_identity proxy_inbound_port proxy_outbound_port metrics_port
       cfg_default_upstream cfg_mux].
  do 2 (split; [done |]). do 3 (split; [by apply Hport |]). split; [done |].
  destruct (e !! bs "INTERLINK_MUX") as [v|]; [|done].
  by rewrite <- negb_orb, bool_decide_or.
Qed.

Lemma environment_overrides_witness :
  exists c', Cfg.with_env Cfg.default_config {[ bs "INTERLINK_MUX" := bs "0" ]} = Ok c'
    /\ cfg_mux c' = false.
Proof.
  destruct (Cfg.with_env Cfg.default_config {[ bs "INTERLINK_MUX" := bs "0" ]}) as [c'|] eqn:E;
    [|vm_compute in E; discriminate].
  exists c'. split; [reflexivity |].
  destruct (environment_overrides _ _ _ E) as (_ & _ & _ & _ & _ & _ & ->). vm_compute. reflexivity.
Defined.
