(* ===== verification/Process.v ===== *)
(** * The process state and the programs of its tasks

    The state shared by all tasks of the process, the atomic calls by which
    tasks act on it, and the type of programs: a task is a tree of calls, of
    externally visible events and of spawned tasks, so that other tasks can act
    between any two calls. *)

From S2P Require Import Prelude Bytes Common Identity Policy Net Metrics Tunnels.

(** ** The shared state *)

(** The two proxies. *)
Inductive Side := InboundSide | OutboundSide.

#[global] Instance Side_eq_dec : EqDecision Side.
Proof. solve_decision. Defined.

(** A proxy's [connection_semaphore] (its free permits) and
    [active_connections]. *)
Record Slots := MkSlots { permits : N; active_connections : N }.

(** The metrics registry, the identity cache, the number of tunnel ids given
    out ([TUNNEL_IDS] is a [u64] and holds it modulo 2^64), the pool of the
    outbound proxy, its creation locks that are held, and the slots of the two
    proxies. *)
Record Proc := MkProc {
  proc_metrics : InterlinkMetrics;
  identity_cache : gmap (list Ascii.ascii) SpiffeId;
  tunnel_ids : N;
  mux_pool : MuxPool;
  creating : gset SocketAddr;
  inbound_slots : Slots;
  outbound_slots : Slots;
}.

Definition proc_new (max_in max_out : N) : Proc :=
  MkProc Met.new ∅ 0 Pool.new ∅ (MkSlots max_in 0) (MkSlots max_out 0).

Definition set_metrics (m : InterlinkMetrics) (p : Proc) : Proc :=
  MkProc m (identity_cache p) (tunnel_ids p) (mux_pool p) (creating p) (inbound_slots p)
    (outbound_slots p).
Definition set_cache (c : gmap (list Ascii.ascii) SpiffeId) (p : Proc) : Proc :=
  MkProc (proc_metrics p) c (tunnel_ids p) (mux_pool p) (creating p) (inbound_slots p)
    (outbound_slots p).
Definition set_pool (pool : MuxPool) (p : Proc) : Proc :=
  MkProc (proc_metrics p) (identity_cache p) (tunnel_ids p) pool (creating p) (inbound_slots p)
    (outbound_slots p).
Definition set_creating (l : gset SocketAddr) (p : Proc) : Proc :=
  MkProc (proc_metrics p) (identity_cache p) (tunnel_ids p) (mux_pool p) l (inbound_slots p)
    (outbound_slots p).
Definition get_slots (s : Side) (p : Proc) : Slots :=
  match s with InboundSide => inbound_slots p | OutboundSide => outbound_slots p end.
Definition set_slots (s : Side) (l : Slots) (p : Proc) : Proc :=
  match s with
  | InboundSide => MkProc (proc_metrics p) (identity_cache p) (tunnel_ids p) (mux_pool p) (creating p)
                     l (outbound_slots p)
  | OutboundSide => MkProc (proc_metrics p) (identity_cache p) (tunnel_ids p) (mux_pool p) (creating p)
                     (inbound_slots p) l
  end.

(** ** Atomic calls *)

Inductive Call :=
| RecordMetric (op : MetricOp)                     (** one operation of the metrics library *)
| CacheGet (leaf : str)
| CacheInsert (leaf : str) (id : SpiffeId)
| TunnelsOf (addr : SocketAddr)                    (** [peers.get(addr)] *)
| LoadOf (t : Tunnel)                              (** [live.load] *)
| CanGrow (addr : SocketAddr)
| NewTunnel (addr : SocketAddr) (peer : SpiffeId)  (** [TUNNEL_IDS.fetch_add], a live counter at 0 *)
| Push (addr : SocketAddr) (t : Tunnel)            (** [peers.entry(addr).or_default().push(..)] *)
| Evict (addr : SocketAddr) (t : Tunnel)
| Reserve (t : Tunnel)                             (** [live.fetch_add(1)] *)
| Release (t : Tunnel)                             (** the drop of a [LiveGuard] *)
| Lock (addr : SocketAddr)                         (** [creation_lock(addr).lock().await] *)
| Unlock (addr : SocketAddr)                       (** the drop of its guard *)
| TryAcquire (s : Side)                            (** [try_acquire_owned] *)
| ReturnPermit (s : Side)                          (** the drop of the permit *)
| CountUp (s : Side)                               (** [active_connections.fetch_add(1)] *)
| CountDown (s : Side).                            (** [active_connections.fetch_sub(1)] *)

(** What a call returns. *)
Definition answer (c : Call) : Type :=
  match c with
  | CacheGet _ => option SpiffeId
  | TunnelsOf _ => option (list Tunnel)
  | LoadOf _ => N
  | CanGrow _ | TryAcquire _ => bool
  | NewTunnel _ _ => Tunnel
  | _ => unit
  end.

(** [None]: the call blocks. *)
Definition apply_call (c : Call) (p : Proc) : option (answer c * Proc) :=
  match c with
  | RecordMetric op => Some (tt, set_metrics (apply_metric op (proc_metrics p)) p)
  | CacheGet leaf => Some (identity_cache p !! leaf, p)
  | CacheInsert leaf id => Some (tt, set_cache (<[leaf := id]> (identity_cache p)) p)
  | TunnelsOf addr => Some (peers (mux_pool p) !! addr, p)
  | LoadOf t => Some (Pool.load (mux_pool p) t, p)
  | CanGrow addr => Some (Pool.can_grow (mux_pool p) addr, p)
  | NewTunnel addr peer =>
      let t := MkTunnel (wrap_u64 (tunnel_ids p)) peer addr in
      Some (t, MkProc (proc_metrics p) (identity_cache p) (tunnel_ids p + 1)
                 (Pool.create (mux_pool p) t) (creating p) (inbound_slots p) (outbound_slots p))
  | Push addr t => Some (tt, set_pool (Pool.push (mux_pool p) addr t) p)
  | Evict addr t => Some (tt, set_pool (Pool.evict (mux_pool p) addr t) p)
  | Reserve t => Some (tt, set_pool (Pool.reserve (mux_pool p) t) p)
  | Release t => Some (tt, set_pool (Pool.release (mux_pool p) t) p)
  | Lock addr =>
      if decide (addr ∈ creating p) then None
      else Some (tt, set_creating ({[addr]} ∪ creating p) p)
  | Unlock addr => Some (tt, set_creating (creating p ∖ {[addr]}) p)
  | TryAcquire s =>
      let l := get_slots s p in
      Some (if (permits l =? 0)%N then (false, p)
            else (true, set_slots s (MkSlots (permits l - 1) (active_connections l)) p))
  | ReturnPermit s =>
      let l := get_slots s p in
      Some (tt, set_slots s (MkSlots (permits l + 1) (active_connections l)) p)
  | CountUp s =>
      let l := get_slots s p in
      Some (tt, set_slots s (MkSlots (permits l) (fetch_add_1 (active_connections l))) p)
  | CountDown s =>
      let l := get_slots s p in
      Some (tt, set_slots s (MkSlots (permits l) (fetch_sub_1 (active_connections l))) p)
  end.

(** ** Programs

    [E] is the type of the events a task makes visible.  A spawned task starts
    with the event that names it; [moved] says that its future takes over what
    the spawning task holds (an [async move] block that captures the permit).

    A program is what a task does with the input that the network has for it: a
    loop of the source over connections or streams is unrolled over those that
    come.  [Idle] is where such a loop waits for the next one, and none has come;
    a task may stay there for as long as the process runs.  A task in the middle
    of a transfer that goes on is one that is not scheduled any further. *)

Inductive Prog (E A : Type) : Type :=
| Ret (a : A)
| Panic
| Idle
| Emit (e : E) (m : Prog E A)
| Act (c : Call) (k : answer c -> Prog E A)
| Fork (moved : bool) (e : E) (child : Prog E unit) (m : Prog E A).
Arguments Ret {E A} a.
Arguments Panic {E A}.
Arguments Idle {E A}.
Arguments Emit {E A} e m.
Arguments Act {E A} c k.
Arguments Fork {E A} moved e child m.

Fixpoint bind {E A B} (m : Prog E A) (f : A -> Prog E B) : Prog E B :=
  match m with
  | Ret a => f a
  | Panic => Panic
  | Idle => Idle
  | Emit e m => Emit e (bind m f)
  | Act c k => Act c (fun r => bind (k r) f)
  | Fork moved e child m => Fork moved e child (bind m f)
  end.

#[global] Instance Prog_ret {E} : MRet (Prog E) := fun A a => Ret a.
#[global] Instance Prog_bind {E} : MBind (Prog E) := fun A B f m => bind m f.

(** One call, one event, one spawn. *)
Definition call {E} (c : Call) : Prog E (answer c) := Act c Ret.
Definition emit {E} (e : E) : Prog E unit := Emit e (Ret tt).
Definition spawn {E} (moved : bool) (e : E) (child : Prog E unit) : Prog E unit :=
  Fork moved e child (Ret tt).

(** A recording function: its operations one after the other. *)
Fixpoint record {E} (ops : list MetricOp) : Prog E unit :=
  match ops with
  | [] => mret tt
  | op :: rest => _ ← call (RecordMetric op); record rest
  end.

(** A pure computation that may panic. *)
Definition lift {E A} (o : eval A) : Prog E A :=
  match o with Some a => Ret a | None => Panic end.

(** [record_relay_result]; [elapsed] is [start.elapsed()]. *)
Definition record_relay_result {E} (r : result (N * N) IoError) (elapsed : Duration) :
    Prog E (result (N * N) IoError) :=
  match r with
  | Ok (bytes_up, bytes_down) => _ ← record (Met.record_connection bytes_up bytes_down elapsed); mret r
  | Err _ => _ ← record Met.record_connection_failed; mret r
  end.

(** ** A task's history

    What a task has done so far, kept by the semantics beside its program: what
    it holds, what it has charged to the metrics, and the events it has made
    visible. *)

Record Held := MkHeld {
  held_permit : option Side;
  held_count : option Side;         (** it is counted in [active_connections] *)
  held_guard : option SocketAddr;   (** it holds the creation lock of this peer *)
  held_room : bool;                 (** and has found room for a tunnel under it *)
  held_bare : bool;                 (** and has found that the peer has no tunnel *)
  held_tunnels : list Tunnel;       (** the tunnels it has been given *)
  held_slot : option Tunnel;        (** it has reserved a stream of this tunnel *)
}.

Definition nothing_held : Held := MkHeld None None None false false [] None.

Record Trail (E : Type) := MkTrail {
  holds : Held;
  spent : charge;
  said : list E;
}.
Arguments MkTrail {E} _ _ _.
Arguments holds {E} _.
Arguments spent {E} _.
Arguments said {E} _.

Definition trail_new {E} (e : E) : Trail E := MkTrail nothing_held no_charge [e].

(** What a task holds after a call. *)
Definition held_after (c : Call) : answer c -> Held -> Held :=
  match c with
  | TunnelsOf addr => fun r h =>
      MkHeld (held_permit h) (held_count h) (held_guard h) (held_room h)
        (held_bare h || (bool_decide (default [] r = []) && bool_decide (held_guard h = Some addr)))
        (default [] r ++ held_tunnels h) (held_slot h)
  | CanGrow addr => fun r h =>
      MkHeld (held_permit h) (held_count h) (held_guard h)
        (held_room h || (r && bool_decide (held_guard h = Some addr))) (held_bare h) (held_tunnels h) (held_slot h)
  | NewTunnel _ _ => fun t h =>
      MkHeld (held_permit h) (held_count h) (held_guard h) (held_room h) (held_bare h) (t :: held_tunnels h)
        (held_slot h)
  | Push _ _ => fun _ h =>
      MkHeld (held_permit h) (held_count h) (held_guard h) false false (held_tunnels h) (held_slot h)
  | Reserve t => fun _ h =>
      MkHeld (held_permit h) (held_count h) (held_guard h) (held_room h) (held_bare h) (held_tunnels h) (Some t)
  | Release _ => fun _ h =>
      MkHeld (held_permit h) (held_count h) (held_guard h) (held_room h) (held_bare h) (held_tunnels h) None
  | Lock addr => fun _ h =>
      MkHeld (held_permit h) (held_count h) (Some addr) (held_room h) (held_bare h) (held_tunnels h) (held_slot h)
  | Unlock _ => fun _ h =>
      MkHeld (held_permit h) (held_count h) None false false (held_tunnels h) (held_slot h)
  | TryAcquire s => fun r h =>
      MkHeld (if r then Some s else held_permit h) (held_count h) (held_guard h) (held_room h) (held_bare h)
        (held_tunnels h) (held_slot h)
  | ReturnPermit _ => fun _ h =>
      MkHeld None (held_count h) (held_guard h) (held_room h) (held_bare h) (held_tunnels h) (held_slot h)
  | CountUp s => fun _ h =>
      MkHeld (held_permit h) (Some s) (held_guard h) (held_room h) (held_bare h) (held_tunnels h) (held_slot h)
  | CountDown _ => fun _ h =>
      MkHeld (held_permit h) None (held_guard h) (held_room h) (held_bare h) (held_tunnels h) (held_slot h)
  | _ => fun _ h => h
  end.

Definition call_charge (c : Call) : charge :=
  match c with RecordMetric op => op_charge op | _ => no_charge end.

Definition note {E} (c : Call) (r : answer c) (tr : Trail E) : Trail E :=
  MkTrail (held_after c r (holds tr)) (add_charge (spent tr) (call_charge c)) (said tr).
Definition say {E} (e : E) (tr : Trail E) : Trail E :=
  MkTrail (holds tr) (spent tr) (said tr ++ [e]).

(** A call that moves neither holdings nor charges leaves no trace. *)
Lemma note_quiet {E} c (r : answer c) (tr : Trail E) :
  held_after c r (holds tr) = holds tr -> call_charge c = no_charge -> note c r tr = tr.
Proof. intros Hh Hc. unfold note. rewrite Hh, Hc, right_id by apply _. by destruct tr. Qed.

(** A spawn: the histories of the spawned and of the spawning task. *)
Definition fork_child {E} (moved : bool) (e : E) (tr : Trail E) : Trail E :=
  MkTrail (if moved then holds tr else nothing_held) no_charge [e].
Definition fork_parent {E} (moved : bool) (tr : Trail E) : Trail E :=
  if moved then MkTrail nothing_held (spent tr) (said tr) else tr.

(** ** Running one task alone

    To its end if it neither panics nor blocks; the tasks it spawns are not
    run. *)
Fixpoint exec {E A} (m : Prog E A) (tr : Trail E) (p : Proc) : option (A * Trail E * Proc) :=
  match m with
  | Ret a => Some (a, tr, p)
  | Panic | Idle => None
  | Emit e m => exec m (say e tr) p
  | Act c k =>
      match apply_call c p with
      | Some (r, p') => exec (k r) (note c r tr) p'
      | None => None
      end
  | Fork moved _ _ m => exec m (fork_parent moved tr) p
  end.

Lemma exec_bind {E A B} (m : Prog E A) (f : A -> Prog E B) tr p :
  exec (m ≫= f) tr p =
  match exec m tr p with Some (a, tr', p') => exec (f a) tr' p' | None => None end.
Proof.
  cbv [mbind Prog_bind]. revert B f tr p.
  induction m as [A a|A|A|A e m IH|A c k IH|A moved e child _ m IH]; intros B f tr p; simpl; try done.
  destruct (apply_call c p) as [[r p']|]; [apply IH | done].
Qed.

(** A recording function alone: all its operations. *)
Lemma exec_record {E} ops (tr : Trail E) p :
  exec (record ops) tr p
  = Some (tt, MkTrail (holds tr) (add_charge (spent tr) (ops_charge ops)) (said tr),
          set_metrics (foldl (fun m op => apply_metric op m) (proc_metrics p) ops) p).
Proof.
  revert tr p. induction ops as [|op ops IH]; intros [h ch sd] p; simpl.
  - rewrite (right_id no_charge add_charge). by destruct p.
  - rewrite IH. unfold note. simpl. by rewrite (assoc add_charge).
Qed.
