(* ===== verification/Holdings.v ===== *)
(** * What tasks hold, and the invariant of the shared state

    Permits, active counts, creation locks, room in the pool and stream slots
    are owned by tasks.  [legal] is the discipline a task must follow at each
    call, [inv] relates the shared state to what all tasks together hold, and
    [call_sound] shows that a legal call of any task keeps it. *)

From S2P Require Import Prelude Bytes Common Identity Policy Net Metrics Tunnels Process.

(** [Semaphore::MAX_PERMITS], on 64 bits: [Semaphore::new] panics above it. *)
Definition MAX_PERMITS : N := 2 ^ 61 - 1.

Definition b2n (b : bool) : nat := if b then 1 else 0.

(** ** Predicates on what a task holds *)

Definition permit_of (s : Side) (h : Held) : bool := bool_decide (held_permit h = Some s).
Definition counted (s : Side) (h : Held) : bool := bool_decide (held_count h = Some s).
Definition guards (a : SocketAddr) (h : Held) : bool := bool_decide (held_guard h = Some a).
Definition room_at (a : SocketAddr) (h : Held) : bool := held_room h && guards a h.
Definition bare_at (a : SocketAddr) (h : Held) : bool := held_bare h && guards a h.
Definition uses (id : N) (h : Held) : bool :=
  match held_slot h with Some t => (tunnel_id t =? id)%N | None => false end.

(** Nothing is left to give back. *)
Definition released (h : Held) : Prop :=
  held_permit h = None /\ held_count h = None /\ held_guard h = None /\ held_slot h = None.

Record held_wf (h : Held) : Prop := {
  hw_count : forall s, held_count h = Some s -> held_permit h = Some s;
  hw_slot : forall t, held_slot h = Some t -> held_permit h = Some OutboundSide /\ t ∈ held_tunnels h;
  hw_room : held_room h = true -> is_Some (held_guard h);
  hw_bare : held_bare h = true -> is_Some (held_guard h);
}.

Lemma nothing_wf : held_wf nothing_held.
Proof. by split. Qed.

Section Holdings.
(** What the data of the shared state must satisfy: the entries of the identity
    cache, and the tunnels of the pool; and the configured limits. *)
Context (good_entry : str -> SpiffeId -> Prop) (good_tunnel : Tunnel -> Prop).
Context (max : Side -> N).

(** ** The discipline *)

Definition legal (c : Call) (h : Held) : Prop :=
  match c with
  | RecordMetric _ | CacheGet _ | TunnelsOf _ | LoadOf _ | CanGrow _ | Evict _ _ => True
  | CacheInsert leaf id => good_entry leaf id
  | NewTunnel addr peer => forall id, good_tunnel (MkTunnel id peer addr)
  | Push addr t =>
      held_guard h = Some addr /\ held_room h = true
      /\ ((max OutboundSide <= STREAMS_PER_TUNNEL)%N -> held_bare h = true)
      /\ t ∈ held_tunnels h /\ tunnel_link t = addr
  | Reserve t => t ∈ held_tunnels h /\ held_slot h = None /\ held_permit h = Some OutboundSide
  | Release t => held_slot h = Some t
  | Lock _ => held_guard h = None
  | Unlock addr => held_guard h = Some addr
  | TryAcquire _ => held_permit h = None
  | ReturnPermit s => held_permit h = Some s /\ held_count h = None /\ held_slot h = None
  | CountUp s => held_permit h = Some s /\ held_count h = None
  | CountDown s => held_count h = Some s
  end.

(** ** The invariant *)

Definition lock_bit (p : Proc) (a : SocketAddr) : nat := if decide (a ∈ creating p) then 1 else 0.

(** A tunnel that exists: its id was given out, and it is a good one. *)
Definition known (p : Proc) (t : Tunnel) : Prop := (tunnel_id t < tunnel_ids p)%N /\ good_tunnel t.

Record inv (p : Proc) (hs : list Held) : Prop := {
  inv_held : forall i h, hs !! i = Some h -> held_wf h;
  inv_locks : forall a, count (guards a) hs = lock_bit p a;
  inv_room : forall a,
    Pool.tunnel_count (mux_pool p) a + count (room_at a) hs <= MAX_TUNNELS_PER_PEER;
  inv_single : (max OutboundSide <= STREAMS_PER_TUNNEL)%N ->
    forall a, Pool.tunnel_count (mux_pool p) a + count (bare_at a) hs <= 1;
  inv_pooled : forall a ts t, peers (mux_pool p) !! a = Some ts -> t ∈ ts -> known p t /\ tunnel_link t = a;
  inv_given : forall i h t, hs !! i = Some h -> t ∈ held_tunnels h -> known p t;
  inv_live : forall t, Pool.load (mux_pool p) t = N.of_nat (count (uses (tunnel_id t)) hs);
  inv_permits : forall s, (permits (get_slots s p) + N.of_nat (count (permit_of s) hs))%N = max s;
  inv_active : forall s, active_connections (get_slots s p) = N.of_nat (count (counted s) hs);
  inv_max : forall s, (max s <= MAX_PERMITS)%N;
  inv_cache : map_Forall good_entry (identity_cache p);
}.

(** At the start the tasks hold nothing. *)
Lemma inv_new hs :
  (forall s, (max s <= MAX_PERMITS)%N) -> Forall (fun h => h = nothing_held) hs ->
  inv (proc_new (max InboundSide) (max OutboundSide)) hs.
Proof.
  intros Hm Hn. rewrite Forall_lookup in Hn.
  assert (Hcount : forall P, P nothing_held = false -> count P hs = 0).
  { intros P HP. apply count_zero. intros i h Hh. by rewrite (Hn _ _ Hh). }
  split; try done.
  - intros i h Hh. rewrite (Hn _ _ Hh). apply nothing_wf.
  - intros a. by rewrite Hcount.
  - intros a. rewrite Hcount by done. unfold Pool.tunnel_count, MAX_TUNNELS_PER_PEER. simpl.
    rewrite lookup_empty. simpl. lia.
  - intros _ a. rewrite Hcount by done. unfold Pool.tunnel_count. simpl. rewrite lookup_empty. simpl. lia.
  - intros i h t Hh. rewrite (Hn _ _ Hh). by intros ?%elem_of_nil.
  - intros t. by rewrite Hcount.
  - intros s. rewrite Hcount by done. destruct s; simpl; lia.
  - intros s. rewrite Hcount by done. by destruct s.
Qed.

(** ** Counting arguments *)

Lemma count_mono {A} (P Q : A -> bool) l :
  (forall i x, l !! i = Some x -> P x = true -> Q x = true) -> count P l <= count Q l.
Proof.
  induction l as [|x l IH]; intros H; simpl; [done |].
  specialize (IH (fun i => H (S i))). specialize (H 0 x eq_refl).
  destruct (P x), (Q x); lia.
Qed.

Lemma count_mono_lt {A} (P Q : A -> bool) l i x :
  (forall j y, l !! j = Some y -> P y = true -> Q y = true) -> l !! i = Some x -> P x = false -> Q x = true ->
  count P l < count Q l.
Proof.
  revert i. induction l as [|y l IH]; intros [|i] H Hi HP HQ; simpl in *; [done..| |].
  - injection Hi as ->. rewrite HP, HQ. pose proof (count_mono P Q l (fun j => H (S j))). lia.
  - specialize (IH i (fun j => H (S j)) Hi HP HQ). specialize (H 0 y eq_refl). destruct (P y), (Q y); lia.
Qed.

(** No counter is near its width. *)
Lemma slot_bounds p hs :
  inv p hs ->
  (forall s, active_connections (get_slots s p) <= max s)%N
  /\ (forall s, permits (get_slots s p) <= max s)%N
  /\ (forall t, Pool.load (mux_pool p) t <= max OutboundSide)%N.
Proof.
  intros Hi. split; [|split].
  - intros s. rewrite (inv_active _ _ Hi). pose proof (inv_permits _ _ Hi s).
    assert (count (counted s) hs <= count (permit_of s) hs); [|lia].
    apply count_mono. intros i h Hh Hc. apply bool_decide_eq_true in Hc.
    apply bool_decide_eq_true. by apply (hw_count h (inv_held _ _ Hi _ _ Hh)).
  - intros s. pose proof (inv_permits _ _ Hi s). lia.
  - intros t. rewrite (inv_live _ _ Hi). pose proof (inv_permits _ _ Hi OutboundSide).
    assert (count (uses (tunnel_id t)) hs <= count (permit_of OutboundSide) hs); [|lia].
    apply count_mono. intros i h Hh Hc. apply bool_decide_eq_true. unfold uses in Hc.
    destruct (held_slot h) as [u|] eqn:E; [|done].
    by apply (hw_slot h (inv_held _ _ Hi _ _ Hh) u).
Qed.

Lemma held_lock p hs i h a : inv p hs -> hs !! i = Some h -> held_guard h = Some a -> a ∈ creating p.
Proof.
  intros Hi Hh Hg. pose proof (inv_locks _ _ Hi a) as Hl. unfold lock_bit in Hl.
  assert (1 <= count (guards a) hs) by (apply (count_pos _ _ i h); [done | by apply bool_decide_eq_true]).
  destruct (decide _); [done | lia].
Qed.

(** While a task holds the lock of a peer, no other task has found room there, or
    found it without a tunnel. *)
Lemma sole_guard (f : Held -> bool) p hs i h a :
  inv p hs -> hs !! i = Some h -> held_guard h = Some a -> f h = false ->
  count (fun h => f h && guards a h) hs = 0.
Proof.
  intros Hi Hh Hg Hn. destruct (count _ hs) eqn:E; [done |]. exfalso.
  destruct (count_pos_inv (fun h => f h && guards a h) hs) as (j & x & Hj & Hx); [lia |].
  apply andb_true_iff in Hx as [Hrx Hgx]. assert (i <> j) by (intros ->; congruence).
  assert (Hgh : guards a h = true) by (by apply bool_decide_eq_true).
  pose proof (count_two _ _ _ _ _ _ Hh Hj Hgh Hgx ltac:(done)).
  pose proof (inv_locks _ _ Hi a). unfold lock_bit in *. destruct (decide _); lia.
Qed.

Lemma used_load p hs i h t : inv p hs -> hs !! i = Some h -> held_slot h = Some t -> (1 <= Pool.load (mux_pool p) t)%N.
Proof.
  intros Hi Hh Hs. rewrite (inv_live _ _ Hi).
  assert (1 <= count (uses (tunnel_id t)) hs); [|lia].
  apply (count_pos _ _ i h); [done |]. unfold uses. by rewrite Hs, N.eqb_refl.
Qed.

(** ** One task moves

    From [h] to [h'], the state from [p] to [p']. *)

Lemma inv_move p hs i h h' p' :
  inv p hs -> hs !! i = Some h -> held_wf h' ->
  (forall a, b2n (guards a h') + lock_bit p a = b2n (guards a h) + lock_bit p' a) ->
  (forall a, Pool.tunnel_count (mux_pool p') a + b2n (room_at a h')
               <= Pool.tunnel_count (mux_pool p) a + b2n (room_at a h)
             \/ (count (room_at a) hs = 0 /\ Pool.tunnel_count (mux_pool p') a < MAX_TUNNELS_PER_PEER)) ->
  ((max OutboundSide <= STREAMS_PER_TUNNEL)%N -> forall a,
     Pool.tunnel_count (mux_pool p') a + b2n (bare_at a h')
       <= Pool.tunnel_count (mux_pool p) a + b2n (bare_at a h)
     \/ (count (bare_at a) hs = 0 /\ Pool.tunnel_count (mux_pool p') a = 0)) ->
  (tunnel_ids p <= tunnel_ids p')%N ->
  (forall a ts t, peers (mux_pool p') !! a = Some ts -> t ∈ ts -> known p' t /\ tunnel_link t = a) ->
  (forall t, t ∈ held_tunnels h' -> known p' t) ->
  (forall t, (Pool.load (mux_pool p') t + N.of_nat (b2n (uses (tunnel_id t) h))
              = Pool.load (mux_pool p) t + N.of_nat (b2n (uses (tunnel_id t) h')))%N) ->
  (forall s, (permits (get_slots s p') + N.of_nat (b2n (permit_of s h'))
              = permits (get_slots s p) + N.of_nat (b2n (permit_of s h)))%N) ->
  (forall s, (active_connections (get_slots s p') + N.of_nat (b2n (counted s h))
              = active_connections (get_slots s p) + N.of_nat (b2n (counted s h')))%N) ->
  map_Forall good_entry (identity_cache p') ->
  inv p' (<[i := h']> hs).
Proof.
  intros Hi Hh Hw Hlock Hroom Hbare Hids Hpool Hgiv Hlive Hper Hact Hcache.
  assert (Hat : forall j x, <[i := h']> hs !! j = Some x -> x = h' \/ hs !! j = Some x).
  { intros j x Hj. destruct (decide (i = j)) as [<-|Hne].
    - rewrite list_lookup_insert_eq in Hj by (by eapply lookup_lt_Some). left. congruence.
    - rewrite list_lookup_insert_ne in Hj by done. by right. }
  assert (Hcount : forall P, count P (<[i := h']> hs) + b2n (P h) = count P hs + b2n (P h'))
    by (intros P; by apply count_insert).
  split; try done.
  - intros j x [->|Hj]%Hat; [done | by eapply inv_held].
  - intros a. specialize (Hcount (guards a)). specialize (Hlock a). pose proof (inv_locks _ _ Hi a). lia.
  - intros a. specialize (Hcount (room_at a)). pose proof (inv_room _ _ Hi a).
    destruct (Hroom a) as [?|[Hz ?]]; [lia |]. unfold b2n in *. destruct (room_at a h'); lia.
  - intros Hm a. specialize (Hcount (bare_at a)). pose proof (inv_single _ _ Hi Hm a).
    destruct (Hbare Hm a) as [?|[Hz ?]]; [lia |]. unfold b2n in *. destruct (bare_at a h'); lia.
  - intros j x t [->|Hj]%Hat Ht; [by apply Hgiv |].
    destruct (inv_given _ _ Hi _ _ _ Hj Ht). split; [lia | done].
  - intros t. specialize (Hcount (uses (tunnel_id t))). specialize (Hlive t).
    pose proof (inv_live _ _ Hi t). lia.
  - intros s. specialize (Hcount (permit_of s)). specialize (Hper s). pose proof (inv_permits _ _ Hi s). lia.
  - intros s. specialize (Hcount (counted s)). specialize (Hact s). pose proof (inv_active _ _ Hi s). lia.
  - apply (inv_max _ _ Hi).
Qed.

(** The obligations of a move that leaves a part of the state alone. *)
Ltac unmoved Hi Hh :=
  first [ done | exact (inv_cache _ _ Hi) | by left
        | (let t := fresh in let Ht := fresh in intros t Ht; exact (inv_given _ _ Hi _ _ t Hh Ht))
        | exact (inv_pooled _ _ Hi) | (intros; lia) | (intros; by left) ].

(** Decide every test in the goal. *)
Ltac decide_all :=
  repeat match goal with
  | |- context [@bool_decide ?P ?d] => destruct (@bool_decide_reflect P d)
  | |- context [@decide ?P ?d] => destruct (@decide P d)
  end.

Lemma cases_lock (a b : SocketAddr) (l : gset SocketAddr) :
  (if decide (a ∈ {[b]} ∪ l) then 1 else 0)
  = (if decide (Some b = Some a) then 1 else if decide (a ∈ l) then 1 else 0)
  /\ (if decide (a ∈ l ∖ {[b]}) then 1 else 0)
  = (if decide (Some b = Some a) then 0 else if decide (a ∈ l) then 1 else 0).
Proof. repeat destruct (decide _); simplify_eq; try done; set_solver. Qed.

Lemma sound_lock p hs i h addr :
  inv p hs -> hs !! i = Some h -> held_guard h = None -> addr ∉ creating p ->
  inv (set_creating ({[addr]} ∪ creating p) p) (<[i := held_after (Lock addr) tt h]> hs).
Proof.
  intros Hi Hh Hl Hn. destruct (inv_held _ _ Hi _ _ Hh) as [Hwc Hws Hwr Hwf].
  apply (inv_move p hs i h); try done; try unmoved Hi Hh.
  - intros a. unfold guards, lock_bit. simpl. destruct (cases_lock a addr (creating p)) as [-> _].
    rewrite Hl. decide_all; simplify_eq; done.
  - intros a. left. unfold room_at. simpl. destruct (held_room h) eqn:E; [|done].
    rewrite Hl in Hwr. by destruct (Hwr eq_refl).
  - intros _ a. left. unfold bare_at. simpl. destruct (held_bare h) eqn:E; [|done].
    rewrite Hl in Hwf. by destruct (Hwf eq_refl).
Qed.

Lemma sound_unlock p hs i h addr :
  inv p hs -> hs !! i = Some h -> held_guard h = Some addr ->
  inv (set_creating (creating p ∖ {[addr]}) p) (<[i := held_after (Unlock addr) tt h]> hs).
Proof.
  intros Hi Hh Hl. pose proof (held_lock _ _ _ _ _ Hi Hh Hl) as Hin.
  destruct (inv_held _ _ Hi _ _ Hh) as [Hwc Hws Hwr Hwf].
  apply (inv_move p hs i h); try done; try unmoved Hi Hh.
  - intros a. unfold guards, lock_bit. simpl. destruct (cases_lock a addr (creating p)) as [_ ->].
    rewrite Hl. decide_all; simplify_eq; done.
  - intros a. left. unfold room_at. simpl. lia.
  - intros _ a. left. unfold bare_at. simpl. lia.
Qed.

(** A connection that has no stream finds the streams of the others: fewer than
    the proxy admits connections. *)
Lemma load_below p hs i h t :
  inv p hs -> hs !! i = Some h -> held_permit h = Some OutboundSide -> held_slot h = None ->
  (Pool.load (mux_pool p) t < max OutboundSide)%N.
Proof.
  intros Hi Hh Hp Hs. rewrite (inv_live _ _ Hi). pose proof (inv_permits _ _ Hi OutboundSide).
  assert (count (uses (tunnel_id t)) hs < count (permit_of OutboundSide) hs); [|lia].
  apply (count_mono_lt _ _ hs i h); [|done | unfold uses; by rewrite Hs | by apply bool_decide_eq_true].
  intros j x Hj Hx. unfold uses in Hx. destruct (held_slot x) as [u|] eqn:E; [|done].
  apply bool_decide_eq_true. by apply (hw_slot x (inv_held _ _ Hi _ _ Hj) u).
Qed.

(** A task is given the tunnels of a peer; under the lock it may find none. *)
Lemma sound_tunnels p hs i h addr :
  inv p hs -> hs !! i = Some h ->
  inv p (<[i := held_after (TunnelsOf addr) (peers (mux_pool p) !! addr) h]> hs).
Proof.
  intros Hi Hh. destruct (inv_held _ _ Hi _ _ Hh) as [Hwc Hws Hwr Hwf].
  apply (inv_move p hs i h); try done; try unmoved Hi Hh.
  - split; simpl; [done | | done |].
    + intros t Ht. destruct (Hws t Ht). split; [done |]. apply elem_of_app. by right.
    + intros H. bool_props. destruct H as [?|H]; [by apply Hwf |]. bool_props. by eexists.
  - intros _ a. unfold bare_at. simpl. change (guards a _) with (guards a h) at 1.
    destruct (held_bare h) eqn:Ef; [by left |]. simpl.
    destruct (bool_decide_reflect (default [] (peers (mux_pool p) !! addr) = [])) as [He|]; [|by left].
    destruct (bool_decide_reflect (held_guard h = Some addr)) as [Hg|]; [|by left]. simpl.
    unfold guards. simpl. destruct (bool_decide_reflect (held_guard h = Some a)) as [Hga|]; [|left; simpl; lia].
    assert (a = addr) as -> by congruence. right. split; [by apply (sole_guard held_bare p hs i h) |].
    unfold Pool.tunnel_count. destruct (peers (mux_pool p) !! addr); simpl in *; [by subst | done].
  - intros t [Ht|Ht]%elem_of_app; [|by apply (inv_given _ _ Hi i h)].
    destruct (peers (mux_pool p) !! addr) as [ts|] eqn:E; [|by apply elem_of_nil in Ht].
    by apply (inv_pooled _ _ Hi addr ts t).
Qed.

Lemma sound_can_grow p hs i h addr :
  inv p hs -> hs !! i = Some h ->
  inv p (<[i := held_after (CanGrow addr) (Pool.can_grow (mux_pool p) addr) h]> hs).
Proof.
  intros Hi Hh. destruct (inv_held _ _ Hi _ _ Hh) as [Hwc Hws Hwr Hwf].
  apply (inv_move p hs i h); try done; try unmoved Hi Hh.
  - split; simpl; [done | done | | done].
    intros [?|[_ Hg%bool_decide_eq_true]%andb_true_iff]%orb_true_iff; eauto.
  - intros a. unfold room_at. simpl. change (guards a _) with (guards a h) at 1.
    destruct (held_room h) eqn:Er; [by left |]. simpl. unfold Pool.can_grow.
    destruct (Nat.ltb_spec (Pool.tunnel_count (mux_pool p) addr) MAX_TUNNELS_PER_PEER) as [Hlt|]; [|by left].
    destruct (bool_decide_reflect (held_guard h = Some addr)) as [Hg|]; [|by left]. simpl.
    unfold guards. simpl. destruct (bool_decide_reflect (held_guard h = Some a)) as [Hga|]; [|left; simpl; lia].
    assert (a = addr) as -> by congruence. right. split; [by apply (sole_guard held_room p hs i h) | done].
Qed.

Lemma sound_new_tunnel p hs i h addr peer :
  inv p hs -> hs !! i = Some h -> legal (NewTunnel addr peer) h -> (tunnel_ids p < 2 ^ 64)%N ->
  let t := MkTunnel (wrap_u64 (tunnel_ids p)) peer addr in
  inv (MkProc (proc_metrics p) (identity_cache p) (tunnel_ids p + 1)
         (Pool.create (mux_pool p) t) (creating p) (inbound_slots p) (outbound_slots p))
    (<[i := held_after (NewTunnel addr peer) t h]> hs).
Proof.
  intros Hi Hh Hgood Hid t. destruct (inv_held _ _ Hi _ _ Hh) as [Hwc Hws Hwr Hwf].
  assert (Et : tunnel_id t = tunnel_ids p) by (by apply N.mod_small).
  assert (Hmono : forall u, known p u ->
    known (MkProc (proc_metrics p) (identity_cache p) (tunnel_ids p + 1) (Pool.create (mux_pool p) t)
             (creating p) (inbound_slots p) (outbound_slots p)) u).
  { intros u [Hu ?]. split; [simpl; lia | done]. }
  apply (inv_move p hs i h); try done; try unmoved Hi Hh.
  - split; simpl; [done | | done..]. intros u Hu. destruct (Hws u Hu). split; [done | by right].
  - simpl. lia.
  - intros a ts u Ha Hu. destruct (inv_pooled _ _ Hi _ _ _ Ha Hu). by split; [apply Hmono |].
  - intros u [->|Hu]%elem_of_cons; [split; [rewrite Et; simpl; lia | apply Hgood] |].
    apply Hmono. by apply (inv_given _ _ Hi i h).
  - intros u. cbn [mux_pool]. unfold Pool.create. rewrite load_update, Et. unfold uses. simpl.
    destruct (N.eqb_spec (tunnel_ids p) (tunnel_id u)) as [E|E]; simpl; [|lia].
    rewrite (inv_live _ _ Hi u). cut (forall x j, hs !! j = Some x -> uses (tunnel_id u) x = false).
    { intros Hno. rewrite count_zero by (intros; by eapply Hno). unfold uses in Hno.
      rewrite (Hno h i Hh). done. }
    intros x j Hj. unfold uses. destruct (held_slot x) as [v|] eqn:Ev; [|done]. apply N.eqb_neq. intros Heq.
    destruct (hw_slot x (inv_held _ _ Hi _ _ Hj) v Ev) as [_ Hv].
    destruct (inv_given _ _ Hi _ _ _ Hj Hv). lia.
Qed.

Lemma sound_push p hs i h addr t :
  inv p hs -> hs !! i = Some h -> legal (Push addr t) h ->
  inv (set_pool (Pool.push (mux_pool p) addr t) p) (<[i := held_after (Push addr t) tt h]> hs).
Proof.
  intros Hi Hh (Hg & Hr & Hf & Ht & Hlink). destruct (inv_held _ _ Hi _ _ Hh) as [Hwc Hws Hwr Hwf].
  apply (inv_move p hs i h); try done; try unmoved Hi Hh.
  - intros a. left. cbn [mux_pool set_pool]. rewrite push_count. unfold room_at, guards. simpl. rewrite Hr, Hg.
    destruct (bool_decide_reflect (Some addr = Some a)), (decide (addr = a)); simplify_eq; simpl; lia.
  - intros Hm a. left. cbn [mux_pool set_pool]. rewrite push_count. unfold bare_at, guards. simpl.
    rewrite (Hf Hm), Hg.
    destruct (bool_decide_reflect (Some addr = Some a)), (decide (addr = a)); simplify_eq; simpl; lia.
  - intros a ts u Ha Hu. destruct (push_peers _ _ _ _ _ _ Ha Hu) as [[-> ->]|(ts' & Ha' & Hu')].
    + split; [exact (inv_given _ _ Hi i h t Hh Ht) | done].
    + exact (inv_pooled _ _ Hi _ _ _ Ha' Hu').
Qed.

Lemma sound_evict p hs i h addr t :
  inv p hs -> hs !! i = Some h -> inv (set_pool (Pool.evict (mux_pool p) addr t) p) (<[i := h]> hs).
Proof.
  intros Hi Hh. pose proof (inv_held _ _ Hi _ _ Hh). apply (inv_move p hs i h); try done; try unmoved Hi Hh.
  - intros a. left. pose proof (evict_count (mux_pool p) addr t a). simpl. lia.
  - intros _ a. left. pose proof (evict_count (mux_pool p) addr t a). simpl. lia.
  - intros a ts u Ha Hu. destruct (evict_peers _ _ _ _ _ _ Ha Hu) as (ts' & ? & ?). by eapply (inv_pooled _ _ Hi).
  - intros u. simpl. by rewrite evict_load.
Qed.

Lemma sound_reserve p hs i h t :
  inv p hs -> hs !! i = Some h -> legal (Reserve t) h ->
  inv (set_pool (Pool.reserve (mux_pool p) t) p) (<[i := held_after (Reserve t) tt h]> hs).
Proof.
  intros Hi Hh (Ht & Hs & Hp). destruct (inv_held _ _ Hi _ _ Hh) as [Hwc Hws Hwr Hwf].
  destruct (slot_bounds _ _ Hi) as (_ & _ & Hb). pose proof (inv_max _ _ Hi OutboundSide) as Hm.
  unfold MAX_PERMITS in Hm. apply (inv_move p hs i h); try done; try unmoved Hi Hh.
  - split; simpl; [done | by intros ? [= <-] | done..].
  - intros u. unfold Pool.reserve, set_pool. cbn [mux_pool]. rewrite load_update. unfold uses. simpl. rewrite Hs.
    destruct (N.eqb_spec (tunnel_id t) (tunnel_id u)) as [E|E]; simpl; [|lia].
    rewrite (load_same _ t u E). specialize (Hb u). rewrite fetch_add_1_small by lia. lia.
Qed.

Lemma sound_release p hs i h t :
  inv p hs -> hs !! i = Some h -> held_slot h = Some t ->
  inv (set_pool (Pool.release (mux_pool p) t) p) (<[i := held_after (Release t) tt h]> hs).
Proof.
  intros Hi Hh Hs. destruct (inv_held _ _ Hi _ _ Hh) as [Hwc Hws Hwr Hwf].
  pose proof (used_load _ _ _ _ _ Hi Hh Hs) as Hone.
  destruct (slot_bounds _ _ Hi) as (_ & _ & Hb). pose proof (inv_max _ _ Hi OutboundSide) as Hm.
  unfold MAX_PERMITS in Hm. apply (inv_move p hs i h); try done; try unmoved Hi Hh.
  - intros u. unfold Pool.release, set_pool. cbn [mux_pool]. rewrite load_update. unfold uses. simpl. rewrite Hs.
    destruct (N.eqb_spec (tunnel_id t) (tunnel_id u)) as [E|E]; simpl; [|lia].
    rewrite (load_same _ t u E) in *. specialize (Hb u). rewrite fetch_sub_1_small by lia. lia.
Qed.

(** *** Permits and active counts *)

Lemma get_set_slots s s' l p : get_slots s (set_slots s' l p) = if decide (s' = s) then l else get_slots s p.
Proof. by destruct s, s'. Qed.

(** A call on the slots of a proxy touches nothing else. *)
Lemma sound_slots p hs i h h' s l :
  inv p hs -> hs !! i = Some h -> held_wf h' ->
  held_guard h' = held_guard h -> held_room h' = held_room h -> held_bare h' = held_bare h -> held_tunnels h' = held_tunnels h ->
  held_slot h' = held_slot h ->
  (forall s', permit_of s' h' = permit_of s' h \/ s' = s) ->
  (forall s', counted s' h' = counted s' h \/ s' = s) ->
  (permits l + N.of_nat (b2n (permit_of s h')) = permits (get_slots s p) + N.of_nat (b2n (permit_of s h)))%N ->
  (active_connections l + N.of_nat (b2n (counted s h))
   = active_connections (get_slots s p) + N.of_nat (b2n (counted s h')))%N ->
  inv (set_slots s l p) (<[i := h']> hs).
Proof.
  intros Hi Hh Hw Eg Er Ef Et Es Hps Hcs Hp Hc.
  apply (inv_move p hs i h); try done.
  - intros a. unfold guards, lock_bit. rewrite Eg. by destruct s.
  - intros a. left. unfold room_at, guards. rewrite Eg, Er. by destruct s.
  - intros _ a. left. unfold bare_at, guards. rewrite Eg, Ef. by destruct s.
  - by destruct s.
  - intros a ts t. destruct s; exact (inv_pooled _ _ Hi a ts t).
  - intros t. rewrite Et. destruct s; exact (inv_given _ _ Hi _ _ t Hh).
  - intros t. unfold uses. rewrite Es. by destruct s.
  - intros s'. rewrite get_set_slots. destruct (decide (s = s')) as [<-|Hne]; [exact Hp |].
    destruct (Hps s') as [->|?]; [done | congruence].
  - intros s'. rewrite get_set_slots. destruct (decide (s = s')) as [<-|Hne]; [exact Hc |].
    destruct (Hcs s') as [->|?]; [done | congruence].
  - destruct s; exact (inv_cache _ _ Hi).
Qed.

(** What a task's own permit and count say of the sides. *)
Lemma option_side_cases (o o' : option Side) s :
  o = Some s \/ o = None -> o' = Some s \/ o' = None ->
  forall s', bool_decide (o' = Some s') = bool_decide (o = Some s') \/ s' = s.
Proof. intros [-> | ->] [-> | ->] s'; destruct (decide (s' = s)) as [->|]; decide_all; simplify_eq; auto. Qed.

Lemma sound_try_acquire p hs i h s r p' :
  inv p hs -> hs !! i = Some h -> held_permit h = None -> apply_call (TryAcquire s) p = Some (r, p') ->
  inv p' (<[i := held_after (TryAcquire s) r h]> hs).
Proof.
  intros Hi Hh Hn. simpl. destruct (inv_held _ _ Hi _ _ Hh) as [Hwc Hws Hwr Hwf].
  destruct (N.eqb_spec (permits (get_slots s p)) 0) as [Hz|Hz]; intros [= <- <-].
  { rewrite list_insert_id; [done |]. rewrite Hh. by destruct h. }
  assert (Hno : held_count h = None).
  { destruct (held_count h) as [x|] eqn:E; [|done]. by rewrite (Hwc x eq_refl) in Hn. }
  apply (sound_slots p hs i h); try done; simpl.
  - split; simpl; [by rewrite Hno | | done..]. intros t Ht. destruct (Hws t Ht). congruence.
  - apply option_side_cases; auto.
  - by left.
  - unfold permit_of. simpl. rewrite Hn. decide_all; simplify_eq; simpl; lia.
Qed.

Lemma sound_return_permit p hs i h s :
  inv p hs -> hs !! i = Some h -> legal (ReturnPermit s) h ->
  inv (set_slots s (MkSlots (permits (get_slots s p) + 1) (active_connections (get_slots s p))) p)
    (<[i := held_after (ReturnPermit s) tt h]> hs).
Proof.
  intros Hi Hh (Hp & Hc & Hs). destruct (inv_held _ _ Hi _ _ Hh) as [Hwc Hws Hwr Hwf].
  apply (sound_slots p hs i h); try done; simpl.
  - split; simpl; [by rewrite Hc | by rewrite Hs | done..].
  - apply option_side_cases; auto.
  - by left.
  - unfold permit_of. simpl. rewrite Hp. decide_all; simplify_eq; simpl; lia.
Qed.

Lemma sound_count_up p hs i h s :
  inv p hs -> hs !! i = Some h -> legal (CountUp s) h ->
  inv (set_slots s (MkSlots (permits (get_slots s p)) (fetch_add_1 (active_connections (get_slots s p)))) p)
    (<[i := held_after (CountUp s) tt h]> hs).
Proof.
  intros Hi Hh (Hp & Hc). destruct (inv_held _ _ Hi _ _ Hh) as [Hwc Hws Hwr Hwf].
  destruct (slot_bounds _ _ Hi) as (Hb & _). specialize (Hb s). pose proof (inv_max _ _ Hi s) as Hm.
  unfold MAX_PERMITS in Hm. apply (sound_slots p hs i h); try done; simpl.
  - split; simpl; [by intros ? [= <-] | done..].
  - by left.
  - apply option_side_cases; auto.
  - rewrite fetch_add_1_small by lia. unfold counted. simpl. rewrite Hc. decide_all; simplify_eq; simpl; lia.
Qed.

Lemma sound_count_down p hs i h s :
  inv p hs -> hs !! i = Some h -> held_count h = Some s ->
  inv (set_slots s (MkSlots (permits (get_slots s p)) (fetch_sub_1 (active_connections (get_slots s p)))) p)
    (<[i := held_after (CountDown s) tt h]> hs).
Proof.
  intros Hi Hh Hc. destruct (inv_held _ _ Hi _ _ Hh) as [Hwc Hws Hwr Hwf].
  destruct (slot_bounds _ _ Hi) as (Hb & _). specialize (Hb s). pose proof (inv_max _ _ Hi s) as Hm.
  unfold MAX_PERMITS in Hm.
  assert (Hone : (1 <= active_connections (get_slots s p))%N).
  { rewrite (inv_active _ _ Hi). assert (1 <= count (counted s) hs); [|lia].
    apply (count_pos _ _ i h); [done | by apply bool_decide_eq_true]. }
  apply (sound_slots p hs i h); try done; simpl.
  - by left.
  - apply option_side_cases; auto.
  - rewrite fetch_sub_1_small by lia. unfold counted. simpl. rewrite Hc. decide_all; simplify_eq; simpl; lia.
Qed.

(** ** Soundness of the discipline

    A legal call of one task keeps the invariant, whatever the others hold, as
    long as the tunnel ids do not wrap around. *)
Theorem call_sound p hs i h c r p' :
  inv p hs -> hs !! i = Some h -> legal c h -> (tunnel_ids p' <= 2 ^ 64)%N ->
  apply_call c p = Some (r, p') -> inv p' (<[i := held_after c r h]> hs).
Proof.
  intros Hi Hh Hl Hid. pose proof (inv_held _ _ Hi _ _ Hh) as Hw.
  assert (Hsame : forall q, inv q hs -> inv q (<[i := h]> hs)) by (intros q; by rewrite list_insert_id).
  destruct c as [op|leaf|leaf id|addr|t|addr|addr peer|addr t|addr t|t|t|addr|addr|s|s|s|s];
    cbn [apply_call]; intros Ha.
  - injection Ha as <- <-. apply Hsame. destruct Hi. by split.
  - injection Ha as <- <-. by apply Hsame.
  - injection Ha as <- <-. apply Hsame. destruct Hi. split; try done. by apply map_Forall_insert_2.
  - injection Ha as <- <-. by apply sound_tunnels.
  - injection Ha as <- <-. by apply Hsame.
  - injection Ha as <- <-. by apply sound_can_grow.
  - injection Ha as <- <-. apply sound_new_tunnel; try done. simpl in Hid. lia.
  - injection Ha as <- <-. by apply sound_push.
  - injection Ha as <- <-. by apply sound_evict.
  - injection Ha as <- <-. by apply sound_reserve.
  - injection Ha as <- <-. by apply sound_release.
  - destruct (decide (addr ∈ creating p)); [done |]. injection Ha as <- <-. by apply sound_lock.
  - injection Ha as <- <-. by apply sound_unlock.
  - by eapply sound_try_acquire.
  - injection Ha as <- <-. by apply sound_return_permit.
  - injection Ha as <- <-. by apply sound_count_up.
  - injection Ha as <- <-. by apply sound_count_down.
Qed.

(** A task is spawned, taking over everything or nothing. *)
Lemma inv_fork p hs i h (moved : bool) :
  inv p hs -> hs !! i = Some h ->
  inv p (<[i := if moved then nothing_held else h]> hs ++ [if moved then h else nothing_held]).
Proof.
  intros Hi Hh. pose proof (inv_held _ _ Hi _ _ Hh) as Hw.
  assert (Hat : forall j x, (<[i := if moved then nothing_held else h]> hs
    ++ [if moved then h else nothing_held]) !! j = Some x ->
    x = nothing_held \/ exists k, hs !! k = Some x).
  { intros j x [Hj|[_ Hj]]%lookup_app_Some.
    - destruct (decide (i = j)) as [<-|Hne].
      + rewrite list_lookup_insert_eq in Hj by (by eapply lookup_lt_Some).
        destruct moved; injection Hj as <-; eauto.
      + rewrite list_lookup_insert_ne in Hj by done. eauto.
    - apply list_lookup_singleton_Some in Hj as [_ <-]. destruct moved; eauto. }
  assert (Hcount : forall P, P nothing_held = false ->
    count P (<[i := if moved then nothing_held else h]> hs ++ [if moved then h else nothing_held])
    = count P hs).
  { intros P Hn. rewrite count_app. simpl.
    pose proof (count_insert P hs i h (if moved then nothing_held else h) Hh).
    destruct moved; rewrite ?Hn in *; lia. }
  split; [| | | | apply (inv_pooled _ _ Hi) | | | | | apply (inv_max _ _ Hi) | apply (inv_cache _ _ Hi)].
  - intros j x [->|[k Hk]]%Hat; [apply nothing_wf | by eapply inv_held].
  - intros a. rewrite Hcount by done. apply (inv_locks _ _ Hi).
  - intros a. rewrite Hcount by done. apply (inv_room _ _ Hi).
  - intros Hm a. rewrite Hcount by done. by apply (inv_single _ _ Hi).
  - intros j x t [->|[k Hk]]%Hat Ht; [by apply elem_of_nil in Ht | by eapply inv_given].
  - intros t. rewrite Hcount by done. apply (inv_live _ _ Hi).
  - intros s. rewrite Hcount by done. apply (inv_permits _ _ Hi).
  - intros s. rewrite Hcount by done. apply (inv_active _ _ Hi).
Qed.

(** The cache may drop entries at any time. *)
Lemma inv_evict_cache p hs c : inv p hs -> c ⊆ identity_cache p -> inv (set_cache c p) hs.
Proof.
  intros Hi Hs. destruct Hi. split; try done. intros k id Hk. apply inv_cache0. by eapply lookup_weaken.
Qed.
End Holdings.
