(* ===== verification/Tasks.v ===== *)
(** * Tasks running side by side

    A program logic for the tasks of [Process], and the semantics of many tasks
    over one shared state.  [wp] is proved of one program at a time, against
    any behaviour of the other tasks that keeps the invariant of [Holdings];
    [config_ok] then holds in every configuration that an interleaving of all
    tasks can reach.  Further: a task that is not finished can act unless it
    waits for input, or for a lock whose holder can act; and the registry of
    metrics holds what the tasks have charged. *)

From S2P Require Import Prelude Bytes Common Identity Policy Net Metrics Tunnels Process Holdings.

(** What is promised of the tasks of a process. *)
Record Contract (E : Type) := MkContract {
  good_entry : str -> SpiffeId -> Prop;     (** entries of the identity cache *)
  good_tunnel : Tunnel -> Prop;             (** tunnels of the pool *)
  max_permits : Side -> N;                  (** the configured limits *)
  named : E -> Prop;                        (** the event a task starts with *)
  allowed : list E -> E -> Prop;            (** an event, after those of its task *)
  finished : Trail E -> Prop;               (** the history of a task that has ended *)
  resting : Trail E -> Prop;                (** that of a task that waits for input *)
}.
Arguments good_entry {E} _ _ _.
Arguments good_tunnel {E} _ _.
Arguments max_permits {E} _ _.
Arguments named {E} _ _.
Arguments allowed {E} _ _ _.
Arguments finished {E} _ _.
Arguments resting {E} _ _.

Section Tasks.
Context {E : Type} (C : Contract E).

Abbreviation legal := (legal (good_entry C) (good_tunnel C) (max_permits C)).
Abbreviation inv := (inv (good_entry C) (good_tunnel C) (max_permits C)).

(** A connection's start is recorded when the task has none in flight, its end
    when it has one. *)
Definition orderly (c : Call) (ch : charge) : Prop :=
  match c with
  | RecordMetric GaugeIncrement => d_active ch = 0%Z
  | RecordMetric GaugeDecrement => d_active ch = 1%Z
  | _ => True
  end.

Definition permitted (c : Call) (tr : Trail E) : Prop := legal c (holds tr) /\ orderly c (spent tr).

(** ** The program logic *)

(** From a task with the history [tr], running [m] never panics, follows the
    discipline, makes only allowed events visible, spawns only tasks that do
    the same and finish well, and ends with [Q]. *)
Fixpoint wp {A : Type} (m : Prog E A) (tr : Trail E) (Q : A -> Trail E -> Prop) : Prop :=
  match m with
  | Ret a => Q a tr
  | Panic => False
  | Idle => resting C tr
  | Emit e m => allowed C (said tr) e /\ wp m (say e tr) Q
  | Act c k =>
      permitted c tr
      /\ forall p hs i r p', inv p hs -> hs !! i = Some (holds tr) -> apply_call c p = Some (r, p') ->
         wp (k r) (note c r tr) Q
  | Fork moved e child m =>
      named C e /\ wp child (fork_child moved e tr) (fun _ => finished C)
      /\ wp m (fork_parent moved tr) Q
  end.

Lemma wp_mono {A} (m : Prog E A) tr (Q R : A -> Trail E -> Prop) :
  wp m tr Q -> (forall a tr', Q a tr' -> R a tr') -> wp m tr R.
Proof.
  revert tr Q R. induction m as [A a|A|A|A e m IH|A c k IH|A moved e child _ m IH];
    intros tr Q R H HQ; simpl in *; [by apply HQ | done | done | | |].
  - destruct H. split; [done |]. by eapply IH.
  - destruct H as [Hl Hk]. split; [done |]. intros p hs i r p' Hi Hh Ha.
    eapply IH; [by eapply Hk | done].
  - destruct H as (? & ? & ?). split; [done |]. split; [done |]. by eapply IH.
Qed.

Lemma wp_bind {A B} (m : Prog E A) (f : A -> Prog E B) tr (Q : A -> Trail E -> Prop) R :
  wp m tr Q -> (forall a tr', Q a tr' -> wp (f a) tr' R) -> wp (m ≫= f) tr R.
Proof.
  cbv [mbind Prog_bind]. revert B f tr Q R.
  induction m as [A a|A|A|A e m IH|A c k IH|A moved e child _ m IH];
    intros B f tr Q R H HQ; simpl in *; [by apply HQ | done | done | | |].
  - destruct H. split; [done |]. by eapply IH.
  - destruct H as [Hl Hk]. split; [done |]. intros p hs i r p' Hi Hh Ha.
    eapply IH; [by eapply Hk | done].
  - destruct H as (? & ? & ?). split; [done |]. split; [done |]. by eapply IH.
Qed.

Lemma wp_ret {A} (a : A) tr (Q : A -> Trail E -> Prop) : Q a tr -> wp (mret a) tr Q.
Proof. done. Qed.

(** Rules for the first command of a sequence. *)
Lemma wp_call {B} c (f : answer c -> Prog E B) tr R :
  permitted c tr ->
  (forall p hs i r p', inv p hs -> hs !! i = Some (holds tr) -> apply_call c p = Some (r, p') ->
     wp (f r) (note c r tr) R) ->
  wp (r ← call c; f r) tr R.
Proof. done. Qed.

(** A recording function keeps the order if each of its operations does. *)
Fixpoint orderly_all (ops : list MetricOp) (ch : charge) : Prop :=
  match ops with
  | [] => True
  | op :: rest => orderly (RecordMetric op) ch /\ orderly_all rest (add_charge ch (op_charge op))
  end.

Definition recorded (ops : list MetricOp) (tr : Trail E) : Trail E :=
  MkTrail (holds tr) (add_charge (spent tr) (ops_charge ops)) (said tr).

Lemma wp_record_last ops tr Q : orderly_all ops (spent tr) -> Q tt (recorded ops tr) -> wp (record ops) tr Q.
Proof.
  revert tr. induction ops as [|op ops IH]; intros [h ch sd] Ho HQ; unfold recorded in *; simpl in *.
  - by rewrite (right_id no_charge add_charge) in HQ.
  - destruct Ho as [Ho Hops]. split; [done |]. intros p hs i [] p' _ _ _. apply IH; [done |].
    unfold note. simpl. by rewrite <- (assoc add_charge).
Qed.

Lemma wp_record {B} ops (f : unit -> Prog E B) tr R :
  orderly_all ops (spent tr) -> wp (f tt) (recorded ops tr) R -> wp (r ← record ops; f r) tr R.
Proof. intros Ho H. eapply wp_bind; [by apply (wp_record_last ops tr (fun _ tr' => tr' = recorded ops tr)) |]. by intros [] tr' ->. Qed.

(** One that charges nothing to connections leaves no trace. *)
Lemma wp_record_quiet {B} ops (f : unit -> Prog E B) tr R :
  Forall (fun op => op_charge op = no_charge) ops -> wp (f tt) tr R -> wp (r ← record ops; f r) tr R.
Proof.
  intros Hq H. assert (Hr : orderly_all ops (spent tr) /\ recorded ops tr = tr); 
    [| destruct Hr as [Ho He]; apply wp_record; by rewrite ?He].
  clear H. destruct tr as [h ch sd]. unfold recorded. cbn [spent holds said].
  revert ch. induction Hq as [|op ops Hop Hops IH]; intros ch; simpl; rewrite ?Hop, (right_id no_charge add_charge); [done |].
  destruct (IH ch) as [Hord Heq]. rewrite (left_id no_charge add_charge). split; [|done].
  split; [|done]. by destruct op.
Qed.

Lemma wp_emit {B} e (f : unit -> Prog E B) tr R :
  allowed C (said tr) e -> wp (f tt) (say e tr) R -> wp (r ← emit e; f r) tr R.
Proof. done. Qed.

Lemma wp_spawn {B} moved e child (f : unit -> Prog E B) tr R :
  named C e -> wp child (fork_child moved e tr) (fun _ => finished C) -> wp (f tt) (fork_parent moved tr) R ->
  wp (r ← spawn moved e child; f r) tr R.
Proof. done. Qed.

Lemma wp_lift {A B} (a : A) (f : A -> Prog E B) tr R : wp (f a) tr R -> wp (r ← lift (Some a); f r) tr R.
Proof. done. Qed.

(** ** Configurations *)

Record Machine := MkMachine { threads : list (Prog E unit * Trail E); proc : Proc }.

(** The next action of task [i]; [None]: it has ended, or it waits for input or for
    a lock. *)
Definition step_thread (i : nat) (cfg : Machine) : option Machine :=
  match threads cfg !! i with
  | Some (Emit e m, tr) => Some (MkMachine (<[i := (m, say e tr)]> (threads cfg)) (proc cfg))
  | Some (Act c k, tr) =>
      '(r, p) ← apply_call c (proc cfg);
      Some (MkMachine (<[i := (k r, note c r tr)]> (threads cfg)) p)
  | Some (Fork moved e child m, tr) =>
      Some (MkMachine (<[i := (m, fork_parent moved tr)]> (threads cfg) ++ [(child, fork_child moved e tr)])
              (proc cfg))
  | Some (Ret _, _) | Some (Panic, _) | Some (Idle, _) | None => None
  end.

(** Any task acts, or the cache drops entries. *)
Inductive step : Machine -> Machine -> Prop :=
| thread_moves i cfg cfg' : step_thread i cfg = Some cfg' -> step cfg cfg'
| cache_drops c cfg : c ⊆ identity_cache (proc cfg) ->
    step cfg (MkMachine (threads cfg) (set_cache c (proc cfg))).

(** Playing a schedule. *)
Definition play (l : list nat) (cfg : Machine) : option Machine :=
  foldl (fun o i => x ← o; step_thread i x) (Some cfg) l.

Lemma play_steps l : forall cfg cfg', play l cfg = Some cfg' -> steps step cfg cfg'.
Proof.
  unfold play. induction l as [|i l IH]; intros s s'; simpl; [intros [= <-]; constructor |].
  destruct (step_thread i s) as [x|] eqn:Ex; simpl.
  - intros H. eapply steps_trans; [|by apply IH]. apply steps_one. by eapply thread_moves.
  - intros H. exfalso. clear -H. induction l as [|j l IH]; simpl in *; [done | auto].
Qed.

Lemma played_steps l cfg : steps step cfg (default cfg (play l cfg)).
Proof. destruct (play l cfg) as [c|] eqn:Ep; [by apply play_steps in Ep | constructor]. Qed.

(** Playing the first task that can act, again and again. *)
Fixpoint first_step (n : nat) (cfg : Machine) : option Machine :=
  match n with
  | 0 => None
  | S n' => match first_step n' cfg with Some c => Some c | None => step_thread n' cfg end
  end.
Fixpoint drive (fuel : nat) (cfg : Machine) : Machine :=
  match fuel with
  | 0 => cfg
  | S fuel' =>
      match first_step (length (threads cfg)) cfg with
      | Some cfg' => drive fuel' cfg'
      | None => cfg
      end
  end.

Lemma drive_steps fuel cfg : steps step cfg (drive fuel cfg).
Proof.
  revert cfg. induction fuel as [|fuel IH]; intros cfg; simpl; [constructor |].
  destruct (first_step _ cfg) as [cfg'|] eqn:Ef; [|constructor].
  eapply steps_trans; [apply steps_one | apply IH]. clear IH. revert Ef.
  generalize (length (threads cfg)). intros n. induction n as [|n IH]; simpl; [done |].
  destruct (first_step n cfg) as [c|]; [done |]. apply thread_moves.
Qed.

(** The histories of the tasks. *)
Definition trails (cfg : Machine) : list (Trail E) := map snd (threads cfg).
Definition holdings (cfg : Machine) : list Held := map holds (trails cfg).

(** The events of a task were allowed one after the other; the first one names
    the task. *)
Inductive told : list E -> Prop :=
| told_named e : named C e -> told [e]
| told_more l e : told l -> allowed C l e -> told (l ++ [e]).

(** Every event after the name was allowed by those before it. *)
Lemma told_allowed n acts : told (n :: acts) ->
  named C n /\ forall pre e post, acts = pre ++ e :: post -> allowed C (n :: pre) e.
Proof.
  remember (n :: acts) as l eqn:El. intros Ht. revert n acts El.
  induction Ht as [e He | l e Hl IH Ha]; intros n acts El.
  - injection El as -> <-. split; [done |]. by intros [].
  - destruct l as [|x l]; [by inversion Hl; destruct l |]. injection El as -> <-.
    destruct (IH n l eq_refl) as [Hn Hpre]. split; [done |]. intros pre e' post Heq.
    destruct post as [|z post _] using rev_ind.
    + apply app_inj_tail in Heq as [<- <-]. done.
    + rewrite app_comm_cons, app_assoc in Heq. apply app_inj_tail in Heq as [-> _]. by eapply Hpre.
Qed.

(** A task has a connection in flight, or it has none. *)
Definition in_flight (tr : Trail E) : bool := (d_active (spent tr) =? 1)%Z.

Record thread_ok (t : Prog E unit * Trail E) : Prop := {
  ok_wp : wp t.1 t.2 (fun _ => finished C);
  ok_told : told (said t.2);
  ok_flight : d_active (spent t.2) = if in_flight t.2 then 1%Z else 0%Z;
}.

Lemma orderly_flight c r tr :
  orderly c (spent tr) -> d_active (spent tr) = (if in_flight tr then 1%Z else 0%Z) ->
  d_active (spent (note c r tr)) = if in_flight (note c r tr) then 1%Z else 0%Z.
Proof.
  unfold in_flight, note. cbn [spent]. destruct (Z.eqb_spec (d_active (spent tr)) 1) as [E1|]; intros Ho Hd;
    destruct c as [[[] k'| | | |]| | | | | | | | | | | | | | | |]; simpl in *; rewrite ?Hd; try (rewrite Ho in *); done.
Qed.

Record config_ok (cfg : Machine) : Prop := {
  ok_inv : inv (proc cfg) (holdings cfg);
  ok_threads : Forall thread_ok (threads cfg);
}.

Lemma holdings_lookup cfg i m tr :
  threads cfg !! i = Some (m, tr) -> holdings cfg !! i = Some (holds tr).
Proof. intros H. unfold holdings, trails. by rewrite !list_lookup_fmap, H. Qed.

(** The obligation of a move that replaces the state of one task. *)
Lemma config_move cfg i m m' tr tr' p' :
  config_ok cfg -> threads cfg !! i = Some (m, tr) ->
  inv p' (<[i := holds tr']> (holdings cfg)) -> thread_ok (m', tr') ->
  config_ok (MkMachine (<[i := (m', tr')]> (threads cfg)) p').
Proof.
  intros [Hi Ht] Hth Hi' Ht'. split; simpl.
  - unfold holdings, trails in *. simpl. by rewrite !list_fmap_insert.
  - by apply Forall_insert.
Qed.

Lemma tunnel_ids_mono c p r p' : apply_call c p = Some (r, p') -> (tunnel_ids p <= tunnel_ids p')%N.
Proof.
  destruct c as [| | | | | | | | | | | | |s|s|s|s]; simpl; intros H;
    try (destruct (decide _); [done |]); try (destruct (permits _ =? 0)%N); try destruct s;
    injection H as _ <-; simpl; lia.
Qed.

Lemma step_ids cfg cfg' : step cfg cfg' -> (tunnel_ids (proc cfg) <= tunnel_ids (proc cfg'))%N.
Proof.
  intros Hs. destruct Hs as [i cfg cfg' H|]; [|done]. unfold step_thread in H.
  destruct (threads cfg !! i) as [[[a| | |e m|c k|moved e child m] tr]|]; try done;
    [by injection H as <- | | by injection H as <-].
  destruct (apply_call c (proc cfg)) as [[r p]|] eqn:Ea; [|done]. injection H as <-. simpl.
  by eapply tunnel_ids_mono.
Qed.

Lemma step_ok cfg cfg' :
  config_ok cfg -> (tunnel_ids (proc cfg') <= 2 ^ 64)%N -> step cfg cfg' -> config_ok cfg'.
Proof.
  intros Hok Hid Hs. revert Hok Hid. destruct Hs as [i cfg cfg' H | c cfg Hc]; intros Hok Hid.
  2: { destruct Hok. split; [by apply inv_evict_cache | done]. }
  unfold step_thread in H. destruct (threads cfg !! i) as [[m tr]|] eqn:Hth; [|done].
  pose proof (proj1 (Forall_lookup _ _) (ok_threads _ Hok) _ _ Hth) as [Hwp Htold Hfl].
  pose proof (holdings_lookup _ _ _ _ Hth) as Hh. cbn [fst snd] in Hwp, Htold, Hfl.
  destruct m as [a| | |e m|c k|moved e child m]; try done; cbn [wp] in Hwp.
  - injection H as <-. destruct Hwp as [Ha Hm]. apply (config_move _ _ _ _ _ _ _ Hok Hth).
    + simpl. rewrite list_insert_id by done. apply (ok_inv _ Hok).
    + split; [done | by apply told_more | done].
  - destruct (apply_call c (proc cfg)) as [[r p]|] eqn:Ea; [|done]. injection H as <-.
    destruct Hwp as [[Hl Ho] Hk]. apply (config_move _ _ _ _ _ _ _ Hok Hth).
    + simpl. eapply call_sound; [apply (ok_inv _ Hok) | done | done | done | done].
    + split; [eapply Hk; [apply (ok_inv _ Hok) | done | done] | done | by apply orderly_flight].
  - injection H as <-. destruct Hwp as (Hname & Hchild & Hm). destruct Hok as [Hi Ht]. split; simpl.
    + unfold holdings, trails in *. simpl. rewrite !map_app. simpl.
      rewrite list_fmap_insert. simpl. rewrite list_fmap_insert.
      destruct moved; [by apply (inv_fork _ _ _ _ _ _ _ true) | by apply (inv_fork _ _ _ _ _ _ _ false)].
    + apply Forall_app. split; [apply Forall_insert; [done |] | apply Forall_singleton].
      * by destruct moved.
      * split; [done | by constructor | done].
Qed.

(** Every reachable configuration is as promised, unless the 64-bit tunnel ids
    have been used up. *)
Theorem tasks_sound cfg cfg' :
  config_ok cfg -> steps step cfg cfg' -> (tunnel_ids (proc cfg') <= 2 ^ 64)%N -> config_ok cfg'.
Proof.
  intros Hok Hs. induction Hs as [|s t u Hst IH Htu]; [done |]. intros Hid.
  pose proof (step_ids _ _ Htu). eapply step_ok; [apply IH; [done | lia] | done | done].
Qed.

Lemma no_panic cfg i tr : config_ok cfg -> threads cfg !! i <> Some (Panic, tr).
Proof.
  intros Hok Hth. by destruct (proj1 (Forall_lookup _ _) (ok_threads _ Hok) _ _ Hth).
Qed.

(** ** Accounting

    Whatever the programs are, the registry is the sum of what the tasks have
    charged, and every recorded connection is an error or an observation. *)

Definition total_spent (cfg : Machine) : charge := foldr add_charge no_charge (map spent (trails cfg)).

Lemma spent_insert (l : list charge) i x y :
  l !! i = Some x ->
  add_charge (foldr add_charge no_charge (<[i := y]> l)) x = add_charge (foldr add_charge no_charge l) y.
Proof.
  revert i. induction l as [|z l IH]; intros [|i] H; simpl in *; [done | done | |].
  - injection H as ->. apply charge_eq; simpl; lia.
  - specialize (IH _ H). rewrite <- !(assoc add_charge), IH. by rewrite (assoc add_charge).
Qed.

Lemma call_tallies c p r p' ch :
  apply_call c p = Some (r, p') -> tallies (proc_metrics p) ch ->
  tallies (proc_metrics p') (add_charge ch (call_charge c)).
Proof.
  intros H Ht. destruct c as [op| | | | | | | | | | | | |s|s|s|s]; simpl in *;
    try (destruct (decide _); [done |]); try (destruct (permits _ =? 0)%N); try destruct s;
    injection H as _ <-; simpl; rewrite ?(right_id no_charge add_charge); try done.
  by apply apply_tallies.
Qed.

Definition accounted (cfg : Machine) : Prop := tallies (proc_metrics (proc cfg)) (total_spent cfg).

Lemma spent_move cfg i m m' tr tr' p' :
  threads cfg !! i = Some (m, tr) ->
  add_charge (total_spent (MkMachine (<[i := (m', tr')]> (threads cfg)) p')) (spent tr)
  = add_charge (total_spent cfg) (spent tr').
Proof.
  intros Hth. unfold total_spent, trails. simpl. rewrite !list_fmap_insert. simpl. apply spent_insert.
  by rewrite !list_lookup_fmap, Hth.
Qed.

Lemma add_charge_cancel x y z : add_charge x z = add_charge y z -> x = y.
Proof. intros H. injection H as ? ? ? ?. apply charge_eq; lia. Qed.

(** A step adds what it charges to the total. *)
Lemma step_spent i cfg cfg' :
  step_thread i cfg = Some cfg' ->
  match threads cfg !! i with
  | Some (Act c _, _) => total_spent cfg' = add_charge (total_spent cfg) (call_charge c)
      /\ exists r, apply_call c (proc cfg) = Some (r, proc cfg')
  | _ => total_spent cfg' = total_spent cfg /\ proc cfg' = proc cfg
  end.
Proof.
  intros H. unfold step_thread in H. destruct (threads cfg !! i) as [[m tr]|] eqn:Hth; [|done].
  destruct m as [a| | |e m|c k|moved e child m]; try done.
  - injection H as <-. split; [|done]. apply (add_charge_cancel _ _ (spent tr)).
    by rewrite (spent_move _ _ _ _ _ _ _ Hth).
  - destruct (apply_call c (proc cfg)) as [[r p]|] eqn:Ea; [|done]. injection H as <-. simpl.
    split; [|by exists r]. apply (add_charge_cancel _ _ (spent tr)). rewrite (spent_move _ _ _ _ _ _ _ Hth).
    apply charge_eq; simpl; lia.
  - injection H as <-. split; [|done]. unfold total_spent, trails. simpl. rewrite !map_app, foldr_app.
    change (foldr add_charge no_charge (map spent (map snd [(child, fork_child moved e tr)]))) with no_charge.
    apply (add_charge_cancel _ _ (spent tr)). rewrite !list_fmap_insert. simpl.
    rewrite (spent_insert _ _ (spent tr)); [by destruct moved |]. by rewrite !list_lookup_fmap, Hth.
Qed.

Lemma step_accounted cfg cfg' : accounted cfg -> step cfg cfg' -> accounted cfg'.
Proof.
  intros Hacc Hs. revert Hacc. destruct Hs as [i cfg cfg' H | c cfg Hc]; [|done]. unfold accounted. intros Ht.
  pose proof (step_spent i cfg cfg' H) as Hsp.
  destruct (threads cfg !! i) as [[[] tr]|]; try (by destruct Hsp as [-> ->]).
  destruct Hsp as [-> [r Ha]]. by eapply call_tallies.
Qed.

(** *** The gauge

    It is exact as long as no more tasks than an [f64] counts exactly have been
    spawned. *)
Definition few_tasks (cfg : Machine) : Prop := (Z.of_nat (length (threads cfg)) <= F64_EXACT)%Z.
Definition gauge_exact (cfg : Machine) : Prop :=
  few_tasks cfg -> connections_active (proc_metrics (proc cfg)) = Z.of_nat (count in_flight (trails cfg)).

(** The charges to the gauge are the tasks that have a connection in flight. *)
Lemma flights_spent cfg :
  Forall thread_ok (threads cfg) -> d_active (total_spent cfg) = Z.of_nat (count in_flight (trails cfg)).
Proof.
  intros Hok. unfold total_spent, trails. induction Hok as [|t l Ht Hl IH]; [done |]. simpl.
  rewrite (ok_flight _ Ht), IH. destruct (in_flight t.2); lia.
Qed.

Lemma call_gauge c p r p' :
  apply_call c p = Some (r, p') ->
  connections_active (proc_metrics p') =
    match c with
    | RecordMetric GaugeIncrement => f64_increment (connections_active (proc_metrics p))
    | RecordMetric GaugeDecrement => f64_decrement (connections_active (proc_metrics p))
    | _ => connections_active (proc_metrics p)
    end.
Proof.
  intros H. destruct c as [[]| | | | | | | | | | | | |s|s|s|s]; simpl in *;
    try (destruct (decide _); [done |]); try (destruct (permits _ =? 0)%N); try destruct s;
    by injection H as _ <-.
Qed.

Lemma step_gauge cfg cfg' :
  config_ok cfg -> config_ok cfg' -> gauge_exact cfg -> step cfg cfg' -> gauge_exact cfg'.
Proof.
  intros Hok Hok' Hg Hs Hfew. destruct Hs as [i cfg cfg' H | c cfg Hc]; [|by apply Hg].
  assert (Hfew0 : few_tasks cfg).
  { unfold few_tasks in *. unfold step_thread in H.
    destruct (threads cfg !! i) as [[[a| | |e m|c k|moved e child m] tr]|]; try done;
      [|destruct (apply_call c (proc cfg)) as [[r p]|]; [|done] |];
      injection H as <-; cbn [threads] in Hfew; rewrite ?length_app, length_insert in Hfew; lia. }
  specialize (Hg Hfew0). rewrite <- (flights_spent cfg') by apply (ok_threads _ Hok').
  rewrite <- (flights_spent cfg) in Hg by apply (ok_threads _ Hok).
  pose proof (step_spent i cfg cfg' H) as Hsp.
  assert (Hbound : (0 <= d_active (total_spent cfg) <= F64_EXACT)%Z).
  { rewrite (flights_spent cfg) by apply (ok_threads _ Hok). unfold few_tasks in Hfew0.
    pose proof (count_le_length in_flight (trails cfg)) as Hc. unfold trails in Hc at 2. rewrite length_map in Hc. lia. }
  destruct (threads cfg !! i) as [[m tr]|] eqn:Hth; [|by destruct Hsp as [-> ->]].
  destruct m as [a| | |e m|c k|moved e child m]; try (by destruct Hsp as [-> ->]).
  destruct Hsp as [-> [r Ha]]. rewrite (call_gauge _ _ _ _ Ha). simpl.
  pose proof (proj1 (Forall_lookup _ _) (ok_threads _ Hok) _ _ Hth) as [[[_ Ho] _] _ _].
  destruct c as [[[] k'| | | |]| | | | | | | | | | | | | | | |]; simpl in *; try lia.
  - unfold f64_increment. assert (Hlt : (d_active (total_spent cfg) < F64_EXACT)%Z).
    { rewrite (flights_spent cfg) in * by apply (ok_threads _ Hok). unfold few_tasks in Hfew0.
      assert (count in_flight (trails cfg) < length (threads cfg)); [|lia].
      rewrite <- (length_map snd (threads cfg)). apply (count_lt _ _ i tr).
      - unfold trails. by rewrite list_lookup_fmap, Hth.
      - unfold in_flight. by rewrite Ho. }
    rewrite (proj2 (Z.ltb_lt _ _)); lia.
  - unfold f64_decrement. assert (Hneg : (- F64_EXACT < 0)%Z) by done. rewrite (proj2 (Z.ltb_lt _ _)); lia.
Qed.

(** ** Progress *)

(** A finished task has given everything back, and one that waits for input holds
    no lock. *)
Definition releases : Prop :=
  (forall tr, finished C tr -> released (holds tr)) /\ forall tr, resting C tr -> held_guard (holds tr) = None.

Definition ended (m : Prog E unit) : Prop := m = Ret tt.

(** The call a task is about to make, if that is its next action. *)
Definition next_call (m : Prog E unit) : option Call :=
  match m with Act c _ => Some c | _ => None end.

(** Only taking a lock that is held can block. *)
Lemma blocked c p : apply_call c p = None -> exists addr, c = Lock addr /\ addr ∈ creating p.
Proof.
  destruct c; simpl; try done; try (by destruct (permits _ =? 0)%N).
  destruct (decide _); [|done]. eauto.
Qed.

Lemma step_or_wait cfg i m tr :
  config_ok cfg -> threads cfg !! i = Some (m, tr) -> ~ ended m -> m <> Idle ->
  is_Some (step_thread i cfg)
  \/ exists addr, next_call m = Some (Lock addr) /\ addr ∈ creating (proc cfg).
Proof.
  intros Hok Hth Hne Hni. unfold step_thread. rewrite Hth.
  destruct m as [[]| | |e m|c k|moved e child m];
    [done | by destruct (no_panic _ _ _ Hok Hth) | done | left; eauto | | left; eauto].
  destruct (apply_call c (proc cfg)) as [[r p]|] eqn:Ea; [left; eauto |]. right.
  destruct (blocked _ _ Ea) as (addr & -> & Hin). by exists addr.
Qed.

(** A task that waits for a lock waits for another task, which can act. *)
Lemma holder_acts cfg i m tr addr :
  releases -> config_ok cfg -> threads cfg !! i = Some (m, tr) ->
  next_call m = Some (Lock addr) -> addr ∈ creating (proc cfg) ->
  exists j m' tr', threads cfg !! j = Some (m', tr') /\ held_guard (holds tr') = Some addr
    /\ is_Some (step_thread j cfg).
Proof.
  intros Hrel Hok Hth Hm Hin. pose proof (inv_locks _ _ _ _ _ (ok_inv _ Hok) addr) as Hl.
  unfold lock_bit in Hl. rewrite decide_True in Hl by done.
  destruct (count_pos_inv (guards addr) (holdings cfg)) as (j & h & Hj & Hg); [lia |].
  apply bool_decide_eq_true in Hg. unfold holdings, trails in Hj. rewrite !list_lookup_fmap in Hj.
  destruct (threads cfg !! j) as [[m' tr']|] eqn:Hthj; [|done]. apply (inj Some) in Hj. simpl in Hj. subst h.
  exists j, m', tr'. split; [done |]. split; [done |].
  pose proof (proj1 (Forall_lookup _ _) (ok_threads _ Hok) _ _ Hthj) as [Hwp _ _]. cbn [fst snd] in Hwp.
  destruct (step_or_wait _ _ _ _ Hok Hthj) as [?|(b & Hnext & _)]; [| |done |].
  - intros ->. destruct (proj1 Hrel _ Hwp) as (_ & _ & Hno & _). congruence.
  - intros ->. pose proof (proj2 Hrel _ Hwp). congruence.
  - exfalso. destruct m'; try done. injection Hnext as ->. destruct Hwp as [[Hlg _] _]. simpl in Hlg. congruence.
Qed.

End Tasks.
