(* ===== verification/Handshake.v ===== *)
(** * TLS handshakes and peer identity ([src/proxy/handshake.rs],
    [src/proxy/verify.rs])

    The TLS library, the X.509 parser and the certificate-path validator are
    parameters; what is modelled is how the crate configures them and what it
    does with their results. *)

From S2P Require Import Prelude Bytes Common Glob Identity Policy Net Metrics ProxyBase Process.
From S2P Require Import Holdings Tasks.

Set Default Proof Using "Type".

(** ** Data exchanged with the libraries *)

(** A general name of a subject-alternative-name extension. *)
Inductive GeneralName := URI (uri : str) | OtherName.
Inductive ParsedExtension := SubjectAlternativeName (general_names : list GeneralName) | OtherExtension.
Record X509Extension := MkExt { oid : list N; parsed_extension : ParsedExtension }.

Definition SAN_OID : list N := [2; 5; 29; 17]%N.

Inductive KeyKind := Pkcs8 | Pkcs1 | Sec1.
Record PrivateKeyDer := MkKey { key_kind : KeyKind; secret_der : str }.

(** An established TLS session, as the library reports it. *)
Record Session := MkSession {
  resumed : bool;
  peer_certificates : option (list str);
  alpn_protocol : option str;
}.

(** What the network and the TLS library did with one handshake attempt. *)
Inductive Attempt :=
| ConnectFailed (e : IoError)
| HandshakeTimeout
| HandshakeFailed (e : IoError)
| HandshakeDone (s : Session).

Record TlsStream := MkTlsStream { inner : Session; peer_identity : SpiffeId }.

(** ** Application protocols *)

Definition ALPN_MUX : str := bs "il/mux/1".
Definition alpn_protocols : list str := [ALPN_MUX; bs "h2"; bs "http/1.1"].
Definition legacy_alpn_protocols : list str := [bs "h2"; bs "http/1.1"].
Definition negotiated_alpn (s : Session) : option str := alpn_protocol s.

(** The trait every proxy endpoint implements. *)
Class TlsHandshake (T : Type) := {
  connect {E} : T -> SocketAddr -> Attempt -> Prog E (result TlsStream InterlinkError);
  accept {E} : T -> Attempt -> Prog E (result TlsStream InterlinkError);
}.

(** What the crate configures a client and a server with. *)
Record ClientConfig := MkClientConfig {
  cc_roots : list str;
  cc_trust_domain : str;
  cc_auth : option (list str * PrivateKeyDer);
  cc_alpn : list str;
}.
Record ServerConfig := MkServerConfig {
  sc_roots : list str;
  sc_certs : list str;
  sc_key : PrivateKeyDer;
  sc_alpn : list str;
}.
Record TlsClient := MkTlsClient { connector : ClientConfig }.
Record TlsServer := MkTlsServer { acceptor : ServerConfig }.

Record SpiffeServerVerifier := MkVerifier { roots : list str; verifier_trust_domain : str }.

Section Handshake.
(** [x509_parser::parse_x509_certificate]: the extensions of a certificate,
    or the display text of the error. *)
Context (parse_x509 : str -> result (list X509Extension) str).

(** *** Identity extraction *)

Fixpoint first_spiffe_uri (names : list GeneralName) : eval (option SpiffeId) :=
  match names with
  | [] => Some None
  | URI uri :: rest =>
      r ← Id.from_uri uri;
      match r with
      | Ok id => Some (Some id)
      | Err _ => first_spiffe_uri rest
      end
  | OtherName :: rest => first_spiffe_uri rest
  end.

Fixpoint scan_extensions (exts : list X509Extension) : eval (option SpiffeId) :=
  match exts with
  | [] => Some None
  | ext :: rest =>
      if bool_decide (oid ext = SAN_OID) then
        match parsed_extension ext with
        | SubjectAlternativeName names =>
            found ← first_spiffe_uri names;
            match found with
            | Some id => Some (Some id)
            | None => scan_extensions rest
            end
        | OtherExtension => scan_extensions rest
        end
      else scan_extensions rest
  end.

Definition spiffe_id_from_cert_der (leaf_der : str) : eval (result SpiffeId InterlinkError) :=
  match parse_x509 leaf_der with
  | Err e => Some (Err (Identity (bs "cert parse: " ++ e)))
  | Ok exts =>
      found ← scan_extensions exts;
      Some (ok_or found (Identity (bs "no SPIFFE URI in SAN extension")))
  end.

Definition extract_identity_from_tls_stream {E} (stream : Session) :
    Prog E (result SpiffeId InterlinkError) :=
  match peer_certificates stream with
  | None => mret (Err (Identity (bs "no peer certificate")))
  | Some [] => mret (Err (Identity (bs "empty certificate chain")))
  | Some (leaf_der :: _) =>
      cached ← call (CacheGet leaf_der);
      match cached with
      | Some id => mret (Ok id)
      | None =>
          r ← lift (spiffe_id_from_cert_der leaf_der);
          match r with
          | Ok id => _ ← call (CacheInsert leaf_der id); mret (Ok id)
          | Err e => mret (Err e)
          end
      end
  end.

(** *** Handshake methods *)

(** The part common to [connect] and [accept] once the library is done. *)
Definition finish {E} (attempt : Attempt) : Prog E (result TlsStream InterlinkError) :=
  match attempt with
  | ConnectFailed e => mret (Err (Io e))
  | HandshakeTimeout => mret (Err (Tls (General (bs "TLS handshake timed out"))))
  | HandshakeFailed e => mret (Err (Io e))
  | HandshakeDone s =>
      _ ← record (Met.record_handshake_kind (resumed s));
      r ← extract_identity_from_tls_stream s;
      mret (match r with
            | Ok id => Ok (MkTlsStream s id)
            | Err e => Err e
            end)
  end.

#[global] Instance TlsClient_handshake : TlsHandshake TlsClient := {|
  connect E _ _ attempt := finish attempt;
  accept E _ _ := mret (Err (Tls (General (bs "client cannot accept connections"))));
|}.
#[global] Instance TlsServer_handshake : TlsHandshake TlsServer := {|
  connect E _ _ _ := mret (Err (Tls (General (bs "server cannot initiate connections"))));
  accept E _ attempt := finish attempt;
|}.

(** *** Facts of the extraction *)

(** The URIs the parser reports are Rust strings. *)
Definition utf8_names (names : list GeneralName) : Prop :=
  forall uri, URI uri ∈ names -> utf8 uri.
Definition utf8_exts (exts : list X509Extension) : Prop :=
  forall ext names, ext ∈ exts -> parsed_extension ext = SubjectAlternativeName names -> utf8_names names.
Definition parser_utf8 : Prop :=
  forall der exts, parse_x509 der = Ok exts -> utf8_exts exts.

(** The URI names of a certificate in order. *)
Definition san_names (exts : list X509Extension) : list GeneralName :=
  concat (map (fun ext => if bool_decide (oid ext = SAN_OID)
                          then match parsed_extension ext with
                               | SubjectAlternativeName names => names
                               | OtherExtension => [] end
                          else []) exts).

Lemma first_spiffe_uri_app l k :
  first_spiffe_uri (l ++ k) =
  r ← first_spiffe_uri l; match r with Some id => Some (Some id) | None => first_spiffe_uri k end.
Proof.
  induction l as [|[uri|] l IH]; simpl; [done | | done].
  destruct (Id.from_uri uri) as [[id|e]|]; simpl; done.
Qed.

Lemma scan_extensions_names exts : scan_extensions exts = first_spiffe_uri (san_names exts).
Proof.
  induction exts as [|ext exts IH]; [done |]. unfold san_names in *. simpl.
  rewrite first_spiffe_uri_app. destruct (bool_decide (oid ext = SAN_OID)); [|exact IH].
  destruct (parsed_extension ext) as [names|]; [|exact IH].
  rewrite IH. done.
Qed.

Lemma first_spiffe_uri_spec names :
  utf8_names names ->
  exists r, first_spiffe_uri names = Some r /\
    match r with
    | Some id => exists pre uri post, names = pre ++ URI uri :: post
        /\ Id.from_uri uri = Some (Ok id)
        /\ (forall u, URI u ∈ pre -> forall id', Id.from_uri u <> Some (Ok id'))
    | None => forall u, URI u ∈ names -> forall id, Id.from_uri u <> Some (Ok id)
    end.
Proof.
  induction names as [|n names IH]; intros Hu.
  { exists None. split; [done |]. intros u H. by apply not_elem_of_nil in H. }
  destruct IH as (r & Hr & Hspec); [intros u ?; apply Hu; by right |].
  destruct n as [uri|]; simpl.
  - destruct (from_uri_sound uri) as ([id|e] & Hf & _); [apply Hu; by left | |]; rewrite Hf; simpl.
    + exists (Some id). split; [done |]. exists [], uri, names. split; [done |]. split; [done |].
      intros u H. by apply not_elem_of_nil in H.
    + exists r. split; [done |]. destruct r as [id|].
      * destruct Hspec as (pre & v & post & -> & Hv & Hpre). exists (URI uri :: pre), v, post.
        split; [done |]. split; [done |]. intros u [H|H]%elem_of_cons; [|by apply Hpre].
        injection H as ->. by rewrite Hf.
      * intros u [H|H]%elem_of_cons; [|by apply Hspec]. injection H as ->. by rewrite Hf.
  - exists r. split; [done |]. destruct r as [id|].
    + destruct Hspec as (pre & v & post & -> & Hv & Hpre). exists (OtherName :: pre), v, post.
      split; [done |]. split; [done |]. intros u [H|H]%elem_of_cons; [done | by apply Hpre].
    + intros u [H|H]%elem_of_cons; [done | by apply Hspec].
Qed.

Lemma utf8_san_names exts : utf8_exts exts -> utf8_names (san_names exts).
Proof.
  intros Hu uri Hin. unfold san_names in Hin.
  apply list_elem_of_In, in_concat in Hin as (l & Hl & Hin).
  apply list_elem_of_In in Hin. apply in_map_iff in Hl as (ext & <- & Hext).
  apply list_elem_of_In in Hext.
  destruct (bool_decide (oid ext = SAN_OID)); [|by apply not_elem_of_nil in Hin].
  destruct (parsed_extension ext) as [names|] eqn:E; [|by apply not_elem_of_nil in Hin].
  by eapply Hu.
Qed.

(** Identity extraction never panics, and what it returns was parsed from a
    URI of the certificate. *)
Lemma spiffe_id_from_cert_der_spec der :
  parser_utf8 ->
  exists r, spiffe_id_from_cert_der der = Some r /\
    forall id, r = Ok id -> exists exts uri,
      parse_x509 der = Ok exts /\ URI uri ∈ san_names exts /\ Id.from_uri uri = Some (Ok id)
      /\ valid_id id /\ utf8_id id.
Proof.
  intros Hp. unfold spiffe_id_from_cert_der.
  destruct (parse_x509 der) as [exts|e] eqn:E; [|err_branch].
  assert (Hn : utf8_names (san_names exts)) by (eapply utf8_san_names, Hp, E).
  rewrite scan_extensions_names. destruct (first_spiffe_uri_spec _ Hn) as (r & -> & Hr). simpl.
  destruct r as [id|]; simpl; [|err_branch]. eexists. split; [done |]. intros id' [= <-].
  destruct Hr as (pre & uri & post & Heq & Hf & _).
  assert (URI uri ∈ san_names exts) as Hin by (rewrite Heq; set_solver).
  destruct (from_uri_valid uri id (Hn _ Hin) Hf). eauto 10.
Qed.

(** The cache holds results of the extraction it stands for. *)
Definition entry_ok (der : str) (id : SpiffeId) : Prop := spiffe_id_from_cert_der der = Some (Ok id).
Definition cache_ok (p : Proc) : Prop := map_Forall entry_ok (identity_cache p).

(** The contract of the tasks names these entries as the good ones. *)
Definition caches {E} (C : Contract E) : Prop :=
  forall der id, good_entry C der id <-> entry_ok der id.

(** The identity of a session: that of its leaf certificate. *)
Definition session_identity (stream : Session) (r : result SpiffeId InterlinkError) : Prop :=
  forall id, r = Ok id <->
    exists leaf rest, peer_certificates stream = Some (leaf :: rest) /\ entry_ok leaf id.

Lemma extract_cached {E} stream (tr : Trail E) p :
  parser_utf8 -> cache_ok p ->
  exists r c, exec (extract_identity_from_tls_stream stream) tr p = Some (r, tr, set_cache c p)
    /\ cache_ok (set_cache c p) /\ session_identity stream r.
Proof.
  intros Hp Hc. assert (Hself : set_cache (identity_cache p) p = p) by (by destruct p).
  unfold extract_identity_from_tls_stream, session_identity.
  destruct (peer_certificates stream) as [[|leaf rest]|].
  1, 3: (eexists _, (identity_cache p); rewrite Hself; split; [done |]; split; [done |];
         intros id; split; [done | by intros (? & ? & ? & _)]).
  rewrite exec_bind. cbn [exec call apply_call]. rewrite note_quiet by done.
  destruct (identity_cache p !! leaf) as [id|] eqn:Ec.
  - pose proof (map_Forall_lookup_1 _ _ _ _ Hc Ec) as Hid. exists (Ok id), (identity_cache p).
    rewrite Hself. split; [done |]. split; [done |]. intros id'. split; [intros [= <-]; eauto |].
    intros (? & ? & [= <- <-] & Hf). unfold entry_ok in *. congruence.
  - destruct (spiffe_id_from_cert_der_spec leaf Hp) as (r & Hr & _). rewrite exec_bind, Hr. cbn [lift exec].
    destruct r as [id|e].
    + exists (Ok id), (<[leaf := id]> (identity_cache p)). rewrite exec_bind. cbn [exec call apply_call].
      rewrite note_quiet by done. split; [done |]. split; [by apply map_Forall_insert_2 |].
      intros id'. split; [intros [= <-]; eauto |].
      intros (? & ? & [= <- <-] & Hf). unfold entry_ok in *. congruence.
    + exists (Err e), (identity_cache p). rewrite Hself. split; [done |]. split; [done |].
      intros id'. split; [done |]. intros (? & ? & [= <- <-] & Hf). unfold entry_ok in *. congruence.
Qed.

Lemma extract_wp {E} (C : Contract E) stream tr :
  parser_utf8 -> caches C ->
  wp C (extract_identity_from_tls_stream stream) tr (fun r tr' => tr' = tr /\ session_identity stream r).
Proof.
  intros Hp HC. unfold extract_identity_from_tls_stream, session_identity.
  destruct (peer_certificates stream) as [[|leaf rest]|].
  1, 3: (split; [done |]; intros id; split; [done | by intros (? & ? & ? & _)]).
  apply wp_call; [done |]. intros p hs i r p' Hi _ [= <- <-]. rewrite note_quiet by done.
  destruct (identity_cache p !! leaf) as [id|] eqn:Ec.
  - pose proof (map_Forall_lookup_1 _ _ _ _ (inv_cache _ _ _ _ _ Hi) Ec) as Hid. apply HC in Hid.
    split; [done |]. intros id'. split; [intros [= <-]; eauto |].
    intros (? & ? & [= <- <-] & Hf). unfold entry_ok in *. congruence.
  - destruct (spiffe_id_from_cert_der_spec leaf Hp) as (r & Hr & _). rewrite Hr. apply wp_lift.
    destruct r as [id|e].
    + apply wp_call; [split; [by apply HC | done] |]. intros q hs' j [] q' _ _ _. rewrite note_quiet by done.
      split; [done |]. intros id'. split; [intros [= <-]; eauto |].
      intros (? & ? & [= <- <-] & Hf). unfold entry_ok in *. congruence.
    + split; [done |].
      intros id'. split; [done |]. intros (? & ? & [= <- <-] & Hf). unfold entry_ok in *. congruence.
Qed.

(** *** The contract of an endpoint *)

(** The identity of an established stream was parsed from the leaf certificate
    of the session. *)
Definition authentic (s : TlsStream) : Prop :=
  exists leaf rest, peer_certificates (inner s) = Some (leaf :: rest)
    /\ spiffe_id_from_cert_der leaf = Some (Ok (peer_identity s))
    /\ valid_id (peer_identity s) /\ utf8_id (peer_identity s).

(** What a handshake may do: fill the identity cache soundly and count the
    handshake kind; it takes nothing, charges nothing, makes nothing visible,
    and a stream it returns is authentic. *)
Definition handshake_effect (m : forall E, Prog E (result TlsStream InterlinkError))
    (attempt : Attempt) : Prop :=
  forall E (C : Contract E) tr, caches C ->
  wp C (m E) tr (fun r tr' => tr' = tr
    /\ forall s, r = Ok s -> attempt = HandshakeDone (inner s) /\ authentic s).

(** What the proxies rely on, whichever endpoint they are given. *)
Class TlsAuthentic (T : Type) `{TlsHandshake T} := {
  connect_authentic : forall t addr attempt, handshake_effect (fun E => connect t addr attempt) attempt;
  accept_authentic : forall t attempt, handshake_effect (fun E => accept t attempt) attempt;
}.

Lemma error_effect e attempt : handshake_effect (fun E => mret (Err e)) attempt.
Proof. by intros E C tr HC. Qed.

Lemma finish_effect attempt : parser_utf8 -> handshake_effect (fun E => finish attempt) attempt.
Proof.
  intros Hp. destruct attempt as [e| |e|s]; try apply error_effect.
  intros E C tr HC. unfold finish. apply wp_record_quiet; [by destruct (resumed s); repeat constructor |].
  eapply wp_bind; [by apply extract_wp |]. intros r tr' [-> Hid].
  destruct tr as [h ch sd]. split; [done |]. destruct r as [id|e]; [|done].
  intros x [= <-]. split; [done |].
  destruct (proj1 (Hid id) eq_refl) as (leaf & rest & Hl & Hi). exists leaf, rest.
  split; [done |]. split; [done |]. unfold entry_ok in Hi.
  destruct (spiffe_id_from_cert_der_spec leaf Hp) as (r' & Hr' & Hv).
  assert (Some r' = Some (Ok id)) as [= ->] by (by rewrite <- Hr', <- Hi).
  destruct (Hv id eq_refl) as (? & ? & _ & _ & _ & ? & ?). done.
Qed.

#[global] Instance TlsClient_authentic : parser_utf8 -> TlsAuthentic TlsClient.
Proof. intros Hp. split; intros; [by apply finish_effect | apply error_effect]. Qed.
#[global] Instance TlsServer_authentic : parser_utf8 -> TlsAuthentic TlsServer.
Proof. intros Hp. split; intros; [apply error_effect | by apply finish_effect]. Qed.

Section Construction.
(** *** Construction *)

(** [RootCertStore::add], [with_client_auth_cert], [with_single_cert] and the
    build of the client-certificate verifier, as the library accepts or
    refuses them. *)
Context (root_add : str -> result unit TlsError).
Context (client_auth_cert : list str -> PrivateKeyDer -> result unit TlsError).
Context (single_cert : list str -> PrivateKeyDer -> result unit TlsError).
Context (client_verifier : list str -> result unit str).

(** [for ca in ca_certs { root_store.add(..)? }] *)
Fixpoint root_store (cas : list str) : result (list str) InterlinkError :=
  match cas with
  | [] => Ok []
  | ca :: rest =>
      _ <-? map_err Tls (root_add ca) ;;
      store <-? root_store rest ;;
      Ok (ca :: store)
  end.

Section Provider.
Context {P : Type} `{IdentityProvider P}.

Definition client_new (provider : P) : result TlsClient InterlinkError :=
  store <-? root_store (ca_certs (get_trust_domain provider)) ;;
  Ok (MkTlsClient (MkClientConfig store (td_name (get_trust_domain provider)) None alpn_protocols)).

Definition client_with_auth_alpn (provider : P) (cert : str) (key : PrivateKeyDer)
    (alpn : list str) : result TlsClient InterlinkError :=
  store <-? root_store (ca_certs (get_trust_domain provider)) ;;
  _ <-? map_err Tls (client_auth_cert [cert] key) ;;
  Ok (MkTlsClient (MkClientConfig store (td_name (get_trust_domain provider))
        (Some ([cert], key)) alpn)).

Definition client_with_auth (provider : P) (cert : str) (key : PrivateKeyDer) :
    result TlsClient InterlinkError :=
  client_with_auth_alpn provider cert key alpn_protocols.

Definition server_new_with_alpn (provider : P) (server_cert : str) (server_key : PrivateKeyDer)
    (alpn : list str) : result TlsServer InterlinkError :=
  store <-? root_store (ca_certs (get_trust_domain provider)) ;;
  _ <-? map_err (fun e => Tls (General e)) (client_verifier store) ;;
  _ <-? map_err Tls (single_cert [server_cert] server_key) ;;
  Ok (MkTlsServer (MkServerConfig store [server_cert] server_key alpn)).

Definition server_new (provider : P) (server_cert : str) (server_key : PrivateKeyDer) :
    result TlsServer InterlinkError :=
  server_new_with_alpn provider server_cert server_key alpn_protocols.
End Provider.

Lemma root_store_ok cas store : root_store cas = Ok store -> store = cas.
Proof.
  revert store. induction cas as [|ca cas IH]; intros store; simpl; [by intros [= <-] |].
  destruct (root_add ca); simpl; [|done]. destruct (root_store cas); simpl; [|done].
  intros [= <-]. f_equal. by apply IH.
Qed.
End Construction.

(** *** Server certificate verification

    The signature algorithms ([algs]) are those of the process-wide crypto
    provider and belong to the library. *)

(** [ParsedCertificate::try_from] and
    [verify_server_cert_signed_by_trust_anchor] (RFC 5280 path validation). *)
Context (parsed_certificate : str -> result unit TlsError).
Context (signed_by_trust_anchor : list str -> str -> list str -> N -> result unit TlsError).

Definition verify_server_cert (self : SpiffeServerVerifier) (end_entity : str)
    (intermediates : list str) (server_name : str) (ocsp_response : str) (now : N) :
    eval (result unit TlsError) :=
  match parsed_certificate end_entity with
  | Err e => Some (Err e)
  | Ok _ =>
      match signed_by_trust_anchor (roots self) end_entity intermediates now with
      | Err e => Some (Err e)
      | Ok _ =>
          r ← spiffe_id_from_cert_der end_entity;
          match r with
          | Err e => Some (Err (General (bs "SPIFFE identity: " ++ show_error e)))
          | Ok id =>
              if negb (bool_decide (trust_domain id = verifier_trust_domain self)) then
                Some (Err (General (bs "peer trust domain '" ++ trust_domain id
                  ++ bs "' does not match ours '" ++ verifier_trust_domain self ++ bs "'")))
              else Some (Ok tt)
          end
      end
  end.

Lemma verify_server_cert_spec v leaf ims name ocsp now :
  parser_utf8 ->
  exists r, verify_server_cert v leaf ims name ocsp now = Some r /\
    (r = Ok tt <->
      parsed_certificate leaf = Ok tt /\ signed_by_trust_anchor (roots v) leaf ims now = Ok tt /\
      exists id, spiffe_id_from_cert_der leaf = Some (Ok id)
        /\ trust_domain id = verifier_trust_domain v).
Proof.
  intros Hp. unfold verify_server_cert.
  destruct (parsed_certificate leaf) as [[]|]; [|eexists; split; [done | naive_solver]].
  destruct (signed_by_trust_anchor _ _ _ _) as [[]|]; [|eexists; split; [done | naive_solver]].
  destruct (spiffe_id_from_cert_der_spec leaf Hp) as ([id|e] & -> & _); simpl;
    [|eexists; split; [done | naive_solver]].
  destruct (bool_decide_reflect (trust_domain id = verifier_trust_domain v)); simpl;
    eexists; (split; [done | naive_solver]).
Qed.

(** The verifier's algorithms: those of the default crypto provider, if one is
    installed, else those of the built-in one; signatures are checked with them,
    by the library. *)
Section Signatures.
Context {Algs Signed Scheme : Type}.
Context (default_provider : option Algs) (aws_lc_rs : Algs) (supported_schemes : Algs -> list Scheme).
Context (check_tls12 check_tls13 : str -> str -> Signed -> Algs -> result unit TlsError).

Definition verifier_algs : Algs := default aws_lc_rs default_provider.
Definition verify_tls12_signature (message cert : str) (dss : Signed) : result unit TlsError :=
  check_tls12 message cert dss verifier_algs.
Definition verify_tls13_signature (message cert : str) (dss : Signed) : result unit TlsError :=
  check_tls13 message cert dss verifier_algs.
Definition supported_verify_schemes : list Scheme := supported_schemes verifier_algs.
End Signatures.

(** What the TLS library promises of a client session: it is completed only
    when the configured verifier accepted the chain the server presented. *)
Definition verified_session (cfg : ClientConfig) (s : Session) : Prop :=
  exists leaf ims name ocsp now, peer_certificates s = Some (leaf :: ims)
    /\ verify_server_cert (MkVerifier (cc_roots cfg) (cc_trust_domain cfg)) leaf ims name ocsp now
       = Some (Ok tt).

(** Then the identity read from the session chains to the configured roots and
    is of the configured trust domain. *)
Lemma verified_peer cfg s :
  parser_utf8 -> authentic s -> verified_session cfg (inner s) ->
  trust_domain (peer_identity s) = cc_trust_domain cfg
  /\ exists leaf ims now, peer_certificates (inner s) = Some (leaf :: ims)
     /\ signed_by_trust_anchor (cc_roots cfg) leaf ims now = Ok tt
     /\ spiffe_id_from_cert_der leaf = Some (Ok (peer_identity s)).
Proof.
  intros Hp (leaf & rest & Hl & Hid & _) (leaf' & ims & name & ocsp & now & Hl' & Hv).
  assert (leaf' = leaf) as -> by congruence.
  destruct (verify_server_cert_spec (MkVerifier (cc_roots cfg) (cc_trust_domain cfg))
    leaf ims name ocsp now Hp) as (r & Hr & Hspec).
  assert (r = Ok tt) as -> by congruence.
  destruct (proj1 Hspec eq_refl) as (_ & Hs & id & Hid' & Htd). simpl in *.
  assert (id = peer_identity s) as -> by congruence. split; [done |]. by exists leaf, ims, now.
Qed.
End Handshake.

(** ** Properties *)

(** C30: server verification is exact: the verifier never panics, and accepts a
    certificate if and only if it parses, chains to a trusted root at the given
    time, carries a SPIFFE identity, and that identity is in this proxy's trust
    domain; the server name plays no part. *)
Theorem server_verified_exact parse_x509 parsed_certificate signed_by_trust_anchor
    v leaf ims name ocsp now :
  parser_utf8 parse_x509 ->
  exists r, verify_server_cert parse_x509 parsed_certificate signed_by_trust_anchor
              v leaf ims name ocsp now = Some r /\
    (r = Ok tt <->
      parsed_certificate leaf = Ok tt /\ signed_by_trust_anchor (roots v) leaf ims now = Ok tt /\
      exists id, spiffe_id_from_cert_der parse_x509 leaf = Some (Ok id)
        /\ trust_domain id = verifier_trust_domain v).
Proof. apply verify_server_cert_spec. Qed.

(** C31: the identity cache is transparent: with a sound cache, extracting the
    peer identity of a session returns exactly what parsing its leaf
    certificate would, keeps the cache sound, and touches nothing else; a
    session without a certificate has no identity. *)
Theorem identity_cache_transparent {E} parse_x509 stream (tr : Trail E) p :
  parser_utf8 parse_x509 -> cache_ok parse_x509 p ->
  exists r c, exec (extract_identity_from_tls_stream parse_x509 stream) tr p = Some (r, tr, set_cache c p)
    /\ cache_ok parse_x509 (set_cache c p)
    /\ (forall id, r = Ok id <->
          exists leaf rest, peer_certificates stream = Some (leaf :: rest)
            /\ spiffe_id_from_cert_der parse_x509 leaf = Some (Ok id)).
Proof. apply extract_cached. Qed.

(** ** A concrete setting for examples: a parser that finds one SPIFFE URI in
    every certificate, and a session whose peer presented one. *)
Module Demo.
Definition id : SpiffeId := MkSpiffeId (bs "td") (bs "prod") (bs "web").
Definition parse (_ : str) : result (list X509Extension) str :=
  Ok [MkExt SAN_OID (SubjectAlternativeName [OtherName; URI (bs "spiffe://td/ns/prod/sa/web")])].
Definition session (alpn : option str) : Session := MkSession false (Some [bs "leaf"; bs "ca"]) alpn.
Definition stream (alpn : option str) : TlsStream := MkTlsStream (session alpn) id.
Definition server : TlsServer := MkTlsServer (MkServerConfig [] [] (MkKey Pkcs8 []) []).
Definition client : TlsClient := MkTlsClient (MkClientConfig [] [] None []).
Definition allow_all : PolicyEngine := Engine.set_default_decision Engine.new Allow.

Lemma parse_utf8 : parser_utf8 parse.
Proof.
  intros der exts [= <-] ext names He Hn uri Hu. apply list_elem_of_singleton in He as ->.
  injection Hn as <-. apply elem_of_cons in Hu as [|Hu%list_elem_of_singleton]; [done |].
  injection Hu as ->. by apply utf8_ascii.
Qed.
Lemma id_utf8 : utf8_id id.
Proof. by split; apply utf8_ascii. Qed.
Lemma allow_all_wf : wf_engine allow_all.
Proof. destruct wf_new. by split. Qed.
Lemma cache_new max_in max_out : cache_ok parse (proc_new max_in max_out).
Proof. apply map_Forall_empty. Qed.
End Demo.

Lemma server_verified_exact_witness :
  exists r, verify_server_cert Demo.parse (fun _ => Ok tt) (fun _ _ _ _ => Ok tt)
    (MkVerifier [bs "root"] (bs "td")) (bs "leaf") [] [] [] 0 = Some r.
Proof.
  destruct (server_verified_exact Demo.parse (fun _ => Ok tt) (fun _ _ _ _ => Ok tt)
    (MkVerifier [bs "root"] (bs "td")) (bs "leaf") [] [] [] 0 Demo.parse_utf8) as (r & Hr & _).
  exists r. exact Hr.
Defined.

Lemma identity_cache_transparent_witness :
  exists r c, exec (extract_identity_from_tls_stream Demo.parse (Demo.session None)) (trail_new tt)
    (proc_new 1 1) = Some (r, trail_new tt, set_cache c (proc_new 1 1)).
Proof.
  destruct (identity_cache_transparent Demo.parse (Demo.session None) (trail_new tt) (proc_new 1 1)
    Demo.parse_utf8 (Demo.cache_new 1 1)) as (r & c & Hr & _).
  exists r, c. exact Hr.
Defined.
