(* ===== verification/Events.v ===== *)
(** * Connections, routes and visible events

    What the network does to a connection is an argument of the program that
    handles it; what the program does to the outside is a list of events.  The
    first event of a task says what the task is for. *)

From S2P Require Import Prelude Bytes Common Identity Policy Net Metrics Tunnels ProxyBase Process.
From S2P Require Import Handshake.

(** What the multiplexer answers an open request. *)
Inductive OpenResult :=
| Opened
| QueueClosed
| OpenError (e : IoError)
| DriverExited.

(** What happens to one relayed stream. *)
Record RelayOutcome := MkRelay {
  relay_connect : result unit IoError;
  relay_copy : result (N * N) IoError;
  relay_elapsed : N;
}.

(** What the peer of a tunnel does: open a stream, which then fares as given,
    or end the tunnel. *)
Inductive InboundEvent := NewStream (o : RelayOutcome) | ConnError (e : str) | ConnClosed.

(** What the network and the peer did during one inbound connection. *)
Record InboundConn := MkInbound {
  in_resolved_at : N;                         (** when the upstream is resolved *)
  in_attempt : Attempt;                       (** the TLS handshake *)
  in_upstream_connect : result unit IoError;  (** the dial that overlaps it *)
  in_first_read : result str IoError;         (** the bytes available for detection *)
  in_write_first : result unit IoError;
  in_copied : result (N * N) IoError;
  in_tunnel_events : list InboundEvent;
  in_handshake_elapsed : N;
  in_elapsed : N;
}.

(** The application protocol of the session, if the handshake completed. *)
Definition in_alpn (c : InboundConn) : option str :=
  match in_attempt c with HandshakeDone s => negotiated_alpn s | _ => None end.

(** What the network did during one outbound connection: the handshake with the
    address it dials, and the answers to its open requests, by attempt. *)
Record OutboundConn := MkOutConn {
  out_resolved_at : N;
  out_attempt : SocketAddr -> Attempt;
  out_opens : nat -> OpenResult;
  out_copied : result (N * N) IoError;
  out_handshake_elapsed : N;
  out_elapsed : N;
}.

(** How an outbound connection reaches its upstream. *)
Inductive Route :=
| MuxStream (t : Tunnel)
| Legacy (s : Session)
| Denied
| Failed.

Inductive Event :=
(** the tasks *)
| Accepting (s : Side)
| HandleInbound (c : InboundConn) (u : UpstreamTarget)
| HandleOutbound (c : OutboundConn) (u : UpstreamTarget)
| RelayStream (addr : SocketAddr) (peer : SpiffeId) (o : RelayOutcome)
| DriveTunnel (addr : SocketAddr) (t : Tunnel) (tls : Session)
(** what they do *)
| DropClient
| RejectClient
| ConnectUpstream (addr : SocketAddr)
| ShutdownUpstream
| ServeTunnel (addr : SocketAddr) (peer : SpiffeId)
| WriteUpstream (bytes : str)
| Relay
| RelayOver (r : Route).
