(* ===== verification/Provider.v ===== *)
(** * Identity providers ([src/identity/provider/mod.rs])

    The static provider and the Kubernetes provider, which derives the local
    identity from the environment, the namespace file and the service account
    token.  Base64 and JSON decoding and the file system are parameters. *)

From S2P Require Import Prelude Bytes Common Identity Net Policy Metrics ProxyBase.

Set Default Proof Using "Type".

(** ** Static provider *)

Record StaticIdentityProvider := MkStatic { static_identity : SpiffeId; static_td : TrustDomain }.

Module Static.
Definition new (identity : SpiffeId) (td : TrustDomain) : StaticIdentityProvider :=
  MkStatic identity td.
(** The bundle is pushed certificate by certificate onto a fresh trust domain. *)
Definition with_ca_bundle (identity : SpiffeId) (ca_bundle : list str) : StaticIdentityProvider :=
  MkStatic identity (foldl Trust.with_ca (Trust.new (trust_domain identity)) ca_bundle).
End Static.

#[global] Instance Static_provider : IdentityProvider StaticIdentityProvider := {|
  get_identity := fun p => Ok (static_identity p);
  get_trust_domain := static_td;
|}.

(** ** Kubernetes provider *)

Definition K8S_SERVICE_ACCOUNT_TOKEN_PATH : str :=
  bs "/var/run/secrets/kubernetes.io/serviceaccount/token".
Definition K8S_NAMESPACE_PATH : str :=
  bs "/var/run/secrets/kubernetes.io/serviceaccount/namespace".

Record KubernetesIdentityProvider := MkK8s { k8s_trust_domain : TrustDomain; k8s_identity : SpiffeId }.

#[global] Instance K8s_provider : IdentityProvider KubernetesIdentityProvider := {|
  get_identity := fun p => Ok (k8s_identity p);
  get_trust_domain := k8s_trust_domain;
|}.

(** A JSON value: the code only asks whether it is a string. *)
Inductive JsonValue := JString (s : str) | JOther.

Module K8s.
Section Derive.
Context (base64_url_decode : str -> option str).
Context (json_claims : str -> option (gmap (list Ascii.ascii) JsonValue)).
Context (read_to_string : str -> option str).

Definition sub_service_account (sub : str) : option str :=
  match split (fun b => bool_decide (b = colon)) sub with
  | [p0; p1; _; p3] =>
      if bool_decide (p0 = bs "system") && bool_decide (p1 = bs "serviceaccount")
      then Some p3 else None
  | _ => None
  end.

Definition extract_service_account_from_token (token : str) : option str :=
  payload_b64 ← split (fun b => bool_decide (b = dot)) token !! 1;
  payload_json ← base64_url_decode payload_b64;
  claims ← json_claims payload_json;
  sub ← claims !! bs "sub";
  match sub with
  | JString s => sub_service_account s
  | JOther => None
  end.

Definition read_namespace (e : env) : result str InterlinkError :=
  match (ns ← read_to_string K8S_NAMESPACE_PATH;
         if bool_decide (trim ns = []) then None else Some (trim ns)) with
  | Some ns => Ok ns
  | None =>
      match e !! bs "KUBERNETES_NAMESPACE" with
      | Some ns => Ok ns
      | None => ok_or (e !! bs "POD_NAMESPACE")
                  (Identity (bs "could not determine Kubernetes namespace"))
      end
  end.

Definition read_service_account (e : env) : result str InterlinkError :=
  match (token ← read_to_string K8S_SERVICE_ACCOUNT_TOKEN_PATH;
         extract_service_account_from_token (trim token)) with
  | Some sa => Ok sa
  | None => ok_or (e !! bs "KUBERNETES_SERVICE_ACCOUNT_NAME")
              (Identity (bs "could not determine Kubernetes service account"))
  end.

Definition derive_identity (e : env) (td : str) : eval (result SpiffeId InterlinkError) :=
  from_env ← match e !! bs "INTERLINK_IDENTITY" with
             | Some id => r ← Id.from_uri id; Some (ok r)
             | None => Some None
             end;
  match from_env with
  | Some id => Some (Ok id)
  | None =>
      Some (ns <-? read_namespace e ;;
            sa <-? read_service_account e ;;
            Id.try_new td ns sa)
  end.

Definition new (e : env) (td : str) : eval (result KubernetesIdentityProvider InterlinkError) :=
  identity <-! derive_identity e td ;;
  Some (Ok (MkK8s (Trust.new td) identity)).
End Derive.
End K8s.

(** ** Lemmas *)

Lemma with_ca_foldl td cas :
  foldl Trust.with_ca td cas = MkTrustDomain (td_name td) (ca_certs td ++ cas).
Proof.
  revert td. induction cas as [|ca cas IH]; intros td; simpl.
  - rewrite app_nil_r. by destruct td.
  - rewrite IH. simpl. by rewrite <- app_assoc.
Qed.

Lemma with_ca_bundle_eq id cas :
  Static.with_ca_bundle id cas = MkStatic id (MkTrustDomain (trust_domain id) cas).
Proof. unfold Static.with_ca_bundle. by rewrite with_ca_foldl. Qed.

(** The subjects that name a service account. *)
Lemma sub_service_account_spec sub sa :
  K8s.sub_service_account sub = Some sa <->
  exists ns, sub = bs "system:serviceaccount:" ++ ns ++ [colon] ++ sa /\ colon ∉ ns /\ colon ∉ sa.
Proof.
  assert (Hf : forall s, colon ∉ s <-> forallb (fun c => negb (bool_decide (c = colon))) s = true).
  { intros s. rewrite forallb_forall. split.
    - intros Hn b Hb. apply negb_true_iff, bool_decide_eq_false_2. intros ->.
      by apply Hn, list_elem_of_In.
    - intros H Hin%list_elem_of_In. apply H in Hin. by rewrite bool_decide_true in Hin. }
  unfold K8s.sub_service_account. split.
  - pose proof (split_free_pieces (fun b => bool_decide (b = colon)) sub) as Hp.
    destruct (split _ sub) as [|p0 [|p1 [|p2 [|p3 [|? ?]]]]] eqn:E; try done.
    apply split_join in E. case_bool_decide; [|done]. case_bool_decide; [|done]. simpl.
    intros [= <-]. subst. apply Forall_cons in Hp as [_ Hp]. apply Forall_cons in Hp as [_ Hp].
    apply Forall_cons in Hp as [H2 Hp]. apply Forall_cons in Hp as [H3 _].
    exists p2. simpl. rewrite app_nil_r. split; [done |]. by rewrite !Hf.
  - intros (ns & -> & Hns%Hf & Hsa%Hf).
    change (bs "system:serviceaccount:" ++ ns ++ [colon] ++ sa)
      with (bs "system" ++ colon :: bs "serviceaccount" ++ colon :: ns ++ colon :: sa).
    rewrite !split_app, split_free by done. done.
Qed.

(** The subject a service account token claims. *)
Definition token_subject (base64 : str -> option str)
    (json : str -> option (gmap (list Ascii.ascii) JsonValue)) (token : str) : option str :=
  payload ← split (fun b => bool_decide (b = dot)) token !! 1;
  text ← base64 payload;
  claims ← json text;
  match claims !! bs "sub" with Some (JString s) => Some s | _ => None end.

(** Where a namespace and a service account may come from. *)
Definition namespace_source (read : str -> option str) (e : env) (ns : str) : Prop :=
  (exists file, read K8S_NAMESPACE_PATH = Some file /\ trim file = ns /\ ns <> [])
  \/ e !! bs "KUBERNETES_NAMESPACE" = Some ns
  \/ (e !! bs "KUBERNETES_NAMESPACE" = None /\ e !! bs "POD_NAMESPACE" = Some ns).

Definition service_account_source (base64 : str -> option str)
    (json : str -> option (gmap (list Ascii.ascii) JsonValue)) (read : str -> option str) (e : env)
    (sa : str) : Prop :=
  (exists token ns, read K8S_SERVICE_ACCOUNT_TOKEN_PATH = Some token /\ colon ∉ ns /\ colon ∉ sa
     /\ token_subject base64 json (trim token)
        = Some (bs "system:serviceaccount:" ++ ns ++ [colon] ++ sa))
  \/ e !! bs "KUBERNETES_SERVICE_ACCOUNT_NAME" = Some sa.

Lemma read_namespace_source read e ns :
  K8s.read_namespace read e = Ok ns -> namespace_source read e ns.
Proof.
  unfold K8s.read_namespace, namespace_source.
  generalize (e !! bs "KUBERNETES_NAMESPACE"), (e !! bs "POD_NAMESPACE"). intros kn pn.
  assert (Henv : match kn with Some ns => Ok ns
                 | None => ok_or pn (Identity (bs "could not determine Kubernetes namespace")) end
                 = Ok ns -> kn = Some ns \/ (kn = None /\ pn = Some ns)).
  { destruct kn, pn; cbn [ok_or]; naive_solver. }
  destruct (read K8S_NAMESPACE_PATH) as [file|]; cbn [mbind option_bind]; [|by right; apply Henv].
  case_bool_decide; [by right; apply Henv |]. intros [= <-]. left. by exists file.
Qed.

Lemma extract_subject base64 json token :
  K8s.extract_service_account_from_token base64 json token
  = (token_subject base64 json token ≫= K8s.sub_service_account).
Proof.
  unfold K8s.extract_service_account_from_token, token_subject.
  destruct (split _ token !! 1) as [payload|]; cbn [mbind option_bind]; [|done].
  destruct (base64 payload) as [text|]; cbn [mbind option_bind]; [|done].
  destruct (json text) as [claims|]; cbn [mbind option_bind]; [|done].
  by destruct (claims !! bs "sub") as [[]|].
Qed.

Lemma read_service_account_source base64 json read e sa :
  K8s.read_service_account base64 json read e = Ok sa ->
  service_account_source base64 json read e sa.
Proof.
  unfold K8s.read_service_account, service_account_source.
  generalize (e !! bs "KUBERNETES_SERVICE_ACCOUNT_NAME"). intros ka.
  assert (Henv : ok_or ka (Identity (bs "could not determine Kubernetes service account")) = Ok sa ->
    ka = Some sa) by (destruct ka; cbn [ok_or]; naive_solver).
  destruct (read K8S_SERVICE_ACCOUNT_TOKEN_PATH) as [token|]; cbn [mbind option_bind];
    [|by right; apply Henv].
  rewrite extract_subject. destruct (token_subject base64 json (trim token)) as [sub|] eqn:Es;
    cbn [mbind option_bind]; [|by right; apply Henv].
  destruct (K8s.sub_service_account sub) as [sa'|] eqn:E; [|by right; apply Henv].
  intros [= ->]. apply sub_service_account_spec in E as (ns & -> & Hns & Hsa).
  left. by exists token, ns.
Qed.

(** ** Properties *)

(** The Kubernetes provider derives an identity soundly: it never panics on
    Rust strings, an identity given by the environment that parses is taken as
    it is, and otherwise the identity's trust domain is the configured one, its
    namespace is that of the namespace file or of the environment, its service
    account comes from a token whose subject is
    [system:serviceaccount:<ns>:<sa>] or from the environment, and no component
    is empty. *)
Theorem k8s_identity_sound base64 json read e td :
  (forall uri, e !! bs "INTERLINK_IDENTITY" = Some uri -> utf8 uri) ->
  exists r, K8s.derive_identity base64 json read e td = Some r /\
    forall id, r = Ok id ->
      (exists uri, e !! bs "INTERLINK_IDENTITY" = Some uri /\ Id.from_uri uri = Some (Ok id))
      \/ (trust_domain id = td /\ td <> [] /\ namespace id <> [] /\ service_account id <> []
          /\ namespace_source read e (namespace id)
          /\ service_account_source base64 json read e (service_account id)).
Proof.
  intros Hu. unfold K8s.derive_identity.
  assert (Hrest : exists r, Some (ns <-? K8s.read_namespace read e ;;
      sa <-? K8s.read_service_account base64 json read e ;; Id.try_new td ns sa) = Some r /\
    forall id, r = Ok id -> trust_domain id = td /\ td <> [] /\ namespace id <> []
      /\ service_account id <> [] /\ namespace_source read e (namespace id)
      /\ service_account_source base64 json read e (service_account id)).
  { eexists. split; [done |]. intros id.
    destruct (K8s.read_namespace read e) as [ns|] eqn:En; simpl; [|done].
    destruct (K8s.read_service_account base64 json read e) as [sa|] eqn:Ea; simpl; [|done].
    intros (-> & ? & ? & ?)%try_new_spec. do 4 (split; [done |]).
    split; [by apply read_namespace_source | by apply read_service_account_source]. }
  destruct Hrest as (rest & Hrest & Hok).
  destruct (e !! bs "INTERLINK_IDENTITY") as [uri|]; [|run_bind; rewrite Hrest; naive_solver].
  destruct (from_uri_sound uri (Hu uri eq_refl)) as ([id|err] & Hf & _); rewrite Hf; run_bind; simpl.
  - eexists. split; [done |]. intros id' [= <-]. left. eauto.
  - rewrite Hrest. exists rest. split; [done |]. eauto.
Qed.

Definition demo_k8s_env : env :=
  <[bs "KUBERNETES_SERVICE_ACCOUNT_NAME" := bs "web"]> {[ bs "POD_NAMESPACE" := bs "prod" ]}.

Lemma k8s_identity_sound_witness :
  exists id, K8s.derive_identity (fun _ => None) (fun _ => None) (fun _ => None)
      demo_k8s_env (bs "td") = Some (Ok id)
    /\ ((exists uri, demo_k8s_env !! bs "INTERLINK_IDENTITY" = Some uri
          /\ Id.from_uri uri = Some (Ok id)) \/ trust_domain id = bs "td").
Proof.
  destruct (k8s_identity_sound (fun _ => None) (fun _ => None) (fun _ => None)
    demo_k8s_env (bs "td")) as (r & Hr & Hid).
  - intros uri Hl. vm_compute in Hl. discriminate.
  - destruct r as [id|err]; [|vm_compute in Hr; discriminate].
    exists id. split; [exact Hr |]. destruct (Hid id eq_refl) as [H|(H & _)]; [left; exact H | right; exact H].
Defined.
