(* ===== verification/CertAuthority.v ===== *)
(** * The certificate authority ([src/identity/ca/mod.rs])

    What the CA asks the certificate generator (rcgen) to sign: the parameters
    of root and leaf certificates.  Key generation, signing, the IA5 string
    check and the random source are parameters. *)

From S2P Require Import Prelude Bytes Common Glob Identity Policy Net Metrics ProxyBase Process Handshake.

Set Default Proof Using "Type".

Inductive DnType := CommonName | OrganizationName.
Inductive KeyUsagePurpose := KeyCertSign | DigitalSignature.
Inductive ExtendedKeyUsagePurpose := ServerAuth | ClientAuth.
Inductive IsCa := CaUnconstrained | ExplicitNoCa | NoCa.
Inductive SanType := SanURI (s : str) | SanIp (ip : IpAddr) | SanDns (s : str).

(** Times are Unix seconds. *)
Record CertificateParams := MkParams {
  subject_alt_names : list SanType;
  distinguished_name : list (DnType * str);
  is_ca : IsCa;
  key_usages : list KeyUsagePurpose;
  extended_key_usages : list ExtendedKeyUsagePurpose;
  not_before : Z;
  not_after : Z;
  serial_number : option str;
}.

Definition SERIAL_NUMBER_BYTES : nat := 20.

Section CA.
(** Opaque keys and certificates of the generator; an error is carried by its
    display text. *)
Context {KeyPair Certificate : Type}.
Context (generate_ed25519 : result KeyPair str).
Context (self_signed : CertificateParams -> KeyPair -> result Certificate str).
Context (signed_by : CertificateParams -> KeyPair -> Certificate -> KeyPair -> result Certificate str).
Context (der : Certificate -> str) (serialize_der : KeyPair -> str).
Context (ia5_string : str -> result str str).
Context (random_bytes : nat -> result str str).

Record CertificateAuthority := MkCA {
  root_key : KeyPair;
  root_cert : Certificate;
  root_cert_der : str;
  ca_trust_domain : str;
}.

Definition identity_err (what : String.string) (e : str) : InterlinkError :=
  Identity (bs what ++ e).

Definition root_params (td : str) (now : Z) : CertificateParams :=
  MkParams [] [(CommonName, bs "interlink CA"); (OrganizationName, td)] CaUnconstrained
    [KeyCertSign; DigitalSignature] [] now (now + cert.ROOT_CA_TTL) None.

Definition ca_new (td : str) (now : Z) : result CertificateAuthority InterlinkError :=
  key <-? map_err (identity_err "root keygen: ") generate_ed25519 ;;
  cert <-? map_err (identity_err "self-sign: ") (self_signed (root_params td now) key) ;;
  Ok (MkCA key cert (der cert) td).

Definition generate_serial_number : result str InterlinkError :=
  map_err (identity_err "rng: ") (random_bytes SERIAL_NUMBER_BYTES).

Definition leaf_params (sans : list SanType) (now : Z) (serial : str) : CertificateParams :=
  MkParams sans [] ExplicitNoCa [DigitalSignature] [ServerAuth; ClientAuth]
    now (now + cert.LEAF_TTL) (Some serial).

Definition issue_leaf (self : CertificateAuthority) (identity : SpiffeId) (now : Z) :
    result str InterlinkError :=
  uri <-? map_err (identity_err "SPIFFE URI SAN: ") (ia5_string (Id.to_uri identity)) ;;
  serial <-? generate_serial_number ;;
  leaf_key <-? map_err (identity_err "leaf keygen: ") generate_ed25519 ;;
  cert <-? map_err (identity_err "sign: ")
    (signed_by (leaf_params [SanURI uri] now serial) leaf_key (root_cert self) (root_key self)) ;;
  Ok (der cert).

(** The loop over [dns_names]: names that parse as IP addresses become IP
    SANs. *)
Fixpoint name_sans (names : list str) : result (list SanType) InterlinkError :=
  match names with
  | [] => Ok []
  | name :: rest =>
      san <-? match parse_ip_addr name with
              | Some ip => Ok (SanIp ip)
              | None => dns <-? map_err (identity_err "DNS SAN: ") (ia5_string name) ;; Ok (SanDns dns)
              end ;;
      sans <-? name_sans rest ;;
      Ok (san :: sans)
  end.

Definition issue_leaf_with_key (self : CertificateAuthority) (identity : SpiffeId)
    (dns_names : list str) (now : Z) : result (str * str) InterlinkError :=
  uri <-? map_err (identity_err "SPIFFE URI SAN: ") (ia5_string (Id.to_uri identity)) ;;
  sans <-? name_sans dns_names ;;
  serial <-? generate_serial_number ;;
  leaf_key <-? map_err (identity_err "leaf keygen: ") generate_ed25519 ;;
  cert <-? map_err (identity_err "sign: ")
    (signed_by (leaf_params (SanURI uri :: sans) now serial) leaf_key (root_cert self) (root_key self)) ;;
  Ok (der cert, serialize_der leaf_key).

(** ** Facts *)

(** The IA5 check accepts ASCII and returns the string. *)
Definition ia5_spec : Prop :=
  forall s, match ia5_string s with
            | Ok t => t = s /\ forallb is_ascii s = true
            | Err _ => forallb is_ascii s = false
            end.

Lemma name_sans_spec names sans :
  ia5_spec -> name_sans names = Ok sans ->
  Forall2 (fun name san =>
    match parse_ip_addr name with
    | Some ip => san = SanIp ip
    | None => san = SanDns name
    end) names sans.
Proof.
  intros Hia. revert sans. induction names as [|name names IH]; intros sans; simpl.
  - intros [= <-]. constructor.
  - destruct (parse_ip_addr name) as [ip|] eqn:E; simpl.
    + destruct (name_sans names); simpl; [|done]. intros [= <-]. constructor; [by rewrite E | auto].
    + specialize (Hia name). destruct (ia5_string name); simpl; [|done].
      destruct (name_sans names); simpl; [|done]. intros [= <-]. destruct Hia as [-> _].
      constructor; [by rewrite E | auto].
Qed.

(** What an issued leaf asserts. *)
Record leaf_of (self : CertificateAuthority) (identity : SpiffeId) (extra : list SanType)
    (now : Z) (params : CertificateParams) : Prop := {
  leaf_sans : subject_alt_names params = SanURI (Id.to_uri identity) :: extra;
  leaf_subject : distinguished_name params = [];
  leaf_not_ca : is_ca params = ExplicitNoCa;
  leaf_usage : key_usages params = [DigitalSignature];
  leaf_ext_usage : extended_key_usages params = [ServerAuth; ClientAuth];
  leaf_validity : not_before params = now /\ not_after params = (now + cert.LEAF_TTL)%Z;
  leaf_serial : exists serial, serial_number params = Some serial
    /\ random_bytes SERIAL_NUMBER_BYTES = Ok serial;
}.

Lemma issue_leaf_with_key_spec self identity names now cert_der key_der :
  ia5_spec -> issue_leaf_with_key self identity names now = Ok (cert_der, key_der) ->
  exists params leaf_key cert extra,
    signed_by params leaf_key (root_cert self) (root_key self) = Ok cert
    /\ cert_der = der cert /\ key_der = serialize_der leaf_key
    /\ name_sans names = Ok extra /\ leaf_of self identity extra now params.
Proof.
  intros Hia. unfold issue_leaf_with_key, generate_serial_number.
  pose proof (Hia (Id.to_uri identity)) as Hu.
  destruct (ia5_string _) as [uri|] eqn:Eu; simpl; [|done]. destruct Hu as [-> _].
  destruct (name_sans names) as [extra|] eqn:En; simpl; [|done].
  destruct (random_bytes _) as [serial|] eqn:Er; simpl; [|done].
  destruct generate_ed25519 as [key|] eqn:Ek; simpl; [|done].
  destruct (signed_by _ _ _ _) as [cert|] eqn:Es; simpl; [|done].
  intros [= <- <-]. do 4 eexists. split; [exact Es |]. repeat split; eauto.
Qed.

(** The names that the parser finds in a certificate that was asked to have some are
    those the generator was given, in their order. *)
Definition names_read_back (parse_x509 : str -> result (list X509Extension) str) : Prop :=
  forall params k c rk cert, subject_alt_names params <> [] -> signed_by params k c rk = Ok cert ->
    exists exts, parse_x509 (der cert) = Ok exts
      /\ san_names exts = map (fun san => match san with SanURI u => URI u | _ => OtherName end)
                            (subject_alt_names params).

(** An issued certificate carries the identity it was issued for: reading it
    back yields it. *)
Lemma issued_identity parse_x509 self identity names now cert_der key_der :
  ia5_spec -> utf8_id identity -> valid_id identity -> names_read_back parse_x509 ->
  issue_leaf_with_key self identity names now = Ok (cert_der, key_der) ->
  spiffe_id_from_cert_der parse_x509 cert_der = Some (Ok identity).
Proof.
  intros Hia Hu Hv Hparse Hiss.
  destruct (issue_leaf_with_key_spec _ _ _ _ _ _ Hia Hiss)
    as (params & key & cert & extra & Hs & -> & _ & _ & Hl).
  destruct (Hparse params key (root_cert self) (root_key self) cert) as (exts & Hp & Hn);
    [by rewrite (leaf_sans _ _ _ _ _ Hl) | done |].
  unfold spiffe_id_from_cert_der. rewrite Hp, scan_extensions_names, Hn, (leaf_sans _ _ _ _ _ Hl).
  cbn [map first_spiffe_uri]. by rewrite uri_roundtrip.
Qed.
End CA.

(** ** Properties *)

(** C32: a leaf that the root issues for a valid identity (one that the URI grammar
    admits, in lower case where it is case-insensitive) presents that identity: the
    certificate asked of the generator is no CA, is valid for 24 hours from now,
    allows both TLS roles, has a 20-byte random serial, and names the identity's
    URI first; reading the identity back from the issued certificate, as a peer
    proxy does, yields the identity it was issued for, when the parser finds the
    names that the generator was given. *)
Theorem issued_leaf_presents_identity {KeyPair Certificate} generate_ed25519 signed_by der
    serialize_der ia5_string random_bytes parse_x509 (self : @CertificateAuthority KeyPair Certificate)
    identity names now cert_der key_der :
  ia5_spec ia5_string -> utf8_id identity -> valid_id identity ->
  names_read_back signed_by der parse_x509 ->
  issue_leaf_with_key generate_ed25519 signed_by der serialize_der ia5_string random_bytes
    self identity names now = Ok (cert_der, key_der) ->
  spiffe_id_from_cert_der parse_x509 cert_der = Some (Ok identity)
  /\ exists params leaf_key cert extra,
       signed_by params leaf_key (root_cert self) (root_key self) = Ok cert
       /\ cert_der = der cert /\ key_der = serialize_der leaf_key
       /\ leaf_of random_bytes self identity extra now params.
Proof.
  intros Hia Hu Hv Hp Hi. split; [by eapply issued_identity |].
  destruct (issue_leaf_with_key_spec _ _ _ _ _ _ _ _ _ _ _ _ Hia Hi)
    as (params & k & c & extra & ? & ? & ? & _ & ?). eauto 10.
Qed.

(** A generator that certifies one URI, whose certificate is that URI. *)
Module CaDemo.
Definition signed_by (params : CertificateParams) (_ : unit) (_ : str) (_ : unit) : result str str :=
  match subject_alt_names params with [SanURI u] => Ok u | _ => Err [] end.
Definition ia5 (s : str) : result str str := if forallb is_ascii s then Ok s else Err [].
Definition parse (d : str) : result (list X509Extension) str :=
  Ok [MkExt SAN_OID (SubjectAlternativeName [URI d])].
Definition authority : @CertificateAuthority unit (list Ascii.ascii) := MkCA tt [] [] (bs "td").

Lemma issued_leaf_presents_identity_witness :
  spiffe_id_from_cert_der parse (Id.to_uri Demo.id) = Some (Ok Demo.id).
Proof.
  apply (issued_leaf_presents_identity (Ok tt) signed_by id (fun _ => []) ia5
    (fun _ => Ok (bs "serial")) parse authority Demo.id [] 0 (Id.to_uri Demo.id) []).
  - intros s. unfold ia5. destruct (forallb is_ascii s); done.
  - apply Demo.id_utf8.
  - by repeat split.
  - intros params k c rk cert _. unfold signed_by.
    destruct (subject_alt_names params) as [|[u|ip|n] [|? ?]]; try done. intros [= <-]. by eexists.
  - vm_compute. reflexivity.
Defined.
End CaDemo.
