(* ===== verification/Reload.v ===== *)
(** * Credential loading and hot reload ([src/proxy/reload.rs])

    Building a TLS generation from the credential files, the reloader that
    keeps the last good generation, and the handshakes that go through the
    current one.  The file system, the PEM decoder and the TLS library are
    parameters. *)

From S2P Require Import Prelude Bytes Common Glob Identity Policy Net Metrics ProxyBase ConfigLoad.
From S2P Require Import Process Handshake Provider.

Set Default Proof Using "Type".

(** ** Credential paths *)

Record TlsCredentialPaths := MkPaths { ca_bundle : str; certificate : str; private_key : str }.

#[global] Instance TlsCredentialPaths_eq_dec : EqDecision TlsCredentialPaths.
Proof. solve_decision. Defined.

(** [Path::join] with a relative component. *)
Definition path_join (dir file : str) : str :=
  match last dir with
  | Some b => if bool_decide (b = slash) then dir ++ file else dir ++ [slash] ++ file
  | None => file
  end.

(** [std::env::temp_dir] on Unix. *)
Definition temp_dir (e : env) : str := default (bs "/tmp") (e !! bs "TMPDIR").

Module Paths.
Definition new (ca cert key : str) : TlsCredentialPaths := MkPaths ca cert key.

(** [var_os] reads the raw bytes of a variable. *)
Definition from_config (os_env : env) (config : Config) : TlsCredentialPaths :=
  let default_directory :=
    default (path_join (temp_dir os_env) (bs "interlink-demo")) (os_env !! bs "INTERLINK_CERT_DIR") in
  new (default (path_join default_directory (bs "ca.der")) (ca_bundle_path config))
      (default (path_join default_directory (bs "server.der")) (cert_path config))
      (default (path_join default_directory (bs "server.key")) (key_path config)).
End Paths.

(** ** Generations and the reloader *)

Record TlsGeneration := MkGen { gen_client : TlsClient; gen_server : TlsServer }.

Record TlsCredentialReloader := MkReloader {
  paths : TlsCredentialPaths;
  expected_identity : SpiffeId;
  mux_enabled : bool;
  generation : TlsGeneration;
}.

(** [bytes.windows(11).any(|w| w == b"-----BEGIN ")] *)
Definition PEM_HEADER : str := bs "-----BEGIN ".
Definition contains_pem_header (bytes : str) : bool := str_contains bytes PEM_HEADER.

Section Reload.
(** [std::fs::read] and [Path::display]. *)
Context (path_display : str -> str) (io_display : IoError -> str).
(** [rustls_pemfile::certs] (collected) and [rustls_pemfile::private_key]. *)
Context (pem_certs : str -> result (list str) IoError).
Context (pem_private_key : str -> result (option PrivateKeyDer) IoError).
(** [ServerName::try_from]. *)
Context (server_name_try_from : str -> result str str).
(** The TLS and X.509 libraries, as in [Handshake]. *)
Context (parse_x509 : str -> result (list X509Extension) str).
Context (root_add : str -> result unit TlsError).
Context (client_auth_cert : list str -> PrivateKeyDer -> result unit TlsError).
Context (single_cert : list str -> PrivateKeyDer -> result unit TlsError).
Context (client_verifier : list str -> result unit str).
Context (parsed_certificate : str -> result unit TlsError).
Context (signed_by_trust_anchor : list str -> str -> list str -> N -> result unit TlsError).

Definition read_file (fs_read : str -> result str IoError) (path description : str) :
    result str InterlinkError :=
  map_err (fun e => Io {| io_kind := io_kind e;
                          io_msg := bs "read " ++ description ++ bs " '" ++ path_display path
                                    ++ bs "': " ++ io_display e |})
    (fs_read path).

Definition invalid_data (msg : str) : InterlinkError :=
  Io {| io_kind := InvalidData; io_msg := msg |}.

Definition parse_certificates (bytes : str) : result (list str) InterlinkError :=
  if negb (contains_pem_header bytes) then
    if bool_decide (bytes = []) then Err (invalid_data (bs "DER certificate file is empty"))
    else Ok [bytes]
  else
    certificates <-? map_err Io (pem_certs bytes) ;;
    if bool_decide (certificates = []) then
      Err (invalid_data (bs "PEM file contains no certificates"))
    else Ok certificates.

Definition parse_private_key (bytes : str) : result PrivateKeyDer InterlinkError :=
  if negb (contains_pem_header bytes) then
    if bool_decide (bytes = []) then Err (invalid_data (bs "DER private-key file is empty"))
    else Ok (MkKey Pkcs8 bytes)
  else
    key <-? map_err Io (pem_private_key bytes) ;;
    ok_or key (invalid_data (bs "PEM file contains no supported private key")).

(** The server is built before the client; either may fail. *)
Definition build_endpoints (provider : StaticIdentityProvider) (cert : str) (key : PrivateKeyDer)
    (mux : bool) : result TlsGeneration InterlinkError :=
  if mux then
    server <-? server_new root_add single_cert client_verifier provider cert key ;;
    client <-? client_with_auth root_add client_auth_cert provider cert key ;;
    Ok (MkGen client server)
  else
    server <-? server_new_with_alpn root_add single_cert client_verifier provider cert key
                 legacy_alpn_protocols ;;
    client <-? client_with_auth_alpn root_add client_auth_cert provider cert key
                 legacy_alpn_protocols ;;
    Ok (MkGen client server).

(** The three files are read one after the other; [fs_read n] is the file system
    as the n-th read finds it. *)
Definition build_generation (fs_read : nat -> str -> result str IoError) (now : N)
    (ps : TlsCredentialPaths) (expected : SpiffeId) (mux : bool) :
    eval (result TlsGeneration InterlinkError) :=
  bytes <-! Some (read_file (fs_read 0) (ca_bundle ps) (bs "CA bundle")) ;;
  rs <-! Some (parse_certificates bytes) ;;
  bytes <-! Some (read_file (fs_read 1) (certificate ps) (bs "certificate")) ;;
  certs <-! Some (parse_certificates bytes) ;;
  cert <-! Some (ok_or (head certs) (Common.Config (bs "certificate file contains no certificates"))) ;;
  let intermediates := tail certs in
  bytes <-! Some (read_file (fs_read 2) (private_key ps) (bs "private key")) ;;
  key <-! Some (parse_private_key bytes) ;;
  actual <-! spiffe_id_from_cert_der parse_x509 cert ;;
  if negb (bool_decide (actual = expected)) then
    Some (Err (Common.Identity (bs "certificate identity '" ++ Id.to_uri actual
      ++ bs "' does not match configured identity '" ++ Id.to_uri expected ++ bs "'")))
  else
    store <-! Some (root_store root_add rs) ;;
    let verifier := MkVerifier store (trust_domain expected) in
    name <-! Some (map_err (fun e => Common.Config (bs "validation name: " ++ e))
                     (server_name_try_from (bs "reload.invalid"))) ;;
    verified ← verify_server_cert parse_x509 parsed_certificate signed_by_trust_anchor
                 verifier cert intermediates name [] now;
    _ <-! Some (map_err Tls verified) ;;
    Some (build_endpoints (Static.with_ca_bundle expected rs) cert key mux).

(** What a load sees of the outside: the files at each of its reads, the clock,
    and the failure of the blocking task, if the runtime reports one. *)
Record World := MkWorld {
  fs_read : nat -> str -> result str IoError;
  unix_now : N;
  join_error : option str;
}.

Definition load_generation (w : World) (ps : TlsCredentialPaths) (expected : SpiffeId) (mux : bool) :
    eval (result TlsGeneration InterlinkError) :=
  match join_error w with
  | Some e => Some (Err (Common.Config (bs "TLS credential loader task failed: " ++ e)))
  | None => build_generation (fs_read w) (unix_now w) ps expected mux
  end.

Definition load (w : World) (ps : TlsCredentialPaths) (expected : SpiffeId) (mux : bool) :
    eval (result TlsCredentialReloader InterlinkError) :=
  gen <-! load_generation w ps expected mux ;;
  Some (Ok (MkReloader ps expected mux gen)).

(** [reload] under the reload lock: the swap is the last action. *)
Definition reload (w : World) (self : TlsCredentialReloader) :
    eval (result unit InterlinkError * TlsCredentialReloader) :=
  r ← load_generation w (paths self) (expected_identity self) (mux_enabled self);
  Some (match r with
        | Ok gen => (Ok tt, MkReloader (paths self) (expected_identity self) (mux_enabled self) gen)
        | Err e => (Err e, self)
        end).

(** A handshake loads the current generation once and runs through it. *)
#[global] Instance Reloader_handshake : TlsHandshake TlsCredentialReloader := {|
  connect E self addr attempt :=
    @connect TlsClient (TlsClient_handshake parse_x509) E (gen_client (generation self)) addr attempt;
  accept E self attempt :=
    @accept TlsServer (TlsServer_handshake parse_x509) E (gen_server (generation self)) attempt;
|}.

(** The reloader keeps the endpoints' contract, whatever its generation. *)
#[global] Instance Reloader_authentic :
  parser_utf8 parse_x509 -> TlsAuthentic parse_x509 TlsCredentialReloader.
Proof. intros Hp. split; intros; by apply (finish_effect parse_x509). Qed.

(** ** What a generation guarantees *)

(** A generation built for an identity: both endpoints present one certificate
    that carries exactly this identity and chains to the trusted roots, with a
    private key that the library accepts for it, both trust exactly these roots,
    and offer the multiplexing protocol exactly when it is enabled. *)
Record good_generation (expected : SpiffeId) (mux : bool) (gen : TlsGeneration) : Prop := {
  good_cert : exists cert key ims now,
    cc_auth (connector (gen_client gen)) = Some ([cert], key)
    /\ sc_certs (acceptor (gen_server gen)) = [cert]
    /\ sc_key (acceptor (gen_server gen)) = key
    /\ spiffe_id_from_cert_der parse_x509 cert = Some (Ok expected)
    /\ signed_by_trust_anchor (sc_roots (acceptor (gen_server gen))) cert ims now = Ok tt
    /\ single_cert [cert] key = Ok tt /\ client_auth_cert [cert] key = Ok tt;
  good_roots : cc_roots (connector (gen_client gen)) = sc_roots (acceptor (gen_server gen))
    /\ sc_roots (acceptor (gen_server gen)) <> [];
  good_domain : cc_trust_domain (connector (gen_client gen)) = trust_domain expected;
  good_alpn : sc_alpn (acceptor (gen_server gen)) = cc_alpn (connector (gen_client gen))
    /\ cc_alpn (connector (gen_client gen)) = if mux then alpn_protocols else legacy_alpn_protocols;
}.

Lemma parse_certificates_ok bytes certs : parse_certificates bytes = Ok certs -> certs <> [].
Proof.
  unfold parse_certificates. destruct (contains_pem_header bytes); simpl.
  - destruct (pem_certs bytes); simpl; [|done]. case_bool_decide; [done |]. by intros [= <-].
  - case_bool_decide; [done |]. by intros [= <-].
Qed.

Lemma client_with_auth_alpn_ok (p : StaticIdentityProvider) cert key alpn c :
  client_with_auth_alpn root_add client_auth_cert p cert key alpn = Ok c ->
  c = MkTlsClient (MkClientConfig (ca_certs (static_td p)) (td_name (static_td p))
        (Some ([cert], key)) alpn) /\ client_auth_cert [cert] key = Ok tt.
Proof.
  unfold client_with_auth_alpn. simpl.
  destruct (root_store root_add _) as [store|] eqn:E; simpl; [|done].
  apply root_store_ok in E as ->. destruct (client_auth_cert _ _) as [[]|]; simpl; [|done]. by intros [= <-].
Qed.

Lemma server_new_with_alpn_ok (p : StaticIdentityProvider) cert key alpn s :
  server_new_with_alpn root_add single_cert client_verifier p cert key alpn = Ok s ->
  s = MkTlsServer (MkServerConfig (ca_certs (static_td p)) [cert] key alpn)
  /\ single_cert [cert] key = Ok tt.
Proof.
  unfold server_new_with_alpn. simpl.
  destruct (root_store root_add _) as [store|] eqn:E; simpl; [|done].
  apply root_store_ok in E as ->. destruct (client_verifier _); simpl; [|done].
  destruct (single_cert _ _) as [[]|]; simpl; [|done]. by intros [= <-].
Qed.

Lemma mux_alpn : ALPN_MUX ∈ alpn_protocols /\ ALPN_MUX ∉ legacy_alpn_protocols.
Proof. split; [by left |]. by apply (bool_decide_unpack _). Qed.

(** The endpoints of one load, in terms of the files' contents. *)
Lemma build_endpoints_ok p cert key mux gen :
  build_endpoints p cert key mux = Ok gen ->
  let alpn := if mux then alpn_protocols else legacy_alpn_protocols in
  gen = MkGen (MkTlsClient (MkClientConfig (ca_certs (static_td p)) (td_name (static_td p))
                 (Some ([cert], key)) alpn))
              (MkTlsServer (MkServerConfig (ca_certs (static_td p)) [cert] key alpn))
  /\ single_cert [cert] key = Ok tt /\ client_auth_cert [cert] key = Ok tt.
Proof.
  unfold build_endpoints, server_new, client_with_auth. intros H.
  destruct mux; simpl;
    destruct (server_new_with_alpn _ _ _ _ _ _ _) as [s|] eqn:Es in H; simpl in H; try done;
    apply server_new_with_alpn_ok in Es as [-> ?];
    destruct (client_with_auth_alpn _ _ _ _ _ _) as [c|] eqn:Ec in H; simpl in H; try done;
    apply client_with_auth_alpn_ok in Ec as [-> ?]; by injection H as <-.
Qed.

Lemma build_generation_good fs now ps expected mux gen :
  build_generation fs now ps expected mux = Some (Ok gen) -> good_generation expected mux gen.
Proof.
  unfold build_generation. intros H.
  apply erbind_ok in H as (b1 & _ & H). apply erbind_ok in H as (rs & Hrs & H).
  injection Hrs as Hrs%parse_certificates_ok.
  apply erbind_ok in H as (b2 & _ & H). apply erbind_ok in H as (certs & Hcs & H).
  apply erbind_ok in H as (cert & _ & H). cbv zeta in H.
  apply erbind_ok in H as (b3 & _ & H). apply erbind_ok in H as (key & _ & H).
  apply erbind_ok in H as (actual & Hid & H).
  destruct (bool_decide_reflect (actual = expected)) as [->|]; cbn [negb] in H; [|done].
  apply erbind_ok in H as (store & Hst & H). injection Hst as ->%root_store_ok.
  apply erbind_ok in H as (name & _ & H).
  destruct (verify_server_cert _ _ _ _ _ _ _ _ _) as [[[]|e]|] eqn:Hv; simpl in H; [|done..].
  injection H as [H [Hsc Hca]]%build_endpoints_ok. rewrite with_ca_bundle_eq in H. simpl in H.
  assert (Hs : signed_by_trust_anchor rs cert (tail certs) now = Ok tt).
  { unfold verify_server_cert in Hv. simpl in Hv. destruct (parsed_certificate cert); [|done].
    by destruct (signed_by_trust_anchor _ _ _ _) as [[]|]. }
  subst gen. by split; simpl; [by eauto 12 | done..].
Qed.

Lemma reload_good w self r self' :
  good_generation (expected_identity self) (mux_enabled self) (generation self) ->
  reload w self = Some (r, self') ->
  expected_identity self' = expected_identity self /\ mux_enabled self' = mux_enabled self
  /\ paths self' = paths self
  /\ good_generation (expected_identity self') (mux_enabled self') (generation self')
  /\ (forall e, r = Err e -> self' = self).
Proof.
  intros Hg. unfold reload, load_generation. destruct (join_error w) as [e|].
  { intros [= <- <-]. done. }
  destruct (build_generation _ _ _ _ _) as [[gen|e]|] eqn:E; simpl; intros H; try done;
    injection H as <- <-; simpl; [|done]. apply build_generation_good in E. done.
Qed.

(** Building never panics. *)
Lemma build_generation_total fs now ps expected mux :
  parser_utf8 parse_x509 -> is_Some (build_generation fs now ps expected mux).
Proof.
  intros Hp. unfold build_generation.
  do 7 (apply erbind_total; [by eexists | intros ?]). cbv zeta.
  apply erbind_total; [|intros actual].
  { edestruct (spiffe_id_from_cert_der_spec parse_x509) as (r & -> & _); [done | by eexists]. }
  destruct (negb _); [by eexists |].
  do 2 (apply erbind_total; [by eexists | intros ?]).
  edestruct verify_server_cert_spec as (r & -> & _); [done |]. cbn [mbind option_bind].
  apply erbind_total; by eexists.
Qed.

(** Building succeeds on files that hold what it asks for. *)
Lemma build_generation_ok fs now ps expected mux rs cert ims key b1 b2 b3 name :
  fs 0 (ca_bundle ps) = Ok b1 -> parse_certificates b1 = Ok rs ->
  fs 1 (certificate ps) = Ok b2 -> parse_certificates b2 = Ok (cert :: ims) ->
  fs 2 (private_key ps) = Ok b3 -> parse_private_key b3 = Ok key ->
  spiffe_id_from_cert_der parse_x509 cert = Some (Ok expected) ->
  Forall (fun ca => root_add ca = Ok tt) rs ->
  server_name_try_from (bs "reload.invalid") = Ok name ->
  parsed_certificate cert = Ok tt -> signed_by_trust_anchor rs cert ims now = Ok tt ->
  client_verifier rs = Ok tt -> single_cert [cert] key = Ok tt -> client_auth_cert [cert] key = Ok tt ->
  exists gen, build_generation fs now ps expected mux = Some (Ok gen).
Proof.
  intros H1 P1 H2 P2 H3 P3 Hid Hroots Hname Hpc Hta Hcv Hsc Hca.
  assert (Hst : root_store root_add rs = Ok rs).
  { clear -Hroots. induction Hroots as [|ca rs Hca _ IH]; simpl; [done |]. by rewrite Hca; simpl; rewrite IH. }
  assert (Hend : exists gen, build_endpoints (Static.with_ca_bundle expected rs) cert key mux = Ok gen).
  { unfold build_endpoints, server_new, client_with_auth, server_new_with_alpn, client_with_auth_alpn.
    rewrite with_ca_bundle_eq. simpl. rewrite Hst. simpl. rewrite Hcv, Hsc, Hca. destruct mux; by eexists. }
  destruct Hend as [gen Hend]. exists gen. unfold build_generation, read_file.
  rewrite H1. cbn [map_err erbind]. rewrite P1. cbn [erbind]. rewrite H2. cbn [map_err erbind].
  rewrite P2. cbn [erbind head ok_or tail]. rewrite H3. cbn [map_err erbind]. rewrite P3. cbn [erbind].
  rewrite Hid. cbn [erbind]. rewrite bool_decide_true by done. cbn [negb]. rewrite Hst. cbn [erbind].
  rewrite Hname. cbn [map_err erbind]. unfold verify_server_cert. cbn [roots verifier_trust_domain].
  rewrite Hpc, Hta, Hid. cbn [mbind option_bind]. rewrite bool_decide_true by done.
  cbn [negb map_err erbind]. by rewrite Hend.
Qed.

(** Reloads with whatever the files hold each time. *)
Inductive reload_step : TlsCredentialReloader -> TlsCredentialReloader -> Prop :=
| reload_once w self r self' : reload w self = Some (r, self') -> reload_step self self'.

(** ** Properties *)

(** C14: the last good credentials are never lost: however often the files are
    reloaded, and whatever they hold each time, the reloader serves a generation
    whose certificate carries exactly the configured identity and was verified
    against the roots both endpoints trust, and which offers multiplexing exactly
    when enabled; identity, paths and mode never change. *)
Theorem reload_keeps_good ps expected mux w self self' :
  load w ps expected mux = Some (Ok self) ->
  steps reload_step self self' ->
  good_generation expected mux (generation self')
  /\ expected_identity self' = expected /\ mux_enabled self' = mux /\ paths self' = ps.
Proof.
  intros Hl. unfold load in Hl. apply erbind_ok in Hl as (gen & Hg & Hx). injection Hx as <-.
  apply (steps_invariant reload_step (fun s => good_generation expected mux (generation s)
    /\ expected_identity s = expected /\ mux_enabled s = mux /\ paths s = ps)).
  - simpl. split; [|done]. unfold load_generation in Hg. destruct (join_error w); [done |].
    by eapply build_generation_good.
  - intros a b Hinv Hst. revert Hinv. destruct Hst as [w' s r s' Hr]. intros (Hga & Hi & Hm & Hp).
    destruct (reload_good w' s r s') as (Hi' & Hm' & Hp' & Hg' & _); [by rewrite Hi, Hm | done |].
    rewrite Hi', Hm' in Hg'. rewrite Hi', Hm', Hp'. by rewrite Hi, Hm in Hg'.
Qed.

(** A reload is all or nothing and never panics: it returns, and if it
    reports an error the reloader is exactly what it was before. *)
Theorem reload_atomic w self :
  parser_utf8 parse_x509 ->
  exists r self', reload w self = Some (r, self') /\
    match r with
    | Err _ => self' = self
    | Ok _ => exists gen, load_generation w (paths self) (expected_identity self) (mux_enabled self)
                = Some (Ok gen) /\ generation self' = gen
    end.
Proof.
  intros Hp. unfold reload, load_generation. destruct (join_error w) as [e|]; [by do 2 eexists |].
  destruct (build_generation_total (fs_read w) (unix_now w) (paths self) (expected_identity self)
    (mux_enabled self) Hp) as [[gen|e] ->]; do 2 eexists; (split; [done |]); [by exists gen | done].
Qed.
End Reload.

(** A reloader on concrete files, with libraries that accept everything. *)
Module ReloadDemo.
Definition world : World := MkWorld (fun _ _ => Ok (bs "der")) 0 None.
Definition bad_world : World := MkWorld (fun _ _ => Ok []) 0 None.
Definition files : TlsCredentialPaths := Paths.new (bs "ca") (bs "cert") (bs "key").
Definition do_load : eval (result TlsCredentialReloader InterlinkError) :=
  load id (fun _ => []) (fun _ => Ok []) (fun _ => Ok None) Ok Demo.parse (fun _ => Ok tt)
    (fun _ _ => Ok tt) (fun _ _ => Ok tt) (fun _ => Ok tt) (fun _ => Ok tt) (fun _ _ _ _ => Ok tt)
    world files Demo.id true.
Definition initial : TlsCredentialReloader :=
  match do_load with
  | Some (Ok r) => r
  | _ => MkReloader files Demo.id true (MkGen Demo.client Demo.server)
  end.

Lemma reload_keeps_good_witness :
  good_generation Demo.parse (fun _ _ => Ok tt) (fun _ _ => Ok tt) (fun _ _ _ _ => Ok tt) Demo.id true
    (generation initial).
Proof.
  apply (reload_keeps_good id (fun _ => []) (fun _ => Ok []) (fun _ => Ok None) Ok Demo.parse
    (fun _ => Ok tt) (fun _ _ => Ok tt) (fun _ _ => Ok tt) (fun _ => Ok tt) (fun _ => Ok tt)
    (fun _ _ _ _ => Ok tt) files Demo.id true world initial initial);
    [vm_compute; reflexivity |].
  eapply steps_snoc; [apply steps_refl |]. eapply (reload_once _ _ _ _ _ _ _ _ _ _ _ _ bad_world).
  vm_compute. reflexivity.
Defined.

Lemma reload_atomic_witness :
  exists r self', reload id (fun _ => []) (fun _ => Ok []) (fun _ => Ok None) Ok Demo.parse
    (fun _ => Ok tt) (fun _ _ => Ok tt) (fun _ _ => Ok tt) (fun _ => Ok tt) (fun _ => Ok tt)
    (fun _ _ _ _ => Ok tt) bad_world initial = Some (r, self').
Proof.
  destruct (reload_atomic id (fun _ => []) (fun _ => Ok []) (fun _ => Ok None) Ok Demo.parse
    (fun _ => Ok tt) (fun _ _ => Ok tt) (fun _ _ => Ok tt) (fun _ => Ok tt) (fun _ => Ok tt)
    (fun _ _ _ _ => Ok tt) bad_world initial Demo.parse_utf8) as (r & self' & Hr & _).
  exists r, self'. exact Hr.
Defined.
End ReloadDemo.
