(* ===== verification/Rotation.v ===== *)
(** * Credential rotation under concurrency ([src/proxy/reload.rs])

    The reloader as the shared object it is: any number of callers of [reload]
    that queue for [reload_lock], the blocking task of the one that holds it,
    which reads the three files one after the other while they may change, the
    store into the [ArcSwap], and the handshakes that load the current
    generation once and keep it.  A caller may drop its future wherever it
    awaits; a blocking task that is left behind touches nothing shared. *)

From S2P Require Import Prelude Bytes Common Glob Identity Policy Net Metrics ProxyBase ConfigLoad.
From S2P Require Import Process Handshake Provider Reload.

Set Default Proof Using "Type".

(** What reading each path finds. *)
Abbreviation Disk := (str -> result str IoError) (only parsing).

(** One call of [reload].  [since] is the index of the file system at the moment
    the lock was acquired, [seen] those of the reads made so far. *)
Inductive Stage :=
| Waiting                                   (** in [reload_lock.lock().await] *)
| Loading (since : nat) (seen : list nat)   (** in [load_generation(..).await] *)
| Loaded (since : nat) (w : World) (r : result TlsGeneration InterlinkError)
| Releasing (since : nat) (r : result unit InterlinkError)   (** after the store *)
| Returned (since : nat) (r : result unit InterlinkError)
| Dropped.

(** The states of the file system so far (the last is the present one), the
    reloader, the queue of the lock (the holder first: the lock is fair), the
    calls of [reload], the loads that have taken effect, and the generations the
    handshakes have loaded. *)
Record Rotation := MkRotation {
  history : list Disk;
  reloader : TlsCredentialReloader;
  lock_queue : list nat;
  callers : list Stage;
  effects : list (World * result unit InterlinkError);
  handshakes : list TlsGeneration;
}.

Definition rotation_new (self : TlsCredentialReloader) (disk : Disk) : Rotation :=
  MkRotation [disk] self [] [] [] [].

(** Who acts. *)
Inductive Label :=
| Change (disk : Disk)                      (** somebody writes files *)
| CallReload
| Acquire (i : nat)                         (** and [spawn_blocking] *)
| ReadNext (i : nat)                        (** of the blocking task *)
| Build (i : nat) (now : N)                 (** the task ends and the caller resumes *)
| JoinFails (i : nat) (e : str)
| Store (i : nat)                           (** [?], or the store *)
| ReleaseLock (i : nat)                     (** the drop of the guard *)
| DropCaller (i : nat)
| BeginHandshake.                           (** [generation.load_full()] *)

Definition set_stage (i : nat) (st : Stage) (s : Rotation) : Rotation :=
  MkRotation (history s) (reloader s) (lock_queue s) (<[i := st]> (callers s)) (effects s) (handshakes s).
Definition set_queue (q : list nat) (s : Rotation) : Rotation :=
  MkRotation (history s) (reloader s) q (callers s) (effects s) (handshakes s).

(** The index of the present file system. *)
Definition present (s : Rotation) : nat := length (history s) - 1.

(** [self.generation.store(Arc::new(generation))] *)
Definition store_generation (self : TlsCredentialReloader) (gen : TlsGeneration) : TlsCredentialReloader :=
  MkReloader (paths self) (expected_identity self) (mux_enabled self) gen.

Section Rotation.
(** The libraries, as in [Reload]. *)
Context (path_display : str -> str) (io_display : IoError -> str).
Context (pem_certs : str -> result (list str) IoError).
Context (pem_private_key : str -> result (option PrivateKeyDer) IoError).
Context (server_name_try_from : str -> result str str).
Context (parse_x509 : str -> result (list X509Extension) str).
Context (root_add : str -> result unit TlsError).
Context (client_auth_cert : list str -> PrivateKeyDer -> result unit TlsError).
Context (single_cert : list str -> PrivateKeyDer -> result unit TlsError).
Context (client_verifier : list str -> result unit str).
Context (parsed_certificate : str -> result unit TlsError).
Context (signed_by_trust_anchor : list str -> str -> list str -> N -> result unit TlsError).

Abbreviation load_gen := (load_generation path_display io_display pem_certs pem_private_key
  server_name_try_from parse_x509 root_add client_auth_cert single_cert client_verifier
  parsed_certificate signed_by_trust_anchor).
Abbreviation build_gen := (build_generation path_display io_display pem_certs pem_private_key
  server_name_try_from parse_x509 root_add client_auth_cert single_cert client_verifier
  parsed_certificate signed_by_trust_anchor).
Abbreviation do_reload := (reload path_display io_display pem_certs pem_private_key
  server_name_try_from parse_x509 root_add client_auth_cert single_cert client_verifier
  parsed_certificate signed_by_trust_anchor).
Abbreviation good := (good_generation parse_x509 client_auth_cert single_cert signed_by_trust_anchor).

(** ** The steps *)

(** What a load saw whose three reads found these file systems. *)
Definition reads (f0 f1 f2 : Disk) (now : N) : World :=
  MkWorld (fun k => match k with 0 => f0 | 1 => f1 | _ => f2 end) now None.

(** The caller's load has returned [r]. *)
Definition loaded (i since : nat) (w : World) (s : Rotation) : option Rotation :=
  r ← load_gen w (paths (reloader s)) (expected_identity (reloader s)) (mux_enabled (reloader s));
  Some (set_stage i (Loaded since w r) s).

(** One step of the one who acts; [None] when it cannot act now. *)
Definition rotate (l : Label) (s : Rotation) : option Rotation :=
  match l with
  | Change disk =>
      Some (MkRotation (history s ++ [disk]) (reloader s) (lock_queue s) (callers s) (effects s) (handshakes s))
  | CallReload =>
      Some (MkRotation (history s) (reloader s) (lock_queue s ++ [length (callers s)])
              (callers s ++ [Waiting]) (effects s) (handshakes s))
  | Acquire i =>
      match callers s !! i with
      | Some Waiting =>
          if bool_decide (head (lock_queue s) = Some i)
          then Some (set_stage i (Loading (present s) []) s) else None
      | _ => None
      end
  | ReadNext i =>
      match callers s !! i with
      | Some (Loading since seen) =>
          if length seen <? 3 then Some (set_stage i (Loading since (seen ++ [present s])) s) else None
      | _ => None
      end
  | Build i now =>
      match callers s !! i with
      | Some (Loading since [a; b; c]) =>
          f0 ← history s !! a; f1 ← history s !! b; f2 ← history s !! c;
          loaded i since (reads f0 f1 f2 now) s
      | _ => None
      end
  | JoinFails i e =>
      match callers s !! i with
      | Some (Loading since _) =>
          loaded i since (MkWorld (fun _ _ => Err {| io_kind := InvalidData; io_msg := [] |}) 0 (Some e)) s
      | _ => None
      end
  | Store i =>
      match callers s !! i with
      | Some (Loaded since w (Err e)) =>
          Some (MkRotation (history s) (reloader s) (lock_queue s) (<[i := Releasing since (Err e)]> (callers s))
                  (effects s ++ [(w, Err e)]) (handshakes s))
      | Some (Loaded since w (Ok gen)) =>
          Some (MkRotation (history s) (store_generation (reloader s) gen) (lock_queue s)
                  (<[i := Releasing since (Ok tt)]> (callers s)) (effects s ++ [(w, Ok tt)]) (handshakes s))
      | _ => None
      end
  | ReleaseLock i =>
      match callers s !! i with
      | Some (Releasing since r) => Some (set_queue (tail (lock_queue s)) (set_stage i (Returned since r) s))
      | _ => None
      end
  | DropCaller i =>
      match callers s !! i with
      | Some Waiting | Some (Loading _ _) =>
          Some (set_queue (filter (fun j => j <> i) (lock_queue s)) (set_stage i Dropped s))
      | _ => None
      end
  | BeginHandshake =>
      Some (MkRotation (history s) (reloader s) (lock_queue s) (callers s) (effects s)
              (handshakes s ++ [generation (reloader s)]))
  end.

Definition rotation_step : Rotation -> Rotation -> Prop := labelled rotate.

(** ** The invariant *)

(** A load whose reads found file systems of the history, in this order and none
    older than [n]. *)
Definition fresh (s : Rotation) (n : nat) (w : World) : Prop :=
  join_error w = None ->
  exists a b c f0 f1 f2, n <= a /\ a <= b /\ b <= c
    /\ history s !! a = Some f0 /\ history s !! b = Some f1 /\ history s !! c = Some f2
    /\ w = reads f0 f1 f2 (unix_now w).

(** The result of such a load of the reloader's files. *)
Definition built_since (s : Rotation) (n : nat) (gen : TlsGeneration) : Prop :=
  exists w, fresh s n w
    /\ load_gen w (paths (reloader s)) (expected_identity (reloader s)) (mux_enabled (reloader s))
       = Some (Ok gen).
Definition current_since (s : Rotation) (n : nat) : Prop := built_since s n (generation (reloader s)).

(** When the lock was acquired, of the calls that hold it. *)
Definition inside (st : Stage) : option nat :=
  match st with
  | Loading n _ | Loaded n _ _ | Releasing n _ => Some n
  | _ => None
  end.
Definition active (st : Stage) : Prop := st = Waiting \/ is_Some (inside st).

Definition stage_ok (s : Rotation) (st : Stage) : Prop :=
  match st with
  | Waiting | Dropped => True
  | Loading n seen => n <= present s /\ length seen <= 3
      /\ forall k a, seen !! k = Some a -> n <= a <= present s
           /\ forall k' a', seen !! k' = Some a' -> k <= k' -> a <= a'
  | Loaded n w r => n <= present s /\ fresh s n w
      /\ load_gen w (paths (reloader s)) (expected_identity (reloader s)) (mux_enabled (reloader s)) = Some r
  | Releasing n r | Returned n r => n <= present s /\ (r = Ok tt -> current_since s n)
  end.

(** The loads that have taken effect, as calls of [reload] one after the other. *)
Fixpoint reload_all (es : list (World * result unit InterlinkError)) (self : TlsCredentialReloader) :
    option TlsCredentialReloader :=
  match es with
  | [] => Some self
  | (w, r) :: es =>
      match do_reload w self with
      | Some (r', self') => if bool_decide (r' = r) then reload_all es self' else None
      | None => None
      end
  end.

Record rotation_inv (self : TlsCredentialReloader) (s : Rotation) : Prop := {
  inv_history : history s <> [];
  inv_queue : NoDup (lock_queue s);
  inv_members : forall i, i ∈ lock_queue s <-> exists st, callers s !! i = Some st /\ active st;
  inv_holder : forall i st, callers s !! i = Some st -> is_Some (inside st) -> head (lock_queue s) = Some i;
  inv_stages : forall i st, callers s !! i = Some st -> stage_ok s st;
  inv_order : forall i j st n m r, callers s !! i = Some st -> inside st = Some n ->
    callers s !! j = Some (Returned m r) -> m <= n;
  inv_effects : reload_all (effects s) self = Some (reloader s);
}.
Lemma current_since_le s n m : current_since s n -> m <= n -> current_since s m.
Proof.
  intros (w & Hf & Hl) Hm. exists w. split; [|done]. intros Hj.
  destruct (Hf Hj) as (a & b & c & f0 & f1 & f2 & ? & Hrest). exists a, b, c, f0, f1, f2. split; [lia | done].
Qed.

(** Files may change at any time: what was read stays read. *)
Lemma fresh_grows s s' n w : history s `prefix_of` history s' -> fresh s n w -> fresh s' n w.
Proof.
  intros Hp Hf Hj. destruct (Hf Hj) as (a & b & c & f0 & f1 & f2 & ? & ? & ? & Ha & Hb & Hc & Hw).
  exists a, b, c, f0, f1, f2. repeat (split; [first [done | by eapply prefix_lookup_Some] |]). done.
Qed.

Lemma stage_ok_grows s s' st :
  history s `prefix_of` history s' -> reloader s' = reloader s -> stage_ok s st -> stage_ok s' st.
Proof.
  intros Hp Hr. assert (Hle : present s <= present s').
  { unfold present. apply prefix_length in Hp. lia. }
  assert (Hc : forall n, current_since s n -> current_since s' n).
  { intros n (w & Hf & Hl). exists w. rewrite Hr. split; [by eapply fresh_grows | done]. }
  destruct st as [|n seen|n w r|n r|n r|]; simpl; rewrite ?Hr; try done.
  - intros (? & ? & Hs). split; [lia |]. split; [done |]. intros k a Hk. destruct (Hs k a Hk). split; [lia | done].
  - intros (? & ? & ?). split; [lia |]. split; [by eapply fresh_grows | done].
  - intros [? Ho]. split; [lia | auto].
  - intros [? Ho]. split; [lia | auto].
Qed.

(** Only the holder is inside. *)
Lemma inside_unique self s i j sti stj :
  rotation_inv self s -> callers s !! i = Some sti -> is_Some (inside sti) ->
  callers s !! j = Some stj -> is_Some (inside stj) -> i = j.
Proof. intros Hi H1 I1 H2 I2. pose proof (inv_holder _ _ Hi _ _ H1 I1). pose proof (inv_holder _ _ Hi _ _ H2 I2). congruence. Qed.

Lemma held_queue self s i st :
  rotation_inv self s -> callers s !! i = Some st -> is_Some (inside st) ->
  exists q, lock_queue s = i :: q /\ i ∉ q.
Proof.
  intros Hi Hc Hin. pose proof (inv_holder _ _ Hi _ _ Hc Hin) as Hh. pose proof (inv_queue _ _ Hi) as Hn.
  destruct (lock_queue s) as [|j q]; [done |]. injection Hh as ->. apply NoDup_cons in Hn as [? _]. eauto.
Qed.

Ltac at_caller H :=
  apply list_lookup_insert_Some in H as [(<- & ? & _) | [? H]]; [simplify_eq |].

(** The holder, or the caller that becomes it, moves on. *)
Lemma inv_advance self s s' i st st' :
  rotation_inv self s -> callers s !! i = Some st ->
  (st = Waiting /\ head (lock_queue s) = Some i \/ is_Some (inside st)) ->
  history s' = history s -> lock_queue s' = lock_queue s -> callers s' = <[i := st']> (callers s) ->
  is_Some (inside st') -> stage_ok s' st' ->
  (forall j stj, j <> i -> callers s !! j = Some stj -> stage_ok s' stj) ->
  (forall j m r, callers s !! j = Some (Returned m r) -> forall n, inside st' = Some n -> m <= n) ->
  reload_all (effects s') self = Some (reloader s') ->
  rotation_inv self s'.
Proof.
  intros Hi Hc Hst Eh Eq Ec Hin Hok Hoth Hord Heff.
  assert (Hlt : i < length (callers s)) by (by eapply lookup_lt_Some).
  assert (Hh : head (lock_queue s) = Some i).
  { destruct Hst as [[_ ?]|?]; [done | by eapply (inv_holder _ _ Hi)]. }
  split; rewrite ?Eh, ?Eq, ?Ec; [by destruct Hi | by destruct Hi | | | | | done].
  - intros j. rewrite (inv_members _ _ Hi j). split.
    + intros (stj & Hj & Ha). destruct (decide (i = j)) as [<-|Hne].
      * exists st'. rewrite list_lookup_insert_eq by done. split; [done | by right].
      * exists stj. by rewrite list_lookup_insert_ne.
    + intros (stj & Hj & Ha). at_caller Hj; [|by exists stj]. exists st. split; [done |].
      destruct Hst as [[-> _]|?]; [by left | by right].
  - intros j stj Hj Hinj. at_caller Hj; [done | by eapply (inv_holder _ _ Hi)].
  - intros j stj Hj. at_caller Hj; [done |]. by eapply Hoth.
  - intros j k stj n m r Hj Hn Hk. at_caller Hk; [by destruct Hin|]. at_caller Hj.
    + by eapply Hord.
    + exact (inv_order _ _ Hi _ _ _ _ _ _ Hj Hn Hk).
Qed.

(** Without a store. *)
Lemma inv_set_stage self s i st st' :
  rotation_inv self s -> callers s !! i = Some st ->
  (st = Waiting /\ head (lock_queue s) = Some i \/ is_Some (inside st)) ->
  is_Some (inside st') -> stage_ok s st' ->
  (forall j m r, callers s !! j = Some (Returned m r) -> forall n, inside st' = Some n -> m <= n) ->
  rotation_inv self (set_stage i st' s).
Proof.
  intros Hi Hc Hst Hin Hok Hord. eapply inv_advance; try done; [|apply (inv_effects _ _ Hi)].
  intros j stj _ Hj. exact (inv_stages _ _ Hi _ _ Hj).
Qed.

(** A caller leaves the queue, at the end or because it was dropped. *)
Lemma inv_leave self s i st st' q' :
  rotation_inv self s -> callers s !! i = Some st -> ~ active st' -> stage_ok s st' ->
  NoDup q' -> (forall j, j ∈ q' <-> j ∈ lock_queue s /\ j <> i) ->
  (forall j, head (lock_queue s) = Some j -> j <> i -> head q' = Some j) ->
  (st' = Dropped \/ is_Some (inside st)) ->
  rotation_inv self (set_queue q' (set_stage i st' s)).
Proof.
  intros Hi Hc Hna Hok Hnd Hq Hhd Hst. assert (Hlt : i < length (callers s)) by (by eapply lookup_lt_Some).
  assert (Hno : ~ is_Some (inside st')) by (intros ?; apply Hna; by right).
  split; simpl; [by destruct Hi | done | | | | | by destruct Hi].
  - intros j. rewrite Hq, (inv_members _ _ Hi j). split.
    + intros ((stj & Hj & Ha) & Hne). exists stj. by rewrite list_lookup_insert_ne by done.
    + intros (stj & Hj & Ha). at_caller Hj; [done |]. split; [by exists stj | done].
  - intros j stj Hj Hin. at_caller Hj; [done |]. apply Hhd; [|done]. by eapply (inv_holder _ _ Hi).
  - intros j stj Hj. at_caller Hj; [done |]. exact (inv_stages _ _ Hi _ _ Hj).
  - intros j k stj n m r Hj Hn Hk. at_caller Hj; [by rewrite Hn in Hno; destruct Hno; eexists |]. at_caller Hk.
    + destruct Hst as [?|Hst]; [done |].
      by destruct (inside_unique self s i j st stj Hi Hc Hst Hj ltac:(by eexists)).
    + exact (inv_order _ _ Hi _ _ _ _ _ _ Hj Hn Hk).
Qed.

Lemma reload_all_snoc es self self1 w r self2 :
  reload_all es self = Some self1 -> do_reload w self1 = Some (r, self2) ->
  reload_all (es ++ [(w, r)]) self = Some self2.
Proof.
  revert self. induction es as [|[w' r'] es IH]; intros self H1 H2; simpl in *.
  - injection H1 as ->. rewrite H2. by rewrite bool_decide_true.
  - destruct (do_reload w' self) as [[r'' self']|]; [|done]. case_bool_decide; [|done]. by apply IH.
Qed.

(** The store: the loads that took effect before are superseded. *)
Lemma inv_store self s s' i :
  rotation_inv self s -> rotate (Store i) s = Some s' -> rotation_inv self s'.
Proof.
  intros Hi Hs. simpl in Hs. destruct (callers s !! i) as [[| |n w r| | |]|] eqn:Hc; try done.
  destruct (inv_stages _ _ Hi _ _ Hc) as (Hn & Hf & Hl).
  assert (Hhold : is_Some (inside (Loaded n w r))) by (by eexists).
  assert (Hord : forall j m x, callers s !! j = Some (Returned m x) -> m <= n).
  { intros j m x Hj. exact (inv_order _ _ Hi _ _ _ _ _ _ Hc eq_refl Hj). }
  destruct r as [gen|e]; injection Hs as <-.
  - assert (Hcur : forall m, m <= n -> current_since
      (MkRotation (history s) (store_generation (reloader s) gen) (lock_queue s)
        (<[i := Releasing n (Ok tt)]> (callers s)) (effects s ++ [(w, Ok tt)]) (handshakes s)) m).
    { intros m Hm. eapply current_since_le; [|exact Hm]. by exists w. }
    eapply inv_advance; [exact Hi | exact Hc | by right | done | done | done | by eexists | | | |].
    + split; [done |]. intros _. by apply Hcur.
    + intros j stj Hne Hj. pose proof (inv_stages _ _ Hi _ _ Hj) as Hok.
      destruct stj as [|m seen|m w' x|m x|m x|]; try done.
      1: by destruct Hne; eapply (inside_unique self s); [exact Hi | exact Hj | by eexists | exact Hc | done].
      destruct Hok as [Hm _]. split; [done |]. intros _. apply Hcur. by eapply Hord.
    + intros j m x Hj k [= <-]. by eapply Hord.
    + eapply reload_all_snoc; [apply (inv_effects _ _ Hi) |]. unfold reload. by rewrite Hl.
  - eapply inv_advance; [exact Hi | exact Hc | by right | done | done | done | by eexists | done | | |].
    + intros j stj _ Hj. exact (inv_stages _ _ Hi _ _ Hj).
    + intros j m x Hj k [= <-]. by eapply Hord.
    + eapply reload_all_snoc; [apply (inv_effects _ _ Hi) |]. unfold reload. by rewrite Hl.
Qed.
(** The result of a load that has been resumed. *)
Lemma inv_loaded self s s' i n seen w :
  rotation_inv self s -> callers s !! i = Some (Loading n seen) -> fresh s n w ->
  loaded i n w s = Some s' -> rotation_inv self s'.
Proof.
  intros Hi Hc Hf Hl. unfold loaded in Hl. destruct (load_gen _ _ _ _) as [r|] eqn:E; simpl in Hl; [|done].
  injection Hl as <-. destruct (inv_stages _ _ Hi _ _ Hc) as (Hn & _).
  eapply inv_set_stage; [done | exact Hc | by right; eexists | by eexists | done |].
  intros j m x Hj k [= <-]. exact (inv_order _ _ Hi _ _ _ _ _ _ Hc eq_refl Hj).
Qed.

(** A read is never older than the ones before it. *)
Lemma inv_read self s s' i :
  rotation_inv self s -> rotate (ReadNext i) s = Some s' -> rotation_inv self s'.
Proof.
  intros Hi Hs. simpl in Hs. destruct (callers s !! i) as [[|n seen| | | |]|] eqn:Hc; try done.
  destruct (Nat.ltb_spec (length seen) 3); [|done]. injection Hs as <-.
  destruct (inv_stages _ _ Hi _ _ Hc) as (Hn & _ & Hseen).
  eapply inv_set_stage; [done | exact Hc | by right; eexists | by eexists | |].
  - split; [done |]. split; [rewrite length_app; simpl; lia |].
    intros k a [Hk|[Hk Ha]]%lookup_app_Some.
    + destruct (Hseen k a Hk) as [Hb Hmon]. split; [lia |].
      intros k' a' [Hk'|[Hk' Ha']]%lookup_app_Some Hle; [by eapply Hmon |].
      apply list_lookup_singleton_Some in Ha' as [_ <-]. lia.
    + apply list_lookup_singleton_Some in Ha as [Hz <-]. split; [lia |].
      intros k' a' [Hk'|[Hk' Ha']]%lookup_app_Some Hle.
      * apply lookup_lt_Some in Hk'. lia.
      * apply list_lookup_singleton_Some in Ha' as [_ <-]. done.
  - intros j m x Hj k [= <-]. exact (inv_order _ _ Hi _ _ _ _ _ _ Hc eq_refl Hj).
Qed.

Lemma inv_build self s s' i now :
  rotation_inv self s -> rotate (Build i now) s = Some s' -> rotation_inv self s'.
Proof.
  intros Hi Hs. simpl in Hs. destruct (callers s !! i) as [[|n seen| | | |]|] eqn:Hc; try done.
  destruct seen as [|a [|b [|c []]]]; try done.
  apply bind_Some in Hs as (f0 & H0 & Hs). apply bind_Some in Hs as (f1 & H1 & Hs).
  apply bind_Some in Hs as (f2 & H2 & Hs). eapply inv_loaded; [done | exact Hc | | exact Hs].
  intros _. destruct (inv_stages _ _ Hi _ _ Hc) as (_ & _ & Hseen).
  destruct (Hseen 0 a eq_refl) as [Ha Hab]. destruct (Hseen 1 b eq_refl) as [_ Hbc].
  exists a, b, c, f0, f1, f2. split; [lia |]. split; [by apply (Hab 1 b eq_refl); lia |].
  split; [by apply (Hbc 2 c eq_refl); lia |]. done.
Qed.

Lemma inv_release self s s' i :
  rotation_inv self s -> rotate (ReleaseLock i) s = Some s' -> rotation_inv self s'.
Proof.
  intros Hi Hs. simpl in Hs. destruct (callers s !! i) as [[| | |n r| |]|] eqn:Hc; try done. injection Hs as <-.
  destruct (held_queue self s i _ Hi Hc ltac:(by eexists)) as (q & Eq & Hq).
  pose proof (inv_queue _ _ Hi) as Hnd. rewrite Eq in Hnd. apply NoDup_cons in Hnd as [_ Hnd].
  eapply inv_leave; [done | exact Hc | by intros [|[]] | exact (inv_stages _ _ Hi _ _ Hc) | | | |];
    rewrite ?Eq; simpl; [done | | by intros j [= <-] | by right; eexists].
  intros j. rewrite elem_of_cons. split; [|tauto]. intros Hj. split; [by right |]. by intros ->.
Qed.

Lemma head_filter (l : list nat) i j :
  head l = Some j -> j <> i -> head (filter (fun k => k <> i) l) = Some j.
Proof. destruct l as [|k l]; [done |]. intros [= ->] Hne. by rewrite filter_cons_True. Qed.

Lemma inv_drop self s s' i :
  rotation_inv self s -> rotate (DropCaller i) s = Some s' -> rotation_inv self s'.
Proof.
  intros Hi Hs. simpl in Hs. assert (Hs' : exists st, callers s !! i = Some st
    /\ s' = set_queue (filter (fun j => j <> i) (lock_queue s)) (set_stage i Dropped s)).
  { destruct (callers s !! i) as [[]|]; simplify_eq; eauto. }
  destruct Hs' as (st & Hc & ->).
  eapply inv_leave; [done | exact Hc | by intros [|[]] | done | apply NoDup_filter, (inv_queue _ _ Hi)
    | | | by left].
  - intros j. rewrite list_elem_of_filter. tauto.
  - intros j Hj Hne. by apply head_filter.
Qed.

Lemma inv_acquire self s s' i :
  rotation_inv self s -> rotate (Acquire i) s = Some s' -> rotation_inv self s'.
Proof.
  intros Hi Hs. simpl in Hs. destruct (callers s !! i) as [[]|] eqn:Hc; try done.
  case_bool_decide; [|done]. injection Hs as <-.
  eapply inv_set_stage; [done | exact Hc | by left | by eexists | by split; [| split; [simpl; lia |]] |].
  intros j m x Hj k [= <-]. by destruct (inv_stages _ _ Hi _ _ Hj).
Qed.

(** Nothing but the shared queue, the history or the handshakes moves. *)
Lemma inv_environment self s s' l :
  rotation_inv self s -> rotate l s = Some s' ->
  match l with Change _ | CallReload | BeginHandshake => True | _ => False end -> rotation_inv self s'.
Proof.
  intros Hi Hs Hl. destruct l as [disk| | | | | | | | |]; try done; injection Hs as <-.
  - destruct Hi. split; try done; simpl; [by intros [_ ?]%app_nil |].
    intros i st Hc. eapply stage_ok_grows; [| |by eapply inv_stages0]; [by apply prefix_app_r | done].
  - assert (Hnew : length (callers s) ∉ lock_queue s).
    { intros (st & Hc & _)%(inv_members _ _ Hi). apply lookup_lt_Some in Hc. lia. }
    assert (Hlast : forall (i : nat) st, (callers s ++ [Waiting]) !! i = Some st ->
      callers s !! i = Some st \/ (i = length (callers s) /\ st = Waiting)).
    { intros i st [?|[Hge Hx]]%lookup_app_Some; [by left | right].
      apply list_lookup_singleton_Some in Hx as [? <-]. split; [lia | done]. }
    split; simpl; [by destruct Hi | | | | | | by destruct Hi].
    + apply NoDup_app. split; [apply (inv_queue _ _ Hi) |]. split; [|apply NoDup_singleton].
      intros i Hin ->%list_elem_of_singleton. done.
    + intros i. rewrite elem_of_app, (inv_members _ _ Hi i), list_elem_of_singleton. split.
      * intros [(st & Hc & Ha)| ->].
        { exists st. split; [by apply lookup_app_l_Some | done]. }
        exists Waiting. split; [|by left]. rewrite lookup_app_r, Nat.sub_diag by done. done.
      * intros (st & [Hc|[-> _]]%Hlast & Ha); [left; eauto | by right].
    + intros i st [Hc|[_ ->]]%Hlast Hin; [|by destruct Hin].
      pose proof (inv_holder _ _ Hi _ _ Hc Hin) as Hh. by destruct (lock_queue s).
    + intros i st [Hc|[_ ->]]%Hlast; [|done]. exact (inv_stages _ _ Hi _ _ Hc).
    + intros i j st n m r [Hc|[_ ->]]%Hlast Hn [Hj|[_ ?]]%Hlast; try done.
      exact (inv_order _ _ Hi _ _ _ _ _ _ Hc Hn Hj).
  - by destruct Hi.
Qed.

Lemma rotation_inv_step self s s' : rotation_inv self s -> rotation_step s s' -> rotation_inv self s'.
Proof.
  intros Hi [l Hs]. destruct l as [disk| |i|i|i now|i e|i|i|i|].
  1, 2, 10: by eapply inv_environment.
  - by eapply inv_acquire.
  - by eapply inv_read.
  - by eapply inv_build.
  - simpl in Hs. destruct (callers s !! i) as [[|n seen| | | |]|] eqn:Hc; try done.
    by eapply inv_loaded; [done | exact Hc | | exact Hs].
  - by eapply inv_store.
  - by eapply inv_release.
  - by eapply inv_drop.
Qed.

Lemma rotation_inv_new self disk : rotation_inv self (rotation_new self disk).
Proof.
  split; simpl; try done; [constructor |]. intros i. split; [by intros ?%elem_of_nil | by intros (st & ? & _)].
Qed.

Lemma rotated_inv self disk s : steps rotation_step (rotation_new self disk) s -> rotation_inv self s.
Proof. apply steps_invariant; [apply rotation_inv_new | apply rotation_inv_step]. Qed.
(** ** What the steps keep *)

(** What no step changes, and what only grows. *)
Lemma rotate_grows l s s' :
  rotate l s = Some s' ->
  history s `prefix_of` history s' /\ effects s `prefix_of` effects s'
  /\ paths (reloader s') = paths (reloader s)
  /\ expected_identity (reloader s') = expected_identity (reloader s)
  /\ mux_enabled (reloader s') = mux_enabled (reloader s)
  /\ (handshakes s' = handshakes s
      \/ reloader s' = reloader s /\ effects s' = effects s
         /\ handshakes s' = handshakes s ++ [generation (reloader s)]).
Proof.
  intros Hs. destruct l as [disk| |i|i|i now|i e|i|i|i|]; simpl in Hs; unfold loaded in Hs;
    repeat first [step_match; try done | progress simplify_option_eq];
    simplify_eq; simpl; repeat split; eauto using prefix_app_r.
Qed.
Lemma built_since_grows l s s' n gen :
  rotate l s = Some s' -> built_since s n gen -> built_since s' n gen.
Proof.
  intros Hs (w & Hf & Hl). destruct (rotate_grows l s s' Hs) as (Hh & _ & Hp & Hi & Hm & _).
  exists w. rewrite Hp, Hi, Hm. split; [by eapply fresh_grows | done].
Qed.

Lemma returned_stays l s s' i n r :
  rotate l s = Some s' -> callers s !! i = Some (Returned n r) -> callers s' !! i = Some (Returned n r).
Proof.
  intros Hs Hc. assert (Hins : forall j st, callers s !! j = Some st -> st <> Returned n r ->
    forall st', <[j := st']> (callers s) !! i = Some (Returned n r)).
  { intros j st Hj Hne st'. rewrite list_lookup_insert_ne; [done |]. intros ->. congruence. }
  destruct l as [disk| |j|j|j now|j e|j|j|j|]; simpl in Hs; unfold loaded in Hs;
    repeat first [step_match; try done | progress simplify_option_eq]; simplify_eq; simpl; try done;
    first [by eapply Hins | by apply lookup_app_l_Some].
Qed.

(** When a call acquired the lock. *)
Definition since_of (st : Stage) : option nat :=
  match st with
  | Loading n _ | Loaded n _ _ | Releasing n _ | Returned n _ => Some n
  | Waiting | Dropped => None
  end.

(** A call that is not dropped goes on, and acquires the lock in the present. *)
Lemma call_goes_on l s s' i st :
  rotate l s = Some s' -> callers s !! i = Some st -> st <> Dropped -> l <> DropCaller i ->
  exists st', callers s' !! i = Some st' /\ st' <> Dropped
    /\ (since_of st' = since_of st \/ since_of st' = Some (present s)).
Proof.
  intros Hs Hc Hd Hl. assert (Hins : forall j x x', callers s !! j = Some x -> (j = i -> x' <> Dropped) ->
    since_of x' = since_of x \/ since_of x' = Some (present s) ->
    exists st', <[j := x']> (callers s) !! i = Some st' /\ st' <> Dropped
      /\ (since_of st' = since_of st \/ since_of st' = Some (present s))).
  { intros j x x' Hj Hx Hor. destruct (decide (j = i)) as [->|].
    - exists x'. rewrite list_lookup_insert_eq by (by eapply lookup_lt_Some). split; [done |].
      split; [by apply Hx |]. congruence.
    - exists st. rewrite list_lookup_insert_ne by done. by eauto. }
  destruct l as [disk| |j|j|j now|j e|j|j|j|]; simpl in Hs; unfold loaded in Hs;
    repeat first [step_match; try done | progress simplify_option_eq]; simplify_eq; simpl; try by eauto 6;
    first [ exists st; rewrite list_lookup_insert_ne by (by intros ->); by auto
          | eapply Hins; [eassumption | by intros -> | simpl; tauto]
          | exists st; split; [by apply lookup_app_l_Some | by auto] ].
Qed.

(** The handshakes begun from a state on, at which a call had returned. *)
Lemma begun_since self s s' i n k gen :
  rotation_inv self s -> callers s !! i = Some (Returned n (Ok tt)) -> steps rotation_step s s' ->
  length (handshakes s) <= k -> handshakes s' !! k = Some gen -> built_since s' n gen.
Proof.
  intros Hi Hc Hst Hk. revert gen.
  cut (rotation_inv self s' /\ callers s' !! i = Some (Returned n (Ok tt))
       /\ forall gen, handshakes s' !! k = Some gen -> built_since s' n gen); [naive_solver |].
  induction Hst as [s|s t u _ IH [l Hl]].
  - split; [done |]. split; [done |]. intros gen Hg%lookup_lt_Some. lia.
  - destruct (IH Hi Hc Hk) as (Hit & Hct & Hgt). split; [by eapply rotation_inv_step; [|exists l] |].
    split; [by eapply returned_stays |]. intros gen Hg. eapply built_since_grows; [exact Hl |].
    destruct (rotate_grows l t u Hl) as (_ & _ & _ & _ & _ & [E|(_ & _ & E)]); rewrite E in Hg; [by apply Hgt |].
    apply lookup_app_Some in Hg as [Hg|[_ Hg]]; [by apply Hgt |].
    apply list_lookup_singleton_Some in Hg as [_ <-].
    by destruct (inv_stages _ _ Hit _ _ Hct) as [_ Hcur]; apply Hcur.
Qed.

(** ** Progress *)

(** How many steps of its own a call still takes. *)
Definition remaining (st : Stage) : nat :=
  match st with
  | Waiting => 7
  | Loading _ seen => 6 - length seen
  | Loaded _ _ _ => 2
  | Releasing _ _ => 1
  | Returned _ _ | Dropped => 0
  end.
Definition work (s : Rotation) : nat := sum_list_with remaining (callers s).

(** The steps of the calls, as opposed to those of whoever makes calls, writes
    files or begins handshakes. *)
Definition of_a_call (l : Label) : bool :=
  match l with Change _ | CallReload | BeginHandshake => false | _ => true end.

Lemma work_decreases self l s s' :
  rotation_inv self s -> of_a_call l = true -> rotate l s = Some s' -> work s' < work s.
Proof.
  intros Hi Hl Hs. assert (Hmove : forall i st st', callers s !! i = Some st -> remaining st' < remaining st ->
    sum_list_with remaining (<[i := st']> (callers s)) < work s).
  { intros i st st' Hc Hlt. pose proof (sum_insert remaining _ i st st' Hc). unfold work. lia. }
  assert (Hlen : forall i n seen, callers s !! i = Some (Loading n seen) -> length seen <= 3).
  { intros i n seen Hc. by destruct (inv_stages _ _ Hi _ _ Hc) as (_ & ? & _). }
  destruct l as [disk| |i|i|i now|i e|i|i|i|]; try done; simpl in Hs; unfold loaded in Hs;
    repeat first [step_match; try done | progress simplify_option_eq]; simplify_eq; bool_props;
    (eapply Hmove; [eassumption |]); simpl; rewrite ?length_app; simpl;
    try match goal with H : _ !! _ = Some (Loading _ _) |- _ => apply Hlen in H; simpl in H end; lia.
Qed.

Lemma load_total w self : parser_utf8 parse_x509 ->
  is_Some (load_gen w (paths self) (expected_identity self) (mux_enabled self)).
Proof.
  intros Hp. unfold load_generation. destruct (join_error w); [by eexists |]. by apply build_generation_total.
Qed.

(** The holder of the lock, or the first in the queue for it, can act. *)
Lemma head_acts self s i :
  parser_utf8 parse_x509 -> rotation_inv self s -> head (lock_queue s) = Some i ->
  exists l s', of_a_call l = true /\ (forall j, l <> DropCaller j) /\ rotate l s = Some s'.
Proof.
  intros Hp Hi Hh. assert (Hin : i ∈ lock_queue s).
  { destruct (lock_queue s); [done |]. injection Hh as ->. by left. }
  apply (inv_members _ _ Hi) in Hin as (st & Hc & Ha).
  pose proof (inv_stages _ _ Hi _ _ Hc) as Hok.
  destruct st as [|n seen|n w r|n r|n r|]; [| | | |by destruct Ha as [|[]]..].
  - exists (Acquire i). simpl. rewrite Hc, bool_decide_true by done. by eexists.
  - destruct Hok as (Hn & Hl & Hseen). destruct (decide (length seen < 3)) as [Hlt|Hge].
    + exists (ReadNext i). simpl. rewrite Hc. apply Nat.ltb_lt in Hlt. rewrite Hlt. by eexists.
    + exists (Build i 0). simpl. rewrite Hc. destruct seen as [|a [|b [|c [|]]]]; simpl in *; try lia.
      assert (Hlook : forall k x, [a; b; c] !! k = Some x -> is_Some (history s !! x)).
      { intros k x Hk. destruct (Hseen k x Hk) as [Hx _]. apply lookup_lt_is_Some.
        pose proof (inv_history _ _ Hi). unfold present in Hx. destruct (history s); [done | simpl in *; lia]. }
      destruct (Hlook 0 a eq_refl) as [f0 ->], (Hlook 1 b eq_refl) as [f1 ->], (Hlook 2 c eq_refl) as [f2 ->].
      simpl. unfold loaded. destruct (load_total (reads f0 f1 f2 0) (reloader s) Hp) as [r ->]. by eexists.
  - exists (Store i). simpl. rewrite Hc. destruct r; by eexists.
  - exists (ReleaseLock i). simpl. rewrite Hc. by eexists.
Qed.
(** ** The order of the effects *)

(** What a call has reported, or is about to. *)
Definition outcome (st : Stage) : option (result unit InterlinkError) :=
  match st with Releasing _ r | Returned _ r => Some r | _ => None end.

(** Every effect is that of one call, and is reported to it. *)
Definition results_agree (s : Rotation) : Prop :=
  forall r, count (fun e => bool_decide (e.2 = r)) (effects s)
            = count (fun st => bool_decide (outcome st = Some r)) (callers s).

Lemma results_agree_step l s s' : results_agree s -> rotate l s = Some s' -> results_agree s'.
Proof.
  intros Ha Hs r. specialize (Ha r).
  pose proof (fun i x y => count_insert (fun st => bool_decide (outcome st = Some r)) (callers s) i x y) as Hins.
  destruct l as [disk| |i|i|i now|i e|i|i|i|]; simpl in Hs; unfold loaded in Hs;
    repeat first [step_match; try done | progress simplify_option_eq]; simplify_eq; simpl; try done;
    rewrite ?count_app; simpl;
    try (match goal with H : callers s !! ?i = Some ?x |- context [<[?i := ?y]> _] => specialize (Hins i x y H) end;
         simpl in Hins; rewrite ?(bool_decide_ext (Some _ = Some _) _ (inj_iff Some _ _)) in Hins);
    repeat case_bool_decide; try done; try lia.
Qed.

(** A handshake has loaded the generation of some moment between two effects. *)
Definition handshakes_agree (self : TlsCredentialReloader) (s : Rotation) : Prop :=
  forall gen, gen ∈ handshakes s ->
    exists es r, es `prefix_of` effects s /\ reload_all es self = Some r /\ generation r = gen.

Lemma handshakes_agree_step self l s s' :
  rotation_inv self s -> handshakes_agree self s -> rotate l s = Some s' -> handshakes_agree self s'.
Proof.
  intros Hi Ha Hs. destruct (rotate_grows l s s' Hs) as (_ & Hpre & _ & _ & _ & E).
  assert (Hold : forall gen, gen ∈ handshakes s ->
    exists es r, es `prefix_of` effects s' /\ reload_all es self = Some r /\ generation r = gen).
  { intros gen (es & r & Hes & Hr)%Ha. exists es, r. split; [by etrans | done]. }
  intros gen Hg. destruct E as [E|(_ & Ee & E)]; rewrite E in Hg; [by apply Hold |].
  apply elem_of_app in Hg as [Hg|Hg%list_elem_of_singleton]; [by apply Hold |].
  exists (effects s), (reloader s). rewrite Ee. split; [done |]. split; [apply (inv_effects _ _ Hi) | done].
Qed.

(** The loads one after the other: the reads of each found file systems that are not
    older than any that the ones before it have read. *)
Fixpoint in_turn (h : list Disk) (lo : nat) (ws : list World) (hi : nat) : Prop :=
  match ws with
  | [] => lo <= hi
  | w :: rest => exists mid, lo <= mid
      /\ (join_error w = None ->
          exists a b c f0 f1 f2, lo <= a /\ a <= b /\ b <= c /\ c <= mid
            /\ h !! a = Some f0 /\ h !! b = Some f1 /\ h !! c = Some f2 /\ w = reads f0 f1 f2 (unix_now w))
      /\ in_turn h mid rest hi
  end.

Lemma in_turn_grows h h' ws : forall lo hi, h `prefix_of` h' -> in_turn h lo ws hi -> in_turn h' lo ws hi.
Proof.
  induction ws as [|w ws IH]; intros lo hi Hp; simpl; [done |]. intros (mid & Hm & Hw & Hr).
  exists mid. split; [done |]. split; [|by apply IH]. intros Hj.
  destruct (Hw Hj) as (a & b & c & f0 & f1 & f2 & ? & ? & ? & ? & Ha & Hb & Hc & E). exists a, b, c, f0, f1, f2.
  repeat (split; [first [done | by eapply prefix_lookup_Some] |]). done.
Qed.

Lemma in_turn_later h ws hi hi' : forall lo, in_turn h lo ws hi -> hi <= hi' -> in_turn h lo ws hi'.
Proof.
  induction ws as [|w ws IH]; intros lo; simpl; [lia |]. intros (mid & ? & ? & ?) Hle. exists mid. auto.
Qed.

Lemma in_turn_snoc h ws w lo mid n hi :
  in_turn h lo ws mid -> mid <= n -> n <= hi ->
  (join_error w = None ->
   exists a b c f0 f1 f2, n <= a /\ a <= b /\ b <= c /\ c <= hi
     /\ h !! a = Some f0 /\ h !! b = Some f1 /\ h !! c = Some f2 /\ w = reads f0 f1 f2 (unix_now w)) ->
  in_turn h lo (ws ++ [w]) hi.
Proof.
  revert lo. induction ws as [|x ws IH]; intros lo; simpl.
  - intros Hlo Hn Hhi Hw. exists hi. split; [lia |]. split; [|done]. intros Hj.
    destruct (Hw Hj) as (a & b & c & f0 & f1 & f2 & ? & ?). exists a, b, c, f0, f1, f2. split; [lia | done].
  - intros (m & Hm & Hx & Hr) Hn Hhi Hw. exists m. split; [done |]. split; [done |]. by apply IH.
Qed.

(** A load in progress began after all the effects so far. *)
Definition loading_since (st : Stage) : option nat :=
  match st with Loading n _ | Loaded n _ _ => Some n | _ => None end.
Definition serialized (s : Rotation) : Prop :=
  exists hi, hi <= present s /\ in_turn (history s) 0 (map fst (effects s)) hi
    /\ forall i st n, callers s !! i = Some st -> loading_since st = Some n -> hi <= n.

(** A step without an effect: a load that goes on began when it did, one that begins
    begins now. *)
Lemma serialized_quiet s s' :
  serialized s -> history s `prefix_of` history s' -> effects s' = effects s ->
  (forall i st n, callers s' !! i = Some st -> loading_since st = Some n ->
     n = present s \/ exists st0, callers s !! i = Some st0 /\ loading_since st0 = Some n) ->
  serialized s'.
Proof.
  intros (hi & Hhi & Hser & Hl) Hp He Hc. exists hi. rewrite He. split.
  { apply prefix_length in Hp. unfold present in *. lia. }
  split; [by eapply in_turn_grows |]. intros i st n Hi Hn.
  destruct (Hc i st n Hi Hn) as [->|(st0 & H0 & Hn0)]; [done | by eapply Hl].
Qed.

(** The lock keeps the loads apart: none is in progress while another takes effect. *)
Lemma serialized_effect self s s' i n w r x st :
  rotation_inv self s -> serialized s -> callers s !! i = Some (Loaded n w r) -> loading_since st = None ->
  history s' = history s -> effects s' = effects s ++ [(w, x)] -> callers s' = <[i := st]> (callers s) ->
  serialized s'.
Proof.
  intros Hi (hi & Hhi & Hser & Hl) Hc Hst Eh Ee Ec. pose proof (inv_stages _ _ Hi _ _ Hc) as (Hn & Hf & _).
  exists (present s). unfold present. rewrite Eh. split; [done |]. split.
  - rewrite Ee, map_app. simpl. eapply in_turn_snoc; [exact Hser | by eapply Hl | exact Hn |]. intros Hj.
    destruct (Hf Hj) as (a & b & c & f0 & f1 & f2 & ? & ? & ? & Ha & Hb & H2 & E). exists a, b, c, f0, f1, f2.
    pose proof (lookup_lt_Some _ _ _ H2). repeat (split; [first [done | lia] |]). done.
  - intros j stj m Hj Hm. rewrite Ec in Hj. at_caller Hj.
    assert (i = j); [|congruence]. eapply (inside_unique self s); [done | done | by eexists | done |].
    destruct stj; try done; by eexists.
Qed.

Lemma serialized_step self l s s' :
  rotation_inv self s -> serialized s -> rotate l s = Some s' -> serialized s'.
Proof.
  intros Hi Hser Hs. pose proof (rotate_grows l s s' Hs) as (Hp & _).
  destruct l as [disk| |i|i|i now|i e|i|i|i|]; simpl in Hs; unfold loaded in Hs;
    repeat first [step_match; try done | progress simplify_option_eq]; simplify_eq;
    try (by eapply (serialized_effect self s _ i); [done | done | eassumption | | done | done | done]);
    (apply (serialized_quiet s); [done | done | done |]; intros j st m Hj Hn; simpl in Hj;
     try (apply list_lookup_insert_Some in Hj as [(<- & <- & _)|[_ Hj]]); simplify_eq/=; eauto).
  apply lookup_app_Some in Hj as [Hj|[_ Hj]]; [eauto |].
  apply list_lookup_singleton_Some in Hj as [_ <-]. done.
Qed.

Lemma rotation_agree self disk s :
  steps rotation_step (rotation_new self disk) s -> results_agree s /\ handshakes_agree self s /\ serialized s.
Proof.
  intros Hs. cut (rotation_inv self s /\ results_agree s /\ handshakes_agree self s /\ serialized s); [tauto |].
  eapply (steps_invariant rotation_step
    (fun s => rotation_inv self s /\ results_agree s /\ handshakes_agree self s /\ serialized s)); [| |exact Hs].
  - split; [apply rotation_inv_new |]. split; [done |]. split; [by intros gen ?%elem_of_nil |].
    exists 0. split; [simpl; lia |]. split; [simpl; lia |]. by intros i st n.
  - intros a b (Hi & Hr & Hh & Hser) [l Hl]. split; [by eapply rotation_inv_step; [|exists l] |].
    split; [by eapply results_agree_step |]. split; [by eapply handshakes_agree_step | by eapply serialized_step].
Qed.

Lemma reload_all_steps es self r :
  reload_all es self = Some r ->
  steps (reload_step path_display io_display pem_certs pem_private_key server_name_try_from parse_x509
    root_add client_auth_cert single_cert client_verifier parsed_certificate signed_by_trust_anchor) self r.
Proof.
  revert self. induction es as [|[w x] es IH]; intros self; simpl; [intros [= ->]; constructor |].
  destruct (do_reload w self) as [[y self']|] eqn:E; [|done]. case_bool_decide; [|done]. intros Hr.
  eapply steps_trans; [apply steps_one; by econstructor | by apply IH].
Qed.

(** The generations that handshakes can have loaded. *)
Definition served_by (self : TlsCredentialReloader) (gen : TlsGeneration) : Prop :=
  exists disk s, steps rotation_step (rotation_new self disk) s /\ gen ∈ handshakes s.

(** The first handshake may come before any reload. *)
Lemma served_first self : served_by self (generation self).
Proof.
  exists (fun _ => Ok []). eexists. split; [apply steps_one; by exists BeginHandshake |]. by left.
Qed.

(** Each of them is the generation of some sequence of whole reloads. *)
Lemma served_reloaded self gen :
  served_by self gen ->
  exists r, steps (reload_step path_display io_display pem_certs pem_private_key server_name_try_from
    parse_x509 root_add client_auth_cert single_cert client_verifier parsed_certificate
    signed_by_trust_anchor) self r /\ generation r = gen.
Proof.
  intros (disk & s & Hs & Hg). destruct (rotation_agree self disk s Hs) as (_ & Hh & _).
  destruct (Hh gen Hg) as (es & r & _ & Hr & <-). exists r. split; [by eapply reload_all_steps | done].
Qed.

(** ** Properties *)

(** C15: concurrent reloads behave as reloads one at a time: whatever calls of
    [reload] wait, load, are dropped or return, however the files change under
    their reads and whichever handshakes run, there is one order of the loads
    that took effect such that running [reload] in this order, each to its end,
    gives the same results, one for each call that has finished, and the same
    reloader; every handshake uses the generation after a prefix of it; and the
    order is one in which the loads can have run one at a time: the three reads of
    each found the files as they were at moments (in the order of the reads) none
    of which precedes a read of an earlier load, so credentials never go back to
    files older than those read before. *)
Theorem rotation_linearizable self disk s :
  steps rotation_step (rotation_new self disk) s ->
  reload_all (effects s) self = Some (reloader s)
  /\ (forall r, count (fun e => bool_decide (e.2 = r)) (effects s)
               = count (fun st => bool_decide (outcome st = Some r)) (callers s))
  /\ (forall gen, gen ∈ handshakes s ->
       exists es r, es `prefix_of` effects s /\ reload_all es self = Some r /\ generation r = gen)
  /\ in_turn (history s) 0 (map fst (effects s)) (present s).
Proof.
  intros Hs. split; [apply (inv_effects self s), (rotated_inv self disk s Hs) |].
  destruct (rotation_agree self disk s Hs) as (Hr & Hh & hi & Hhi & Hser & _).
  split; [done |]. split; [done |]. by eapply in_turn_later.
Qed.

(** A reload that has reported success is in effect and is not undone: every
    handshake begun after it uses credentials whose three files were read after
    this reload had acquired the lock, never older ones, whichever reloads ran
    at the same time; if the files have not changed since, exactly theirs. *)
Theorem reload_takes_effect self disk s s' i n k gen :
  steps rotation_step (rotation_new self disk) s ->
  callers s !! i = Some (Returned n (Ok tt)) ->
  steps rotation_step s s' ->
  length (handshakes s) <= k -> handshakes s' !! k = Some gen ->
  exists a b c f0 f1 f2 now, n <= a /\ a <= b /\ b <= c
    /\ history s' !! a = Some f0 /\ history s' !! b = Some f1 /\ history s' !! c = Some f2
    /\ build_gen (fs_read (reads f0 f1 f2 now)) now (paths (reloader s')) (expected_identity (reloader s'))
         (mux_enabled (reloader s')) = Some (Ok gen)
    /\ (present s' = n -> f0 = f1 /\ f1 = f2).
Proof.
  intros Hs Hc Hs' Hk Hg. pose proof (rotated_inv self disk s Hs) as Hi.
  destruct (begun_since self s s' i n k gen Hi Hc Hs' Hk Hg) as (w & Hf & Hl).
  unfold load_generation in Hl. destruct (join_error w) eqn:Hj; [done |].
  destruct (Hf Hj) as (a & b & c & f0 & f1 & f2 & ? & ? & ? & H0 & H1 & H2 & Hw).
  exists a, b, c, f0, f1, f2, (unix_now w). repeat (split; [done |]). split.
  { rewrite Hw in Hl. exact Hl. }
  unfold present. intros Hn. pose proof (lookup_lt_Some _ _ _ H2).
  assert (a = c) as -> by lia. assert (b = c) as -> by lia. split; congruence.
Qed.

(** Calls of [reload] do not deadlock and all come to an end, whatever the
    files hold: each step a call takes brings the whole closer to the end, by a
    measure of at most 7 per call, and as long as a call has neither returned nor
    been dropped, some call can take a step. *)
Theorem reloads_return self disk s :
  parser_utf8 parse_x509 -> steps rotation_step (rotation_new self disk) s ->
  work s <= 7 * length (callers s)
  /\ (forall l s', of_a_call l = true -> rotate l s = Some s' -> work s' < work s)
  /\ ((exists i st, callers s !! i = Some st /\ active st) ->
      exists l s', of_a_call l = true /\ rotate l s = Some s').
Proof.
  intros Hp Hs. pose proof (rotated_inv self disk s Hs) as Hi. split; [|split].
  - unfold work. induction (callers s) as [|st l IH]; simpl; [done |].
    destruct st as [|? seen| | | |]; simpl; lia.
  - intros l s' Hl Hr. by eapply work_decreases.
  - intros (i & st & Hc & Ha). assert (Hin : i ∈ lock_queue s) by (apply (inv_members _ _ Hi); eauto).
    destruct (head (lock_queue s)) as [j|] eqn:Hh; [destruct (head_acts self s j Hp Hi Hh) as (l & s' & ? & _ & ?); by eauto |].
    destruct (lock_queue s); [by apply elem_of_nil in Hin | done].
Qed.
End Rotation.

(** Two reloads, files that change while the first one reads, and handshakes
    before and after, with libraries that accept everything. *)
Module RotationDemo.
Definition disk (_ : str) : result str IoError := Ok (bs "der").
Definition newer (_ : str) : result str IoError := Ok (bs "new").
Abbreviation run := (run_labels (rotate id (fun _ => []) (fun _ => Ok []) (fun _ => Ok None) Ok Demo.parse
  (fun _ => Ok tt) (fun _ _ => Ok tt) (fun _ _ => Ok tt) (fun _ => Ok tt) (fun _ => Ok tt)
  (fun _ _ _ _ => Ok tt))).
Definition first : Rotation := rotation_new ReloadDemo.initial disk.
Definition reloaded : Rotation :=
  default first (run [CallReload; CallReload; Acquire 0; BeginHandshake; ReadNext 0; Change newer;
    ReadNext 0; ReadNext 0; Build 0 5; Store 0; ReleaseLock 0] first).
Definition after : Rotation :=
  default first (run [Acquire 1; BeginHandshake; JoinFails 1 (bs "cancelled"); Store 1] reloaded).

Lemma first_reloaded :
  run [CallReload; CallReload; Acquire 0; BeginHandshake; ReadNext 0; Change newer;
    ReadNext 0; ReadNext 0; Build 0 5; Store 0; ReleaseLock 0] first = Some reloaded.
Proof. vm_compute. reflexivity. Qed.
Lemma reloaded_after :
  run [Acquire 1; BeginHandshake; JoinFails 1 (bs "cancelled"); Store 1] reloaded = Some after.
Proof. vm_compute. reflexivity. Qed.

Lemma rotation_linearizable_witness :
  in_turn (history after) 0 (map fst (effects after)) (present after)
  /\ length (effects after) = 2 /\ length (handshakes after) = 2.
Proof.
  destruct (rotation_linearizable id (fun _ => []) (fun _ => Ok []) (fun _ => Ok None) Ok Demo.parse
    (fun _ => Ok tt) (fun _ _ => Ok tt) (fun _ _ => Ok tt) (fun _ => Ok tt) (fun _ => Ok tt)
    (fun _ _ _ _ => Ok tt) ReloadDemo.initial disk after) as (_ & _ & _ & Ht);
    [|split; [exact Ht | split; vm_compute; reflexivity]].
  exact (steps_trans _ _ _ _ (run_labels_steps _ _ _ _ first_reloaded)
    (run_labels_steps _ _ _ _ reloaded_after)).
Defined.

Lemma reload_takes_effect_witness :
  exists a b c : nat, 0 <= a /\ a <= b /\ b <= c /\ is_Some (history after !! a).
Proof.
  destruct (reload_takes_effect id (fun _ => []) (fun _ => Ok []) (fun _ => Ok None) Ok Demo.parse
    (fun _ => Ok tt) (fun _ _ => Ok tt) (fun _ _ => Ok tt) (fun _ => Ok tt) (fun _ => Ok tt)
    (fun _ _ _ _ => Ok tt) ReloadDemo.initial disk reloaded after 0 0 1
    (generation (reloader after))) as (a & b & c & f0 & f1 & f2 & now & Ha & Hb & Hc & H0 & _);
    [exact (run_labels_steps _ _ _ _ first_reloaded)
    | vm_compute; reflexivity
    | exact (run_labels_steps _ _ _ _ reloaded_after)
    | vm_compute; lia | vm_compute; reflexivity |].
  exists a, b, c. rewrite H0. repeat (split; [assumption |]). by eexists.
Defined.

Lemma reloads_return_witness : work reloaded <= 7 * length (callers reloaded).
Proof.
  exact (proj1 (reloads_return id (fun _ => []) (fun _ => Ok []) (fun _ => Ok None) Ok Demo.parse
    (fun _ => Ok tt) (fun _ _ => Ok tt) (fun _ _ => Ok tt) (fun _ => Ok tt) (fun _ => Ok tt)
    (fun _ _ _ _ => Ok tt) ReloadDemo.initial disk reloaded Demo.parse_utf8
    (run_labels_steps _ _ _ _ first_reloaded))).
Defined.
End RotationDemo.
