(* ===== verification/Bootstrap.v ===== *)
(** * The demonstration credentials ([examples/ca_bootstrap.rs])

    The program that creates a certificate authority and writes the credentials
    of two services, in DER and in PEM, into the directory that the proxy reads
    by default.  The certificate generator, the base64 encoder and the operating
    system are parameters. *)

From S2P Require Import Prelude Bytes Text Common Glob Identity Policy Net Metrics ProxyBase.
From S2P Require Import ConfigLoad Process Handshake Provider CertAuthority Reload.

Set Default Proof Using "Type".

Definition TRUST_DOMAIN : str := bs "example.local".

(** The files written so far. *)
Abbreviation Files := (gmap (list Ascii.ascii) (list Ascii.ascii)) (only parsing).

Definition demo_dir (e : env) : str := path_join (temp_dir e) (bs "interlink-demo").

(** ** PEM *)

Section Pem.
(** The standard base64 encoder. *)
Context (base64 : str -> str).

(** The loop over the chunks: each is a string, and a line. *)
Fixpoint pem_body (cs : list str) : eval str :=
  match cs with
  | [] => Some []
  | c :: rest =>
      line ← unwrap (from_utf8 c);
      body ← pem_body rest;
      Some (line ++ [newline] ++ body)
  end.

Definition der_to_pem (label d : str) : eval str :=
  body ← pem_body (chunks 64 (base64 d));
  Some (bs "-----BEGIN " ++ label ++ bs "-----" ++ [newline] ++ body
        ++ bs "-----END " ++ label ++ bs "-----" ++ [newline]).

(** The encoder yields letters, digits, [+], [/] and [=]. *)
Definition base64_alphabet : Prop := forall d, token (base64 d).

(** The textual encoding of RFC 7468: a begin line, the base64 text in lines
    of at most 64 characters, and an end line. *)
Definition textual (label d s : str) : Prop :=
  exists body,
    lines s = (bs "-----BEGIN " ++ label ++ bs "-----") :: body ++ [bs "-----END " ++ label ++ bs "-----"]
    /\ concat body = base64 d
    /\ Forall (fun l => l <> [] /\ length l <= 64) body.

Lemma token_line s : token s -> newline ∉ s /\ last s <> Some carriage_return.
Proof.
  intros [Hc Hn]%token_no_break. split; [done |]. intros [r ->]%last_Some. apply Hc.
  rewrite elem_of_app, list_elem_of_singleton. by right.
Qed.

Lemma pem_body_lines cs rest :
  Forall token cs ->
  exists body, pem_body cs = Some body /\ lines (body ++ rest) = cs ++ lines rest.
Proof.
  induction 1 as [|c cs Hc _ IH]; simpl; [by exists [] |].
  destruct IH as (body & -> & Hl). rewrite valid_ascii by by apply token_ascii. simpl.
  eexists; split; [reflexivity |]. rewrite <- app_assoc. cbn [app].
  destruct (token_line c Hc). by rewrite lines_lf, Hl.
Qed.

Lemma chunks_tokens n t : 0 < n -> token t -> Forall token (chunks n t).
Proof.
  intros Hn Ht. apply Forall_forall. intros c Hc%list_elem_of_In. apply forallb_forall. intros b Hb.
  unfold token in Ht. rewrite forallb_forall in Ht. apply Ht.
  rewrite <- (chunks_concat n t) by done. apply in_concat. by exists c.
Qed.

(** The labels used are printable, with spaces. *)
Definition label_ok (label : str) : Prop := newline ∉ label.

Lemma der_to_pem_textual label d :
  base64_alphabet -> label_ok label ->
  exists pem, der_to_pem label d = Some pem /\ textual label d pem /\ contains_pem_header pem = true.
Proof.
  intros Hb Hl. unfold der_to_pem.
  destruct (pem_body_lines (chunks 64 (base64 d))
    (bs "-----END " ++ label ++ bs "-----" ++ [newline])) as (body & -> & Hlines);
    [apply chunks_tokens; [lia | apply Hb] |].
  assert (Hline : forall head rest, newline ∉ head ->
    lines (head ++ label ++ bs "-----" ++ newline :: rest) = (head ++ label ++ bs "-----") :: lines rest).
  { intros head rest Hh. rewrite !app_assoc. apply lines_lf.
    - rewrite !not_elem_of_app. repeat split; [done | done | by apply (bool_decide_unpack _)].
    - rewrite last_app. done. }
  simpl. eexists. split; [reflexivity |]. split.
  - exists (chunks 64 (base64 d)). split; [| split].
    + change (lines _) with (lines (bs "-----BEGIN " ++ label ++ bs "-----" ++ newline :: body
        ++ bs "-----END " ++ label ++ bs "-----" ++ [newline])).
      rewrite Hline by by apply (bool_decide_unpack _). rewrite Hlines, Hline; [done |].
      by apply (bool_decide_unpack _).
    + by apply chunks_concat; lia.
    + apply Forall_forall. intros c Hc. by apply chunks_size in Hc; [| lia].
  - apply str_contains_spec. by exists [], (label ++ bs "-----" ++ [newline] ++ body
        ++ bs "-----END " ++ label ++ bs "-----" ++ [newline]).
Qed.
End Pem.

(** ** The program *)

Section Bootstrap.
(** The generator, as in [CertAuthority]; the [n]-th key, random string and
    reading of the clock. *)
Context {KeyPair Certificate : Type}.
Context (keygen : nat -> result KeyPair str).
Context (self_signed : CertificateParams -> KeyPair -> result Certificate str).
Context (signed_by : CertificateParams -> KeyPair -> Certificate -> KeyPair -> result Certificate str).
Context (der : Certificate -> str) (serialize_der : KeyPair -> str).
Context (ia5_string : str -> result str str).
Context (rng : nat -> nat -> result str str).
Context (clock : nat -> Z).
Context (base64 : str -> str).
(** What [create_dir_all] and [fs::write] report. *)
Context (create_dir_all : str -> result unit IoError) (fs_write : str -> result unit IoError).

Definition write (path bytes : str) (files : Files) : eval Files :=
  _ ← unwrap (fs_write path);
  Some (<[path := bytes]> files).

Definition issue (ca : @CertificateAuthority KeyPair Certificate) (n : nat) (id : SpiffeId)
    (names : list str) : eval (str * str) :=
  unwrap (issue_leaf_with_key (keygen n) signed_by der serialize_der ia5_string (rng n) ca id names (clock n)).

(** [main], apart from what it prints. *)
Definition bootstrap (e : env) (files : Files) : eval Files :=
  let out := demo_dir e in
  let file name := path_join out name in
  _ ← unwrap (create_dir_all out);
  ca ← unwrap (ca_new (keygen 0) self_signed der TRUST_DOMAIN (clock 0));
  files ← write (file (bs "ca.der")) (root_cert_der ca) files;
  server_id ← unwrap (Id.try_new TRUST_DOMAIN (bs "default") (bs "backend"));
  '(server_cert, server_key) ←
    issue ca 1 server_id [bs "localhost"; bs "127.0.0.1"; bs "backend.example.local"];
  files ← write (file (bs "server.der")) server_cert files;
  files ← write (file (bs "server.key")) server_key files;
  client_id ← unwrap (Id.try_new TRUST_DOMAIN (bs "default") (bs "frontend"));
  '(client_cert, client_key) ←
    issue ca 2 client_id [bs "localhost"; bs "127.0.0.1"; bs "frontend.example.local"];
  files ← write (file (bs "client.der")) client_cert files;
  files ← write (file (bs "client.key")) client_key files;
  pem ← der_to_pem base64 (bs "CERTIFICATE") (root_cert_der ca);
  files ← write (file (bs "ca.pem")) pem files;
  pem ← der_to_pem base64 (bs "CERTIFICATE") server_cert;
  files ← write (file (bs "server.pem")) pem files;
  pem ← der_to_pem base64 (bs "PRIVATE KEY") server_key;
  files ← write (file (bs "server-key.pem")) pem files;
  pem ← der_to_pem base64 (bs "CERTIFICATE") client_cert;
  files ← write (file (bs "client.pem")) pem files;
  pem ← der_to_pem base64 (bs "PRIVATE KEY") client_key;
  write (file (bs "client-key.pem")) pem files.

(** ** What the files hold *)

Definition backend_id : SpiffeId := MkSpiffeId TRUST_DOMAIN (bs "default") (bs "backend").
Definition frontend_id : SpiffeId := MkSpiffeId TRUST_DOMAIN (bs "default") (bs "frontend").

Lemma path_join_inj dir a b : path_join dir a = path_join dir b -> a = b.
Proof.
  unfold path_join. destruct (last dir); [|done].
  case_bool_decide; intros Heq%app_inv_head; [done | by injection Heq].
Qed.

Definition server_names : list str := [bs "localhost"; bs "127.0.0.1"; bs "backend.example.local"].
Definition client_names : list str := [bs "localhost"; bs "127.0.0.1"; bs "frontend.example.local"].

(** A file in both encodings. *)
Definition in_both (e : env) (files : Files) (file pem_file label content : str) : Prop :=
  files !! path_join (demo_dir e) file = Some content
  /\ exists pem, der_to_pem base64 label content = Some pem
       /\ files !! path_join (demo_dir e) pem_file = Some pem.

Record written (e : env) (files : Files) (ca : @CertificateAuthority KeyPair Certificate)
    (server client : str * str) : Prop := {
  written_ca : in_both e files (bs "ca.der") (bs "ca.pem") (bs "CERTIFICATE") (root_cert_der ca);
  written_server : in_both e files (bs "server.der") (bs "server.pem") (bs "CERTIFICATE") server.1;
  written_server_key : in_both e files (bs "server.key") (bs "server-key.pem") (bs "PRIVATE KEY") server.2;
  written_client : in_both e files (bs "client.der") (bs "client.pem") (bs "CERTIFICATE") client.1;
  written_client_key : in_both e files (bs "client.key") (bs "client-key.pem") (bs "PRIVATE KEY") client.2;
}.

Lemma unwrap_Some {A E} (r : result A E) a : unwrap r = Some a -> r = Ok a.
Proof. destruct r; [by intros [= ->] | done]. Qed.

Lemma write_Some path bytes files files' :
  write path bytes files = Some files' -> files' = <[path := bytes]> files.
Proof. unfold write. destruct (fs_write path); simpl; [by intros [= <-] | done]. Qed.

Ltac find_file :=
  repeat first [ rewrite lookup_insert_eq; reflexivity
               | rewrite lookup_insert_ne by (intros ?%path_join_inj; discriminate) ].

Lemma bootstrap_written e files files' :
  bootstrap e files = Some files' ->
  exists ca server client,
    ca_new (keygen 0) self_signed der TRUST_DOMAIN (clock 0) = Ok ca
    /\ issue ca 1 backend_id server_names = Some server
    /\ issue ca 2 frontend_id client_names = Some client
    /\ written e files' ca server client.
Proof.
  unfold bootstrap. intros H.
  apply bind_Some in H as (u & _ & H). apply bind_Some in H as (ca & Eca%unwrap_Some & H).
  apply bind_Some in H as (f1 & ->%write_Some & H).
  apply bind_Some in H as (bid & Hid & H).
  change (Some backend_id = Some bid) in Hid. injection Hid as <-.
  apply bind_Some in H as ([sc sk] & Es & H).
  apply bind_Some in H as (f2 & ->%write_Some & H). apply bind_Some in H as (f3 & ->%write_Some & H).
  apply bind_Some in H as (fid & Hid & H).
  change (Some frontend_id = Some fid) in Hid. injection Hid as <-.
  apply bind_Some in H as ([cc ck] & Ec & H).
  apply bind_Some in H as (f4 & ->%write_Some & H). apply bind_Some in H as (f5 & ->%write_Some & H).
  apply bind_Some in H as (p1 & P1 & H). apply bind_Some in H as (f6 & ->%write_Some & H).
  apply bind_Some in H as (p2 & P2 & H). apply bind_Some in H as (f7 & ->%write_Some & H).
  apply bind_Some in H as (p3 & P3 & H). apply bind_Some in H as (f8 & ->%write_Some & H).
  apply bind_Some in H as (p4 & P4 & H). apply bind_Some in H as (f9 & ->%write_Some & H).
  apply bind_Some in H as (p5 & P5 & H). apply write_Some in H as ->.
  exists ca, (sc, sk), (cc, ck). do 3 (split; [done |]).
  split; (split; [find_file | eexists; split; [eassumption | find_file]]).
Qed.

(** ** Loading what was written *)

Section Load.
(** The file system's error for a missing file, and the parameters of [Reload]. *)
Context (path_display : str -> str) (io_display : IoError -> str).
Context (pem_certs : str -> result (list str) IoError).
Context (pem_private_key : str -> result (option PrivateKeyDer) IoError).
Context (server_name_try_from : str -> result str str).
Context (parse_x509 : str -> result (list X509Extension) str).
Context (root_add : str -> result unit TlsError).
Context (client_auth_cert : list str -> PrivateKeyDer -> result unit TlsError).
Context (single_cert : list str -> PrivateKeyDer -> result unit TlsError).
Context (client_verifier : list str -> result unit str).
Context (parsed_certificate : str -> result unit TlsError).
Context (signed_by_trust_anchor : list str -> str -> list str -> N -> result unit TlsError).

(** A certificate of an end entity that has names: not a CA, which the verifier
    refuses as the end of a chain. *)
Definition end_entity (ps : CertificateParams) : Prop := is_ca ps = ExplicitNoCa /\ subject_alt_names ps <> [].

(** The generator writes certificates the TLS library reads: the names are
    those asked for, a leaf signed by a CA that signed itself chains to it while
    both are valid, its key fits it; and the PEM decoder reads the textual
    encoding. *)
Record libraries_agree : Prop := {
  agree_ia5 : ia5_spec ia5_string;
  agree_names : names_read_back signed_by der parse_x509;
  agree_parsed params k c rk cert : end_entity params -> signed_by params k c rk = Ok cert ->
    parsed_certificate (der cert) = Ok tt;
  agree_chain rps rk root ps k cert now :
    is_ca rps = CaUnconstrained -> KeyCertSign ∈ key_usages rps -> self_signed rps rk = Ok root ->
    end_entity ps -> ServerAuth ∈ extended_key_usages ps -> signed_by ps k root rk = Ok cert ->
    (not_before rps <= now <= not_after rps)%Z -> (not_before ps <= now <= not_after ps)%Z ->
    signed_by_trust_anchor [der root] (der cert) [] (Z.to_N now) = Ok tt;
  agree_root ps k root : is_ca ps = CaUnconstrained -> self_signed ps k = Ok root ->
    root_add (der root) = Ok tt /\ client_verifier [der root] = Ok tt;
  agree_key ps k c rk cert : end_entity ps -> signed_by ps k c rk = Ok cert ->
    single_cert [der cert] (MkKey Pkcs8 (serialize_der k)) = Ok tt
    /\ client_auth_cert [der cert] (MkKey Pkcs8 (serialize_der k)) = Ok tt;
  agree_base64 : base64_alphabet base64;
  agree_pem_cert d s : textual base64 (bs "CERTIFICATE") d s -> pem_certs s = Ok [d];
  agree_pem_key d s : textual base64 (bs "PRIVATE KEY") d s ->
    pem_private_key s = Ok (Some (MkKey Pkcs8 d));
  agree_name : is_Some (ok (server_name_try_from (bs "reload.invalid")));
}.

(** A DER file: not empty, and not taken for PEM. *)
Definition plain_der (bytes : str) : Prop := bytes <> [] /\ contains_pem_header bytes = false.

Lemma parse_plain_certificate bytes : plain_der bytes -> parse_certificates pem_certs bytes = Ok [bytes].
Proof. intros [Hne Hh]. unfold parse_certificates. rewrite Hh. simpl. by rewrite bool_decide_false. Qed.

Lemma parse_plain_key bytes : plain_der bytes -> parse_private_key pem_private_key bytes = Ok (MkKey Pkcs8 bytes).
Proof. intros [Hne Hh]. unfold parse_private_key. rewrite Hh. simpl. by rewrite bool_decide_false. Qed.

Lemma parse_pem_certificate d pem :
  libraries_agree -> der_to_pem base64 (bs "CERTIFICATE") d = Some pem ->
  parse_certificates pem_certs pem = Ok [d].
Proof.
  intros L Hp. destruct (der_to_pem_textual base64 (bs "CERTIFICATE") d) as (pem' & Hp' & Ht & Hh);
    [apply L | by apply (bool_decide_unpack _) |].
  rewrite Hp in Hp'. injection Hp' as <-. unfold parse_certificates. rewrite Hh. simpl.
  by rewrite (agree_pem_cert L _ _ Ht).
Qed.

Lemma parse_pem_key d pem :
  libraries_agree -> der_to_pem base64 (bs "PRIVATE KEY") d = Some pem ->
  parse_private_key pem_private_key pem = Ok (MkKey Pkcs8 d).
Proof.
  intros L Hp. destruct (der_to_pem_textual base64 (bs "PRIVATE KEY") d) as (pem' & Hp' & Ht & Hh);
    [apply L | by apply (bool_decide_unpack _) |].
  rewrite Hp in Hp'. injection Hp' as <-. unfold parse_private_key. rewrite Hh. simpl.
  by rewrite (agree_pem_key L _ _ Ht).
Qed.

(** What the authority issued. *)
Record issued (ca : @CertificateAuthority KeyPair Certificate) (id : SpiffeId) (server : str * str) : Prop := {
  issued_id : spiffe_id_from_cert_der parse_x509 server.1 = Some (Ok id);
  issued_parsed : parsed_certificate server.1 = Ok tt;
  issued_root : root_add (root_cert_der ca) = Ok tt /\ client_verifier [root_cert_der ca] = Ok tt;
  issued_key : single_cert [server.1] (MkKey Pkcs8 server.2) = Ok tt
    /\ client_auth_cert [server.1] (MkKey Pkcs8 server.2) = Ok tt;
}.

(** The authority's root, and a leaf of it. *)
Lemma issue_signed ca n id names server :
  ia5_spec ia5_string ->
  ca_new (keygen 0) self_signed der TRUST_DOMAIN (clock 0) = Ok ca -> issue ca n id names = Some server ->
  self_signed (root_params TRUST_DOMAIN (clock 0)) (root_key ca) = Ok (root_cert ca)
  /\ root_cert_der ca = der (root_cert ca)
  /\ exists ps key cert extra, signed_by ps key (root_cert ca) (root_key ca) = Ok cert
       /\ server = (der cert, serialize_der key) /\ leaf_of (rng n) ca id extra (clock n) ps.
Proof.
  intros Hia Hca Hi%unwrap_Some. destruct server as [cert_der key_der].
  unfold ca_new in Hca. destruct (keygen 0) as [rk|]; simpl in Hca; [|done].
  destruct (self_signed _ rk) as [root|] eqn:Er; simpl in Hca; [|done]. injection Hca as <-.
  split; [done |]. split; [done |].
  destruct (issue_leaf_with_key_spec _ _ _ _ _ _ _ _ _ _ _ _ Hia Hi)
    as (ps & key & cert & extra & Hs & -> & -> & _ & Hl). by exists ps, key, cert, extra.
Qed.

Lemma leaf_end_entity random ca id extra now ps :
  leaf_of (KeyPair := KeyPair) (Certificate := Certificate) random ca id extra now ps -> end_entity ps.
Proof. intros Hl. split; [apply (leaf_not_ca _ _ _ _ _ _ Hl) | by rewrite (leaf_sans _ _ _ _ _ _ Hl)]. Qed.

Lemma issue_issued ca n id names server :
  libraries_agree -> utf8_id id -> valid_id id ->
  ca_new (keygen 0) self_signed der TRUST_DOMAIN (clock 0) = Ok ca ->
  issue ca n id names = Some server -> issued ca id server.
Proof.
  intros L Hu Hv Hca Hi.
  destruct (issue_signed _ _ _ _ _ (agree_ia5 L) Hca Hi) as (Er & Hder & ps & key & cert & extra & Hs & -> & Hl).
  pose proof (leaf_end_entity _ _ _ _ _ _ Hl) as He.
  apply unwrap_Some in Hi.
  pose proof (issued_identity _ _ _ _ _ _ _ _ _ _ _ _ _ (agree_ia5 L) Hu Hv (agree_names L) Hi) as Hid.
  split; simpl; [done | by eapply (agree_parsed L) | | by eapply (agree_key L)].
  rewrite Hder. by eapply (agree_root L); [|exact Er].
Qed.

(** A leaf is accepted while it and the root are valid. *)
Lemma issue_chain ca n id names server now :
  libraries_agree ->
  ca_new (keygen 0) self_signed der TRUST_DOMAIN (clock 0) = Ok ca ->
  issue ca n id names = Some server ->
  (clock 0 <= now <= clock 0 + cert.ROOT_CA_TTL)%Z -> (clock n <= now <= clock n + cert.LEAF_TTL)%Z ->
  signed_by_trust_anchor [root_cert_der ca] server.1 [] (Z.to_N now) = Ok tt.
Proof.
  intros L Hca Hi H0 Hn.
  destruct (issue_signed _ _ _ _ _ (agree_ia5 L) Hca Hi) as (Er & -> & ps & key & cert & extra & Hs & -> & Hl).
  destruct (leaf_validity _ _ _ _ _ _ Hl) as [Hb Ha].
  eapply (agree_chain L); [| |exact Er | by eapply leaf_end_entity | | exact Hs | done | by rewrite Hb, Ha];
    [done | by left |]. rewrite (leaf_ext_usage _ _ _ _ _ _ Hl). by left.
Qed.

Definition read_from (files : Files) (missing : IoError) (path : str) : result str IoError :=
  ok_or (files !! path) missing.

(** Credentials that were issued, read from files that decode to them. *)
Lemma issued_loads files missing ps (ca : @CertificateAuthority KeyPair Certificate) now id server
    b1 b2 b3 mux :
  libraries_agree -> issued ca id server ->
  signed_by_trust_anchor [root_cert_der ca] server.1 [] (Z.to_N now) = Ok tt ->
  files !! ca_bundle ps = Some b1 -> parse_certificates pem_certs b1 = Ok [root_cert_der ca] ->
  files !! certificate ps = Some b2 -> parse_certificates pem_certs b2 = Ok [server.1] ->
  files !! private_key ps = Some b3 ->
  parse_private_key pem_private_key b3 = Ok (MkKey Pkcs8 server.2) ->
  exists r, load path_display io_display pem_certs pem_private_key server_name_try_from parse_x509
    root_add client_auth_cert single_cert client_verifier parsed_certificate signed_by_trust_anchor
    (MkWorld (fun _ => read_from files missing) (Z.to_N now) None) ps id mux = Some (Ok r)
    /\ good_generation parse_x509 client_auth_cert single_cert signed_by_trust_anchor id mux (generation r).
Proof.
  intros L [Hid Hp [Hr Hcv] [Hsc Hca]] Hc F1 P1 F2 P2 F3 P3.
  destruct (agree_name L) as [name Hname].
  destruct (build_generation_ok path_display io_display pem_certs pem_private_key server_name_try_from
    parse_x509 root_add client_auth_cert single_cert client_verifier parsed_certificate
    signed_by_trust_anchor (fun _ => read_from files missing) (Z.to_N now) ps id mux [root_cert_der ca] server.1 []
    (MkKey Pkcs8 server.2) b1 b2 b3 name) as [gen Hgen]; try done;
    [by unfold read_from; rewrite F1 | by unfold read_from; rewrite F2
    | by unfold read_from; rewrite F3 | by repeat constructor | by apply unwrap_Some |].
  unfold load, load_generation. cbn [join_error fs_read unix_now]. rewrite Hgen.
  eexists. split; [reflexivity |]. by eapply build_generation_good.
Qed.

(** C33: the credentials that the bootstrap writes are ones the proxy starts
    with: if the certificate and TLS libraries agree, the files written for the
    backend load, while its certificate is valid, as credentials of the identity
    they were issued for, verified against the written authority; from the DER
    files at the proxy's default paths, if the proxy does not take them for PEM,
    and from the PEM files. *)
Theorem bootstrap_loads e files files' missing config now mux :
  libraries_agree ->
  bootstrap e files = Some files' ->
  (clock 0 <= now <= clock 0 + cert.ROOT_CA_TTL)%Z -> (clock 1 <= now <= clock 1 + cert.LEAF_TTL)%Z ->
  e !! bs "INTERLINK_CERT_DIR" = None ->
  ca_bundle_path config = None -> cert_path config = None -> key_path config = None ->
  (forall name bytes, name ∈ [bs "ca.der"; bs "server.der"; bs "server.key"] ->
     files' !! path_join (demo_dir e) name = Some bytes -> plain_der bytes) ->
  let loads ps := exists r,
    load path_display io_display pem_certs pem_private_key server_name_try_from parse_x509
      root_add client_auth_cert single_cert client_verifier parsed_certificate signed_by_trust_anchor
      (MkWorld (fun _ => read_from files' missing) (Z.to_N now) None) ps backend_id mux = Some (Ok r)
    /\ good_generation parse_x509 client_auth_cert single_cert signed_by_trust_anchor backend_id mux (generation r) in
  let file name := path_join (demo_dir e) name in
  loads (Paths.from_config e config)
  /\ loads (Paths.new (file (bs "ca.pem")) (file (bs "server.pem")) (file (bs "server-key.pem"))).
Proof.
  intros L Hb H0 H1 Hdir Hc1 Hc2 Hc3 Hplain loads file.
  destruct (bootstrap_written _ _ _ Hb) as (ca & server & client & Hca & Hs & _ & W).
  assert (Hi : issued ca backend_id server).
  { eapply issue_issued; try done. by repeat split; apply utf8_ascii. }
  destruct (written_ca _ _ _ _ _ W) as (F1 & p1 & P1 & G1).
  destruct (written_server _ _ _ _ _ W) as (F2 & p2 & P2 & G2).
  destruct (written_server_key _ _ _ _ _ W) as (F3 & p3 & P3 & G3).
  split; (eapply issued_loads; [done | exact Hi | by eapply issue_chain | ..]).
  - unfold Paths.from_config, Paths.new. cbn [ca_bundle certificate private_key]. rewrite Hdir, Hc1. exact F1.
  - apply parse_plain_certificate. by apply (Hplain (bs "ca.der")); [left | exact F1].
  - unfold Paths.from_config, Paths.new. cbn [ca_bundle certificate private_key]. rewrite Hdir, Hc2. exact F2.
  - apply parse_plain_certificate. by apply (Hplain (bs "server.der")); [right; left | exact F2].
  - unfold Paths.from_config, Paths.new. cbn [ca_bundle certificate private_key]. rewrite Hdir, Hc3. exact F3.
  - apply parse_plain_key. by apply (Hplain (bs "server.key")); [right; right; left | exact F3].
  - exact G1.
  - by apply parse_pem_certificate.
  - exact G2.
  - by apply parse_pem_certificate.
  - exact G3.
  - by apply parse_pem_key.
Qed.
End Load.
End Bootstrap.

(** Libraries that agree: a certificate is its parameters and its encoding the
    URI in it; the text encoding writes a byte as two letters. *)
Module BootstrapDemo.
Definition self_signed (ps : CertificateParams) (_ : unit) : result CertificateParams str := Ok ps.
Definition signed_by (ps : CertificateParams) (_ : unit) (_ : CertificateParams) (_ : unit) :
    result CertificateParams str :=
  match subject_alt_names ps with
  | [SanURI _; SanDns _; SanIp _; SanDns _] => Ok ps
  | _ => Err []
  end.
Definition der (ps : CertificateParams) : str :=
  match subject_alt_names ps with SanURI u :: _ => u | _ => bs "root" end.
Definition parse (d : str) : result (list X509Extension) str :=
  Ok [MkExt SAN_OID (SubjectAlternativeName [URI d; OtherName; OtherName; OtherName])].

Definition letter (n : N) : byte := ascii_of_N (65 + n).
Definition encode (d : str) : str := concat (map (fun b => [letter (code b / 16); letter (code b mod 16)]) d).
Fixpoint decode (s : str) : str :=
  match s with
  | a :: b :: s' => ascii_of_N ((code a - 65) * 16 + (code b - 65)) :: decode s'
  | _ => []
  end.
Definition pem_text (s : str) : str := decode (concat (removelast (tail (lines s)))).

Lemma letter_code n : (n < 16)%N -> code (letter n) = (65 + n)%N /\ is_graphic (letter n) = true.
Proof.
  intros Hn. assert (Hc : code (letter n) = (65 + n)%N) by (apply N_ascii_embedding; lia).
  split; [done |]. unfold is_graphic, in_range. rewrite Hc. apply andb_true_iff. split; apply N.leb_le; lia.
Qed.

Lemma code_halves b : (code b / 16 < 16 /\ code b mod 16 < 16)%N.
Proof.
  pose proof (N_ascii_bounded b) as Hb. split; [| by apply N.mod_lt].
  apply N.Div0.div_lt_upper_bound; [exact Hb].
Qed.

Lemma decode_encode d : decode (encode d) = d.
Proof.
  induction d as [|b d IH]; [done |].
  change (encode (b :: d)) with (letter (code b / 16) :: letter (code b mod 16) :: encode d).
  cbn [decode]. rewrite IH. destruct (code_halves b) as [H1 H2].
  rewrite (proj1 (letter_code _ H1)), (proj1 (letter_code _ H2)). f_equal.
  transitivity (ascii_of_N (code b)); [f_equal | apply ascii_N_embedding].
  pose proof (N.div_mod (code b) 16 ltac:(done)) as Hd. revert Hd.
  generalize (code b / 16)%N (code b mod 16)%N. lia.
Qed.

Lemma encode_token : base64_alphabet encode.
Proof.
  intros d. unfold token. induction d as [|b d IH]; [done |].
  change (encode (b :: d)) with (letter (code b / 16) :: letter (code b mod 16) :: encode d).
  cbn [forallb]. destruct (code_halves b) as [H1 H2].
  by rewrite (proj2 (letter_code _ H1)), (proj2 (letter_code _ H2)).
Qed.

Lemma pem_text_textual label d s : textual encode label d s -> pem_text s = d.
Proof.
  intros (body & Hl & Hb & _). unfold pem_text. rewrite Hl. cbn [tail]. rewrite removelast_last, Hb.
  apply decode_encode.
Qed.

Lemma agree :
  libraries_agree self_signed signed_by der (fun _ => bs "key") CaDemo.ia5 encode
    (fun s => Ok [pem_text s]) (fun s => Ok (Some (MkKey Pkcs8 (pem_text s)))) Ok parse (fun _ => Ok tt)
    (fun _ _ => Ok tt) (fun _ _ => Ok tt) (fun _ => Ok tt) (fun _ => Ok tt) (fun _ _ _ _ => Ok tt).
Proof.
  split; try done.
  - intros s. unfold CaDemo.ia5. by destruct (forallb is_ascii s).
  - intros ps k c rk cert _. unfold signed_by, der.
    destruct (subject_alt_names ps) as [|[u|?|?] [|[?|?|?] [|[?|?|?] [|[?|?|?] [|? ?]]]]] eqn:E; try done.
    intros [= <-]. rewrite E. by eexists.
  - apply encode_token.
  - intros d s Ht. by rewrite (pem_text_textual _ _ _ Ht).
  - intros d s Ht. by rewrite (pem_text_textual _ _ _ Ht).
Qed.

Definition run : eval Files :=
  bootstrap (fun _ => Ok tt) self_signed signed_by der (fun _ => bs "key") CaDemo.ia5
    (fun _ _ => Ok (bs "serial")) (fun _ => 0%Z) encode (fun _ => Ok tt) (fun _ => Ok tt) ∅ ∅.
Definition files : Files := default ∅ run.

Lemma files_written : run = Some files.
Proof.
  assert (H : match run with Some _ => true | None => false end = true) by (vm_compute; reflexivity).
  unfold files. by destruct run.
Qed.

Lemma files_plain name bytes :
  name ∈ [bs "ca.der"; bs "server.der"; bs "server.key"] ->
  files !! path_join (demo_dir ∅) name = Some bytes -> plain_der bytes.
Proof.
  intros Hn Hf. assert (Hall : forallb (fun name =>
      match files !! path_join (demo_dir ∅) name with
      | Some b => bool_decide (b <> []) && negb (contains_pem_header b)
      | None => false end) [bs "ca.der"; bs "server.der"; bs "server.key"] = true)
    by (vm_compute; reflexivity).
  rewrite forallb_forall in Hall. apply list_elem_of_In in Hn. specialize (Hall _ Hn). cbv beta in Hall.
  rewrite Hf in Hall. bool_props. by split.
Qed.

Lemma bootstrap_loads_witness :
  exists r, load id (fun _ => []) (fun s => Ok [pem_text s])
    (fun s => Ok (Some (MkKey Pkcs8 (pem_text s)))) Ok parse (fun _ => Ok tt) (fun _ _ => Ok tt)
    (fun _ _ => Ok tt) (fun _ => Ok tt) (fun _ => Ok tt) (fun _ _ _ _ => Ok tt)
    (MkWorld (fun _ => read_from files {| io_kind := InvalidData; io_msg := [] |}) (Z.to_N 0) None)
    (Paths.from_config ∅ Cfg.default_config) backend_id true = Some (Ok r)
    /\ good_generation parse (fun _ _ => Ok tt) (fun _ _ => Ok tt) (fun _ _ _ _ => Ok tt) backend_id true (generation r).
Proof.
  exact (proj1 (bootstrap_loads _ _ _ _ _ _ _ _ _ _ _
    id (fun _ => []) _ _ _ _ _ _ _ _ _ _ ∅ ∅ files {| io_kind := InvalidData; io_msg := [] |}
    Cfg.default_config 0 true agree files_written ltac:(done) ltac:(done) eq_refl eq_refl eq_refl eq_refl
    files_plain)).
Defined.
End BootstrapDemo.
