(* ===== verification/Services.v ===== *)
(** * The demonstration services ([examples/backend.rs], [examples/frontend.rs],
      [examples/bench_server.rs])

    Services that speak mutual TLS through the library itself: an echo server
    and its client, and an HTTP server for benchmarks.  The operating system and
    the TLS library are parameters, as in [Handshake] and [Reload].  Arguments
    of the command line are Rust strings. *)

From S2P Require Import Prelude Bytes Text Common Glob Identity Policy Net Metrics Tunnels ProxyBase.
From S2P Require Import ConfigLoad Process Handshake Provider CertAuthority Reload Bootstrap.

Set Default Proof Using "Type".

(** What a service makes visible. *)
Inductive ServiceEvent := Sleep (ms : N) | Send (bytes : str).

(** ** Identity from files *)

Record FileIdentityProvider := MkFileProvider { file_identity : SpiffeId; file_td : TrustDomain }.

#[global] Instance File_provider : IdentityProvider FileIdentityProvider := {|
  get_identity self := Ok (file_identity self);
  get_trust_domain self := file_td self;
|}.

(** ** Command lines *)

(** [args().nth(n)]; the directory and the port of both servers. *)
Definition arg_dir (e : env) (args : list str) : str := default (demo_dir e) (args !! 1).
Definition arg_port (args : list str) : N := default 8443%N (s ← args !! 2; ok (parse_u16 s)).
Definition arg_delay (args : list str) : N :=
  default 0%N (s ← args !! 3; ok (parse_usize (trim_end_matches (bs "ms") s))).
Definition arg_backend (args : list str) : str := default (bs "127.0.0.1:8443") (args !! 2).

(** ** HTTP requests of the benchmark server *)

Definition CRLF : str := [carriage_return; newline].

(** Where the headers end: past the first empty line, or at the end. *)
Definition header_end (req : str) : nat :=
  match str_find req (CRLF ++ CRLF) with Some i => i + 4 | None => length req end.

(** The loop over the header lines. *)
Fixpoint content_length (acc : N) (ls : list str) : N :=
  match ls with
  | [] => acc
  | line :: rest =>
      if bool_decide (line = []) then acc
      else content_length
        (match strip_prefix line (bs "Content-Length:") with
         | Some v => default 0%N (ok (parse_usize (trim v)))
         | None =>
             match strip_prefix line (bs "content-length:") with
             | Some v => default 0%N (ok (parse_usize (trim v)))
             | None => acc
             end
         end) rest
  end.

(** [&req[a..b]] on a byte slice. *)
Definition buf_slice (buf : str) (a b : N) : eval str :=
  if (a <=? b)%N && (b <=? N.of_nat (length buf))%N
  then Some (take (N.to_nat (b - a)) (drop (N.to_nat a) buf)) else None.

(** [parts.len() != 3 || !parts[2].starts_with("HTTP/1.")], negated. *)
Definition request_line_ok (first : str) : bool :=
  match split_whitespace first with
  | [_; _; version] => starts_with version (bs "HTTP/1.")
  | _ => false
  end.

(** [handle_http_request] after the delay.  The sum is a [usize] addition of
    the release profile; with overflow checks it panics where it wraps here. *)
Definition answer_request (req : str) : eval (N * str) :=
  headers ← buf_to req (header_end req);
  let ls := lines (from_utf8_lossy headers) in
  if negb (request_line_ok (default [] (head ls))) then Some (400%N, bs "bad request")
  else
    let n := content_length 0 (tail ls) in
    let start := N.of_nat (header_end req) in
    let stop := wrap_u64 (start + n) in
    if (0 <? n)%N && (stop <=? N.of_nat (length req))%N then
      body ← buf_slice req start stop;
      Some (200%N, body)
    else Some (200%N, []).

Definition handle_http_request (req : str) (delay : N) : Prog ServiceEvent (N * str) :=
  _ ← (if (0 <? delay)%N then emit (Sleep delay) else mret tt);
  lift (answer_request req).

Definition status_text (status : N) : str :=
  if (status =? 200)%N then bs "OK" else if (status =? 400)%N then bs "Bad Request" else bs "Unknown".

Definition format_http_response (status : N) (body : str) : str :=
  bs "HTTP/1.1 " ++ show_uint status ++ bs " " ++ status_text status ++ CRLF
  ++ bs "Content-Length: " ++ show_uint (N.of_nat (length body)) ++ CRLF
  ++ bs "Content-Type: application/octet-stream" ++ CRLF
  ++ bs "Connection: keep-alive" ++ CRLF ++ CRLF ++ body.

(** ** Connections

    The reads of a connection, each with what the write that answers it
    reports.  An empty read is the end of the stream. *)

Abbreviation Turns := (list (result (list Ascii.ascii) IoError * result unit IoError)) (only parsing).

Fixpoint bench_loop (delay : N) (turns : Turns) : Prog ServiceEvent unit :=
  match turns with
  | [] | (Ok [], _) :: _ | (Err _, _) :: _ => mret tt
  | (Ok bytes, written) :: rest =>
      r ← handle_http_request bytes delay;
      let '(status, body) := r in
      _ ← emit (Send (format_http_response status body));
      match written with
      | Err _ => mret tt
      | Ok _ => bench_loop delay rest
      end
  end.

Definition echo_response (peer : SpiffeId) (bytes : str) : str :=
  bs "backend-echo[" ++ service_account peer ++ bs "]: " ++ from_utf8_lossy bytes.

Fixpoint echo_loop (peer : SpiffeId) (turns : Turns) : Prog ServiceEvent unit :=
  match turns with
  | [] | (Ok [], _) :: _ | (Err _, _) :: _ => mret tt
  | (Ok bytes, written) :: rest =>
      _ ← emit (Send (echo_response peer bytes));
      match written with
      | Err _ => mret tt
      | Ok _ => echo_loop peer rest
      end
  end.

Section Connections.
Context {T : Type} `{TlsHandshake T}.

(** The task of an accepted connection. *)
Definition bench_connection (tls : T) (delay : N) (attempt : Attempt) (turns : Turns) :
    Prog ServiceEvent unit :=
  r ← accept tls attempt;
  match r with
  | Ok _ => bench_loop delay turns
  | Err _ => mret tt
  end.

Definition backend_connection (tls : T) (attempt : Attempt) (turns : Turns) : Prog ServiceEvent unit :=
  r ← accept tls attempt;
  match r with
  | Ok tls_stream => echo_loop (peer_identity tls_stream) turns
  | Err _ => mret tt
  end.
End Connections.

(** ** Start-up *)

Section Startup.
Context (parse_x509 : str -> result (list X509Extension) str).
Context (root_add : str -> result unit TlsError).
Context (client_auth_cert : list str -> PrivateKeyDer -> result unit TlsError).
Context (single_cert : list str -> PrivateKeyDer -> result unit TlsError).
Context (client_verifier : list str -> result unit str).
(** [std::fs::read] and [TcpListener::bind]. *)
Context (fs_read : str -> result str IoError) (bind : str -> result unit IoError).

(** The provider of a service of the demonstration, from the file of the CA. *)
Definition file_provider (service : str) (ca_der : str) : eval FileIdentityProvider :=
  id ← unwrap (Id.try_new (bs "example.local") (bs "default") service);
  Some (MkFileProvider id (Trust.with_ca (Trust.new (bs "example.local")) ca_der)).

(** The TLS server of both servers. *)
Definition load_server (dir : str) : eval TlsServer :=
  ca_der ← unwrap (fs_read (path_join dir (bs "ca.der")));
  server_cert ← unwrap (fs_read (path_join dir (bs "server.der")));
  server_key ← unwrap (fs_read (path_join dir (bs "server.key")));
  provider ← file_provider (bs "backend") ca_der;
  unwrap (server_new root_add single_cert client_verifier provider server_cert (MkKey Pkcs8 server_key)).

Definition bind_address (port : N) : str := bs "0.0.0.0:" ++ show_uint port.

(** [main] of the backend up to its accept loop: the server and the port. *)
Definition backend_main (e : env) (args : list str) : eval (TlsServer * N) :=
  let port := arg_port args in
  tls_server ← load_server (arg_dir e args);
  _ ← unwrap (bind (bind_address port));
  Some (tls_server, port).

(** [main] of the benchmark server up to its accept loop: also the delay. *)
Definition bench_main (e : env) (args : list str) : eval (TlsServer * N * N) :=
  let port := arg_port args in
  let delay := arg_delay args in
  tls_server ← load_server (arg_dir e args);
  _ ← unwrap (bind (bind_address port));
  Some (tls_server, port, delay).

(** The frontend's client and the address it connects to. *)
Definition frontend_setup (e : env) (args : list str) : eval (TlsClient * SocketAddr) :=
  let dir := arg_dir e args in
  ca_der ← unwrap (fs_read (path_join dir (bs "ca.der")));
  client_cert ← unwrap (fs_read (path_join dir (bs "client.der")));
  client_key ← unwrap (fs_read (path_join dir (bs "client.key")));
  provider ← file_provider (bs "frontend") ca_der;
  tls_client ← unwrap (client_with_auth root_add client_auth_cert provider client_cert
                         (MkKey Pkcs8 client_key));
  connect_addr ← parse_socket_addr (arg_backend args);
  Some (tls_client, connect_addr).

Definition HELLO : str := bs "Hello from frontend!".
Definition PASSED : str := byte_str [226; 156; 147]%N ++ bs " mTLS echo test PASSED".
Definition FAILED : str := byte_str [226; 156; 151]%N ++ bs " mTLS connection FAILED: ".

(** [main] of the frontend: the lines it prints.  The handshake, what the write
    reports, and what the read returns before the timeout, if anything. *)
Definition frontend_main (e : env) (args : list str) (attempt : Attempt) (written : result unit IoError)
    (read : option (result str IoError)) : Prog ServiceEvent (list str) :=
  setup ← lift (frontend_setup e args);
  let '(tls_client, connect_addr) := setup in
  r ← @connect TlsClient (TlsClient_handshake parse_x509) ServiceEvent tls_client connect_addr attempt;
  match r with
  | Ok _ =>
      _ ← emit (Send HELLO);
      _ ← lift (unwrap written);
      match read with
      | Some (Ok bytes) =>
          mret [PASSED; bs "  Request:  " ++ HELLO; bs "  Response: " ++ from_utf8_lossy bytes]
      | Some (Err _) | None => mret []
      end
  | Err err => mret [FAILED ++ show_error err]
  end.
End Startup.

(** ** Messages as lines, an empty line and a body *)

Definition head_text (ls : list str) : str := concat (map (fun l => l ++ CRLF) ls) ++ CRLF.

(** A line of a message head: not empty, ASCII, without line ends. *)
Record line_ok (l : str) : Prop := {
  line_nonempty : l <> [];
  line_ascii : forallb is_ascii l = true;
  line_no_cr : carriage_return ∉ l;
  line_no_lf : newline ∉ l;
}.

Lemma find_skip c p l s : c ∉ l -> str_find (l ++ s) (c :: p) = Nat.add (length l) <$> str_find s (c :: p).
Proof.
  induction l as [|b l IH]; intros Hc; [cbn [app]; by destruct (str_find s (c :: p)) |].
  apply not_elem_of_cons in Hc as [Hb Hc]. cbn [app str_find starts_with].
  rewrite bool_decide_false by done. simpl. rewrite (IH Hc). by destruct (str_find s _).
Qed.

Lemma find_step b s p : starts_with (b :: s) p = false -> str_find (b :: s) p = S <$> str_find s p.
Proof. cbn [str_find]. by intros ->. Qed.

Lemma find_crlf b s :
  b <> carriage_return ->
  str_find (CRLF ++ b :: s) (CRLF ++ CRLF) = Nat.add 2 <$> str_find (b :: s) (CRLF ++ CRLF).
Proof.
  intros Hb. change (CRLF ++ b :: s) with (carriage_return :: newline :: b :: s).
  rewrite find_step, find_step; [by destruct (str_find (b :: s) _) | done |].
  cbn [CRLF app starts_with]. rewrite (bool_decide_false (carriage_return = b)) by congruence.
  by rewrite !andb_false_r.
Qed.

Lemma head_text_cons l ls : head_text (l :: ls) = l ++ CRLF ++ head_text ls.
Proof. unfold head_text. cbn [map concat]. by rewrite <- !app_assoc. Qed.

Lemma head_text_long ls : 2 <= length (head_text ls).
Proof. unfold head_text. rewrite length_app. simpl. lia. Qed.

Lemma find_head l ls body :
  Forall line_ok (l :: ls) ->
  str_find (head_text (l :: ls) ++ body) (CRLF ++ CRLF) = Some (length (head_text (l :: ls)) - 4).
Proof.
  revert l. induction ls as [|l' ls IH]; intros l Hls; apply Forall_cons in Hls as [Hl Hls];
    rewrite head_text_cons, <- !app_assoc;
    change (CRLF ++ CRLF) with (carriage_return :: newline :: CRLF);
    rewrite find_skip by apply Hl; change (carriage_return :: newline :: CRLF) with (CRLF ++ CRLF).
  - change (str_find _ _) with (Some 0). simpl. rewrite !length_app. simpl. f_equal. lia.
  - specialize (IH l' Hls). apply Forall_cons in Hls as [Hl' _].
    destruct l' as [|b l']; [by destruct Hl' |].
    assert (Hb : b <> carriage_return) by (intros ->; apply (line_no_cr _ Hl'); by left).
    rewrite head_text_cons in IH |- *. cbn [app] in IH |- *. rewrite find_crlf, IH by done.
    pose proof (head_text_long ls). simpl. rewrite !length_app. simpl. f_equal. rewrite !length_app. simpl. lia.
Qed.

Lemma header_end_head ls body :
  ls <> [] -> Forall line_ok ls -> header_end (head_text ls ++ body) = length (head_text ls).
Proof.
  intros Hne Hls. destruct ls as [|l ls]; [done |]. unfold header_end. rewrite find_head by done.
  pose proof (head_text_long ls). rewrite head_text_cons, !length_app. simpl. lia.
Qed.

Lemma head_text_ascii ls : Forall line_ok ls -> forallb is_ascii (head_text ls) = true.
Proof.
  induction 1 as [|l ls Hl _ IH]; [done |]. rewrite head_text_cons, !forallb_app, IH.
  by rewrite (line_ascii _ Hl).
Qed.

Lemma lines_head ls : Forall line_ok ls -> lines (head_text ls) = ls ++ [[]].
Proof.
  induction 1 as [|l ls Hl _ IH]; [done |]. rewrite head_text_cons. cbn [CRLF app].
  rewrite lines_crlf by apply Hl. by rewrite IH.
Qed.

(** ** Announced lengths *)

Definition length_line (l : str) : bool :=
  starts_with l (bs "Content-Length:") || starts_with l (bs "content-length:").

Lemma content_length_app acc pre ls :
  Forall (fun l => l <> []) pre ->
  content_length acc (pre ++ ls) = content_length (content_length acc pre) ls.
Proof.
  intros H. revert acc. induction H as [|l pre Hl _ IH]; intros acc; [done |].
  cbn [app content_length]. rewrite bool_decide_false by done. apply IH.
Qed.

Lemma content_length_none acc ls :
  Forall (fun l => length_line l = false) ls -> content_length acc ls = acc.
Proof.
  induction 1 as [|l ls Hl _ IH]; [done |]. cbn [content_length]. case_bool_decide; [done |].
  unfold length_line in Hl. apply orb_false_iff in Hl as [H1 H2]. unfold strip_prefix.
  by rewrite H1, H2.
Qed.

Lemma parse_usize_bound s n : parse_usize s = Ok n -> (n < 2 ^ 64)%N.
Proof. intros H%parse_uint_bound. by apply (N.le_lt_trans _ usize_max). Qed.

Lemma content_length_bound acc ls : (acc < 2 ^ 64)%N -> (content_length acc ls < 2 ^ 64)%N.
Proof.
  revert acc. induction ls as [|l ls IH]; intros acc Ha; cbn [content_length]; [done |].
  assert (Hv : forall v, (default 0 (ok (parse_usize (trim v))) < 2 ^ 64)%N).
  { intros v. destruct (parse_usize (trim v)) eqn:E; [by apply parse_usize_bound in E | done]. }
  case_bool_decide; [done |]. apply IH. by repeat case_match.
Qed.

(** The line that announces a length. *)
Lemma length_announced acc name n rest :
  name ∈ [bs "Content-Length:"; bs "content-length:"] -> (n < 2 ^ 64)%N ->
  content_length acc ((name ++ bs " " ++ show_uint n) :: rest) = content_length n rest.
Proof.
  intros Hname Hn. assert (Hv : parse_usize (trim (bs " " ++ show_uint n)) = Ok n).
  { change (bs " " ++ show_uint n) with (" "%char :: show_uint n). rewrite trim_space.
    - apply parse_show_uint. unfold usize_max. lia.
    - apply digits_token, show_uint_digits.
    - by apply show_uint_fuel_nonnil; left. }
  cbn [content_length]. unfold strip_prefix.
  apply elem_of_cons in Hname as [->|Hname]; [|apply list_elem_of_singleton in Hname as ->];
    rewrite bool_decide_false by discriminate.
  - rewrite starts_with_app, drop_app_length. by rewrite Hv.
  - change (starts_with (bs "content-length:" ++ _) (bs "Content-Length:")) with false. cbv iota.
    rewrite starts_with_app, drop_app_length. by rewrite Hv.
Qed.

(** ** Properties of the benchmark server *)

Definition request_line (m p minor : str) : str := m ++ bs " " ++ p ++ bs " HTTP/1." ++ minor.

Lemma request_line_good m p minor :
  token m -> token p -> token minor -> m <> [] -> p <> [] ->
  line_ok (request_line m p minor) /\ request_line_ok (request_line m p minor) = true.
Proof.
  intros Hm Hp Hv Hm0 Hp0. split.
  - unfold request_line. split; [by destruct m | ..].
    + rewrite !forallb_app. by rewrite (token_ascii m), (token_ascii p), (token_ascii minor).
    + rewrite !not_elem_of_app. repeat split; (apply (bool_decide_unpack _); done) || (by apply token_no_break).
    + rewrite !not_elem_of_app. repeat split; (apply (bool_decide_unpack _); done) || (by apply token_no_break).
  - unfold request_line_ok, request_line.
    change (m ++ bs " " ++ p ++ bs " HTTP/1." ++ minor)
      with (m ++ " "%char :: p ++ " "%char :: bs "HTTP/1." ++ minor).
    rewrite !split_whitespace_token, split_whitespace_last by done.
    by rewrite starts_with_app.
Qed.

(** The lines of a request, and the length they announce. *)
Definition head_lines (req : str) : list str := lines (from_utf8_lossy (take (header_end req) req)).
Definition announced (req : str) : N := content_length 0 (tail (head_lines req)).

Lemma header_end_le req : header_end req <= length req.
Proof.
  unfold header_end. destruct (str_find req _) as [i|] eqn:E; [|done].
  apply str_find_Some in E as (x & y & -> & <- & _). rewrite !length_app. simpl. lia.
Qed.

(** The answer with the machine arithmetic resolved: the sum either overflows,
    and then the slice is out of range, or is exact. *)
Lemma answer_resolved req :
  (N.of_nat (length req) < 2 ^ 64)%N ->
  answer_request req =
    if request_line_ok (default [] (head (head_lines req))) then
      let start := N.of_nat (header_end req) in
      if (2 ^ 64 <=? start + announced req)%N then None
      else Some (200%N, if (start + announced req <=? N.of_nat (length req))%N
                        then take (N.to_nat (announced req)) (drop (header_end req) req) else [])
    else Some (400%N, bs "bad request").
Proof.
  intros Hlen. unfold answer_request, buf_to. pose proof (header_end_le req) as Hle.
  rewrite (proj2 (Nat.leb_le _ _) Hle). cbn [mbind option_bind]. fold (head_lines req).
  fold (announced req). destruct (request_line_ok _); [cbn [negb] | done].
  assert (Hn : (announced req < 2 ^ 64)%N) by by apply content_length_bound.
  unfold buf_slice, wrap_u64. revert Hn. generalize (announced req) as n. intros n Hn.
  destruct (N.leb_spec (2 ^ 64) (N.of_nat (header_end req) + n)) as [Ho|Ho].
  - assert (Hw : ((N.of_nat (header_end req) + n) mod 2 ^ 64 = N.of_nat (header_end req) + n - 2 ^ 64)%N).
    { symmetry. apply (N.mod_unique _ _ 1); lia. }
    rewrite Hw, (proj2 (N.ltb_lt 0 n)) by lia. rewrite (proj2 (N.leb_le _ (N.of_nat (length req)))) by lia.
    by rewrite (proj2 (N.leb_gt (N.of_nat (header_end req)) _)) by lia.
  - rewrite N.mod_small by done. destruct (N.ltb_spec 0 n) as [Hp|Hp]; cbn [andb].
    + destruct (N.leb_spec (N.of_nat (header_end req) + n) (N.of_nat (length req))); [|done].
      rewrite (proj2 (N.leb_le _ _)) by lia. cbn [andb mbind option_bind]. do 3 f_equal; [lia | by rewrite Nat2N.id].
    + assert (n = 0%N) as -> by lia. by destruct (_ <=? _)%N.
Qed.

(** A well-formed message, as the server takes it apart. *)
Lemma message_parts l hs body :
  Forall line_ok (l :: hs) ->
  let req := head_text (l :: hs) ++ body in
  header_end req = length (head_text (l :: hs)) /\ head_lines req = l :: hs ++ [[]]
  /\ drop (header_end req) req = body.
Proof.
  intros Hls req. assert (He : header_end req = length (head_text (l :: hs))) by by apply header_end_head.
  split; [done |]. unfold head_lines. rewrite He. unfold req. rewrite take_app_length, drop_app_length.
  rewrite lossy_ascii by by apply head_text_ascii. by rewrite lines_head.
Qed.

Lemma token_ascii_byte b : token [b] -> is_ascii b = true.
Proof. intros H%token_ascii. by apply andb_true_iff in H as [? _]. Qed.

(** Text of the source around a printed number. *)
Definition plain_text (t : str) : bool :=
  forallb (fun b => is_ascii b && negb (bool_decide (b = carriage_return)) && negb (bool_decide (b = newline))) t.

Lemma plain_text_line t : plain_text t = true -> t <> [] -> line_ok t.
Proof.
  unfold plain_text. rewrite forallb_forall. intros H Hne. split; [done | ..].
  - apply forallb_forall. intros b Hb%H. by bool_props.
  - intros Hb%list_elem_of_In%H. done.
  - intros Hb%list_elem_of_In%H. done.
Qed.

Lemma plain_text_digits n : plain_text (show_uint n) = true.
Proof.
  apply forallb_forall. intros b Hb. pose proof (show_uint_digits n) as Hd. rewrite Forall_forall in Hd.
  specialize (Hd b (proj2 (list_elem_of_In _ _) Hb)).
  assert (Hg : token [b]) by (apply digits_token; by repeat constructor).
  destruct (token_no_break [b] Hg) as [H1 H2]. rewrite (token_ascii_byte b Hg).
  rewrite !bool_decide_false; [done | intros ->; apply H2; by left | intros ->; apply H1; by left].
Qed.

Lemma plain_text_app x y : plain_text (x ++ y) = plain_text x && plain_text y.
Proof. apply forallb_app. Qed.

Lemma length_line_good name n :
  name ∈ [bs "Content-Length:"; bs "content-length:"] -> line_ok (name ++ bs " " ++ show_uint n).
Proof.
  intros H. apply plain_text_line.
  - rewrite !plain_text_app, plain_text_digits.
    apply elem_of_cons in H as [->|H]; [done | by apply list_elem_of_singleton in H as ->].
  - apply elem_of_cons in H as [->|H]; [done | by apply list_elem_of_singleton in H as ->].
Qed.

(** A response is a message of four lines. *)
Lemma response_message status body :
  exists l hs, format_http_response status body = head_text (l :: hs) ++ body
    /\ Forall line_ok (l :: hs)
    /\ (N.of_nat (length body) < 2 ^ 64 ->
         content_length 0 (hs ++ [[]]) = N.of_nat (length body))%N.
Proof.
  exists (bs "HTTP/1.1 " ++ show_uint status ++ bs " " ++ status_text status).
  exists [bs "Content-Length:" ++ bs " " ++ show_uint (N.of_nat (length body));
          bs "Content-Type: application/octet-stream"; bs "Connection: keep-alive"].
  split; [| split].
  - unfold format_http_response. rewrite !head_text_cons. unfold head_text. cbn [map concat].
    rewrite <- !app_assoc. reflexivity.
  - repeat (apply Forall_nil_2 || (apply Forall_cons_2; [apply plain_text_line; [| done] |])); try done.
    + rewrite !plain_text_app, plain_text_digits. unfold status_text. by repeat case_match.
    + rewrite !plain_text_app, plain_text_digits. done.
  - intros Hn. cbn [app]. rewrite (length_announced _ (bs "Content-Length:")); [reflexivity | by left | done].
Qed.

(** The benchmark server echoes: a request with a token as method and as
    path, a version HTTP/1.x, header lines of which the last length line
    announces the length of the body, and that body, is answered with status 200
    and exactly the body; and whoever reads the response by the same rules
    finds the length of that body announced and the body behind the head. *)
Theorem bench_echoes m p minor pre name post body :
  token m -> token p -> token minor -> m <> [] -> p <> [] ->
  Forall line_ok (pre ++ post) -> Forall (fun l => length_line l = false) post ->
  name ∈ [bs "Content-Length:"; bs "content-length:"] ->
  let hs := pre ++ (name ++ bs " " ++ show_uint (N.of_nat (length body))) :: post in
  let req := head_text (request_line m p minor :: hs) ++ body in
  (N.of_nat (length req) < 2 ^ 64)%N ->
  let response := format_http_response 200 body in
  answer_request req = Some (200%N, body)
  /\ announced response = N.of_nat (length body)
  /\ drop (header_end response) response = body.
Proof.
  intros Hm Hp Hv Hm0 Hp0 [Hpre Hpo]%Forall_app Hpost Hname hs req Hlen response.
  assert (Hb : (N.of_nat (length body) < 2 ^ 64)%N) by (unfold req in Hlen; rewrite length_app in Hlen; lia).
  destruct (request_line_good m p minor) as [Hl Hr]; [done..|].
  assert (Hls : Forall line_ok (request_line m p minor :: hs)).
  { constructor; [done |]. apply Forall_app. split; [done |]. constructor; [by apply length_line_good | done]. }
  destruct (message_parts (request_line m p minor) hs body Hls) as (He & Hh & Hd). fold req in He, Hh, Hd.
  assert (Ha : announced req = N.of_nat (length body)).
  { unfold announced. rewrite Hh. cbn [tail]. unfold hs. rewrite <- app_assoc.
    rewrite content_length_app by (by eapply Forall_impl, line_nonempty). cbn [app].
    rewrite length_announced by done. rewrite content_length_none; [done |].
    apply Forall_app. split; [done |]. by repeat constructor. }
  split.
  - rewrite answer_resolved by done. rewrite Hh, Ha, Hd. 
    change (default [] (head (request_line m p minor :: hs ++ [[]]))) with (request_line m p minor). rewrite Hr.
    cbv zeta. rewrite He. unfold req in Hlen. rewrite length_app in Hlen.
    rewrite (proj2 (N.leb_gt _ _)) by lia. rewrite (proj2 (N.leb_le _ _)); [| unfold req; rewrite length_app; lia].
    by rewrite Nat2N.id, take_ge by lia.
  - destruct (response_message 200 body) as (l & rest & Hresp & Hrl & Hn).
    destruct (message_parts l rest body Hrl) as (_ & Hrh & Hrd). unfold response. rewrite Hresp.
    split; [| done]. unfold announced. rewrite Hrh. by apply Hn.
Qed.

(** The answer panics exactly when the announced length overflows the end of
    the body: nothing else a client sends stops the server. *)
Theorem bench_panics_exactly req :
  (N.of_nat (length req) < 2 ^ 64)%N ->
  answer_request req = None <->
    request_line_ok (default [] (head (head_lines req))) = true
    /\ (2 ^ 64 <= N.of_nat (header_end req) + announced req)%N.
Proof.
  intros Hlen. rewrite answer_resolved by done. destruct (request_line_ok _); [|naive_solver].
  cbv zeta. destruct (N.leb_spec (2 ^ 64) (N.of_nat (header_end req) + announced req)); [naive_solver |].
  split; [done |]. intros [_ ?]. lia.
Qed.

(** A request of 57 bytes does it. *)
Definition overflow_request : str :=
  head_text [request_line (bs "POST") (bs "/") (bs "1"); bs "Content-Length: 18446744073709551615"].

Example bench_overflow : answer_request overflow_request = None.
Proof. vm_compute. reflexivity. Qed.

Lemma bench_echoes_witness :
  answer_request (head_text [request_line (bs "POST") (bs "/") (bs "1"); bs "Host: x";
    bs "Content-Length:" ++ bs " " ++ show_uint (N.of_nat (length (bs "hello")))] ++ bs "hello")
  = Some (200%N, bs "hello").
Proof.
  apply (bench_echoes (bs "POST") (bs "/") (bs "1") [bs "Host: x"] (bs "Content-Length:") [] (bs "hello"));
    try done; [| by left].
  apply Forall_singleton, plain_text_line; done.
Defined.

(** ** Properties of the echo service *)

(** What is read of a connection: up to the end of the stream, a read error, or
    a write that fails. *)
Fixpoint served (turns : Turns) : list str :=
  match turns with
  | [] | (Ok [], _) :: _ | (Err _, _) :: _ => []
  | (Ok bytes, Err _) :: _ => [bytes]
  | (Ok bytes, Ok _) :: rest => bytes :: served rest
  end.

Section Echo.
Context (parse_x509 : str -> result (list X509Extension) str).

Lemma finish_exec {E} s leaf rest id (tr : Trail E) p :
  parser_utf8 parse_x509 -> cache_ok parse_x509 p ->
  peer_certificates s = Some (leaf :: rest) -> spiffe_id_from_cert_der parse_x509 leaf = Some (Ok id) ->
  exists p' , exec (finish parse_x509 (HandshakeDone s)) tr p = Some (Ok (MkTlsStream s id), tr, p').
Proof.
  intros Hp Hc Hs Hid. unfold finish. rewrite exec_bind, exec_record.
  replace (MkTrail _ _ _) with tr.
  2: { destruct tr, (resumed s); simpl; by rewrite !(right_id no_charge add_charge). }
  set (q := set_metrics _ p). rewrite exec_bind.
  destruct (extract_cached parse_x509 (E := E) s tr q) as (r & c & -> & _ & Hi); [done | done |].
  rewrite (proj2 (Hi id)) by by exists leaf, rest. by eexists.
Qed.

Lemma echo_loop_exec peer turns tr p :
  exec (echo_loop peer turns) tr p =
    Some (tt, MkTrail (holds tr) (spent tr)
                (said tr ++ map (fun bytes => Send (echo_response peer bytes)) (served turns)), p).
Proof.
  revert tr. induction turns as [|[[[|b bytes]|e] [[]|e']] turns IH]; intros tr;
    cbn [echo_loop served map]; try (by rewrite app_nil_r; destruct tr).
  - rewrite exec_bind. cbn [emit exec]. rewrite IH. cbn [say holds spent said].
    by rewrite <- app_assoc.
  - rewrite exec_bind. cbn [emit exec]. done.
Qed.

(** The backend tells a client nothing but what it sent, marked with the service
    account of the certificate it authenticated with; a chunk of valid UTF-8
    comes back unchanged. *)
Theorem backend_echoes (tls : TlsServer) s leaf rest id turns tr p :
  parser_utf8 parse_x509 -> cache_ok parse_x509 p ->
  peer_certificates s = Some (leaf :: rest) -> spiffe_id_from_cert_der parse_x509 leaf = Some (Ok id) ->
  exists p', exec (@backend_connection _ (TlsServer_handshake parse_x509) tls (HandshakeDone s) turns) tr p =
    Some (tt, MkTrail (holds tr) (spent tr)
      (said tr ++ map (fun bytes => Send (bs "backend-echo[" ++ service_account id ++ bs "]: "
                                           ++ from_utf8_lossy bytes)) (served turns)), p')
  /\ Forall (fun bytes => from_utf8 bytes = Ok bytes -> from_utf8_lossy bytes = bytes) (served turns).
Proof.
  intros Hp Hc Hs Hid. unfold backend_connection. rewrite exec_bind.
  destruct (finish_exec s leaf rest id tr p Hp Hc Hs Hid) as [p' Hf].
  exists p'. split; [| apply Forall_true; intros bytes; apply lossy_valid].
  change (@accept _ (TlsServer_handshake parse_x509) ServiceEvent tls (HandshakeDone s))
    with (finish (E := ServiceEvent) parse_x509 (HandshakeDone s)). rewrite Hf. apply echo_loop_exec.
Qed.

(** The frontend reports success for whatever the backend sends first, also for
    nothing: a backend that closes the connection passes the echo test. *)
Theorem frontend_passes_unechoed root_add client_auth_cert fs_read e args client addr s leaf rest id
    bytes tr p :
  parser_utf8 parse_x509 -> cache_ok parse_x509 p ->
  frontend_setup root_add client_auth_cert fs_read e args = Some (client, addr) ->
  peer_certificates s = Some (leaf :: rest) -> spiffe_id_from_cert_der parse_x509 leaf = Some (Ok id) ->
  exists out tr' p',
    exec (frontend_main parse_x509 root_add client_auth_cert fs_read e args (HandshakeDone s) (Ok tt)
            (Some (Ok bytes))) tr p = Some (PASSED :: out, tr', p').
Proof.
  intros Hp Hc Hset Hs Hid. unfold frontend_main. rewrite exec_bind, Hset. cbn [lift exec].
  rewrite exec_bind. destruct (finish_exec s leaf rest id tr p Hp Hc Hs Hid) as [p' Hf].
  change (@connect _ (TlsClient_handshake parse_x509) ServiceEvent client addr (HandshakeDone s))
    with (finish (E := ServiceEvent) parse_x509 (HandshakeDone s)). rewrite Hf.
  rewrite exec_bind. cbn [emit exec unwrap ok]. rewrite exec_bind. cbn [lift exec]. by do 3 eexists.
Qed.
End Echo.

(** ** Start-up from bootstrapped files *)

Section Demo.
Context {KeyPair Certificate : Type}.
Context (keygen : nat -> result KeyPair str).
Context (self_signed : CertificateParams -> KeyPair -> result Certificate str).
Context (signed_by : CertificateParams -> KeyPair -> Certificate -> KeyPair -> result Certificate str).
Context (der : Certificate -> str) (serialize_der : KeyPair -> str).
Context (ia5_string : str -> result str str) (rng : nat -> nat -> result str str) (clock : nat -> Z).
Context (base64 : str -> str).
Context (create_dir_all : str -> result unit IoError) (fs_write : str -> result unit IoError).
Context (pem_certs : str -> result (list str) IoError).
Context (pem_private_key : str -> result (option PrivateKeyDer) IoError).
Context (server_name_try_from : str -> result str str).
Context (parse_x509 : str -> result (list X509Extension) str).
Context (root_add : str -> result unit TlsError).
Context (client_auth_cert : list str -> PrivateKeyDer -> result unit TlsError).
Context (single_cert : list str -> PrivateKeyDer -> result unit TlsError).
Context (client_verifier : list str -> result unit str).
Context (parsed_certificate : str -> result unit TlsError).
Context (signed_by_trust_anchor : list str -> str -> list str -> N -> result unit TlsError).

Lemma single_root ca : root_add ca = Ok tt -> root_store root_add [ca] = Ok [ca].
Proof. intros H. simpl. by rewrite H. Qed.

Lemma load_server_ok fs dir ca cert key :
  fs (path_join dir (bs "ca.der")) = Ok ca -> fs (path_join dir (bs "server.der")) = Ok cert ->
  fs (path_join dir (bs "server.key")) = Ok key ->
  root_add ca = Ok tt -> client_verifier [ca] = Ok tt -> single_cert [cert] (MkKey Pkcs8 key) = Ok tt ->
  load_server root_add single_cert client_verifier fs dir
    = Some (MkTlsServer (MkServerConfig [ca] [cert] (MkKey Pkcs8 key) alpn_protocols)).
Proof.
  intros F1 F2 F3 Hr Hv Hs. unfold load_server. rewrite F1, F2, F3. cbn [unwrap ok mbind option_bind].
  change (file_provider (bs "backend") ca)
    with (Some (MkFileProvider backend_id (MkTrustDomain (bs "example.local") [ca]))).
  cbn [mbind option_bind]. unfold server_new, server_new_with_alpn.
  change (ca_certs (get_trust_domain _)) with [ca]. rewrite single_root by done.
  cbn [rbind]. rewrite Hv. cbn [map_err rbind]. by rewrite Hs.
Qed.

Lemma frontend_setup_ok fs e name ca cert key :
  let dir := demo_dir e in
  fs (path_join dir (bs "ca.der")) = Ok ca -> fs (path_join dir (bs "client.der")) = Ok cert ->
  fs (path_join dir (bs "client.key")) = Ok key ->
  root_add ca = Ok tt -> client_auth_cert [cert] (MkKey Pkcs8 key) = Ok tt ->
  frontend_setup root_add client_auth_cert fs e [name]
    = Some (MkTlsClient (MkClientConfig [ca] (bs "example.local") (Some ([cert], MkKey Pkcs8 key)) alpn_protocols),
            socket_addr (V4 127 0 0 1) 8443).
Proof.
  intros dir F1 F2 F3 Hr Hs. unfold frontend_setup. change (arg_dir e [name]) with dir.
  rewrite F1, F2, F3. cbn [unwrap ok mbind option_bind].
  change (file_provider (bs "frontend") ca)
    with (Some (MkFileProvider frontend_id (MkTrustDomain (bs "example.local") [ca]))).
  cbn [mbind option_bind]. unfold client_with_auth, client_with_auth_alpn.
  change (ca_certs (get_trust_domain _)) with [ca]. rewrite single_root by done.
  cbn [rbind]. rewrite Hs. reflexivity.
Qed.

(** With the files of the bootstrap, backend and frontend start without
    arguments: both trust the written authority alone, the backend presents a
    certificate of the backend's identity and the frontend one of the
    frontend's, and the frontend connects to where the backend listens. *)
Theorem demo_starts e files files' missing bind name :
  libraries_agree self_signed signed_by der serialize_der ia5_string base64 pem_certs pem_private_key
    server_name_try_from parse_x509 root_add client_auth_cert single_cert client_verifier
    parsed_certificate signed_by_trust_anchor ->
  bootstrap keygen self_signed signed_by der serialize_der ia5_string rng clock base64 create_dir_all
    fs_write e files = Some files' ->
  bind (bs "0.0.0.0:8443") = Ok tt ->
  exists ca server_cert client_cert server client,
    backend_main root_add single_cert client_verifier (read_from files' missing) bind e [name]
      = Some (server, 8443%N)
    /\ frontend_setup root_add client_auth_cert (read_from files' missing) e [name]
      = Some (client, socket_addr (V4 127 0 0 1) 8443)
    /\ sc_roots (Handshake.acceptor server) = [ca] /\ cc_roots (connector client) = [ca]
    /\ sc_certs (Handshake.acceptor server) = [server_cert]
    /\ spiffe_id_from_cert_der parse_x509 server_cert = Some (Ok backend_id)
    /\ (exists key, cc_auth (connector client) = Some ([client_cert], key))
    /\ spiffe_id_from_cert_der parse_x509 client_cert = Some (Ok frontend_id).
Proof.
  intros L Hb Hbind.
  destruct (bootstrap_written _ _ _ _ _ _ _ _ _ _ _ _ _ _ Hb)
    as (ca & [sc sk] & [cc ck] & Hca & Hs & Hc & W).
  assert (Hi : issued parse_x509 root_add client_auth_cert single_cert client_verifier parsed_certificate
    ca backend_id (sc, sk)) by (eapply issue_issued; try done; by repeat split; apply utf8_ascii).
  assert (Hj : issued parse_x509 root_add client_auth_cert single_cert client_verifier parsed_certificate
    ca frontend_id (cc, ck)) by (eapply issue_issued; try done; by repeat split; apply utf8_ascii).
  destruct Hi as [Hid _ [Hr Hv] [Hsc _]], Hj as [Hjd _ _ [_ Hcc]], W as [[W1 _] [W2 _] [W3 _] [W4 _] [W5 _]].
  cbn [fst snd] in *. assert (Hread : forall p b, files' !! p = Some b -> read_from files' missing p = Ok b).
  { intros p b Hp. unfold read_from. by rewrite Hp. }
  exists (root_cert_der ca), sc, cc. do 2 eexists. split; [| split].
  - unfold backend_main. rewrite (load_server_ok _ _ (root_cert_der ca) sc sk) by auto.
    change (bind (bind_address (arg_port [name]))) with (bind (bs "0.0.0.0:8443")). by rewrite Hbind.
  - apply (frontend_setup_ok _ _ _ (root_cert_der ca) cc ck); auto.
  - cbn. by eauto 10.
Qed.
End Demo.
