(* ===== verification/Admin.v ===== *)
(** * The administrative HTTP server ([src/admin/mod.rs])

    Health, readiness and credential reload.  A reload handler is an interface
    ([ReloadHandler]); the server's theorems are proved against it and the
    credential reloader implements it. *)

From S2P Require Import Prelude Bytes Common Glob Identity Policy Net Metrics ProxyBase ConfigLoad.
From S2P Require Import Process Handshake Provider Reload.

(** A handler [H] acting on an outside world [W]: it returns a result and its
    new state. *)
Class ReloadHandler (W H : Type) := {
  handler_reload : W -> H -> eval (result unit InterlinkError * H);
}.

Record AdminServer (H : Type) := MkAdmin {
  port : N;
  ready : bool;
  shutdown : option (list watch_event);
  reload_handler : option H;
}.
Arguments MkAdmin {H} _ _ _ _.
Arguments port {H} _.
Arguments ready {H} _.
Arguments shutdown {H} _.
Arguments reload_handler {H} _.

(** ** The fixed responses *)

Definition CRLF : str := ["013"; "010"]%char.
Definition response_text (status content_length body : String.string) : str :=
  bs "HTTP/1.1 " ++ bs status ++ CRLF ++ bs "Content-Type: text/plain" ++ CRLF
  ++ bs "Content-Length: " ++ bs content_length ++ CRLF ++ bs "Connection: close" ++ CRLF
  ++ CRLF ++ bs body.

Definition HEALTH_RESPONSE : str := response_text "200 OK" "2" "ok".
Definition READY_RESPONSE : str := response_text "200 OK" "5" "ready".
Definition NOT_READY_RESPONSE : str := response_text "503 Service Unavailable" "9" "not ready".
Definition RELOAD_RESPONSE : str := response_text "200 OK" "15" "reload complete".
Definition RELOAD_FAILED_RESPONSE : str :=
  response_text "500 Internal Server Error" "13" "reload failed".
Definition RELOAD_UNAVAILABLE_RESPONSE : str :=
  response_text "503 Service Unavailable" "18" "reload unavailable".
Definition NOT_FOUND_RESPONSE : str := response_text "404 Not Found" "9" "not found".

Definition newline : byte := "010"%char.

Module Admin.
Section Server.
Context {W H : Type} `{ReloadHandler W H}.

Definition new : AdminServer H := MkAdmin ports.ADMIN true None None.
Definition with_port (self : AdminServer H) (p : N) : AdminServer H :=
  MkAdmin p (ready self) (shutdown self) (reload_handler self).
Definition with_shutdown (self : AdminServer H) (rx : list watch_event) : AdminServer H :=
  MkAdmin (port self) (ready self) (Some rx) (reload_handler self).
Definition with_reload_handler (self : AdminServer H) (h : H) : AdminServer H :=
  MkAdmin (port self) (ready self) (shutdown self) (Some h).
(** [Default::default]. *)
Definition default_server : AdminServer H := new.

Definition set_ready (self : AdminServer H) (r : bool) : AdminServer H :=
  MkAdmin (port self) r (shutdown self) (reload_handler self).

(** [wait_shutdown]: a fresh clone of the receiver resolves on the first change
    it has not seen, whatever the value, and when the sender is gone. *)
Definition wait_shutdown (rx : option (list watch_event)) : bool :=
  match rx with
  | Some (_ :: _) => true
  | Some [] | None => false
  end.

(** The first two whitespace-separated words of the first line. *)
Definition request_words (buf : str) : str * str :=
  let first_line := default [] (head (split (fun b => bool_decide (b = newline)) buf)) in
  let parts := words is_ascii_whitespace first_line in
  (default [] (parts !! 0), default [] (parts !! 1)).

(** One request: [received] is the result of the single [read] into a
    1024-byte buffer.  The response written, if any, and the handler's new
    state. *)
Definition respond (w : W) (self : AdminServer H) (method path : str) :
    eval (str * AdminServer H) :=
  if bool_decide (method = bs "GET") && bool_decide (path = bs "/healthz") then
    Some (HEALTH_RESPONSE, self)
  else if bool_decide (method = bs "GET") && bool_decide (path = bs "/readyz") then
    Some (if ready self then READY_RESPONSE else NOT_READY_RESPONSE, self)
  else if bool_decide (method = bs "POST") && bool_decide (path = bs "/reload") then
    match reload_handler self with
    | Some h =>
        '(r, h') ← handler_reload w h;
        let self' := MkAdmin (port self) (ready self) (shutdown self) (Some h') in
        Some (match r with Ok _ => RELOAD_RESPONSE | Err _ => RELOAD_FAILED_RESPONSE end, self')
    | None => Some (RELOAD_UNAVAILABLE_RESPONSE, self)
    end
  else Some (NOT_FOUND_RESPONSE, self).

Definition handle_request (w : W) (self : AdminServer H) (received : result str IoError) :
    eval (option str * AdminServer H) :=
  match received with
  | Err _ => Some (None, self)
  | Ok bytes =>
      let buf := take 1024 bytes in
      if bool_decide (buf = []) then Some (None, self)
      else
        let '(method, path) := request_words buf in
        '(response, self') ← respond w self method path;
        Some (Some response, self')
  end.

(** The accept loop: each turn of its [select!] has the signals that arrive
    during it and the branch that is taken.  An accepted connection is handled
    by a task of its own; the shutdown branch is open only when the wait on the
    receiver resolves. *)
Inductive event := Accepted (w : W) (received : result str IoError) | AcceptError | Shutdown.

Fixpoint run_loop (rx : option (list watch_event)) (self : AdminServer H)
    (turns : list (list watch_event * event)) : eval (list (option str) * AdminServer H) :=
  match turns with
  | [] => Some ([], self)
  | (arrived, ev) :: rest =>
      let rx := heard rx arrived in
      match ev with
      | Shutdown => if wait_shutdown rx then Some ([], self) else run_loop rx self rest
      | AcceptError => run_loop rx self rest
      | Accepted w received =>
          '(response, self') ← handle_request w self received;
          '(responses, self'') ← run_loop rx self' rest;
          Some (response :: responses, self'')
      end
  end.

Definition run (self : AdminServer H) (bind : result unit IoError)
    (turns : list (list watch_event * event)) : eval (list (option str) * AdminServer H) :=
  match bind with
  | Err _ => Some ([], self)
  | Ok _ => run_loop (shutdown self) self turns
  end.
End Server.
Arguments event W : clear implicits.
End Admin.

(** The credential reloader is a reload handler. *)
Section ReloaderHandler.
Context (path_display : str -> str) (io_display : IoError -> str).
Context (pem_certs : str -> result (list str) IoError).
Context (pem_private_key : str -> result (option PrivateKeyDer) IoError).
Context (server_name_try_from : str -> result str str).
Context (parse_x509 : str -> result (list X509Extension) str).
Context (root_add : str -> result unit TlsError).
Context (client_auth_cert : list str -> PrivateKeyDer -> result unit TlsError).
Context (single_cert : list str -> PrivateKeyDer -> result unit TlsError).
Context (client_verifier : list str -> result unit str).
Context (parsed_certificate : str -> result unit TlsError).
Context (signed_by_trust_anchor : list str -> str -> list str -> N -> result unit TlsError).

#[global] Instance Reloader_handler : ReloadHandler World TlsCredentialReloader := {|
  handler_reload :=
    reload path_display io_display pem_certs pem_private_key server_name_try_from parse_x509
      root_add client_auth_cert single_cert client_verifier parsed_certificate
      signed_by_trust_anchor;
|}.
End ReloaderHandler.

(** ** Facts *)

(** What an HTTP client checks of a response: the head ends at the first empty
    line, and the body has the length the head announces. *)
Definition framed (response : str) : bool :=
  match split_once response (CRLF ++ CRLF) with
  | Some (head, body) =>
      starts_with head (bs "HTTP/1.1 ")
      && str_contains (head ++ CRLF)
           (CRLF ++ bs "Content-Length: " ++ show_uint (N.of_nat (length body)) ++ CRLF)
      && str_contains (head ++ CRLF) (CRLF ++ bs "Connection: close" ++ CRLF)
  | None => false
  end.

Definition all_responses : list str :=
  [HEALTH_RESPONSE; READY_RESPONSE; NOT_READY_RESPONSE; RELOAD_RESPONSE; RELOAD_FAILED_RESPONSE;
   RELOAD_UNAVAILABLE_RESPONSE; NOT_FOUND_RESPONSE].

Lemma all_responses_framed : forallb framed all_responses = true.
Proof. by vm_compute. Qed.

Lemma newline_free_of f s :
  (forall b, f b = true -> b <> newline) -> forallb f s = true ->
  forallb (fun c => negb (bool_decide (c = newline))) s = true.
Proof.
  intros Hf Hs. rewrite forallb_forall in *. intros b Hb. apply negb_true_iff, bool_decide_eq_false_2.
  by apply Hf, Hs.
Qed.

(** A blank: whitespace within a line. *)
Definition is_blank (b : byte) : bool := is_ascii_whitespace b && negb (bool_decide (b = newline)).
Definition is_word (s : str) : bool :=
  negb (bool_decide (s = [])) && forallb (fun b => negb (is_ascii_whitespace b)) s.

(** The words found in a request line, however it is spaced. *)
Lemma request_words_spec s1 m s2 p t :
  forallb is_blank s1 = true -> forallb is_blank s2 = true -> s2 <> [] ->
  is_word m = true -> is_word p = true ->
  match t with [] => True | b :: _ => is_ascii_whitespace b = true end ->
  Admin.request_words (s1 ++ m ++ s2 ++ p ++ t) = (m, p).
Proof.
  intros H1 H2 Hne Hm Hp Ht. unfold is_word in *. bool_props.
  assert (Hb : forall s, forallb is_blank s = true -> forallb is_ascii_whitespace s = true).
  { intros s Hs. rewrite forallb_forall in *. intros b Hb%Hs. by apply andb_true_iff in Hb as [? _]. }
  assert (Hnb : forall b, is_blank b = true -> b <> newline).
  { intros b Hbl ->. by compute in Hbl. }
  assert (Hnw : forall b, negb (is_ascii_whitespace b) = true -> b <> newline).
  { intros b Hbl ->. by compute in Hbl. }
  unfold Admin.request_words.
  replace (s1 ++ m ++ s2 ++ p ++ t) with ((s1 ++ m ++ s2 ++ p) ++ t) by (by rewrite <- !app_assoc).
  rewrite head_split.
  2: { rewrite !forallb_app, !andb_true_iff.
       split; [|split; [|split]];
         [apply (newline_free_of is_blank) | apply (newline_free_of (fun b => negb (is_ascii_whitespace b)))
         | apply (newline_free_of is_blank) | apply (newline_free_of (fun b => negb (is_ascii_whitespace b)))];
         done. }
  cbn [default]. set (t' := default [] (head (split _ t))).
  assert (Ht' : match t' with [] => True | b :: _ => is_ascii_whitespace b = true end).
  { subst t'. destruct t as [|b t]; simpl; [done |]. case_bool_decide; simpl; [done |].
    by destruct (split _ t). }
  rewrite <- !app_assoc. cbv zeta. unfold id.
  rewrite words_skip by auto. rewrite words_word; [|done..|].
  2: { destruct s2 as [|b s2]; [done |]. simpl in H2. bool_props. by destruct (is_ascii_whitespace b) eqn:?; unfold is_blank in *; bool_props. }
  rewrite words_skip by auto. by rewrite words_word.
Qed.

(** ** Properties *)

(** C36: request dispatch: however the request line is spaced, and whatever
    follows it in the at most 1024 bytes of a request, the response is decided by its method and path alone:
    [GET /healthz], [GET /readyz] by the readiness flag, [POST /reload] by the
    reload handler, which is called exactly then and exactly once; anything else
    is not found and changes nothing. *)
Theorem admin_dispatch {W H} `{ReloadHandler W H} (w : W) (self : AdminServer H) s1 m s2 p t :
  forallb is_blank s1 = true -> forallb is_blank s2 = true -> s2 <> [] ->
  is_word m = true -> is_word p = true ->
  match t with [] => True | b :: _ => is_ascii_whitespace b = true end ->
  length (s1 ++ m ++ s2 ++ p ++ t) <= 1024 ->
  Admin.handle_request w self (Ok (s1 ++ m ++ s2 ++ p ++ t)) =
    if decide (m = bs "GET" /\ p = bs "/healthz") then Some (Some HEALTH_RESPONSE, self)
    else if decide (m = bs "GET" /\ p = bs "/readyz") then
      Some (Some (if ready self then READY_RESPONSE else NOT_READY_RESPONSE), self)
    else if decide (m = bs "POST" /\ p = bs "/reload") then
      match reload_handler self with
      | None => Some (Some RELOAD_UNAVAILABLE_RESPONSE, self)
      | Some h =>
          '(r, h') ← handler_reload w h;
          Some (Some (if is_ok r then RELOAD_RESPONSE else RELOAD_FAILED_RESPONSE),
                MkAdmin (port self) (ready self) (shutdown self) (Some h'))
      end
    else Some (Some NOT_FOUND_RESPONSE, self).
Proof.
  intros H1 H2 Hne Hm Hp Ht Hlen. unfold Admin.handle_request. cbv zeta.
  rewrite take_ge by done. rewrite bool_decide_false.
  2: { intros [_ [-> _]%app_nil]%app_nil. by vm_compute in Hm. }
  rewrite (request_words_spec s1 m s2 p t) by done. unfold Admin.respond.
  rewrite <- !bool_decide_and.
  destruct (decide (m = bs "GET" /\ p = bs "/healthz")) as [D1|D1];
    [by rewrite (bool_decide_true _ D1) | rewrite (bool_decide_false _ D1)].
  destruct (decide (m = bs "GET" /\ p = bs "/readyz")) as [D2|D2];
    [by rewrite (bool_decide_true _ D2) | rewrite (bool_decide_false _ D2)].
  destruct (decide (m = bs "POST" /\ p = bs "/reload")) as [D3|D3];
    [rewrite (bool_decide_true _ D3) | by rewrite (bool_decide_false _ D3)].
  destruct (reload_handler self) as [h|]; [|done].
  destruct (handler_reload w h) as [[[[]|e] h']|]; done.
Qed.

(** Every byte string the admin server ever writes is a complete HTTP
    response whose announced length is the length of its body; reading nothing
    writes nothing. *)
Theorem admin_responses_framed {W H} `{ReloadHandler W H} (w : W) (self self' : AdminServer H)
    received response :
  Admin.handle_request w self received = Some (response, self') ->
  match response with
  | Some bytes => framed bytes = true
  | None => self' = self /\ (received = Ok [] \/ exists e, received = Err e)
  end.
Proof.
  pose proof all_responses_framed as Hf. rewrite forallb_forall in Hf.
  unfold Admin.handle_request. destruct received as [bytes|e]; [|intros [= <- <-]; eauto].
  cbv zeta. destruct (bool_decide_reflect (take 1024 bytes = [])) as [Ht|_].
  { intros [= <- <-]. split; [done |]. left. by destruct bytes. }
  destruct (Admin.request_words _) as [m p]. unfold Admin.respond.
  assert (Hin : forall r, In r all_responses -> framed r = true) by done. intros H1.
  destruct (bool_decide _ && _); [injection H1 as <- _; apply Hin; simpl; tauto |].
  destruct (bool_decide _ && _); [injection H1 as <- _; apply Hin; destruct (ready self); simpl; tauto |].
  destruct (bool_decide _ && _); [|injection H1 as <- _; apply Hin; simpl; tauto].
  destruct (reload_handler self) as [h|]; [|injection H1 as <- _; apply Hin; simpl; tauto].
  destruct (handler_reload w h) as [[[[]|e] h']|]; simpl in H1; [| |done];
    injection H1 as <- _; apply Hin; simpl; tauto.
Qed.

(** A handler that counts its calls and fails on demand. *)
Module AdminDemo.
Record FixedReloadHandler := MkFixed { fail : bool; calls : N }.
#[export] Instance Fixed_handler : ReloadHandler unit FixedReloadHandler := {|
  handler_reload := fun _ h =>
    Some (if fail h then Err (Common.Config (bs "invalid replacement")) else Ok tt,
          MkFixed (fail h) (calls h + 1));
|}.
Definition server (f : bool) : AdminServer FixedReloadHandler :=
  Admin.with_reload_handler Admin.new (MkFixed f 0).

Lemma admin_dispatch_witness :
  Admin.handle_request tt (server true) (Ok (bs "POST  /reload HTTP/1.1"))
  = Some (Some RELOAD_FAILED_RESPONSE, Admin.with_reload_handler Admin.new (MkFixed true 1)).
Proof.
  change (bs "POST  /reload HTTP/1.1") with ([] ++ bs "POST" ++ bs "  " ++ bs "/reload" ++ bs " HTTP/1.1").
  rewrite (admin_dispatch tt (server true) [] (bs "POST") (bs "  ") (bs "/reload") (bs " HTTP/1.1"));
    [vm_compute; reflexivity | reflexivity | reflexivity | discriminate | reflexivity | reflexivity
    | reflexivity | vm_compute; lia].
Defined.

Lemma admin_responses_framed_witness : framed RELOAD_RESPONSE = true.
Proof.
  apply (admin_responses_framed tt (server false)
    (Admin.with_reload_handler Admin.new (MkFixed false 1)) (Ok (bs "POST /reload")) (Some RELOAD_RESPONSE)).
  vm_compute. reflexivity.
Defined.
End AdminDemo.
