(* ===== verification/AdminTasks.v ===== *)
(** * The admin server at work ([src/admin/mod.rs] over [src/proxy/reload.rs])

    Every accepted connection is handled by a task of its own, so requests for a
    reload run at the same time and meet at the reloader's lock.  Here the
    requests and the reloader are one machine: what the operator who has written
    new files and got an answer to [POST /reload] can rely on. *)

From S2P Require Import Prelude Bytes Common Glob Identity Policy Net Metrics ProxyBase ConfigLoad.
From S2P Require Import Process Handshake Provider Reload Rotation Admin.

Set Default Proof Using "Type".

(** The reloader behind the server's handle is shared; the outside world of one
    [reload().await] is what the call has returned. *)
#[export] Instance Call_handler : ReloadHandler (result unit InterlinkError) unit := {|
  handler_reload := fun r h => Some (r, h);
|}.

(** The task of one connection.  [since] is the index of the file system when the
    connection was accepted. *)
Inductive Request :=
| Reading (since : nat)                                          (** in [stream.read] *)
| Reloading (received : result str IoError) (since call : nat)   (** in [handler.reload().await] *)
| Responded (received : result str IoError) (since : nat) (response : option str).

Record Desk := MkDesk {
  server : AdminServer unit;
  rotation : Rotation;
  requests : list Request;
}.

Definition desk_new (self : AdminServer unit) (tls : TlsCredentialReloader) (disk : Disk) : Desk :=
  MkDesk self (rotation_new tls disk) [].

Inductive DeskLabel :=
| AcceptRequest
| Receive (k : nat) (received : result str IoError)
| Resume (k : nat)
| SetReady (r : bool)
| Rotate (l : Label).

(** The request leads to [handler.reload().await]. *)
Definition awaits_reload (self : AdminServer unit) (received : result str IoError) : bool :=
  match received with
  | Ok bytes =>
      negb (bool_decide (take 1024 bytes = []))
      && bool_decide (Admin.request_words (take 1024 bytes) = (bs "POST", bs "/reload"))
      && bool_decide (is_Some (reload_handler self))
  | Err _ => false
  end.

(** A request waits for this call of [reload]. *)
Definition waits_for (i : nat) (r : Request) : bool :=
  match r with Reloading _ _ j => j =? i | _ => false end.

Definition set_request (k : nat) (r : Request) (d : Desk) : Desk :=
  MkDesk (server d) (rotation d) (<[k := r]> (requests d)).

Section Desk.
(** The libraries, as in [Reload]. *)
Context (path_display : str -> str) (io_display : IoError -> str).
Context (pem_certs : str -> result (list str) IoError).
Context (pem_private_key : str -> result (option PrivateKeyDer) IoError).
Context (server_name_try_from : str -> result str str).
Context (parse_x509 : str -> result (list X509Extension) str).
Context (root_add : str -> result unit TlsError).
Context (client_auth_cert : list str -> PrivateKeyDer -> result unit TlsError).
Context (single_cert : list str -> PrivateKeyDer -> result unit TlsError).
Context (client_verifier : list str -> result unit str).
Context (parsed_certificate : str -> result unit TlsError).
Context (signed_by_trust_anchor : list str -> str -> list str -> N -> result unit TlsError).

Abbreviation turn := (rotate path_display io_display pem_certs pem_private_key server_name_try_from
  parse_x509 root_add client_auth_cert single_cert client_verifier parsed_certificate
  signed_by_trust_anchor).
Abbreviation turned := (rotation_step path_display io_display pem_certs pem_private_key server_name_try_from
  parse_x509 root_add client_auth_cert single_cert client_verifier parsed_certificate
  signed_by_trust_anchor).
Abbreviation build_gen := (build_generation path_display io_display pem_certs pem_private_key
  server_name_try_from parse_x509 root_add client_auth_cert single_cert client_verifier
  parsed_certificate signed_by_trust_anchor).

(** One step; [None] when it cannot be taken now.  A request is answered as
    [handle_request] answers it, at once or when its call of [reload] has
    returned.  The tasks are detached, so the call of a request is not dropped;
    other parts of the process may reload too, and drop their calls. *)
Definition desk_next (l : DeskLabel) (d : Desk) : option Desk :=
  match l with
  | AcceptRequest =>
      Some (MkDesk (server d) (rotation d) (requests d ++ [Reading (present (rotation d))]))
  | Receive k received =>
      match requests d !! k with
      | Some (Reading since) =>
          if awaits_reload (server d) received then
            s ← turn CallReload (rotation d);
            Some (MkDesk (server d) s
                    (<[k := Reloading received since (length (callers (rotation d)))]> (requests d)))
          else
            '(response, _) ← Admin.handle_request (Ok tt) (server d) received;
            Some (set_request k (Responded received since response) d)
      | _ => None
      end
  | Resume k =>
      match requests d !! k with
      | Some (Reloading received since i) =>
          match callers (rotation d) !! i with
          | Some (Returned _ r) =>
              '(response, _) ← Admin.handle_request r (server d) received;
              Some (set_request k (Responded received since response) d)
          | _ => None
          end
      | _ => None
      end
  | SetReady r => Some (MkDesk (Admin.set_ready (server d) r) (rotation d) (requests d))
  | Rotate l =>
      if match l with DropCaller i => existsb (waits_for i) (requests d) | _ => false end then None
      else s ← turn l (rotation d); Some (MkDesk (server d) s (requests d))
  end.

Definition desk_step : Desk -> Desk -> Prop := labelled desk_next.

(** ** The invariant *)

(** A request to reload waits for a call made after it was accepted; one that was
    told of success had such a call, which has returned it. *)
Definition request_ok (self : AdminServer unit) (s : Rotation) (r : Request) : Prop :=
  match r with
  | Reading a => a <= present s
  | Reloading received a i => awaits_reload self received = true /\ a <= present s
      /\ exists st, callers s !! i = Some st /\ st <> Dropped /\ forall n, since_of st = Some n -> a <= n
  | Responded received a response => response = Some RELOAD_RESPONSE ->
      exists i n, callers s !! i = Some (Returned n (Ok tt)) /\ a <= n
  end.

Record desk_inv (tls : TlsCredentialReloader) (disk : Disk) (d : Desk) : Prop := {
  desk_rotation : steps turned (rotation_new tls disk) (rotation d);
  desk_requests : forall k r, requests d !! k = Some r -> request_ok (server d) (rotation d) r;
}.

(** How the answer to a reload depends on the call. *)
Lemma reload_answer self received r :
  awaits_reload self received = true ->
  exists self', Admin.handle_request r self received
    = Some (Some (if is_ok r then RELOAD_RESPONSE else RELOAD_FAILED_RESPONSE), self').
Proof.
  unfold awaits_reload, Admin.handle_request. destruct received as [bytes|]; [|done]. intros H. bool_props.
  cbv zeta. rewrite bool_decide_false by done.
  match goal with H : Admin.request_words _ = _ |- _ => rewrite H end. unfold Admin.respond.
  match goal with H : is_Some (reload_handler self) |- _ => destruct H as [h Hh] end. rewrite Hh.
  eexists. by destruct r.
Qed.

(** Only a reload is answered as one. *)
Lemma other_answer self received response self' :
  awaits_reload self received = false ->
  Admin.handle_request (Ok tt) self received = Some (response, self') -> response <> Some RELOAD_RESPONSE.
Proof.
  unfold awaits_reload, Admin.handle_request. destruct received as [bytes|]; [|by intros _ [= <- _]]. intros Ha.
  cbv zeta. destruct (decide (take 1024 bytes = [])) as [Hb|Hb];
    [rewrite (bool_decide_true _ Hb); by intros [= <- _] | rewrite (bool_decide_false _ Hb) in *].
  destruct (Admin.request_words (take 1024 bytes)) as [m p].
  assert (Hno : ~ (m = bs "POST" /\ p = bs "/reload" /\ is_Some (reload_handler self))).
  { intros (-> & -> & Hh). by rewrite (bool_decide_true _ Hh), bool_decide_true in Ha. }
  clear Ha. unfold Admin.respond.
  repeat (case_bool_decide; cbn [andb]; try (intros [= <- _]; by try destruct (ready self)));
    (destruct (reload_handler self); [|by intros [= <- _]]); by destruct Hno.
Qed.

Lemma grown_present l s s' : turn l s = Some s' -> present s <= present s'.
Proof. intros (Hp & _)%rotate_grows. unfold present. apply prefix_length in Hp. lia. Qed.

(** What the requests rely on stays true when the reloader moves. *)
Lemma request_ok_turn self l s s' r :
  turn l s = Some s' ->
  (forall i, l = DropCaller i -> waits_for i r = false) ->
  request_ok self s r -> request_ok self s' r.
Proof.
  intros Ht Hl. pose proof (grown_present l s s' Ht) as Hp. destruct r as [a|received a i|received a response]; simpl.
  - lia.
  - intros (Hw & Ha & st & Hc & Hd & Hn). split; [done |]. split; [lia |].
    destruct (call_goes_on _ _ _ _ _ _ _ _ _ _ _ _ l s s' i st Ht Hc Hd) as (st' & Hc' & Hd' & Hs).
    { intros ->. specialize (Hl i eq_refl). simpl in Hl. by rewrite Nat.eqb_refl in Hl. }
    exists st'. split; [done |]. split; [done |]. intros n Hst'. destruct Hs as [Hs|Hs]; rewrite Hs in Hst'; [by apply Hn |].
    injection Hst' as <-. done.
  - intros H Hr. destruct (H Hr) as (i & n & Hc & Hn). exists i, n. split; [by eapply returned_stays | done].
Qed.

Lemma requests_insert (P : Request -> Prop) (rs : list Request) (k : nat) r :
  (forall (j : nat) x, rs !! j = Some x -> P x) -> P r -> forall (j : nat) x, <[k := r]> rs !! j = Some x -> P x.
Proof. intros Hall Hr j x [(_ & <- & _)|[_ Hj]]%list_lookup_insert_Some; [done | by eapply Hall]. Qed.

Lemma request_ok_ready self s r b : request_ok self s r -> request_ok (Admin.set_ready self b) s r.
Proof. by destruct r. Qed.

Lemma desk_inv_step tls disk d d' :
  desk_inv tls disk d -> desk_step d d' -> desk_inv tls disk d'.
Proof.
  intros [Hrot Hreq] [l Hl]. destruct l as [|k received|k|b|l]; cbn [desk_next] in Hl.
  - injection Hl as <-. split; [done |]. simpl. intros k r [Hk|[_ Hk]]%lookup_app_Some; [by eapply Hreq |].
    apply list_lookup_singleton_Some in Hk as [_ <-]. simpl. lia.
  - destruct (requests d !! k) as [[a| |]|] eqn:Hk; try done. pose proof (Hreq _ _ Hk) as Ha. simpl in Ha.
    destruct (awaits_reload (server d) received) eqn:Hw.
    + destruct (turn CallReload (rotation d)) as [s|] eqn:Ht; [|done]. injection Hl as <-. split; simpl.
      { eapply steps_snoc; [exact Hrot | by exists CallReload]. }
      apply requests_insert.
      * intros j x Hj. eapply request_ok_turn; [exact Ht | done | by eapply Hreq].
      * simpl in Ht. injection Ht as <-. split; [done |]. split; [done |]. exists Waiting. simpl.
        rewrite lookup_app_r, Nat.sub_diag by done. done.
    + destruct (Admin.handle_request (Ok tt) (server d) received) as [[response self']|] eqn:Hh; [|done].
      injection Hl as <-. split; [done |]. simpl. apply requests_insert; [done |]. intros ->.
      by destruct (other_answer _ _ _ _ Hw Hh).
  - destruct (requests d !! k) as [[|received a i|]|] eqn:Hk; try done.
    destruct (callers (rotation d) !! i) as [st|] eqn:Hc; [|done]. destruct st as [| | | |n r|]; try done.
    destruct (Hreq _ _ Hk) as (Hw & _ & st & Hc' & _ & Hn). destruct (reload_answer _ _ r Hw) as [self' Hh].
    rewrite Hh in Hl. injection Hl as <-. split; [done |]. simpl. apply requests_insert; [done |]. intros Hr.
    exists i, n. destruct r as [[]|e]; [|done]. split; [done |]. rewrite Hc in Hc'. injection Hc' as <-. by apply Hn.
  - injection Hl as <-. split; [done |]. intros k r Hk. by eapply request_ok_ready, Hreq.
  - destruct (match l with DropCaller i => _ | _ => false end) eqn:Hd; [done |].
    destruct (turn l (rotation d)) as [s|] eqn:Ht; [|done]. injection Hl as <-. split; simpl.
    { eapply steps_snoc; [exact Hrot | by exists l]. }
    intros k r Hk. eapply request_ok_turn; [exact Ht | | by eapply Hreq]. intros i ->.
    destruct (waits_for i r) eqn:E; [|done]. apply not_true_iff_false in Hd. destruct Hd.
    apply existsb_exists. exists r. split; [|done]. apply list_elem_of_In. by eapply list_elem_of_lookup_2.
Qed.

Lemma desk_reachable self tls disk d :
  steps desk_step (desk_new self tls disk) d -> desk_inv tls disk d.
Proof.
  apply steps_invariant; [|by apply desk_inv_step]. split; [constructor |]. done.
Qed.

(** The reloader's part of a run. *)
Lemma desk_turns d d' : steps desk_step d d' -> steps turned (rotation d) (rotation d').
Proof.
  induction 1 as [|d d1 d2 _ IH [l Hl]]; [constructor |].
  assert (Hor : rotation d2 = rotation d1 \/ turned (rotation d1) (rotation d2));
    [|destruct Hor as [-> |]; [done | by eapply steps_snoc]].
  destruct l as [|k received|k|b|l]; cbn [desk_next] in Hl.
  - injection Hl as <-. by left.
  - destruct (requests d1 !! k) as [[]|]; try done. destruct (awaits_reload (server d1) received).
    + injection Hl as <-. right. by exists CallReload.
    + destruct (Admin.handle_request (Ok tt) (server d1) received) as [[]|]; [|done]. injection Hl as <-. by left.
  - destruct (requests d1 !! k) as [[]|]; try done. destruct (callers (rotation d1) !! call) as [[]|]; try done.
    destruct (Admin.handle_request r (server d1) received) as [[]|]; [|done]. injection Hl as <-. by left.
  - injection Hl as <-. by left.
  - destruct (match l with DropCaller i => _ | _ => false end); [done |].
    destruct (turn l (rotation d1)) as [s|] eqn:Ht; [|done]. injection Hl as <-. right. by exists l.
Qed.

(** ** Progress *)

(** The steps of requests that wait for a reload, and of the reloads. *)
Definition drives (l : DeskLabel) : bool :=
  match l with Resume _ => true | Rotate l => of_a_call l | _ => false end.

Definition is_reloading (r : Request) : bool := match r with Reloading _ _ _ => true | _ => false end.
Definition desk_work (d : Desk) : nat := work (rotation d) + count is_reloading (requests d).

Lemma desk_work_decreases tls disk d d' l :
  desk_inv tls disk d -> drives l = true -> desk_next l d = Some d' -> desk_work d' < desk_work d.
Proof.
  intros [Hrot _] Hd Hl. destruct l as [|k received|k|b|l]; try done; cbn [desk_next] in Hl.
  - destruct (requests d !! k) as [[|received a i|]|] eqn:Hk; try done.
    destruct (callers (rotation d) !! i) as [[]|]; try done.
    destruct (Admin.handle_request r (server d) received) as [[]|]; [|done]. injection Hl as <-.
    unfold desk_work. simpl. match goal with |- context [<[k := ?y]> _] =>
      pose proof (count_insert is_reloading (requests d) k _ y Hk) as Hc end. simpl in Hc. lia.
  - destruct (match l with DropCaller i => _ | _ => false end); [done |].
    destruct (turn l (rotation d)) as [s|] eqn:Ht; [|done]. injection Hl as <-. unfold desk_work. simpl.
    assert (work s < work (rotation d)); [|lia].
    eapply (work_decreases _ _ _ _ _ _ _ _ _ _ _ _ tls); [by eapply rotated_inv | exact Hd | exact Ht].
Qed.

(** A request that waits can go on, or the reloads ahead of it can. *)
Lemma waiting_request_driven tls disk d k received a i :
  parser_utf8 parse_x509 -> desk_inv tls disk d -> requests d !! k = Some (Reloading received a i) ->
  exists l d', drives l = true /\ desk_next l d = Some d'.
Proof.
  intros Hp Hi Hk. destruct (desk_requests _ _ _ Hi _ _ Hk) as (Hw & _ & st & Hc & Hd & _).
  pose proof (rotated_inv _ _ _ _ _ _ _ _ _ _ _ _ _ _ _ (desk_rotation _ _ _ Hi)) as Hri.
  assert (Hcase : active st \/ exists n r, st = Returned n r).
  { destruct st; try done; [by left; left | left; right; by eexists.. | right; by eauto]. }
  destruct Hcase as [Ha|(n & r & ->)].
  - assert (Hin : i ∈ lock_queue (rotation d)) by (apply (inv_members _ _ _ _ _ _ _ _ _ _ _ _ _ _ Hri); eauto).
    destruct (head (lock_queue (rotation d))) as [j|] eqn:Hh; [|destruct (lock_queue _); [by apply elem_of_nil in Hin | done]].
    destruct (head_acts _ _ _ _ _ _ _ _ _ _ _ _ _ _ j Hp Hri Hh) as (l & s & Hl & Hnd & Ht).
    exists (Rotate l), (MkDesk (server d) s (requests d)). split; [done |]. cbn [desk_next]. rewrite Ht.
    destruct l; try done. by destruct (Hnd i0).
  - exists (Resume k). cbn [drives desk_next]. rewrite Hk, Hc. destruct (reload_answer _ _ r Hw) as [self' ->]. by eexists.
Qed.

(** ** Properties *)

(** C16: an operator who writes new files, asks for a reload and is told that it is
    complete can rely on it: every handshake begun after the answer uses
    credentials read from the files as they were when the request was accepted
    or later, never older ones, whichever other requests and reloads ran at the
    same time and whatever was dropped; if the files have not changed since,
    exactly theirs. *)
Theorem reload_request_observed self tls disk d d' k received since h gen :
  steps desk_step (desk_new self tls disk) d ->
  requests d !! k = Some (Responded received since (Some RELOAD_RESPONSE)) ->
  steps desk_step d d' ->
  length (handshakes (rotation d)) <= h -> handshakes (rotation d') !! h = Some gen ->
  exists a b c f0 f1 f2 now, since <= a /\ a <= b /\ b <= c
    /\ history (rotation d') !! a = Some f0 /\ history (rotation d') !! b = Some f1
    /\ history (rotation d') !! c = Some f2
    /\ build_gen (fs_read (reads f0 f1 f2 now)) now (paths (reloader (rotation d')))
         (expected_identity (reloader (rotation d'))) (mux_enabled (reloader (rotation d'))) = Some (Ok gen)
    /\ (present (rotation d') = since -> f0 = f1 /\ f1 = f2).
Proof.
  intros Hs Hk Hs' Hh Hg. pose proof (desk_reachable _ _ _ _ Hs) as Hi.
  destruct (desk_requests _ _ _ Hi _ _ Hk eq_refl) as (i & n & Hc & Hn).
  destruct (reload_takes_effect _ _ _ _ _ _ _ _ _ _ _ _ tls disk (rotation d) (rotation d') i n h gen
    (desk_rotation _ _ _ Hi) Hc (desk_turns _ _ Hs') Hh Hg)
    as (a & b & c & f0 & f1 & f2 & now & ? & ? & ? & H0 & H1 & H2 & Hb & Heq).
  exists a, b, c, f0, f1, f2, now. split; [lia |]. repeat (split; [done |]). intros Hp. apply Heq.
  unfold present in *. apply lookup_lt_Some in H2. lia.
Qed.

(** C26: no request for a reload hangs, however many arrive at the same time and
    whatever the files hold: as long as one waits, a step of a request or of a
    reload can be taken, and each such step brings the whole closer to the end,
    by a measure of at most 7 per call and one per request. *)
Theorem reload_requests_answered self tls disk d :
  parser_utf8 parse_x509 -> steps desk_step (desk_new self tls disk) d ->
  desk_work d <= 7 * length (callers (rotation d)) + length (requests d)
  /\ (forall l d', drives l = true -> desk_next l d = Some d' -> desk_work d' < desk_work d)
  /\ (forall k received since call, requests d !! k = Some (Reloading received since call) ->
        exists l d', drives l = true /\ desk_next l d = Some d').
Proof.
  intros Hp Hs. pose proof (desk_reachable _ _ _ _ Hs) as Hi. split; [|split].
  - destruct (reloads_return _ _ _ _ _ _ _ _ _ _ _ _ tls disk (rotation d) Hp (desk_rotation _ _ _ Hi)) as [Hw _].
    unfold desk_work. pose proof (count_le_length is_reloading (requests d)). lia.
  - intros l d' Hd Hl. by eapply desk_work_decreases.
  - intros k received since call Hk. by eapply waiting_request_driven.
Qed.
End Desk.

(** Two operators ask for a reload, the second after the files have changed. *)
Module DeskDemo.
Abbreviation next := (desk_next id (fun _ => []) (fun _ => Ok []) (fun _ => Ok None) Ok Demo.parse
  (fun _ => Ok tt) (fun _ _ => Ok tt) (fun _ _ => Ok tt) (fun _ => Ok tt) (fun _ => Ok tt)
  (fun _ _ _ _ => Ok tt)).
Definition post : result str IoError := Ok (bs "POST /reload HTTP/1.1").
Definition first : Desk :=
  desk_new (Admin.with_reload_handler Admin.new tt) ReloadDemo.initial RotationDemo.disk.
Definition asking : list DeskLabel :=
  [AcceptRequest; Receive 0 post; Rotate (Acquire 0); Rotate (ReadNext 0); Rotate (Change RotationDemo.newer);
   AcceptRequest; Receive 1 post].
Definition answering : list DeskLabel :=
  [Rotate (ReadNext 0); Rotate (ReadNext 0); Rotate (Build 0 5); Rotate (Store 0); Rotate (ReleaseLock 0);
   Resume 0; Rotate (Acquire 1); Rotate (ReadNext 1); Rotate (ReadNext 1); Rotate (ReadNext 1);
   Rotate (Build 1 6); Rotate (Store 1); Rotate (ReleaseLock 1); Resume 1].
Definition asked : Desk := default first (run_labels next asking first).
Definition answered : Desk := default first (run_labels next answering asked).
Definition after : Desk := default first (run_labels next [Rotate BeginHandshake] answered).

Lemma first_asked : run_labels next asking first = Some asked.
Proof. vm_compute. reflexivity. Qed.
Lemma asked_answered : run_labels next answering asked = Some answered.
Proof. vm_compute. reflexivity. Qed.
Lemma answered_after : run_labels next [Rotate BeginHandshake] answered = Some after.
Proof. vm_compute. reflexivity. Qed.

Lemma reload_request_observed_witness :
  exists a : nat, 1 <= a /\ history (rotation after) !! a = Some RotationDemo.newer.
Proof.
  destruct (reload_request_observed id (fun _ => []) (fun _ => Ok []) (fun _ => Ok None) Ok Demo.parse
    (fun _ => Ok tt) (fun _ _ => Ok tt) (fun _ _ => Ok tt) (fun _ => Ok tt) (fun _ => Ok tt)
    (fun _ _ _ _ => Ok tt) (Admin.with_reload_handler Admin.new tt) ReloadDemo.initial RotationDemo.disk
    answered after 1 post 1 0 (generation (reloader (rotation after))))
    as (a & b & c & f0 & f1 & f2 & now & Ha & Hb & Hc & H0 & _);
    [exact (steps_trans _ _ _ _ (run_labels_steps next _ _ _ first_asked) (run_labels_steps next _ _ _ asked_answered))
    | vm_compute; reflexivity
    | exact (run_labels_steps next _ _ _ answered_after)
    | vm_compute; lia | vm_compute; reflexivity |].
  exists a. split; [assumption |]. pose proof (lookup_lt_Some _ _ _ H0) as Hlt.
  change (length (history (rotation after))) with 2 in Hlt. assert (a = 1) as -> by lia. reflexivity.
Defined.

Lemma reload_requests_answered_witness :
  exists l d', drives l = true /\ next l asked = Some d'.
Proof.
  apply (proj2 (proj2 (reload_requests_answered id (fun _ => []) (fun _ => Ok []) (fun _ => Ok None) Ok Demo.parse
    (fun _ => Ok tt) (fun _ _ => Ok tt) (fun _ _ => Ok tt) (fun _ => Ok tt) (fun _ => Ok tt)
    (fun _ _ _ _ => Ok tt) (Admin.with_reload_handler Admin.new tt) ReloadDemo.initial RotationDemo.disk
    asked Demo.parse_utf8 (run_labels_steps next _ _ _ first_asked))) 1 post 1 1).
  vm_compute. reflexivity.
Defined.
End DeskDemo.
