(* ===== verification/Dns.v ===== *)
(** * DNS service discovery ([src/discovery/dns.rs])

    The cache with expiry and the leader election by semaphore.  [resolve] is
    given twice: as the function one caller computes when it runs alone, and as
    the atomic actions of a task, which interleave with those of other tasks on
    the shared maps.  The resolver library is a parameter. *)

From S2P Require Import Prelude Bytes Common Glob Identity Net.

(** Time in nanoseconds. *)
Abbreviation Instant := N (only parsing).

Definition DNS_CACHE_TTL : N := 30 * 1000000000.

Record ResolvedEndpoints := MkEndpoints { addrs : list SocketAddr; spiffe_id : option SpiffeId }.

Record CacheEntry := MkEntry { endpoints : option ResolvedEndpoints; expires_at : N }.

(** The trait: a resolver answers a name. *)
Class DnsResolver (R : Type) := {
  lookup_name : R -> str -> result (list SocketAddr) InterlinkError;
}.

(** The production resolver: [lookup_ip] of the library, every address with
    port 0. *)
Record HickoryResolver := MkHickory { lookup_ip : str -> result (list IpAddr) str }.

(** [HickoryResolver::new]: [builder] is what [TokioResolver::builder_tokio] gives,
    and [build] its [build]; both errors go to the caller. *)
Definition hickory_new {B E} (builder : result B E)
    (build : B -> result (str -> result (list IpAddr) str) E) : result HickoryResolver E :=
  b <-? builder ;;
  inner <-? build b ;;
  Ok (MkHickory inner).

#[global] Instance Hickory_resolver : DnsResolver HickoryResolver := {|
  lookup_name := fun r name =>
    ips <-? map_err (fun e => DnsResolution (bs "lookup failed: " ++ e)) (lookup_ip r name) ;;
    Ok (map (fun ip => socket_addr ip 0) ips);
|}.

Definition is_expired (now : N) (e : CacheEntry) : bool := (expires_at e <=? now)%N.

(** The fast path: a valid cached entry. *)
Definition cached_fresh (now : N) (entry : option CacheEntry) : option ResolvedEndpoints :=
  match entry with
  | Some e => if negb (is_expired now e) then endpoints e else None
  | None => None
  end.

Definition resolve_inner (answer : result (list SocketAddr) InterlinkError) :
    result ResolvedEndpoints InterlinkError :=
  a <-? answer ;; Ok (MkEndpoints a None).

(** What a waiter reads once the leader is done. *)
Definition waiter_result (entry : option CacheEntry) : result ResolvedEndpoints InterlinkError :=
  ok_or (e ← entry; endpoints e) (DnsResolution (bs "lookup failed")).

(** ** Tasks and the shared state *)

(** Where a call of [resolve] stands between two of its atomic actions; [sem]
    is the index of the semaphore it has cloned. *)
Inductive Task :=
| Start (name : str)
| Elect (name : str)
| Cloned (name : str) (sem : nat)
| Leader (name : str) (sem : nat)
| Looked (name : str) (sem : nat) (r : result ResolvedEndpoints InterlinkError)
| Stored (name : str) (sem : nat) (r : result ResolvedEndpoints InterlinkError)
| Removed (name : str) (sem : nat) (r : result ResolvedEndpoints InterlinkError)
| Waiter (name : str) (sem : nat)
| Woken (name : str) (sem : nat)
| ReadCache (name : str) (sem : nat) (r : result ResolvedEndpoints InterlinkError)
| Returned (name : str) (r : result ResolvedEndpoints InterlinkError)
| Cancelled (name : str).   (** its future was dropped *)

(** The discovery object (its resolver is what answers a leader's lookup, see
    [step_task]), the semaphores it has created (their free permits),
    the calls in progress and the clock.  [answers] records what the resolver
    has answered, for the statements only. *)
Record ServiceDiscovery := MkDisc {
  cache : gmap (list Ascii.ascii) CacheEntry;
  in_flight : gmap (list Ascii.ascii) nat;
  ttl : N;
  sems : list nat;
  tasks : list Task;
  now : N;
  answers : list (str * list SocketAddr);
}.

Module Disc.

Definition with_resolver (t : N) : ServiceDiscovery := MkDisc ∅ ∅ t [] [] 0 [].
(** Building the production resolver may fail. *)
Definition new (resolver_new : result unit str) : result ServiceDiscovery str :=
  _ <-? resolver_new ;; Ok (with_resolver DNS_CACHE_TTL).

Definition set_task (i : nat) (t : Task) (s : ServiceDiscovery) : ServiceDiscovery :=
  MkDisc (cache s) (in_flight s) (ttl s) (sems s) (<[i := t]> (tasks s)) (now s) (answers s).
Definition set_permits (k n : nat) (s : ServiceDiscovery) : ServiceDiscovery :=
  MkDisc (cache s) (in_flight s) (ttl s) (<[k := n]> (sems s)) (tasks s) (now s) (answers s).

(** [try_acquire] and the wake-up of [acquire]: take the permit if it is free. *)
Definition take_permit (k : nat) (s : ServiceDiscovery) : option ServiceDiscovery :=
  match sems s !! k with
  | Some (S n) => Some (set_permits k n s)
  | _ => None
  end.
(** Dropping a permit. *)
Definition drop_permit (k : nat) (s : ServiceDiscovery) : ServiceDiscovery :=
  set_permits k (S (default 0 (sems s !! k))) s.

(** [in_flight.entry(name).or_insert_with(..).clone()] *)
Definition clone_semaphore (name : str) (s : ServiceDiscovery) : nat * ServiceDiscovery :=
  match in_flight s !! name with
  | Some k => (k, s)
  | None =>
      let k := length (sems s) in
      (k, MkDisc (cache s) (<[name := k]> (in_flight s)) (ttl s) (sems s ++ [1]) (tasks s) (now s)
            (answers s))
  end.

(** [cache.insert(name, CacheEntry { .. expires_at: Instant::now() + ttl })] *)
Definition store (name : str) (r : result ResolvedEndpoints InterlinkError) (s : ServiceDiscovery) :
    ServiceDiscovery :=
  MkDisc (<[name := MkEntry (ok r) (now s + ttl s)%N]> (cache s)) (in_flight s) (ttl s) (sems s)
    (tasks s) (now s) (answers s).

(** [in_flight.remove(name)] *)
Definition remove_in_flight (name : str) (s : ServiceDiscovery) : ServiceDiscovery :=
  MkDisc (cache s) (delete name (in_flight s)) (ttl s) (sems s) (tasks s) (now s) (answers s).

Definition note_answer (name : str) (a : result (list SocketAddr) InterlinkError)
    (s : ServiceDiscovery) : ServiceDiscovery :=
  MkDisc (cache s) (in_flight s) (ttl s) (sems s) (tasks s) (now s)
    (match a with Ok l => (name, l) :: answers s | Err _ => answers s end).

(** The next atomic action of task [i]; [answer] is what the resolver says if
    the action is a lookup.  [None]: the task is done or blocked. *)
Definition step_task (answer : result (list SocketAddr) InterlinkError) (i : nat)
    (s : ServiceDiscovery) : option ServiceDiscovery :=
  match tasks s !! i with
  | None => None
  | Some (Start name) =>
      match cached_fresh (now s) (cache s !! name) with
      | Some ep => Some (set_task i (Returned name (Ok ep)) s)
      | None => Some (set_task i (Elect name) s)
      end
  | Some (Elect name) =>
      let '(k, s') := clone_semaphore name s in Some (set_task i (Cloned name k) s')
  | Some (Cloned name k) =>
      match take_permit k s with
      | Some s' => Some (set_task i (Leader name k) s')
      | None => Some (set_task i (Waiter name k) s)
      end
  | Some (Leader name k) =>
      Some (set_task i (Looked name k (resolve_inner answer)) (note_answer name answer s))
  | Some (Looked name k r) => Some (set_task i (Stored name k r) (store name r s))
  | Some (Stored name k r) => Some (set_task i (Removed name k r) (remove_in_flight name s))
  | Some (Removed name k r) => Some (set_task i (Returned name r) (drop_permit k s))
  | Some (Waiter name k) =>
      match take_permit k s with
      | Some s' => Some (set_task i (Woken name k) s')
      | None => None
      end
  | Some (Woken name k) => Some (set_task i (ReadCache name k (waiter_result (cache s !! name))) s)
  | Some (ReadCache name k r) => Some (set_task i (Returned name r) (drop_permit k s))
  | Some (Returned _ _) | Some (Cancelled _) => None
  end.

(** [clear_cache], a new call, and the passing of time. *)
Definition clear_cache (s : ServiceDiscovery) : ServiceDiscovery :=
  MkDisc ∅ (in_flight s) (ttl s) (sems s) (tasks s) (now s) (answers s).
Definition call (name : str) (s : ServiceDiscovery) : ServiceDiscovery :=
  MkDisc (cache s) (in_flight s) (ttl s) (sems s) (tasks s ++ [Start name]) (now s) (answers s).
Definition tick (d : N) (s : ServiceDiscovery) : ServiceDiscovery :=
  MkDisc (cache s) (in_flight s) (ttl s) (sems s) (tasks s) (now s + d)%N (answers s).

(** One caller alone, from its call to its return. *)
Definition resolve (lookup : str -> result (list SocketAddr) InterlinkError) (name : str)
    (c : gmap (list Ascii.ascii) CacheEntry) (t : N) (time : N) :
    result ResolvedEndpoints InterlinkError * gmap (list Ascii.ascii) CacheEntry :=
  match cached_fresh time (c !! name) with
  | Some ep => (Ok ep, c)
  | None =>
      let r := resolve_inner (lookup name) in
      (r, <[name := MkEntry (ok r) (time + t)%N]> c)
  end.

(** Run task [i] for [n] actions. *)
Fixpoint run_task (lookup : str -> result (list SocketAddr) InterlinkError) (name : str) (n i : nat)
    (s : ServiceDiscovery) : ServiceDiscovery :=
  match n with
  | 0 => s
  | S n' =>
      match step_task (lookup name) i s with
      | Some s' => run_task lookup name n' i s'
      | None => s
      end
  end.

End Disc.

(** The drop of a call's future at one of its awaits (the lookup of a leader, the
    acquire of a waiter): it drops the permit but neither fills the cache nor
    removes the in-flight entry. *)
Definition cancel_call (i : nat) (s : ServiceDiscovery) : option ServiceDiscovery :=
  match tasks s !! i with
  | Some (Leader name k) => Some (Disc.set_task i (Cancelled name) (Disc.drop_permit k s))
  | Some (Waiter name k) => Some (Disc.set_task i (Cancelled name) s)
  | _ => None
  end.

Inductive disc_step : ServiceDiscovery -> ServiceDiscovery -> Prop :=
| disc_task answer i s s' : Disc.step_task answer i s = Some s' -> disc_step s s'
| disc_call name s : disc_step s (Disc.call name s)
| disc_tick d s : disc_step s (Disc.tick d s)
| disc_clear s : disc_step s (Disc.clear_cache s)
| disc_cancel i s s' : cancel_call i s = Some s' -> disc_step s s'.

(** ** The invariant *)

Definition task_name (t : Task) : str :=
  match t with
  | Start n | Elect n | Cloned n _ | Leader n _ | Looked n _ _ | Stored n _ _ | Removed n _ _
  | Waiter n _ | Woken n _ | ReadCache n _ _ | Returned n _ | Cancelled n => n
  end.

Definition task_sem (t : Task) : option nat :=
  match t with
  | Start _ | Elect _ | Returned _ _ | Cancelled _ => None
  | Cloned _ k | Leader _ k | Looked _ k _ | Stored _ k _ | Removed _ k _
  | Waiter _ k | Woken _ k | ReadCache _ k _ => Some k
  end.

(** The task holds a permit of semaphore [k]. *)
Definition holds (k : nat) (t : Task) : bool :=
  match t with
  | Leader _ j | Looked _ j _ | Stored _ j _ | Removed _ j _ | Woken _ j | ReadCache _ j _ => j =? k
  | _ => false
  end.

Definition task_result (t : Task) : option (result ResolvedEndpoints InterlinkError) :=
  match t with
  | Looked _ _ r | Stored _ _ r | Removed _ _ r | ReadCache _ _ r | Returned _ r => Some r
  | _ => None
  end.

Record disc_wf (s : ServiceDiscovery) : Prop := {
  (** every semaphore has one permit, free or held by one task *)
  wf_permits : forall k p, sems s !! k = Some p -> p + count (holds k) (tasks s) = 1;
  wf_task_sem : forall i t k, tasks s !! i = Some t -> task_sem t = Some k -> k < length (sems s);
  wf_in_flight : forall name k, in_flight s !! name = Some k -> k < length (sems s);
  (** no entry lives longer than the time to live *)
  wf_expiry : forall name e, cache s !! name = Some e -> (expires_at e <= now s + ttl s)%N;
  (** what is cached or returned is an answer the resolver gave for the name *)
  wf_cache : forall name e ep, cache s !! name = Some e -> endpoints e = Some ep ->
    (name, addrs ep) ∈ answers s /\ spiffe_id ep = None;
  wf_result : forall i t ep, tasks s !! i = Some t -> task_result t = Some (Ok ep) ->
    (task_name t, addrs ep) ∈ answers s /\ spiffe_id ep = None;
}.

Lemma lookup_set_task (l : list Task) i t j u :
  <[i := t]> l !! j = Some u -> (i = j /\ u = t) \/ l !! j = Some u.
Proof.
  intros H. destruct (decide (i = j)) as [->|].
  - left. split; [done |]. pose proof (lookup_lt_Some _ _ _ H) as Hl.
    rewrite length_insert in Hl. rewrite list_lookup_insert_eq in H by done. congruence.
  - right. by rewrite list_lookup_insert_ne in H.
Qed.

(** A task moves on without touching a permit. *)
Lemma wf_set_task s i t t' :
  disc_wf s -> tasks s !! i = Some t -> (forall k, holds k t' = holds k t) ->
  (forall k, task_sem t' = Some k -> k < length (sems s)) ->
  (forall ep, task_result t' = Some (Ok ep) ->
     (task_name t', addrs ep) ∈ answers s /\ spiffe_id ep = None) ->
  disc_wf (Disc.set_task i t' s).
Proof.
  intros [Hp Hs Hi He Hc Hr] Ht Hh Hk Hres. split; simpl; try done.
  - intros k p Hl. specialize (Hp _ _ Hl). pose proof (count_insert (holds k) _ _ _ t' Ht) as H.
    rewrite Hh in H. lia.
  - intros j u k [[-> ->]|Hu]%lookup_set_task; [apply Hk | by eapply Hs].
  - intros j u ep [[-> ->]|Hu]%lookup_set_task; [apply Hres | by eapply Hr].
Qed.

(** A task takes a free permit. *)
Lemma wf_take s s' i t t' k :
  disc_wf s -> tasks s !! i = Some t -> Disc.take_permit k s = Some s' ->
  (forall j, holds j t = false) -> (forall j, holds j t' = (k =? j)) ->
  task_sem t' = Some k -> task_result t' = None ->
  disc_wf (Disc.set_task i t' s').
Proof.
  intros [Hp Hs Hi He Hc Hr] Ht Htk Ho Hn Hsem Hres. unfold Disc.take_permit in Htk.
  destruct (sems s !! k) as [[|n]|] eqn:Ek; [done | | done]. injection Htk as <-.
  pose proof (lookup_lt_Some _ _ _ Ek) as Hlt. split; simpl; try done.
  - intros j p Hl. pose proof (count_insert (holds j) _ _ _ t' Ht) as H. rewrite Ho, Hn in H.
    destruct (Nat.eqb_spec k j) as [<-|Hne].
    + rewrite list_lookup_insert_eq in Hl by done. injection Hl as <-. specialize (Hp _ _ Ek). lia.
    + rewrite list_lookup_insert_ne in Hl by done. specialize (Hp _ _ Hl). lia.
  - intros j u m [[-> ->]|Hu]%lookup_set_task; rewrite length_insert; [congruence | by eapply Hs].
  - intros name m Hm. rewrite length_insert. by eapply Hi.
  - intros j u ep [[-> ->]|Hu]%lookup_set_task; [by rewrite Hres | by eapply Hr].
Qed.

(** A task drops its permit. *)
Lemma wf_drop s i t t' k :
  disc_wf s -> tasks s !! i = Some t ->
  (forall j, holds j t = (k =? j)) -> (forall j, holds j t' = false) ->
  task_sem t = Some k -> task_sem t' = None ->
  (forall ep, task_result t' = Some (Ok ep) ->
     (task_name t', addrs ep) ∈ answers s /\ spiffe_id ep = None) ->
  disc_wf (Disc.set_task i t' (Disc.drop_permit k s)).
Proof.
  intros [Hp Hs Hi He Hc Hr] Ht Ho Hn Hsem Hsem' Hres. pose proof (Hs _ _ _ Ht Hsem) as Hlt.
  destruct (lookup_lt_is_Some_2 (sems s) k Hlt) as [n Ek].
  unfold Disc.drop_permit. rewrite Ek. split; simpl; try done.
  - intros j p Hl. pose proof (count_insert (holds j) _ _ _ t' Ht) as H. rewrite Ho, Hn in H.
    destruct (Nat.eqb_spec k j) as [<-|Hne].
    + rewrite list_lookup_insert_eq in Hl by done. injection Hl as <-. specialize (Hp _ _ Ek). lia.
    + rewrite list_lookup_insert_ne in Hl by done. specialize (Hp _ _ Hl). lia.
  - intros j u m [[-> ->]|Hu]%lookup_set_task; rewrite length_insert; [congruence | by eapply Hs].
  - intros name m Hm. rewrite length_insert. by eapply Hi.
  - intros j u ep [[-> ->]|Hu]%lookup_set_task; [apply Hres | by eapply Hr].
Qed.

Lemma holds_sem k t : holds k t = true -> task_sem t = Some k.
Proof. destruct t; simpl; try done; by intros ->%Nat.eqb_eq. Qed.

Lemma wf_clone s name k s' :
  disc_wf s -> Disc.clone_semaphore name s = (k, s') ->
  disc_wf s' /\ k < length (sems s') /\ tasks s' = tasks s /\ in_flight s' !! name = Some k.
Proof.
  intros Hwf. pose proof Hwf as [Hp Hs Hi He Hc Hr]. unfold Disc.clone_semaphore.
  destruct (in_flight s !! name) as [j|] eqn:Ej; intros [= <- <-]; [eauto 10 |].
  simpl. rewrite length_app. simpl. split; [|split; [lia |]; by rewrite lookup_insert_eq].
  split; simpl; try done.
  - intros m p [Hl|[Hge Hl]]%lookup_app_Some; [by apply Hp |].
    apply list_lookup_singleton_Some in Hl as [Hm <-].
    rewrite count_zero; [done |]. intros i t Ht. destruct (holds m t) eqn:Eh; [|done].
    apply holds_sem in Eh. specialize (Hs _ _ _ Ht Eh). lia.
  - intros i t m Ht Hm. rewrite length_app. specialize (Hs _ _ _ Ht Hm). simpl. lia.
  - intros n' m [[-> <-]|[Hne Hm]]%lookup_insert_Some; rewrite length_app; simpl; [lia |].
    specialize (Hi _ _ Hm). lia.
Qed.

Lemma wf_store s name r :
  disc_wf s -> (forall ep, r = Ok ep -> (name, addrs ep) ∈ answers s /\ spiffe_id ep = None) ->
  disc_wf (Disc.store name r s).
Proof.
  intros [Hp Hs Hi He Hc Hr] Hres. split; simpl; try done.
  - intros n e [[-> <-]|[_ H]]%lookup_insert_Some; [done | by eapply He].
  - intros n e ep [[-> <-]|[_ H]]%lookup_insert_Some; [|by eapply Hc].
    simpl. destruct r; simpl; [|done]. intros [= <-]. by apply Hres.
Qed.

Lemma wf_remove s name : disc_wf s -> disc_wf (Disc.remove_in_flight name s).
Proof.
  intros [Hp Hs Hi He Hc Hr]. split; simpl; try done.
  intros n k [_ H]%lookup_delete_Some. by eapply Hi.
Qed.

Lemma wf_note s name a : disc_wf s -> disc_wf (Disc.note_answer name a s).
Proof.
  intros [Hp Hs Hi He Hc Hr]. split; simpl; try done.
  - intros n e ep H1 H2. specialize (Hc _ _ _ H1 H2). destruct a; set_solver.
  - intros i t ep H1 H2. specialize (Hr _ _ _ H1 H2). destruct a; set_solver.
Qed.

Lemma cached_fresh_Some t entry ep :
  cached_fresh t entry = Some ep <->
  exists e, entry = Some e /\ (t < expires_at e)%N /\ endpoints e = Some ep.
Proof.
  unfold cached_fresh, is_expired. destruct entry as [e|]; [|naive_solver].
  destruct (N.leb_spec (expires_at e) t); simpl; [|naive_solver]. split; [done |].
  intros (e' & [= <-] & Hlt & _). lia.
Qed.

Lemma waiter_result_Ok entry ep :
  waiter_result entry = Ok ep <-> exists e, entry = Some e /\ endpoints e = Some ep.
Proof.
  unfold waiter_result. destruct entry as [e|]; simpl; [|naive_solver].
  destruct (endpoints e) eqn:E; simpl; naive_solver.
Qed.

Lemma wf_step_task s answer i s' : disc_wf s -> Disc.step_task answer i s = Some s' -> disc_wf s'.
Proof.
  intros Hwf. unfold Disc.step_task. destruct (tasks s !! i) as [t|] eqn:Ht; [|done].
  pose proof (wf_task_sem s Hwf i) as Hs. pose proof (wf_result s Hwf i) as Hr.
  destruct t as [name|name|name k|name k|name k r|name k r|name k r|name k|name k|name k r|name r|name].
  - destruct (cached_fresh _ _) as [ep|] eqn:Ec; intros [= <-]; eapply wf_set_task; try done.
    intros ep' [= <-]. apply cached_fresh_Some in Ec as (e & He & _ & Hep). by eapply wf_cache.
  - destruct (Disc.clone_semaphore name s) as [k s1] eqn:Ec. intros [= <-].
    destruct (wf_clone _ _ _ _ Hwf Ec) as (Hwf1 & Hk & Htk & _).
    eapply wf_set_task; [done | by rewrite Htk | done | | done]. by intros ? [= <-].
  - destruct (Disc.take_permit k s) as [s1|] eqn:Ek; intros [= <-].
    + eapply wf_take; try done. 
    + eapply wf_set_task; try done. intros j [= <-]. by eapply Hs.
  - intros [= <-]. eapply wf_set_task; [by apply wf_note | done | done | |].
    + intros j [= <-]. by eapply Hs.
    + simpl. destruct answer as [a|]; simpl; [|done]. intros ep [= <-]. split; [by left | done].
  - intros [= <-]. eapply wf_set_task; [apply wf_store; [done|] | done | done | |].
    + intros ep ->. by apply (Hr _ _ Ht eq_refl).
    + intros j [= <-]. by eapply Hs.
    + intros ep [= ->]. by apply (Hr _ _ Ht eq_refl).
  - intros [= <-]. eapply wf_set_task; [by apply wf_remove | done | done | |].
    + intros j [= <-]. by eapply Hs.
    + intros ep [= ->]. by apply (Hr _ _ Ht eq_refl).
  - intros [= <-]. eapply wf_drop; try done. intros ep [= ->]. by apply (Hr _ _ Ht eq_refl).
  - destruct (Disc.take_permit k s) as [s1|] eqn:Ek; intros [= <-]. by eapply wf_take.
  - intros [= <-]. eapply wf_set_task; try done.
    + intros j [= <-]. by eapply Hs.
    + simpl. intros ep [= (e & He & Hep)%waiter_result_Ok]. by eapply wf_cache.
  - intros [= <-]. eapply wf_drop; try done. intros ep [= ->]. by apply (Hr _ _ Ht eq_refl).
  - done.
  - done.
Qed.

Lemma wf_cancel s i s' : disc_wf s -> cancel_call i s = Some s' -> disc_wf s'.
Proof.
  intros Hwf. unfold cancel_call. destruct (tasks s !! i) as [t|] eqn:Ht; [|done].
  destruct t; try done; intros [= <-]; [by eapply wf_drop | by eapply wf_set_task].
Qed.

Lemma wf_disc_step s s' : disc_wf s -> disc_step s s' -> disc_wf s'.
Proof.
  intros Hwf Hst. revert Hwf. destruct Hst as [answer i s1 s2 H|name s1|d s1|s1|i s1 s2 H]; intros Hwf;
    [by eapply wf_step_task | | | |by eapply wf_cancel]; destruct Hwf as [Hp Hs Hi He Hc Hr]; split; simpl; try done.
  - intros k p Hk. rewrite count_app. simpl. specialize (Hp _ _ Hk). lia.
  - intros i t k [H|[_ H]]%lookup_app_Some; [by eapply Hs |].
    by apply list_lookup_singleton_Some in H as [_ <-].
  - intros i t ep [H|[_ H]]%lookup_app_Some; [by eapply Hr |].
    by apply list_lookup_singleton_Some in H as [_ <-].
  - intros name e H. specialize (He _ _ H). lia.
Qed.

Lemma wf_with_resolver t : disc_wf (Disc.with_resolver t).
Proof. split; simpl; try done. Qed.

Lemma disc_reachable_wf t s : steps disc_step (Disc.with_resolver t) s -> disc_wf s.
Proof. apply steps_invariant; [apply wf_with_resolver | apply wf_disc_step]. Qed.

(** ** Termination measure *)

(** The actions a task still has to take. *)
Definition rank (t : Task) : nat :=
  match t with
  | Start _ => 7
  | Elect _ => 6
  | Cloned _ _ => 5
  | Leader _ _ => 4
  | Looked _ _ _ | Waiter _ _ => 3
  | Stored _ _ _ | Woken _ _ => 2
  | Removed _ _ _ | ReadCache _ _ _ => 1
  | Returned _ _ | Cancelled _ => 0
  end.

Definition remaining (s : ServiceDiscovery) : nat := sum_list_with rank (tasks s).

(** Runs of task actions only. *)
Inductive task_run : nat -> ServiceDiscovery -> ServiceDiscovery -> Prop :=
| task_run_nil s : task_run 0 s s
| task_run_cons n answer i s s' s'' :
    Disc.step_task answer i s = Some s' -> task_run n s' s'' -> task_run (S n) s s''.

Lemma step_task_moves s answer i s' :
  Disc.step_task answer i s = Some s' ->
  exists t t', tasks s !! i = Some t /\ tasks s' = <[i := t']> (tasks s) /\ rank t' < rank t.
Proof.
  unfold Disc.step_task. destruct (tasks s !! i) as [t|] eqn:Ht; [|done].
  unfold Disc.take_permit, Disc.clone_semaphore, Disc.drop_permit.
  intros H; destruct t; simpl in H; repeat step_match; simplify_eq; simpl;
    do 2 eexists; (split; [done |]; split; [done |]); simpl; lia.
Qed.

Lemma remaining_step s answer i s' :
  Disc.step_task answer i s = Some s' -> remaining s' < remaining s.
Proof.
  intros (t & t' & Ht & Hs & Hr)%step_task_moves. unfold remaining. rewrite Hs.
  pose proof (sum_insert rank _ _ _ t' Ht). lia.
Qed.

Lemma remaining_bound s : remaining s <= 7 * length (tasks s).
Proof.
  unfold remaining. induction (tasks s) as [|t l IH]; [done |].
  assert (rank t <= 7) by (destruct t; simpl; lia).
  simpl. lia.
Qed.

Definition finished (t : Task) : bool := match t with Returned _ _ | Cancelled _ => true | _ => false end.

Lemma unblocked_step s i t :
  tasks s !! i = Some t -> finished t = false ->
  (forall name k, t = Waiter name k -> is_Some (Disc.take_permit k s)) ->
  forall answer, is_Some (Disc.step_task answer i s).
Proof.
  intros Ht Hf Hw answer. unfold Disc.step_task. rewrite Ht.
  destruct t; try done; try by (repeat step_match; eexists).
  destruct (Hw _ _ eq_refl) as [s1 ->]. by eexists.
Qed.

(** A holder of a permit is never blocked. *)
Lemma some_step s i t :
  disc_wf s -> tasks s !! i = Some t -> finished t = false ->
  exists j, forall answer, is_Some (Disc.step_task answer j s).
Proof.
  intros Hwf Ht Hf. destruct t as [| | | | | | |name k| | | |]; try done.
  all: try by (exists i; apply (unblocked_step _ _ _ Ht Hf); intros ? ? [=]).
  pose proof (wf_task_sem s Hwf _ _ k Ht eq_refl) as Hk.
  destruct (lookup_lt_is_Some_2 _ _ Hk) as [[|p] Hp].
  - pose proof (wf_permits s Hwf _ _ Hp) as Hc.
    destruct (count_pos_inv (holds k) (tasks s)) as (j & u & Hu & Hh); [lia |].
    exists j. apply (unblocked_step _ _ u Hu); [by destruct u |]. by intros n m ->.
  - exists i. apply (unblocked_step _ _ _ Ht Hf). intros n m [= <- <-].
    unfold Disc.take_permit. rewrite Hp. by eexists.
Qed.

(** ** Running one task *)

Lemma lookup_last (l : list Task) t : (l ++ [t]) !! length l = Some t.
Proof. by apply list_lookup_middle. Qed.
Lemma insert_last (l : list Task) t u : <[length l := u]> (l ++ [t]) = l ++ [u].
Proof. rewrite <- (Nat.add_0_r (length l)). by rewrite insert_app_r. Qed.
Lemma insert_permit (l : list nat) n m : <[length l := m]> (l ++ [n]) = l ++ [m].
Proof. rewrite <- (Nat.add_0_r (length l)). by rewrite insert_app_r. Qed.

Lemma run_task_S lookup name n i s :
  Disc.run_task lookup name (S n) i s =
  match Disc.step_task (lookup name) i s with
  | Some s' => Disc.run_task lookup name n i s'
  | None => s
  end.
Proof. done. Qed.

(** One action of the task at the end of the list, in two halves. *)
Ltac disc_norm :=
  unfold Disc.call, Disc.set_task, Disc.drop_permit, Disc.set_permits, Disc.store,
    Disc.remove_in_flight, Disc.note_answer;
  cbn [tasks cache in_flight ttl sems now answers default id].
Ltac run_last := rewrite run_task_S; unfold Disc.step_task; disc_norm; rewrite lookup_last.
Ltac run_done := disc_norm; rewrite ?insert_last.

Lemma run_task_steps lookup name n i s : steps disc_step s (Disc.run_task lookup name n i s).
Proof.
  revert s. induction n as [|n IH]; intros s; [constructor |]. rewrite run_task_S.
  destruct (Disc.step_task _ i s) as [s'|] eqn:E; [|constructor].
  eapply steps_trans; [|apply IH]. apply steps_one. by eapply disc_task.
Qed.

(** A concrete run for the examples: one call of [svc] that looks the name up,
    and a second call. *)
Definition demo_ep : ResolvedEndpoints := MkEndpoints [socket_addr (V4 10 0 0 1) 0] None.
Definition demo_one (n : nat) : ServiceDiscovery :=
  Disc.run_task (fun _ => Ok (addrs demo_ep)) (bs "svc") n 0 (Disc.call (bs "svc") (Disc.with_resolver DNS_CACHE_TTL)).
Definition demo_two : ServiceDiscovery := Disc.call (bs "svc") (demo_one 7).

Lemma demo_one_reachable n : steps disc_step (Disc.with_resolver DNS_CACHE_TTL) (demo_one n).
Proof. eapply steps_trans; [apply steps_one, disc_call | apply run_task_steps]. Qed.
Lemma demo_two_reachable : steps disc_step (Disc.with_resolver DNS_CACHE_TTL) demo_two.
Proof. eapply steps_snoc; [apply demo_one_reachable | apply disc_call]. Qed.

(** ** Properties *)

(** C29: a caller that runs alone on its name (no lookup of the name in flight)
    returns, after at most seven atomic actions, exactly what the sequential
    [resolve] computes, leaves its cache, and leaves no in-flight entry. *)
Theorem resolve_alone lookup name s :
  in_flight s !! name = None ->
  let i := length (tasks s) in
  let s' := Disc.run_task lookup name 7 i (Disc.call name s) in
  let '(r, c) := Disc.resolve lookup name (cache s) (ttl s) (now s) in
  tasks s' !! i = Some (Returned name r) /\ cache s' = c /\ in_flight s' = in_flight s.
Proof.
  intros Hf. destruct s as [c f t sm ts n a]. cbn [tasks cache in_flight ttl now] in *.
  unfold Disc.resolve. run_last. destruct (cached_fresh n (c !! name)) as [ep|]; run_done.
  { run_last. cbn [tasks cache in_flight]. by rewrite lookup_last. }
  run_last. unfold Disc.clone_semaphore. cbn [in_flight sems]. rewrite Hf. run_done.
  run_last. unfold Disc.take_permit. cbn [sems]. rewrite list_lookup_middle by done. run_done.
  rewrite insert_permit.
  run_last. run_done. run_last. run_done. run_last. run_done. run_last. run_done.
  cbn [Disc.run_task tasks cache in_flight]. rewrite lookup_last, delete_insert_id; done.
Qed.

Lemma resolve_alone_witness :
  let lookup (_ : str) := Ok [socket_addr (V4 10 0 0 1) 0] in
  tasks (Disc.run_task lookup (bs "svc") 7 0 (Disc.call (bs "svc") (Disc.with_resolver DNS_CACHE_TTL))) !! 0
  = Some (Returned (bs "svc") (Ok (MkEndpoints [socket_addr (V4 10 0 0 1) 0] None))).
Proof. apply (resolve_alone (fun _ => Ok _) (bs "svc") (Disc.with_resolver DNS_CACHE_TTL)). reflexivity. Defined.

(** C28: whatever the interleaving of callers, clock, cache clearing and dropped
    calls, an endpoint list that a call returns was answered by the resolver for the very
    name the call asked for. *)
Theorem returned_endpoints_answered t s i name ep :
  steps disc_step (Disc.with_resolver t) s ->
  tasks s !! i = Some (Returned name (Ok ep)) ->
  (name, addrs ep) ∈ answers s /\ spiffe_id ep = None.
Proof. intros Hs Ht. by apply (wf_result s (disc_reachable_wf _ _ Hs) _ _ ep Ht). Qed.

Lemma returned_endpoints_answered_witness : (bs "svc", addrs demo_ep) ∈ answers (demo_one 7).
Proof.
  apply (returned_endpoints_answered DNS_CACHE_TTL (demo_one 7) 0 (bs "svc") demo_ep);
    [apply demo_one_reachable | vm_compute; reflexivity].
Defined.

(** A cached entry is used without a lookup only while it is fresh: the
    fast path returns exactly when the entry holds endpoints and was stored
    less than the time to live ago. *)
Theorem fast_path_fresh t s i name answer s' ep :
  steps disc_step (Disc.with_resolver t) s ->
  tasks s !! i = Some (Start name) ->
  Disc.step_task answer i s = Some s' ->
  tasks s' !! i = Some (Returned name (Ok ep)) <->
  exists e, cache s !! name = Some e /\ endpoints e = Some ep
    /\ (now s < expires_at e <= now s + ttl s)%N.
Proof.
  intros Hs Ht Hst. apply disc_reachable_wf in Hs. unfold Disc.step_task in Hst. rewrite Ht in Hst.
  pose proof (lookup_lt_Some _ _ _ Ht) as Hlt.
  destruct (cached_fresh _ _) as [ep'|] eqn:E; injection Hst as <-; simpl;
    rewrite list_lookup_insert_eq by done.
  - apply cached_fresh_Some in E as (e & He & Hlt' & Hep).
    pose proof (wf_expiry s Hs _ _ He). naive_solver.
  - split; [done |]. intros (e & He & Hep & Hb & _).
    assert (cached_fresh (now s) (cache s !! name) = Some ep) by (apply cached_fresh_Some; eauto).
    congruence.
Qed.

Lemma fast_path_fresh_witness :
  exists e, cache demo_two !! bs "svc" = Some e /\ endpoints e = Some demo_ep
    /\ (now demo_two < expires_at e <= now demo_two + ttl demo_two)%N.
Proof.
  apply (fast_path_fresh DNS_CACHE_TTL demo_two 1 (bs "svc") (Ok [])
           (Disc.set_task 1 (Returned (bs "svc") (Ok demo_ep)) demo_two));
    [apply demo_two_reachable | vm_compute; reflexivity..].
Defined.

(** At any moment at most one call holds the permit of a semaphore, so the
    lookups made under one semaphore are never concurrent. *)
Theorem one_holder_per_semaphore t s i j k u v :
  steps disc_step (Disc.with_resolver t) s ->
  tasks s !! i = Some u -> tasks s !! j = Some v ->
  holds k u = true -> holds k v = true -> i = j.
Proof.
  intros Hs Hi Hj Hu Hv. apply disc_reachable_wf in Hs.
  destruct (decide (i = j)) as [|Hne]; [done |]. exfalso.
  pose proof (wf_task_sem s Hs _ _ k Hi (holds_sem _ _ Hu)) as Hk.
  destruct (lookup_lt_is_Some_2 _ _ Hk) as [p Hp].
  pose proof (wf_permits s Hs _ _ Hp). pose proof (count_two _ _ _ _ _ _ Hi Hj Hu Hv Hne). lia.
Qed.

(** C27: no call hangs: from any reachable state, every run of task actions is
    shorter than seven per call, and a run that cannot be continued has
    returned every call that was not dropped (a waiter is always woken by the
    holder it waits for, also when that one is dropped). *)
Theorem calls_return t s n s' :
  steps disc_step (Disc.with_resolver t) s -> task_run n s s' ->
  n <= 7 * length (tasks s)
  /\ ((forall i answer, Disc.step_task answer i s' = None) ->
      forall i u, tasks s' !! i = Some u -> finished u = true).
Proof.
  intros Hs Hrun. apply disc_reachable_wf in Hs. pose proof (remaining_bound s) as Hb.
  enough (n + remaining s' <= remaining s /\ disc_wf s') as [Hn Hwf].
  { split; [lia |]. intros Hst i u Hu. destruct (finished u) eqn:Hf; [done |]. exfalso.
    destruct (some_step s' i u Hwf Hu Hf) as [j Hj]. destruct (Hj (Ok [])) as [x Hx].
    by rewrite Hst in Hx. }
  clear Hb. induction Hrun as [s|n answer i s s1 s' H Hrun IH]; [done |].
  destruct IH as [Hn Hwf]; [by eapply wf_step_task |]. split; [|done].
  apply remaining_step in H. lia.
Qed.

(** The actions of an interleaving of calls of one name: the task that moves. *)
Definition interleave (schedule : list nat) (s : ServiceDiscovery) : option ServiceDiscovery :=
  foldl (fun o i => x ← o; Disc.step_task (Ok []) i x) (Some s) schedule.

Lemma interleave_steps l s s' : interleave l s = Some s' -> steps disc_step s s'.
Proof.
  unfold interleave. revert s. induction l as [|i l IH]; intros s; simpl; [intros [= <-]; constructor |].
  destruct (Disc.step_task (Ok []) i s) as [s1|] eqn:E; simpl.
  - intros H. eapply steps_trans; [|by apply IH]. apply steps_one. by eapply disc_task.
  - intros H. exfalso. clear -H. induction l; simpl in *; [done | auto].
Qed.

Lemma interleave_run l s s' : interleave l s = Some s' -> task_run (length l) s s'.
Proof.
  unfold interleave. revert s. induction l as [|i l IH]; intros s; simpl; [intros [= <-]; constructor |].
  destruct (Disc.step_task (Ok []) i s) as [s1|] eqn:E; simpl.
  - intros H. eapply task_run_cons; [exact E | by apply IH].
  - intros H. exfalso. clear -H. induction l; simpl in *; [done | auto].
Qed.

(** Two calls for one name, one of which waits for the other; the rest of their run. *)
Definition demo_called : ServiceDiscovery :=
  Disc.call (bs "a") (Disc.call (bs "a") (Disc.with_resolver DNS_CACHE_TTL)).
Definition demo_waiting : ServiceDiscovery :=
  default (Disc.with_resolver DNS_CACHE_TTL) (interleave [0; 1; 0; 1; 0; 1] demo_called).
Definition demo_woken : ServiceDiscovery :=
  default (Disc.with_resolver DNS_CACHE_TTL) (interleave [0; 0; 0; 0; 1; 1; 1] demo_waiting).

Lemma demo_waiting_reachable : steps disc_step (Disc.with_resolver DNS_CACHE_TTL) demo_waiting.
Proof.
  eapply steps_trans; [|apply (interleave_steps [0; 1; 0; 1; 0; 1] demo_called); vm_compute; reflexivity].
  eapply steps_snoc; [eapply steps_snoc; [apply steps_refl |] |]; apply disc_call.
Qed.
Lemma demo_woken_run : task_run 7 demo_waiting demo_woken.
Proof. apply (interleave_run [0; 0; 0; 0; 1; 1; 1]). vm_compute. reflexivity. Qed.
Lemma demo_woken_ended i answer : Disc.step_task answer i demo_woken = None.
Proof. destruct i as [|[|i]]; vm_compute; reflexivity. Qed.

Lemma calls_return_witness :
  tasks demo_waiting !! 1 = Some (Waiter (bs "a") 0)
  /\ forall u, tasks demo_woken !! 1 = Some u -> finished u = true.
Proof.
  split; [vm_compute; reflexivity |].
  exact (proj2 (calls_return DNS_CACHE_TTL demo_waiting 7 demo_woken demo_waiting_reachable demo_woken_run)
    (fun i answer => demo_woken_ended i answer) 1).
Defined.

(** Two lookups of one name can run at the same time: a call that has
    cloned the semaphore before the leader removed it from the map, and a call
    that had missed the cache before the leader filled it, both lead. *)
Theorem concurrent_lookups_possible :
  exists s, steps disc_step (Disc.with_resolver DNS_CACHE_TTL) s
    /\ tasks s !! 1 = Some (Leader (bs "a") 0) /\ tasks s !! 2 = Some (Leader (bs "a") 1).
Proof.
  pose (s0 := Disc.call (bs "a") (Disc.call (bs "a") (Disc.call (bs "a") (Disc.with_resolver DNS_CACHE_TTL)))).
  destruct (interleave [0; 1; 2; 0; 1; 0; 0; 0; 0; 0; 1; 2; 2] s0) as [s|] eqn:E; [|by vm_compute in E].
  exists s. split.
  - eapply steps_trans; [|by eapply interleave_steps].
    eapply steps_snoc; [eapply steps_snoc; [eapply steps_snoc; [apply steps_refl |] |] |]; apply disc_call.
  - vm_compute in E. injection E as <-. done.
Qed.
