(* ===== verification/Mux.v ===== *)
(** * Multiplexed tunnels ([src/proxy/mux.rs])

    Registering a tunnel and opening a stream on it, and the inbound side of a
    tunnel; the client driver is in [TunnelDriver].  The multiplexer library
    (yamux) is what answers open requests and yields inbound streams. *)

From S2P Require Import Prelude Bytes Common Glob Identity Policy Net Metrics Tunnels ProxyBase Process.
From S2P Require Import Holdings Tasks Handshake Events.

Set Default Proof Using "Type".

(** ** Tunnels and streams *)

(** [Tunnel::open_stream]: the slot is reserved before the request is sent; the
    stream keeps it, an error gives it back. *)
Definition open_stream (t : Tunnel) (answer : OpenResult) : Prog Event (result unit IoError) :=
  _ ← call (Reserve t);
  match answer with
  | Opened => mret (Ok tt)
  | QueueClosed =>
      _ ← call (Release t);
      mret (Err {| io_kind := BrokenPipe; io_msg := bs "tunnel closed" |})
  | OpenError e => _ ← call (Release t); mret (Err e)
  | DriverExited =>
      _ ← call (Release t);
      mret (Err {| io_kind := BrokenPipe; io_msg := bs "tunnel driver exited" |})
  end.

(** [Iterator::min_by_key] over [Tunnel::load]: each load is read when the iterator
    comes to the tunnel, and the first least one is kept; [keep] is the filter
    before it.  The counters may change between any two reads. *)
Fixpoint min_by_load (keep : Tunnel -> Prog Event bool) (least : option (Tunnel * N)) (ts : list Tunnel) :
    Prog Event (option Tunnel) :=
  match ts with
  | [] => mret (fst <$> least)
  | t :: rest =>
      kept ← keep t;
      if kept : bool then
        load ← call (LoadOf t);
        min_by_load keep
          (match least with
           | Some (_, m) => if (load <? m)%N then Some (t, load) else least
           | None => Some (t, load)
           end) rest
      else min_by_load keep least rest
  end.

(** [t.load() < STREAMS_PER_TUNNEL] *)
Definition under_cap (t : Tunnel) : Prog Event bool :=
  load ← call (LoadOf t); mret (load <? STREAMS_PER_TUNNEL)%N.

(** [MuxPool::pick_under_cap] and [MuxPool::pick_any]. *)
Definition pick_under_cap (addr : SocketAddr) : Prog Event (option Tunnel) :=
  tunnels ← call (TunnelsOf addr);
  match tunnels with
  | None => mret None
  | Some ts => min_by_load under_cap None ts
  end.
Definition pick_any (addr : SocketAddr) : Prog Event (option Tunnel) :=
  tunnels ← call (TunnelsOf addr);
  match tunnels with
  | None => mret None
  | Some ts => min_by_load (fun _ => mret true) None ts
  end.

(** [MuxPool::register]: the driver task owns the session and evicts the tunnel when
    it ends. *)
Definition register (addr : SocketAddr) (tls : Session) (peer_identity : SpiffeId) : Prog Event Tunnel :=
  tunnel ← call (NewTunnel addr peer_identity);
  _ ← call (Push addr tunnel);
  _ ← record Met.record_mux_tunnel_opened;
  _ ← spawn false (DriveTunnel addr tunnel tls) (call (Evict addr tunnel));
  mret tunnel.

(** ** A multiplexed stream as a transport

    [MuxStream] delegates every operation to the stream of the multiplexer
    ([Compat<yamux::Stream>]), which is a parameter, and keeps its guard. *)

Section StreamIO.
Context {Inner Cx : Type}.
Context (inner_read : Inner -> Cx -> nat -> option (result str IoError) * Inner).
Context (inner_write : Inner -> Cx -> str -> option (result N IoError) * Inner).
Context (inner_flush inner_shutdown : Inner -> Cx -> option (result unit IoError) * Inner).

(** The guard is that of the tunnel whose slot the stream holds. *)
Record MuxStreamIO := MkStreamIO { io_inner : Inner; io_guard : Tunnel }.

(** Polls: [None] is [Pending]; a read is given the room of its buffer. *)
Definition delegate {A} (self : MuxStreamIO) (r : option (result A IoError) * Inner) :
    option (result A IoError) * MuxStreamIO := (r.1, MkStreamIO r.2 (io_guard self)).
Definition poll_read (self : MuxStreamIO) (cx : Cx) (room : nat) :
    option (result str IoError) * MuxStreamIO := delegate self (inner_read (io_inner self) cx room).
Definition poll_write (self : MuxStreamIO) (cx : Cx) (buf : str) :
    option (result N IoError) * MuxStreamIO := delegate self (inner_write (io_inner self) cx buf).
Definition poll_flush (self : MuxStreamIO) (cx : Cx) :
    option (result unit IoError) * MuxStreamIO := delegate self (inner_flush (io_inner self) cx).
Definition poll_shutdown (self : MuxStreamIO) (cx : Cx) :
    option (result unit IoError) * MuxStreamIO := delegate self (inner_shutdown (io_inner self) cx).

(** Any sequence of operations on a stream, with what each returns. *)
Inductive IoOp := IoRead (cx : Cx) (room : nat) | IoWrite (cx : Cx) (buf : str) | IoFlush (cx : Cx) | IoShutdown (cx : Cx).
Inductive IoAnswer := ReadAnswer (r : option (result str IoError)) | WriteAnswer (r : option (result N IoError))
  | DoneAnswer (r : option (result unit IoError)).

Definition inner_op (op : IoOp) (s : Inner) : IoAnswer * Inner :=
  match op with
  | IoRead cx room => let r := inner_read s cx room in (ReadAnswer r.1, r.2)
  | IoWrite cx buf => let r := inner_write s cx buf in (WriteAnswer r.1, r.2)
  | IoFlush cx => let r := inner_flush s cx in (DoneAnswer r.1, r.2)
  | IoShutdown cx => let r := inner_shutdown s cx in (DoneAnswer r.1, r.2)
  end.
Definition stream_op (op : IoOp) (s : MuxStreamIO) : IoAnswer * MuxStreamIO :=
  match op with
  | IoRead cx room => let r := poll_read s cx room in (ReadAnswer r.1, r.2)
  | IoWrite cx buf => let r := poll_write s cx buf in (WriteAnswer r.1, r.2)
  | IoFlush cx => let r := poll_flush s cx in (DoneAnswer r.1, r.2)
  | IoShutdown cx => let r := poll_shutdown s cx in (DoneAnswer r.1, r.2)
  end.
Fixpoint io_trace {S} (step : IoOp -> S -> IoAnswer * S) (ops : list IoOp) (s : S) : list IoAnswer * S :=
  match ops with
  | [] => ([], s)
  | op :: rest => let r := step op s in let r' := io_trace step rest r.2 in (r.1 :: r'.1, r'.2)
  end.

(** Whoever uses the stream sees the multiplexer's stream, and the slot stays
    with the tunnel it was taken from. *)
Theorem stream_transparent ops s :
  io_trace stream_op ops s =
    let r := io_trace inner_op ops (io_inner s) in (r.1, MkStreamIO r.2 (io_guard s)).
Proof.
  revert s. induction ops as [|op ops IH]; intros [i g]; [done |]. cbn [io_trace]. rewrite IH.
  by destruct op.
Qed.
End StreamIO.

(** ** The inbound side *)

Definition relay_stream_to_upstream (upstream : SocketAddr) (o : RelayOutcome) : Prog Event unit :=
  _ ← record Met.record_connection_start;
  _ ← emit (ConnectUpstream upstream);
  match relay_connect o with
  | Err _ => record Met.record_connection_failed
  | Ok _ =>
      _ ← emit Relay;
      _ ← record_relay_result (relay_copy o) (relay_elapsed o);
      mret tt
  end.

(** [serve_tunnel]: one relay task per stream, until the tunnel ends; it waits for
    the next stream when the peer has opened no other. *)
Fixpoint serve_tunnel (upstream : SocketAddr) (peer : SpiffeId) (events : list InboundEvent) :
    Prog Event unit :=
  match events with
  | [] => Idle
  | ConnError _ :: _ | ConnClosed :: _ => mret tt
  | NewStream o :: rest =>
      _ ← record Met.record_mux_stream;
      _ ← spawn false (RelayStream upstream peer o) (relay_stream_to_upstream upstream o);
      serve_tunnel upstream peer rest
  end.

(** ** Lemmas *)

(** *** Picks without interference *)

(** The running minimum of the loop, with the elements that are still to come. *)
Definition lesser (key : Tunnel -> N) (best : option (Tunnel * N)) (o : option Tunnel) : option Tunnel :=
  match best, o with
  | Some (b, m), Some y => if (key y <? m)%N then Some y else Some b
  | Some (b, _), None => Some b
  | None, o => o
  end.

Lemma min_alone (keep : Tunnel -> Prog Event bool) (P : Tunnel -> Prop) `{!forall t, base.Decision (P t)} best ts tr p :
  (forall t, exec (keep t) tr p = Some (bool_decide (P t), tr, p)) ->
  exec (min_by_load keep best ts) tr p
  = Some (lesser (Pool.load (mux_pool p)) best (min_by_key (Pool.load (mux_pool p)) (filter P ts)), tr, p).
Proof.
  intros Hkeep. revert best. induction ts as [|t ts IH]; intros best; cbn [min_by_load].
  { by destruct best as [[b m]|]. }
  rewrite exec_bind, Hkeep, filter_cons. destruct (decide (P t)) as [Ht|Ht].
  2: { by rewrite (bool_decide_eq_false_2 _ Ht), IH. }
  rewrite (bool_decide_eq_true_2 _ Ht), exec_bind. cbn [exec call apply_call]. rewrite note_quiet, IH by done.
  do 3 f_equal. cbn [min_by_key]. destruct (min_by_key _ _) as [y|]; destruct best as [[b m]|]; cbn [lesser];
    repeat match goal with |- context [(?x <? ?y)%N] => destruct (N.ltb_spec x y) end; cbn [lesser];
    repeat match goal with |- context [(?x <? ?y)%N] => destruct (N.ltb_spec x y) end; try done; lia.
Qed.

(** A pick that no other task interferes with is the least loaded tunnel of the
    pool, among those under the cap or among all. *)
Lemma pick_alone addr tr p :
  let tr' := note (TunnelsOf addr) (peers (mux_pool p) !! addr) tr in
  exec (pick_under_cap addr) tr p = Some (Pool.least_under_cap (mux_pool p) addr, tr', p)
  /\ exec (pick_any addr) tr p = Some (Pool.least_loaded (mux_pool p) addr, tr', p).
Proof.
  intros tr'. unfold pick_under_cap, pick_any, Pool.least_under_cap, Pool.least_loaded. split;
    rewrite exec_bind; cbn [exec call apply_call]; fold tr'; destruct (peers (mux_pool p) !! addr) as [ts|]; try done.
  - rewrite (min_alone _ (fun t => (Pool.load (mux_pool p) t < STREAMS_PER_TUNNEL)%N)); [done |].
    intros t. unfold under_cap. rewrite exec_bind. cbn [exec call apply_call]. rewrite note_quiet by done.
    cbn [exec mret Prog_ret]. do 3 f_equal. apply eq_true_iff_eq. by rewrite N.ltb_lt, bool_decide_eq_true.
  - rewrite (min_alone _ (fun _ => True)) by done. do 2 f_equal. cbn [lesser]. do 2 f_equal. unfold mbind, option_bind. f_equal.
    induction ts as [|t ts IH]; [done |]. rewrite filter_cons_True by done. by f_equal.
Qed.

(** *** Relayed streams *)

(** The accounting of a stream that was relayed, or not. *)
Definition relay_charge {A} (r : result A IoError) : charge :=
  if is_ok r then MkCharge 1 0 0 1 else MkCharge 1 1 0 0.

(** A relayed stream: the actions taken and the accounting. *)
Inductive stream_outcome (addr : SocketAddr) (o : RelayOutcome) : list Event -> charge -> Prop :=
| stream_unreached e :
    relay_connect o = Err e -> stream_outcome addr o [ConnectUpstream addr] (MkCharge 1 1 0 0)
| stream_relayed :
    relay_connect o = Ok tt ->
    stream_outcome addr o [ConnectUpstream addr; Relay] (relay_charge (relay_copy o)).

Section Wp.
Context (C : Contract Event).

Lemma wp_relay_result {B} r elapsed (f : result (N * N) IoError -> Prog Event B) tr R :
  d_active (spent tr) = 1%Z ->
  wp C (f r) (MkTrail (holds tr) (add_charge (spent tr)
     (if is_ok r then MkCharge 1 0 (-1) 1 else MkCharge 1 1 (-1) 0)) (said tr)) R ->
  wp C (x ← record_relay_result r elapsed; f x) tr R.
Proof.
  intros Hd H. eapply wp_bind; [|intros x tr' Hx; exact Hx].
  destruct r as [[up down]|e]; (apply (wp_record C); [simpl; rewrite Hd; by repeat split | exact H]).
Qed.

(** *** Picking a tunnel *)

(** One that is picked is among those given; if none is, all of them were skipped
    ([skip] is what is then known). *)
Lemma wp_min_by_load keep (skip : Prop) ts least tr :
  (forall t, t ∈ ts -> wp C (keep t) tr (fun kept tr' => tr' = tr /\ (kept = false -> skip))) ->
  wp C (min_by_load keep least ts) tr (fun r tr' => tr' = tr /\
    match r with
    | Some t => t ∈ ts \/ Some t = fst <$> least
    | None => least = None /\ (skip \/ ts = [])
    end).
Proof.
  revert least. induction ts as [|t ts IH]; intros least Hkeep; cbn [min_by_load].
  { apply wp_ret. split; [done |]. destruct least as [[t m]|]; simpl; by auto. }
  eapply wp_bind; [apply Hkeep; by left |]. intros kept tr' [-> Hskip].
  assert (Hrest : forall u, u ∈ ts -> wp C (keep u) tr (fun kept tr' => tr' = tr /\ (kept = false -> skip)))
    by (intros u Hu; apply Hkeep; by right).
  destruct kept.
  - apply (wp_call C (LoadOf t)); [done |]. intros p hs i load p' _ _ _. rewrite note_quiet by done.
    eapply wp_mono; [by apply IH |]. intros [u|] tr' [-> Hr]; (split; [done |]).
    + destruct Hr as [?|Hr]; [left; by right |]. destruct least as [[v m]|]; simpl in Hr.
      * destruct (load <? m)%N; [injection Hr as ->; left; by left | by right].
      * injection Hr as ->. left. by left.
    + destruct Hr as [Hr _]. destruct least as [[v m]|]; [by destruct (load <? m)%N | done].
  - eapply wp_mono; [by apply IH |]. intros [u|] tr' [-> Hr]; (split; [done |]).
    + destruct Hr as [?|?]; [left; by right | by right].
    + destruct Hr as [? _]. auto.
Qed.

(** What a pick returns, and the tunnels the task was given for it. *)
Lemma wp_pick keep (skip : Prop) addr tr :
  (forall ts t, wp C (keep t) (note (TunnelsOf addr) ts tr)
     (fun kept tr' => tr' = note (TunnelsOf addr) ts tr /\ (kept = false -> skip))) ->
  wp C (tunnels ← call (TunnelsOf addr);
        match tunnels with None => mret None | Some ts => min_by_load keep None ts end) tr
    (fun r tr' => exists ts, tr' = note (TunnelsOf addr) ts tr /\
       match r with
       | Some t => t ∈ default [] ts /\ tunnel_link t = addr /\ good_tunnel C t
       | None => skip \/ default [] ts = []
       end).
Proof.
  intros Hkeep. apply (wp_call C (TunnelsOf addr)); [done |]. intros p hs i ts p' Hi _ [= <- <-].
  destruct (peers (mux_pool p) !! addr) as [ts|] eqn:Ep; [|apply wp_ret; exists None; auto].
  eapply wp_mono; [apply (wp_min_by_load _ skip); intros t _; apply Hkeep |].
  intros r tr' [-> Hr]. exists (Some ts). split; [done |]. destruct r as [t|]; [|by destruct Hr].
  destruct Hr as [Hr|Hr]; [|done]. destruct (inv_pooled _ _ _ _ _ Hi _ _ _ Ep Hr) as [[_ ?] ?]. done.
Qed.

(** With no more connections than one tunnel takes streams, a connection without a
    stream finds every tunnel under the cap. *)
Lemma wp_pick_under_cap addr tr :
  held_permit (holds tr) = Some OutboundSide -> held_slot (holds tr) = None ->
  wp C (pick_under_cap addr) tr (fun r tr' => exists ts, tr' = note (TunnelsOf addr) ts tr /\
    match r with
    | Some t => t ∈ default [] ts /\ tunnel_link t = addr /\ good_tunnel C t
    | None => (max_permits C OutboundSide <= STREAMS_PER_TUNNEL)%N -> default [] ts = []
    end).
Proof.
  intros Hp Hs. eapply wp_mono; [apply (wp_pick _ (STREAMS_PER_TUNNEL < max_permits C OutboundSide)%N) |].
  - intros ts t. apply (wp_call C (LoadOf t)); [done |]. intros p hs i load p' Hi Hh [= <- <-].
    rewrite note_quiet by done. apply wp_ret. split; [done |].
    pose proof (load_below _ _ _ _ _ _ _ t Hi Hh Hp Hs).
    destruct (N.ltb_spec (Pool.load (mux_pool p) t) STREAMS_PER_TUNNEL); [done | lia].
  - intros r tr' (ts & -> & Hr). exists ts. split; [done |]. destruct r as [t|]; [done |].
    intros Hm. destruct Hr; [lia | done].
Qed.

Lemma wp_pick_any addr tr :
  wp C (pick_any addr) tr (fun r tr' => exists ts, tr' = note (TunnelsOf addr) ts tr /\
    match r with
    | Some t => t ∈ default [] ts /\ tunnel_link t = addr /\ good_tunnel C t
    | None => True
    end).
Proof.
  eapply wp_mono; [by apply (wp_pick _ True) |]. intros r tr' (ts & -> & Hr). exists ts. by destruct r.
Qed.

(** *** Opening a stream *)

(** The slot of the tunnel a task was given: kept by a stream that was opened. *)
Lemma wp_open_stream {B} t answer (f : result unit IoError -> Prog Event B) tr R :
  t ∈ held_tunnels (holds tr) -> held_slot (holds tr) = None ->
  held_permit (holds tr) = Some OutboundSide ->
  (answer = Opened ->
   wp C (f (Ok tt)) (MkTrail (held_after (Reserve t) tt (holds tr)) (spent tr) (said tr)) R) ->
  (forall e, wp C (f (Err e)) tr R) ->
  wp C (r ← open_stream t answer; f r) tr R.
Proof.
  intros Ht Hs Hp Hok Herr. destruct tr as [h ch sd]. cbn [holds spent said] in *.
  assert (Hback : forall e, wp C (r ← (_ ← call (Release t); mret (Err e)); f r)
    (note (Reserve t) tt (MkTrail h ch sd)) R).
  { intros e. apply (wp_call C (Release t)); [done |]. intros p hs i [] p' _ _ _.
    replace (note _ _ _) with (MkTrail h ch sd); [apply Herr |].
    unfold note. simpl. rewrite !(right_id no_charge add_charge). f_equal. rewrite <- Hs. by destruct h. }
  apply (wp_call C (Reserve t)); [done |]. intros p hs i [] p' _ _ _.
  destruct answer; [|apply Hback..].
  unfold note. cbn [holds spent said call_charge]. rewrite (right_id no_charge add_charge).
  by apply Hok.
Qed.

Hypothesis Hallow : forall addr peer o acts e rest ch,
  stream_outcome addr o (acts ++ e :: rest) ch -> allowed C (RelayStream addr peer o :: acts) e.
Hypothesis Hfinish : forall addr peer o tr acts,
  said tr = RelayStream addr peer o :: acts -> stream_outcome addr o acts (spent tr) ->
  holds tr = nothing_held -> finished C tr.

Lemma wp_relay_stream addr peer o :
  wp C (relay_stream_to_upstream addr o) (trail_new (RelayStream addr peer o)) (fun _ => finished C).
Proof using Hallow Hfinish.
  unfold relay_stream_to_upstream. apply (wp_record C); [done |].
  destruct (relay_connect o) as [[]|e] eqn:Ec.
  - pose proof (stream_relayed addr o Ec) as Hout.
    apply (wp_emit C); [exact (Hallow _ _ _ [] _ [_] _ Hout) |].
    apply (wp_emit C); [exact (Hallow _ _ _ [_] _ [] _ Hout) |].
    apply wp_relay_result; [done |]. eapply Hfinish; [done | | done].
    unfold relay_charge in Hout. by destruct (relay_copy o).
  - pose proof (stream_unreached addr o e Ec) as Hout.
    apply (wp_emit C); [exact (Hallow _ _ _ [] _ [] _ Hout) |].
    apply (wp_record_last C); [by repeat split |]. by eapply Hfinish.
Qed.

Lemma wp_serve_tunnel addr peer events tr :
  (forall o, named C (RelayStream addr peer o)) -> resting C tr ->
  wp C (serve_tunnel addr peer events) tr (fun _ tr' => tr' = tr).
Proof using Hallow Hfinish.
  intros Hn Hr. induction events as [|[o|e|] rest IH]; try done.
  apply (wp_record_quiet C); [by repeat constructor |].
  apply (wp_spawn C); [apply Hn | apply wp_relay_stream |]. by destruct tr.
Qed.
End Wp.
