(* ===== verification/TunnelDriver.v ===== *)
(** * The client driver of a tunnel ([src/proxy/mux.rs])

    [drive_client], which serves the open requests of a tunnel one at a time, and
    the protocol between it and the callers of [open_stream]: the bounded request
    channel, the one-shot replies, callers that give up, and the exit of the
    driver.  The multiplexer (yamux) answers the polls. *)

From S2P Require Import Prelude Bytes Common Glob Identity Policy Net Metrics Tunnels ProxyBase Process.
From S2P Require Import Handshake Events.

(** ** One poll of the driver *)

(** An open request is the sending half of a one-shot channel; it is named by its
    caller. *)
Abbreviation OpenRequest := nat (only parsing).

(** The driver's state: the stashed request, the flag that the queue has ended,
    the channel ([senders_gone] when every [open_tx] has been dropped), and the
    replies sent so far. *)
Record Driver := MkDriver {
  pending_open : option OpenRequest;
  open_queue_closed : bool;
  open_queue : list OpenRequest;
  senders_gone : bool;
  replies : list (OpenRequest * result unit str);
}.

Section Poll.
(** [req.is_closed()]: the requester has gone away. *)
Context (is_closed : OpenRequest -> bool).

(** What becomes of one request: dropped if its requester has gone away, else
    answered with the next result of [poll_new_outbound]; [None] if that is
    [Pending].  [outs] are the results to come (a missing one is [Pending] too). *)
Definition answer_open (req : OpenRequest) (outs : list (option (result unit str)))
    (replied : list (OpenRequest * result unit str)) :
    option (list (option (result unit str)) * list (OpenRequest * result unit str)) :=
  if is_closed req then Some (outs, replied)
  else match outs with
       | Some res :: outs' => Some (outs', replied ++ [(req, res)])
       | _ => None
       end.

(** The first loop of the poll while nothing is stashed.  [budget] is how often
    [poll_recv] may still make progress in this poll: with the cooperative budget
    of the task spent it is [Pending], whatever the queue holds; on an empty queue
    it is [Pending] too, or learns that the queue has ended. *)
Fixpoint receive_opens (budget : nat) (closed gone : bool) (queue : list OpenRequest)
    (outs : list (option (result unit str))) (replied : list (OpenRequest * result unit str)) : Driver :=
  if closed then MkDriver None true queue gone replied
  else match budget with
       | 0 => MkDriver None false queue gone replied
       | S budget' =>
           match queue with
           | [] => MkDriver None gone [] gone replied
           | req :: rest =>
               match answer_open req outs replied with
               | Some (outs', replied') => receive_opens budget' closed gone rest outs' replied'
               | None => MkDriver (Some req) closed rest gone replied
               end
           end
       end.

(** The whole loop: a stashed request comes first. *)
Definition serve_opens (budget : nat) (d : Driver) (outs : list (option (result unit str))) : Driver :=
  match pending_open d with
  | None => receive_opens budget (open_queue_closed d) (senders_gone d) (open_queue d) outs (replies d)
  | Some req =>
      match answer_open req outs (replies d) with
      | Some (outs', replied') =>
          receive_opens budget (open_queue_closed d) (senders_gone d) (open_queue d) outs' replied'
      | None => d
      end
  end.

(** The second loop: pump inbound events; [true] when the driver is finished. *)
Fixpoint pump (events : list InboundEvent) : bool :=
  match events with
  | [] => false
  | NewStream _ :: rest => pump rest
  | ConnError _ :: _ | ConnClosed :: _ => true
  end.

Definition drive_client_poll (budget : nat) (d : Driver) (outs : list (option (result unit str)))
    (events : list InboundEvent) : bool * Driver :=
  (pump events, serve_opens budget d outs).
End Poll.

(** The driver before its first poll. *)
Definition driver_new : Driver := MkDriver None false [] false [].

(** The requests that are stashed or queued, in the order they are served. *)
Definition in_flight_opens (d : Driver) : list OpenRequest :=
  match pending_open d with Some r => [r] | None => [] end ++ open_queue d.

(** ** The openers and the driver *)

(** One call of [open_stream], after its slot was reserved. *)
Inductive OpenStage :=
| Sending                             (** in [open_tx.send(tx).await] *)
| Sent                                (** in [rx.await] *)
| Replied (r : result unit str)       (** the reply has arrived *)
| Finished (a : OpenResult)
| GivenUp.                            (** its future was dropped, and with it [rx] *)

(** [running] until [drive_client] returns and drops the receiver; [sent] is the
    order in which requests were sent. *)
Record Opening := MkOpening {
  running : bool;
  driver : Driver;
  openers : list OpenStage;
  sent : list OpenRequest;
}.

Definition opening_new : Opening := MkOpening true driver_new [] [].

(** [mpsc::channel::<OpenRequest>(256)] *)
Definition OPEN_QUEUE : nat := 256.

Definition given_up (os : list OpenStage) (i : OpenRequest) : bool :=
  match os !! i with Some GivenUp => true | _ => false end.

(** The replies reach the callers that still wait. *)
Definition deliver (answers : list (OpenRequest * result unit str)) (os : list OpenStage) : list OpenStage :=
  foldl (fun os '(i, r) => match os !! i with Some Sent => <[i := Replied r]> os | _ => os end) os answers.

Inductive OpenLabel :=
| CallOpen
| SendRequest (i : nat)
| PollDriver (budget : nat) (outs : list (option (result unit str))) (events : list InboundEvent)
| ResumeOpen (i : nat)
| GiveUp (i : nat).

(** The driver keeps a sender of its own channel (its clone of the tunnel), so
    the channel does not run out of senders while it runs.  When it returns, the
    stashed request and the channel with the queued ones are dropped.  A caller
    that waits for its reply learns that the driver is gone when the sending half
    was dropped without one: when its request is neither stashed nor queued. *)
Definition opening_next (l : OpenLabel) (o : Opening) : option Opening :=
  match l with
  | CallOpen => Some (MkOpening (running o) (driver o) (openers o ++ [Sending]) (sent o))
  | SendRequest i =>
      match openers o !! i with
      | Some Sending =>
          let d := driver o in
          if running o then
            if length (open_queue d) <? OPEN_QUEUE then
              Some (MkOpening true
                      (MkDriver (pending_open d) (open_queue_closed d) (open_queue d ++ [i]) (senders_gone d) (replies d))
                      (<[i := Sent]> (openers o)) (sent o ++ [i]))
            else None
          else Some (MkOpening false d (<[i := Finished QueueClosed]> (openers o)) (sent o))
      | _ => None
      end
  | PollDriver budget outs events =>
      if running o then
        let '(finished, d) := drive_client_poll (given_up (openers o)) budget (driver o) outs events in
        let os := deliver (drop (length (replies (driver o))) (replies d)) (openers o) in
        Some (if finished then MkOpening false (MkDriver None (open_queue_closed d) [] (senders_gone d) (replies d)) os (sent o)
              else MkOpening true d os (sent o))
      else None
  | ResumeOpen i =>
      match openers o !! i with
      | Some (Replied (Ok _)) => Some (MkOpening (running o) (driver o) (<[i := Finished Opened]> (openers o)) (sent o))
      | Some (Replied (Err e)) =>
          Some (MkOpening (running o) (driver o)
                  (<[i := Finished (OpenError {| io_kind := OtherKind; io_msg := e |})]> (openers o)) (sent o))
      | Some Sent =>
          if decide (i ∈ in_flight_opens (driver o)) then None
          else Some (MkOpening (running o) (driver o) (<[i := Finished DriverExited]> (openers o)) (sent o))
      | _ => None
      end
  | GiveUp i =>
      match openers o !! i with
      | Some Sending | Some Sent | Some (Replied _) =>
          Some (MkOpening (running o) (driver o) (<[i := GivenUp]> (openers o)) (sent o))
      | _ => None
      end
  end.

Definition opening_step : Opening -> Opening -> Prop := labelled opening_next.

(** ** What one poll does *)

(** A request is dropped, or answered; it stays if the multiplexer is not ready. *)
Lemma answer_open_spec is_closed req outs replied :
  match answer_open is_closed req outs replied with
  | Some (_, replied') => exists answered, replied' = replied ++ answered
      /\ map fst answered = filter (fun r => is_closed r = false) [req]
  | None => is_closed req = false
  end.
Proof.
  unfold answer_open. destruct (is_closed req) eqn:Ec; [exists []; rewrite app_nil_r, filter_cons_False by congruence; done |].
  destruct outs as [|[res|] outs]; try done. exists [(req, res)]. by rewrite filter_cons_True by done.
Qed.

(** The requests a poll has dealt with are a prefix of those it saw: it has
    answered the ones whose requester still waits, in order; the others are still
    stashed or queued. *)
Definition dealt_with (is_closed : OpenRequest -> bool) (reqs queue : list OpenRequest)
    (replied : list (OpenRequest * result unit str)) (closed gone : bool) (d : Driver) : Prop :=
  exists dealt answered, replies d = replied ++ answered
    /\ reqs = dealt ++ in_flight_opens d
    /\ map fst answered = filter (fun r => is_closed r = false) dealt
    /\ length (open_queue d) <= length queue
    /\ senders_gone d = gone /\ (open_queue_closed d = true -> closed || gone = true).

Lemma receive_opens_spec is_closed budget closed gone queue outs replied :
  dealt_with is_closed queue queue replied closed gone (receive_opens is_closed budget closed gone queue outs replied).
Proof.
  revert queue outs replied. induction budget as [|budget IH]; intros queue outs replied; cbn [receive_opens].
  { destruct closed; (exists [], []; rewrite app_nil_r; naive_solver). }
  destruct closed; [exists [], []; rewrite app_nil_r; naive_solver |].
  destruct queue as [|req rest]; [exists [], []; rewrite app_nil_r; naive_solver |].
  pose proof (answer_open_spec is_closed req outs replied) as Hans.
  destruct (answer_open is_closed req outs replied) as [[outs' replied']|].
  - destruct Hans as (a & -> & Ha). destruct (IH rest outs' (replied ++ a)) as (dealt & answered & Hr & Hd & Hf & Hq & Hrest).
    exists (req :: dealt), (a ++ answered). rewrite Hr, <- app_assoc. split; [done |].
    split; [simpl; by f_equal |]. split; [|split; [simpl; lia | done]].
    by rewrite map_app, Ha, Hf, <- filter_app.
  - exists [], []. rewrite app_nil_r. simpl. do 3 (split; [done |]). split; [lia | done].
Qed.

Lemma serve_opens_spec is_closed budget d outs :
  dealt_with is_closed
    (match pending_open d with Some r => [r] | None => [] end ++ open_queue d) (open_queue d) (replies d)
    (open_queue_closed d) (senders_gone d) (serve_opens is_closed budget d outs).
Proof.
  unfold serve_opens. destruct (pending_open d) as [req|] eqn:Hp; [|apply receive_opens_spec].
  pose proof (answer_open_spec is_closed req outs (replies d)) as Hans.
  destruct (answer_open is_closed req outs (replies d)) as [[outs' replied']|].
  - destruct Hans as (a & -> & Ha).
    destruct (receive_opens_spec is_closed budget (open_queue_closed d) (senders_gone d) (open_queue d) outs' (replies d ++ a))
      as (dealt & answered & Hr & Hd & Hf & Hrest).
    exists (req :: dealt), (a ++ answered). rewrite Hr, <- app_assoc. split; [done |].
    split; [simpl; by f_equal |]. split; [|done]. by rewrite map_app, Ha, Hf, <- filter_app.
  - exists [], []. rewrite app_nil_r. unfold in_flight_opens. rewrite Hp. repeat (split; [done |]). by intros ->.
Qed.

(** A poll that may receive, with a multiplexer that is ready, deals with the first
    request at least. *)
Lemma serve_opens_ready is_closed budget d res outs :
  open_queue_closed d = false -> in_flight_opens d <> [] ->
  length (in_flight_opens (serve_opens is_closed (S budget) d (Some res :: outs))) < length (in_flight_opens d).
Proof.
  intros Hc Hne. assert (Hans : forall req replied, exists p, answer_open is_closed req (Some res :: outs) replied = Some p).
  { intros req replied. unfold answer_open. destruct (is_closed req); eauto. }
  assert (Hrec : forall b c g q o r, length (in_flight_opens (receive_opens is_closed b c g q o r)) <= length q).
  { intros b c g q o r. destruct (receive_opens_spec is_closed b c g q o r) as (dealt & _ & _ & Hd & _).
    apply (f_equal length) in Hd. rewrite length_app in Hd. lia. }
  unfold serve_opens. unfold in_flight_opens in Hne |- * at 2. destruct (pending_open d) as [req|].
  - destruct (Hans req (replies d)) as [[outs' replied'] ->].
    pose proof (Hrec (S budget) (open_queue_closed d) (senders_gone d) (open_queue d) outs' replied').
    cbn [app length]. lia.
  - destruct (open_queue d) as [|req rest]; [done |]. cbn [receive_opens]. rewrite Hc.
    destruct (Hans req (replies d)) as [[outs' replied'] ->].
    pose proof (Hrec budget false (senders_gone d) rest outs' replied'). cbn [app length]. lia.
Qed.

Lemma deliver_other answers os i : i ∉ map fst answers -> deliver answers os !! i = os !! i.
Proof.
  revert os. induction answers as [|[j r] answers IH]; intros os Hi; [done |]. simpl in *.
  apply not_elem_of_cons in Hi as [Hne Hi]. unfold deliver in *. simpl. rewrite IH by done.
  destruct (os !! j) as [[]|]; try done. by rewrite list_lookup_insert_ne.
Qed.

Lemma deliver_reply answers os i r :
  (i, r) ∈ answers -> NoDup (map fst answers) -> os !! i = Some Sent -> deliver answers os !! i = Some (Replied r).
Proof.
  revert os. induction answers as [|[j x] answers IH]; intros os Hin Hnd Hi; [by apply elem_of_nil in Hin |].
  cbn [map fst] in Hnd. apply NoDup_cons in Hnd as [Hj Hnd].
  apply elem_of_cons in Hin as [[= -> ->]|Hin]; unfold deliver; cbn [foldl].
  - rewrite Hi. change (foldl _ ?o answers) with (deliver answers o). rewrite deliver_other by done.
    apply list_lookup_insert_eq. by eapply lookup_lt_Some.
  - change (foldl _ ?o answers) with (deliver answers o). apply IH; [done | done |].
    assert (i <> j).
    { intros ->. apply Hj. apply list_elem_of_fmap. by exists (j, r). }
    destruct (os !! j) as [[]|]; try done. by rewrite list_lookup_insert_ne.
Qed.

(** ** The invariant *)

Record opening_inv (o : Opening) : Prop := {
  op_open : open_queue_closed (driver o) = false /\ senders_gone (driver o) = false;
  op_order : map fst (replies (driver o)) ++ in_flight_opens (driver o) `sublist_of` sent o;
  op_sent_once : NoDup (sent o);
  op_known : forall i, i ∈ sent o -> exists st, openers o !! i = Some st /\ st <> Sending;
  op_flight : forall i, i ∈ in_flight_opens (driver o) -> openers o !! i = Some Sent \/ openers o !! i = Some GivenUp;
  op_waits : forall i, openers o !! i = Some Sent -> if running o then i ∈ in_flight_opens (driver o) else True;
  op_replied : forall i r, openers o !! i = Some (Replied r) -> (i, r) ∈ replies (driver o);
  op_exited : running o = false -> in_flight_opens (driver o) = [];
  op_bound : length (open_queue (driver o)) <= OPEN_QUEUE;
}.

Lemma opening_inv_new : opening_inv opening_new.
Proof. split; simpl; try done; [constructor | by intros i ?%elem_of_nil | by intros i ?%elem_of_nil | unfold OPEN_QUEUE; lia]. Qed.

Lemma deliver_cases answers os i st :
  deliver answers os !! i = Some st ->
  os !! i = Some st \/ exists r, (i, r) ∈ answers /\ st = Replied r /\ os !! i = Some Sent.
Proof.
  revert os. induction answers as [|[j x] answers IH]; intros os; [by left |].
  unfold deliver. cbn [foldl]. change (foldl _ ?o answers) with (deliver answers o). intros Hd.
  destruct (os !! j) as [[| |z|z|]|] eqn:Ej;
    try (apply IH in Hd as [?|(r & ? & ?)]; [by left | right; exists r; split; [by right | done]]).
  apply IH in Hd as [Hd|(r & Hin & Hr & Hd)].
  - apply list_lookup_insert_Some in Hd as [(<- & <- & _)|[_ Hd]]; [|by left].
    right. exists x. split; [by left | done].
  - apply list_lookup_insert_Some in Hd as [(_ & ? & _)|[_ Hd]]; [done |].
    right. exists r. split; [by right | done].
Qed.

Lemma deliver_length answers os : length (deliver answers os) = length os.
Proof.
  revert os. induction answers as [|[j x] answers IH]; intros os; [done |].
  unfold deliver. cbn [foldl]. change (foldl _ ?o answers) with (deliver answers o). rewrite IH.
  destruct (os !! j) as [[]|]; try done. apply length_insert.
Qed.

Lemma deliver_keeps_sent answers os i st :
  os !! i = Some st -> st <> Sending -> exists st', deliver answers os !! i = Some st' /\ st' <> Sending.
Proof.
  intros Hst Hne. assert (Hlt : i < length (deliver answers os)) by (rewrite deliver_length; by eapply lookup_lt_Some).
  apply lookup_lt_is_Some in Hlt as [st' E]. exists st'. split; [done |].
  destruct (deliver_cases _ _ _ _ E) as [?|(r & _ & -> & _)]; congruence.
Qed.

(** A request that a poll has dealt with while its caller waited is answered. *)
Lemma dealt_answered dealt answered os i :
  map fst answered = filter (fun r => given_up os r = false) dealt -> NoDup (map fst answered) ->
  i ∈ dealt -> os !! i = Some Sent -> deliver answered os !! i <> Some Sent.
Proof.
  intros Ha Hnd Hi Ho Hd. assert (Hia : i ∈ map fst answered).
  { rewrite Ha. apply list_elem_of_filter. split; [|done]. unfold given_up. by rewrite Ho. }
  apply list_elem_of_fmap in Hia as ([j r] & -> & Hia). simpl in *.
  by rewrite (deliver_reply _ _ j r Hia Hnd Ho) in Hd.
Qed.

(** A caller moves on: it receives its reply, learns that the driver is gone, or
    gives up. *)
Lemma inv_opener o i st st' :
  opening_inv o -> openers o !! i = Some st -> st <> GivenUp -> st' <> Sending -> st' <> Sent ->
  (st = Sent -> i ∉ in_flight_opens (driver o) \/ st' = GivenUp) ->
  (forall r, st' <> Replied r) ->
  opening_inv (MkOpening (running o) (driver o) (<[i := st']> (openers o)) (sent o)).
Proof.
  intros Hi Hst Hng H1 H2 Hs Hr. assert (Hlt : i < length (openers o)) by (by eapply lookup_lt_Some).
  split; simpl; try by destruct Hi.
  - intros j (x & Hj & Hx)%(op_known _ Hi). destruct (decide (i = j)) as [<-|].
    + exists st'. by rewrite list_lookup_insert_eq.
    + exists x. by rewrite list_lookup_insert_ne.
  - intros j Hj. pose proof (op_flight _ Hi j Hj) as Hf. destruct (decide (i = j)) as [<-|].
    + right. rewrite list_lookup_insert_eq by done. rewrite Hst in Hf.
      destruct Hf as [[= ->]|[= ->]]; [|done]. by destruct (Hs eq_refl) as [| ->].
    + by rewrite list_lookup_insert_ne.
  - intros j Hj. apply list_lookup_insert_Some in Hj as [(_ & ? & _)|[_ Hj]]; [done |]. by apply (op_waits _ Hi).
  - intros j r Hj. apply list_lookup_insert_Some in Hj as [(_ & -> & _)|[_ Hj]]; [by destruct (Hr r) |].
    by apply (op_replied _ Hi).
Qed.

Lemma inv_send o o' i : opening_inv o -> opening_next (SendRequest i) o = Some o' -> opening_inv o'.
Proof.
  intros Hi Hs. cbn [opening_next] in Hs. destruct (openers o !! i) as [[]|] eqn:Hst; try done.
  assert (Hlt : i < length (openers o)) by (by eapply lookup_lt_Some). cbv zeta in Hs.
  destruct (running o) eqn:Hrun; [|injection Hs as <-; rewrite <- Hrun; by eapply inv_opener].
  destruct (Nat.ltb_spec (length (open_queue (driver o))) OPEN_QUEUE) as [Hb|]; [|done]. injection Hs as <-.
  assert (Hnew : i ∉ sent o).
  { intros (st & Hst' & Hne)%(op_known _ Hi). congruence. }
  assert (Hfl : forall d, in_flight_opens (MkDriver (pending_open d) (open_queue_closed d) (open_queue d ++ [i])
    (senders_gone d) (replies d)) = in_flight_opens d ++ [i]).
  { intros d. unfold in_flight_opens. simpl. by rewrite app_assoc. }
  split; cbn [running driver openers sent]; rewrite ?Hfl; simpl.
  - apply (op_open _ Hi).
  - rewrite app_assoc. apply sublist_app; [apply (op_order _ Hi) | done].
  - apply NoDup_app. split; [apply (op_sent_once _ Hi) |]. split; [|apply NoDup_singleton].
    by intros j Hj ->%list_elem_of_singleton.
  - intros j [Hj|Hj%list_elem_of_singleton]%elem_of_app.
    + assert (i <> j) by (by intros ->). rewrite list_lookup_insert_ne by done. by apply (op_known _ Hi).
    + subst j. exists Sent. by rewrite list_lookup_insert_eq.
  - intros j [Hj|Hj%list_elem_of_singleton]%elem_of_app.
    + assert (i <> j).
      { intros <-. destruct (op_flight _ Hi _ Hj); congruence. }
      rewrite list_lookup_insert_ne by done. by apply (op_flight _ Hi).
    + subst j. left. by rewrite list_lookup_insert_eq.
  - intros j Hj. apply elem_of_app. apply list_lookup_insert_Some in Hj as [(<- & _)|[_ Hj]]; [right; by left |].
    left. pose proof (op_waits _ Hi j Hj) as Hw. by rewrite Hrun in Hw.
  - intros j r Hj. apply list_lookup_insert_Some in Hj as [(_ & ? & _)|[_ Hj]]; [done |]. by apply (op_replied _ Hi).
  - done.
  - rewrite length_app. simpl. lia.
Qed.

(** One poll of the running driver. *)
Lemma polled o budget outs events :
  opening_inv o ->
  let d := (drive_client_poll (given_up (openers o)) budget (driver o) outs events).2 in
  exists dealt answered, replies d = replies (driver o) ++ answered
    /\ in_flight_opens (driver o) = dealt ++ in_flight_opens d
    /\ map fst answered = filter (fun r => given_up (openers o) r = false) dealt
    /\ length (open_queue d) <= length (open_queue (driver o))
    /\ open_queue_closed d = false /\ senders_gone d = false.
Proof.
  intros Hi d. destruct (op_open _ Hi) as [Hc Hg].
  destruct (serve_opens_spec (given_up (openers o)) budget (driver o) outs)
    as (dealt & answered & Hr & Hd & Ha & Hq & Hs & Hcl).
  exists dealt, answered. subst d. cbn [drive_client_poll snd]. repeat (split; [done |]). rewrite Hs. split; [|done].
  apply not_true_is_false. intros Hx%Hcl. by rewrite Hc, Hg in Hx.
Qed.

Lemma inv_poll o o' budget outs events :
  opening_inv o -> opening_next (PollDriver budget outs events) o = Some o' -> opening_inv o'.
Proof.
  intros Hi Hs. cbn [opening_next] in Hs. destruct (running o) eqn:Hrun; [|done].
  pose proof (polled o budget outs events Hi) as (dealt & answered & Hr & Hfl & Ha & Hq & Hcl & Hsg).
  destruct (drive_client_poll (given_up (openers o)) budget (driver o) outs events) as [fin d]. cbn [snd] in *.
  assert (Hdrop : drop (length (replies (driver o))) (replies d) = answered) by (by rewrite Hr, drop_app_length).
  rewrite Hdrop in Hs.
  assert (Hsub : map fst answered ++ in_flight_opens d `sublist_of` in_flight_opens (driver o)).
  { rewrite Hfl, Ha. apply sublist_app; [apply sublist_filter | done]. }
  assert (Hord : map fst (replies d) ++ in_flight_opens d `sublist_of` sent o).
  { rewrite Hr, map_app, <- app_assoc. etrans; [|apply (op_order _ Hi)]. by apply sublist_app. }
  assert (Hnd : NoDup (map fst answered ++ in_flight_opens d)).
  { eapply sublist_NoDup; [|apply (op_sent_once _ Hi)]. etrans; [exact Hsub |].
    etrans; [|apply (op_order _ Hi)]. by apply sublist_inserts_l. }
  apply NoDup_app in Hnd as (Hnd & Hdis & _).
  assert (Hstage : forall i st, deliver answered (openers o) !! i = Some st ->
    openers o !! i = Some st \/ exists r, (i, r) ∈ answered /\ st = Replied r) by (intros i st Hd; apply deliver_cases in Hd; naive_solver).
  assert (Hkeep : forall i, i ∈ in_flight_opens d ->
    deliver answered (openers o) !! i = Some Sent \/ deliver answered (openers o) !! i = Some GivenUp).
  { intros i Hid. rewrite deliver_other by (intros Hx; by apply (Hdis i Hx)). apply (op_flight _ Hi).
    rewrite Hfl. apply elem_of_app. by right. }
  assert (Hknown : forall i, i ∈ sent o -> exists st, deliver answered (openers o) !! i = Some st /\ st <> Sending).
  { intros i (st & Hst & Hne)%(op_known _ Hi). by eapply deliver_keeps_sent. }
  assert (Hrep : forall i r, deliver answered (openers o) !! i = Some (Replied r) -> (i, r) ∈ replies d).
  { intros i r Hd. rewrite Hr. apply elem_of_app.
    destruct (Hstage i _ Hd) as [Ho|(r' & Hia & [= ->])]; [left; by apply (op_replied _ Hi) | by right]. }
  assert (Hlen : length (open_queue d) <= OPEN_QUEUE) by (pose proof (op_bound _ Hi); lia).
  destruct fin; injection Hs as <-.
  - split; simpl; try done.
    + rewrite app_nil_r. etrans; [|exact Hord]. by apply sublist_inserts_r.
    + apply (op_sent_once _ Hi).
    + by intros i ?%elem_of_nil.
    + unfold OPEN_QUEUE. lia.
  - split; simpl; try done; [apply (op_sent_once _ Hi) |]. intros i Hd.
    destruct (Hstage i _ Hd) as [Ho|(r & _ & ?)]; [|done].
    pose proof (op_waits _ Hi i Ho) as Hw. rewrite Hrun, Hfl in Hw. apply elem_of_app in Hw as [Hw|Hw]; [|done].
    exfalso. by apply (dealt_answered dealt answered (openers o) i Ha Hnd Hw Ho).
Qed.

Lemma opening_inv_step o o' : opening_inv o -> opening_step o o' -> opening_inv o'.
Proof.
  intros Hi [l Hs]. destruct l as [|i|budget outs events|i|i].
  - injection Hs as <-. assert (Hlast : forall i st, (openers o ++ [Sending]) !! i = Some st ->
      openers o !! i = Some st \/ st = Sending).
    { intros i st [?|[_ Hx]]%lookup_app_Some; [by left | right]. by apply list_lookup_singleton_Some in Hx as [_ <-]. }
    split; simpl; try by destruct Hi.
    + intros i (st & Hst & Hne)%(op_known _ Hi). exists st. split; [by apply lookup_app_l_Some | done].
    + intros i [Hf|Hf]%(op_flight _ Hi); [left | right]; by apply lookup_app_l_Some.
    + intros i [Hx|Hx]%Hlast; [by apply (op_waits _ Hi) | done].
    + intros i r [Hx|Hx]%Hlast; [by apply (op_replied _ Hi) | done].
  - by eapply inv_send.
  - by eapply inv_poll.
  - cbn [opening_next] in Hs. destruct (openers o !! i) as [[| |[]| |]|] eqn:Hst; try done.
    + destruct (decide _); [done |]. injection Hs as <-. eapply inv_opener; eauto.
    + injection Hs as <-. by eapply inv_opener.
    + injection Hs as <-. by eapply inv_opener.
  - cbn [opening_next] in Hs. destruct (openers o !! i) as [[]|] eqn:Hst; try done; injection Hs as <-;
      eapply inv_opener; try done; by right.
Qed.

Lemma opened_inv o : steps opening_step opening_new o -> opening_inv o.
Proof. apply steps_invariant; [apply opening_inv_new | apply opening_inv_step]. Qed.

(** ** Progress *)

(** How far a call is from its return, and the driver from having served it. *)
Definition stage_work (st : OpenStage) : nat :=
  match st with Sending => 4 | Sent => 2 | Replied _ => 1 | Finished _ | GivenUp => 0 end.
Definition opening_work (o : Opening) : nat :=
  sum_list_with stage_work (openers o) + length (in_flight_opens (driver o)).

(** Steps that serve a call: one of its own, or a poll of the driver that may receive
    and finds the multiplexer ready, with a request to serve. *)
Definition serves (o : Opening) (l : OpenLabel) : bool :=
  match l with
  | SendRequest _ | ResumeOpen _ => true
  | PollDriver (S _) (Some _ :: _) _ => negb (bool_decide (in_flight_opens (driver o) = []))
  | PollDriver _ _ _ | CallOpen | GiveUp _ => false
  end.

Lemma deliver_work answers os : sum_list_with stage_work (deliver answers os) <= sum_list_with stage_work os.
Proof.
  revert os. induction answers as [|[j x] answers IH]; intros os; [done |].
  unfold deliver. cbn [foldl]. change (foldl _ ?o answers) with (deliver answers o). etrans; [apply IH |].
  destruct (os !! j) as [[]|] eqn:Ej; try done.
  pose proof (sum_insert stage_work os j Sent (Replied x) Ej). simpl in *. lia.
Qed.

(** A step of one call brings it closer to its return. *)
Lemma opener_work o i st st' d :
  openers o !! i = Some st ->
  stage_work st' + length (in_flight_opens d) < stage_work st + length (in_flight_opens (driver o)) ->
  forall r s, opening_work (MkOpening r d (<[i := st']> (openers o)) s) < opening_work o.
Proof. intros Hi Hw r s. unfold opening_work. simpl. pose proof (sum_insert stage_work _ _ _ st' Hi). lia. Qed.

Lemma poll_work o o' budget outs events :
  opening_inv o -> opening_next (PollDriver budget outs events) o = Some o' ->
  opening_work o' <= opening_work o
  /\ (serves o (PollDriver budget outs events) = true -> opening_work o' < opening_work o).
Proof.
  intros Hi Hp. cbn [opening_next] in Hp. destruct (running o) eqn:Hrun; [|done].
  destruct (polled o budget outs events Hi) as (dealt & answered & Hr & Hfl & _).
  assert (Hready : serves o (PollDriver budget outs events) = true ->
    length (in_flight_opens (serve_opens (given_up (openers o)) budget (driver o) outs)) < length (in_flight_opens (driver o))).
  { intros Hs. destruct budget as [|budget], outs as [|[res|] outs]; try done. cbn [serves] in Hs.
    apply serve_opens_ready; [apply (op_open _ Hi) |]. intros He. by rewrite bool_decide_eq_true_2 in Hs. }
  cbn [drive_client_poll snd] in *. cbv zeta in Hp. unfold drive_client_poll in Hp.
  set (d := serve_opens _ _ _ _) in *. apply (f_equal length) in Hfl. rewrite length_app in Hfl.
  pose proof (deliver_work (drop (length (replies (driver o))) (replies d)) (openers o)) as Hdw.
  destruct (pump events); injection Hp as <-; unfold opening_work; cbn [openers driver];
    [change (in_flight_opens (MkDriver _ _ [] _ _)) with (@nil nat) |];
    (split; [simpl in *; lia | intros Hs%Hready; simpl in *; lia]).
Qed.

Lemma opening_work_step o o' l :
  opening_inv o -> opening_next l o = Some o' -> l <> CallOpen ->
  opening_work o' <= opening_work o /\ (serves o l = true -> opening_work o' < opening_work o).
Proof.
  intros Hi Hs Hne. destruct l as [|i|budget outs events|i|i]; [done | | by eapply poll_work | |];
    (cut (opening_work o' < opening_work o); [intros; split; [lia | done] |]).
  - cbn [opening_next] in Hs. destruct (openers o !! i) as [[]|] eqn:Hst; try done. cbv zeta in Hs.
    destruct (running o); [|injection Hs as <-; apply (opener_work o i Sending); [done | simpl; lia]].
    destruct (_ <? _); [|done]. injection Hs as <-. apply (opener_work o i Sending); [done |].
    unfold in_flight_opens. simpl. rewrite !length_app. simpl. lia.
  - cbn [opening_next] in Hs. destruct (openers o !! i) as [[| |[]| |]|] eqn:Hst; try done;
      [destruct (decide _); [done |] | |]; injection Hs as <-; (eapply opener_work; [done | simpl; lia]).
  - cbn [opening_next] in Hs. destruct (openers o !! i) as [[]|] eqn:Hst; try done; injection Hs as <-;
      (eapply opener_work; [done | simpl; lia]).
Qed.

(** As long as a call has not returned, a step that serves one can be taken. *)
Lemma waiting_served o i st :
  opening_inv o -> openers o !! i = Some st -> 0 < stage_work st ->
  exists l o', serves o l = true /\ opening_next l o = Some o'.
Proof.
  intros Hi Hst Hw.
  assert (Hpoll : running o = true -> in_flight_opens (driver o) <> [] ->
    exists l o', serves o l = true /\ opening_next l o = Some o').
  { intros Hr Hne. eexists (PollDriver 1 [Some (Ok tt)] []), _. split; [by apply negb_true_iff, bool_decide_eq_false |].
    cbn [opening_next]. rewrite Hr. done. }
  destruct st as [| |[u|e]| |]; simpl in Hw; try lia.
  - destruct (running o) eqn:Hr.
    2: { eexists (SendRequest i), _. split; [done |]. cbn [opening_next]. by rewrite Hst, Hr. }
    destruct (Nat.ltb_spec (length (open_queue (driver o))) OPEN_QUEUE) as [Hlt|Hge].
    + eexists (SendRequest i), _. split; [done |]. cbn [opening_next]. rewrite Hst, Hr.
      by rewrite (proj2 (Nat.ltb_lt _ _) Hlt).
    + apply Hpoll; [done |]. unfold in_flight_opens. intros [_ He]%app_nil. rewrite He in Hge. unfold OPEN_QUEUE in Hge.
      simpl in Hge. lia.
  - pose proof (op_waits _ Hi i Hst) as Hwait. destruct (running o) eqn:Hr.
    + apply Hpoll; [done |]. intros He. rewrite He in Hwait. by apply elem_of_nil in Hwait.
    + eexists (ResumeOpen i), _. split; [done |]. cbn [opening_next]. rewrite Hst, (op_exited _ Hi Hr).
      rewrite decide_False by (by intros ?%elem_of_nil). done.
  - eexists (ResumeOpen i), _. split; [done |]. cbn [opening_next]. by rewrite Hst.
  - eexists (ResumeOpen i), _. split; [done |]. cbn [opening_next]. by rewrite Hst.
Qed.

(** ** Properties *)

(** C24: the open requests of a tunnel are served in the order they were sent, none
    twice and none lost: whatever callers send, give up or resume, and whatever
    the multiplexer answers at each poll, the requests answered so far, then the
    stashed and the queued ones, follow the order of sending, and while the driver
    runs every caller that waits for an answer is among the latter; the queue
    keeps to its bound. *)
Theorem opens_kept o :
  steps opening_step opening_new o ->
  NoDup (sent o)
  /\ map fst (replies (driver o)) ++ in_flight_opens (driver o) `sublist_of` sent o
  /\ (running o = true -> forall i, openers o !! i = Some Sent -> i ∈ in_flight_opens (driver o))
  /\ length (open_queue (driver o)) <= OPEN_QUEUE.
Proof.
  intros Hi%opened_inv. split; [apply (op_sent_once _ Hi) |]. split; [apply (op_order _ Hi) |].
  split; [|apply (op_bound _ Hi)]. intros Hr i Ho. pose proof (op_waits _ Hi i Ho) as Hw. by rewrite Hr in Hw.
Qed.

(** C25: no call of [open_stream] hangs, as long as the multiplexer is ready from time
    to time and the driver is polled: while a call has not returned (blocked in the
    send on a full queue, waiting for its reply, or about to receive it), a step
    that serves a call can be taken: a step of the call itself, or a poll that may
    receive at least one request and finds the multiplexer ready.  Each such step
    brings the whole closer to the end, by a measure of at most 4 per call and one
    per request in flight; a poll cut short by the budget of the task or by a
    multiplexer that is not ready, and a call that is dropped, set nothing back.
    Once the driver has exited, every call can return at its next step, because no
    request of it is held any more. *)
Theorem opens_return o :
  steps opening_step opening_new o ->
  opening_work o <= 4 * length (openers o) + OPEN_QUEUE + 1
  /\ (forall l o', opening_next l o = Some o' -> l <> CallOpen ->
        opening_work o' <= opening_work o /\ (serves o l = true -> opening_work o' < opening_work o))
  /\ (forall i st, openers o !! i = Some st -> 0 < stage_work st ->
        exists l o', serves o l = true /\ opening_next l o = Some o')
  /\ (running o = false -> forall i st, openers o !! i = Some st -> 0 < stage_work st ->
        exists l o' a, opening_next l o = Some o' /\ openers o' !! i = Some (Finished a)).
Proof.
  intros Hs. pose proof (opened_inv o Hs) as Hi. split; [|split; [|split]].
  - unfold opening_work. assert (Hl : length (in_flight_opens (driver o)) <= OPEN_QUEUE + 1).
    { pose proof (op_bound _ Hi). unfold in_flight_opens. rewrite length_app. destruct (pending_open _); cbn [length]; lia. }
    assert (Hsum : forall l, sum_list_with stage_work l <= 4 * length l).
    { induction l as [|[] l IH]; simpl; lia. }
    specialize (Hsum (openers o)). lia.
  - intros l o'. by apply opening_work_step.
  - intros i st. by apply waiting_served.
  - intros Hr i st Hst Hw. assert (Hlt : i < length (openers o)) by (by eapply lookup_lt_Some).
    destruct st as [| |[u|e]| |]; simpl in Hw; try lia; [exists (SendRequest i) | exists (ResumeOpen i)..];
      cbn [opening_next]; rewrite Hst, ?Hr, ?(op_exited _ Hi Hr), ?decide_False by (by intros ?%elem_of_nil);
      (do 2 eexists; split; [done | by apply list_lookup_insert_eq]).
Qed.

(** Three callers of a tunnel: one is answered, one gives up, one is left when
    the driver exits. *)
Module DriverDemo.
Definition script : list OpenLabel :=
  [CallOpen; CallOpen; CallOpen; SendRequest 1; SendRequest 0; SendRequest 2; GiveUp 0;
   PollDriver 9 [Some (Ok tt); None] []].
Definition waiting : Opening := default opening_new (run_labels opening_next script opening_new).

(** One more caller than the queue takes requests, and polls without budget. *)
Definition crowd : list OpenLabel :=
  replicate 257 CallOpen ++ map SendRequest (seq 0 256) ++ [PollDriver 0 [Some (Ok tt)] []; PollDriver 4 [] []].
Definition crowded : Opening := default opening_new (run_labels opening_next crowd opening_new).

Lemma opens_kept_witness :
  map fst (replies (driver waiting)) ++ in_flight_opens (driver waiting) `sublist_of` sent waiting
  /\ sent waiting = [1; 0; 2].
Proof.
  split; [|vm_compute; reflexivity].
  exact (proj1 (proj2 (opens_kept waiting (run_labels_steps opening_next script opening_new waiting ltac:(vm_compute; reflexivity))))).
Defined.

Lemma crowd_runs : run_labels opening_next crowd opening_new = Some crowded.
Proof. vm_compute. reflexivity. Qed.
Lemma crowded_blocked : openers crowded !! 256 = Some Sending.
Proof. vm_compute. reflexivity. Qed.

Lemma opens_return_witness :
  exists l o', serves crowded l = true /\ opening_next l crowded = Some o' /\ opening_work o' < opening_work crowded.
Proof.
  destruct (opens_return crowded (run_labels_steps opening_next crowd opening_new crowded crowd_runs))
    as (_ & Hless & Hmore & _).
  destruct (Hmore 256 Sending crowded_blocked ltac:(simpl; lia)) as (l & o' & Hs & Hn).
  exists l, o'. split; [exact Hs |]. split; [exact Hn |].
  destruct (Hless l o' Hn) as [_ H]; [intros ->; discriminate Hs | exact (H Hs)].
Defined.
End DriverDemo.
