(* ===== verification/Listener.v ===== *)
(** * Accepting connections: the part the two proxies share
    ([src/proxy/tcp.rs], [src/proxy/outbound.rs])

    The connection semaphore, the active-connection counter, the accept loops
    and the graceful shutdown. *)

From S2P Require Import Prelude Bytes Common Glob Identity Net Policy Metrics ProxyBase Dns.
From S2P Require Import Tunnels Process Holdings Tasks Handshake Events.

Set Default Proof Using "Type".

(** ** Admission of a connection *)

(** [Semaphore::new(max_conn)], which panics above [MAX_PERMITS], and the
    counter at zero. *)
Definition slots_new (max_conn : N) : eval Slots :=
  if (MAX_PERMITS <? max_conn)%N then None else Some (MkSlots max_conn 0).

(** The tail of [handle_accept], once the upstream is chosen: drop the client
    without an upstream, reject it without a permit, else take the permit,
    count the connection, and spawn its handler, which gives both back. *)
Definition try_spawn (s : Side) (upstream : option UpstreamTarget) (name : UpstreamTarget -> Event)
    (handle : UpstreamTarget -> Prog Event unit) : Prog Event unit :=
  match upstream with
  | None => emit DropClient
  | Some u =>
      permit ← call (TryAcquire s);
      if permit : bool then
        _ ← call (CountUp s);
        spawn true (name u)
          (_ ← handle u;
           _ ← call (CountDown s);
           call (ReturnPermit s))
      else
        _ ← record Met.record_saturation_rejection;
        emit RejectClient
  end.

(** ** Resolving an upstream

    [discovery] is what a call of the service discovery made at a given time
    answers, if there is one (see [Dns]). *)
Abbreviation Discovery := (N -> list Ascii.ascii -> result ResolvedEndpoints InterlinkError) (only parsing).

Definition resolve_target (discovery : option Discovery) (now : N) (upstream : UpstreamTarget) :
    result SocketAddr InterlinkError :=
  match upstream with
  | Socket addr => Ok addr
  | Host name port =>
      match discovery with
      | None => Err (DnsResolution (bs "cannot resolve hostname '" ++ Upstream.fmt upstream
                  ++ bs "' without discovery"))
      | Some resolve =>
          resolved <-? resolve now name ;;
          first <-? ok_or (head (addrs resolved))
                     (DnsResolution (bs "no endpoints for " ++ Upstream.fmt upstream)) ;;
          Ok (socket_addr (sa_ip first) (default (sa_port first) port))
      end
  end.

(** ** Starting: bind the acceptors *)

Inductive Started := Disabled | NoAcceptors | Listening (acceptors : list nat).

Definition any_ipv4 (port : N) : SocketAddr := socket_addr (V4 0 0 0 0) port.

Definition start (e : env) (parallelism : option N) (sys : nat -> SockOp -> result unit IoError)
    (listen_port : N) : Started :=
  if (listen_port =? 0)%N then Disabled
  else match bind_all sys (any_ipv4 listen_port) 0 (N.to_nat (num_acceptors e parallelism)) with
       | [] => NoAcceptors
       | ls => Listening ls
       end.

(** One acceptor: each turn of its [select!] has the signals that arrive during
    the turn and the branch that is taken.  The shutdown branch is open only
    when the wait on the receiver resolves; a turn that names it while it is
    closed does nothing. *)
Inductive branch (C : Type) := Accept (c : C) | AcceptError | ShutdownBranch.
Arguments Accept {C} c.
Arguments AcceptError {C}.
Arguments ShutdownBranch {C}.
Abbreviation turn C := (list watch_event * branch C)%type (only parsing).

(** The connections accepted, and whether the loop has ended. *)
Fixpoint acceptor {C : Type} (rx : option (list watch_event)) (turns : list (turn C)) : list C * bool :=
  match turns with
  | [] => ([], false)
  | (arrived, b) :: rest =>
      let rest := acceptor (heard rx arrived) rest in
      match b with
      | Accept c => (c :: rest.1, rest.2)
      | AcceptError => rest
      | ShutdownBranch => if shutdown_ready rx arrived then ([], true) else rest
      end
  end.

(** The task of an acceptor: [handle_accept] for every connection in turn; then
    the loop has ended, or it waits for the next connection. *)
Fixpoint serve_all {C : Type} (handle_accept : C -> Prog Event unit) (cs : list C) (shutdown : bool) :
    Prog Event unit :=
  match cs with
  | [] => if shutdown then mret tt else Idle
  | c :: rest => _ ← handle_accept c; serve_all handle_accept rest shutdown
  end.

Definition acceptor_task {C : Type} (handle_accept : C -> Prog Event unit)
    (rx : option (list watch_event)) (turns : list (turn C)) : Prog Event unit :=
  serve_all handle_accept (acceptor rx turns).1 (acceptor rx turns).2.

(** ** Graceful shutdown *)

Inductive ShutdownOutcome := Complete | Expired.

(** The polling loop over its successive observations of the counter and the
    clock (milliseconds); [None]: still polling. *)
Fixpoint graceful (deadline : N) (obs : list (N * N)) : option ShutdownOutcome :=
  match obs with
  | [] => None
  | (active, time) :: rest =>
      if (active =? 0)%N then Some Complete
      else if (deadline <=? time)%N then Some Expired
      else graceful deadline rest
  end.

Definition wait_for_graceful_shutdown (began : N) (obs : list (N * N)) : option ShutdownOutcome :=
  graceful (began + timeouts.SHUTDOWN_GRACE) obs.

Definition POLL_INTERVAL : N := 100.

(** [run] of either proxy: bind, accept until every acceptor has ended, then
    wait for the handlers.  The connections accepted, and the outcome once
    [run] has returned. *)
Definition run_listener {C : Type} (rx : option (list watch_event)) (e : env) (parallelism : option N)
    (sys : nat -> SockOp -> result unit IoError) (listen_port : N)
    (turns : nat -> list (turn C)) (began : N) (obs : list (N * N)) :
    list C * option ShutdownOutcome :=
  match start e parallelism sys listen_port with
  | Disabled | NoAcceptors => ([], Some Complete)
  | Listening ls =>
      let ended := map (fun i => acceptor rx (turns i)) ls in
      (concat (map fst ended),
       if forallb snd ended then wait_for_graceful_shutdown began obs else None)
  end.

(** Observations follow each other by at least the sleep between them. *)
Fixpoint paced (from : N) (obs : list (N * N)) : bool :=
  match obs with
  | [] => true
  | (_, time) :: rest => (from <=? time)%N && paced (time + POLL_INTERVAL) rest
  end.

(** ** Lemmas *)

(** What a handler holds while it runs, and what is left when it has ended; the
    tunnels are those it was given. *)
Definition busy (s : Side) (ts : list Tunnel) : Held := MkHeld (Some s) (Some s) None false false ts None.
Definition idle (ts : list Tunnel) : Held := MkHeld None None None false false ts None.

Lemma idle_released t : released (idle t).
Proof. by repeat split. Qed.

Section Admission.
Context (C : Contract Event).

(** A handler: run with a permit and counted, it ends with both and nothing
    else, and its history is that of a finished task once they are given back. *)
Definition handler_ok (s : Side) (e : Event) (m : Prog Event unit) : Prop :=
  wp C m (MkTrail (busy s []) no_charge [e])
    (fun _ tr => exists t, holds tr = busy s t /\ finished C (MkTrail (idle t) (spent tr) (said tr))).

(** The history of an acceptor. *)
Definition accepting (s : Side) (tr : Trail Event) : Prop :=
  holds tr = nothing_held /\ spent tr = no_charge /\ exists acts, said tr = Accepting s :: acts.

Lemma wp_try_spawn s u name handle tr :
  (forall acts, allowed C (Accepting s :: acts) DropClient /\ allowed C (Accepting s :: acts) RejectClient) ->
  (forall t, u = Some t -> named C (name t) /\ handler_ok s (name t) (handle t)) ->
  accepting s tr -> wp C (try_spawn s u name handle) tr (fun _ => accepting s).
Proof.
  intros Hallow Hu (Hh & Hsp & acts & Hsaid). destruct tr as [h ch sd]. simpl in Hh, Hsp, Hsaid. subst.
  destruct u as [u|]; [|split; [apply Hallow | repeat split; by eexists]].
  destruct (Hu u eq_refl) as [Hn Hok]. unfold try_spawn.
  apply (wp_call C (TryAcquire s)); [done |]. intros p hs i r p' _ _ _. unfold note. simpl.
  destruct r; [|split; [done |]; intros ? ? ? [] ? _ _ _; split; [apply Hallow |]; repeat split; by eexists].
  split; [done |]. intros ? ? ? [] ? _ _ _. split; [done |]. split; [|repeat split; by eexists].
  unfold fork_child, note. simpl. eapply wp_bind; [exact Hok |].
  intros [] [h ch sd] (t & Hh & Hfin). simpl in Hh, Hfin. subst h.
  split; [done |]. intros ? ? ? [] ? _ _ _.
  split; [done |]. intros ? ? ? [] ? _ _ _. simpl. unfold note. simpl. by rewrite !(right_id no_charge add_charge).
Qed.

Lemma wp_acceptor {A : Type} s (handle_accept : A -> Prog Event unit) rx turns tr :
  (forall c tr, c ∈ (acceptor rx turns).1 -> accepting s tr ->
     wp C (handle_accept c) tr (fun _ => accepting s)) ->
  (forall tr, accepting s tr -> resting C tr) ->
  accepting s tr -> wp C (acceptor_task handle_accept rx turns) tr (fun _ => accepting s).
Proof.
  unfold acceptor_task. generalize (acceptor rx turns).1 (acceptor rx turns).2. intros cs stop. revert tr.
  induction cs as [|c cs IH]; intros tr Hc Hr Ha; [destruct stop; [done | by apply Hr] |]. simpl. eapply wp_bind; [apply Hc; [by left | done] |].
  intros [] tr' Ha'. apply IH; [|done..]. intros c' tr2 Hin. apply Hc. by right.
Qed.
End Admission.

Lemma graceful_spec deadline obs r :
  graceful deadline obs = Some r ->
  exists pre active time post, obs = pre ++ (active, time) :: post
    /\ Forall (fun o => o.1 <> 0%N /\ (o.2 < deadline)%N) pre
    /\ match r with
       | Complete => active = 0%N
       | Expired => active <> 0%N /\ (deadline <= time)%N
       end.
Proof.
  induction obs as [|[a t] obs IH]; simpl; [done |].
  destruct (N.eqb_spec a 0) as [->|Ha]; [intros [= <-]; by exists [], 0%N, t, obs |].
  destruct (N.leb_spec deadline t) as [Ht|Ht]; [intros [= <-]; by exists [], a, t, obs |].
  intros (pre & a' & t' & post & -> & Hpre & Hr)%IH. exists ((a, t) :: pre), a', t', post.
  split; [done |]. split; [by constructor | done].
Qed.

Lemma graceful_none deadline obs from :
  paced from obs = true -> graceful deadline obs = None ->
  obs = [] \/ (from + POLL_INTERVAL * (N.of_nat (length obs) - 1) < deadline)%N.
Proof.
  revert from. induction obs as [|[a t] obs IH]; intros from; simpl; [by left |].
  intros [Hf Hp]%andb_true_iff. bool_props.
  destruct (a =? 0)%N; [done |]. destruct (N.leb_spec deadline t); [done |]. intros Hg. right.
  destruct (IH _ Hp Hg) as [->|Hlt]; unfold POLL_INTERVAL in *; simpl; lia.
Qed.

Lemma wait_returns began obs :
  paced began obs = true -> 301 <= length obs -> is_Some (wait_for_graceful_shutdown began obs).
Proof.
  intros Hp Hlen. unfold wait_for_graceful_shutdown. destruct (graceful _ obs) eqn:E; [by eexists |].
  exfalso. destruct (graceful_none _ _ _ Hp E) as [->|Hlt]; [simpl in Hlen; lia |].
  unfold POLL_INTERVAL, timeouts.SHUTDOWN_GRACE in Hlt. lia.
Qed.

Lemma watch_value_true history : watch_value history = true -> Send true ∈ history.
Proof.
  unfold watch_value. induction history as [|ev h IH] using rev_ind; [done |].
  rewrite foldl_app. simpl. rewrite elem_of_app, list_elem_of_singleton.
  destruct ev as [b|]; [intros ->; by right | intros H; left; by apply IH].
Qed.

Lemma bind_all_spec sys addr k n :
  bind_all sys addr k n
  = filter (fun i => (bind_reuseport (sys i) addr).2 = Ok tt) (seq k n).
Proof.
  revert k. induction n as [|n IH]; intros k; simpl; [done |].
  destruct ((bind_reuseport (sys k) addr).2) as [[]|e] eqn:E.
  - rewrite filter_cons_True by done. by rewrite IH.
  - rewrite filter_cons_False by congruence. by rewrite IH.
Qed.

(** The loop ends exactly at a shutdown turn at which the signal is on. *)
Definition signalled_turn {C : Type} (rx : option (list watch_event)) (turns : list (turn C)) : Prop :=
  exists pre arrived post, turns = pre ++ (arrived, ShutdownBranch) :: post
    /\ shutdown_ready (heard rx (concat (map fst pre))) arrived = true.

Lemma heard_nil rx : heard rx [] = rx.
Proof. destruct rx; simpl; [by rewrite app_nil_r | done]. Qed.

Lemma heard_heard rx l k : heard (heard rx l) k = heard rx (l ++ k).
Proof. destruct rx; simpl; [by rewrite <- app_assoc | done]. Qed.

Lemma acceptor_ends {C : Type} rx (turns : list (turn C)) :
  (acceptor rx turns).2 = true <-> signalled_turn rx turns.
Proof.
  unfold signalled_turn. revert rx. induction turns as [|[arrived b] turns IH]; intros rx; simpl.
  { split; [done | intros ([|] & ? & ? & ? & _); done]. }
  assert (Hrest : (acceptor (heard rx arrived) turns).2 = true <->
    exists pre arr post, (arrived, b) :: turns = ((arrived, b) :: pre) ++ (arr, ShutdownBranch) :: post
      /\ shutdown_ready (heard rx (concat (map fst ((arrived, b) :: pre)))) arr = true).
  { rewrite IH. setoid_rewrite heard_heard. simpl. naive_solver. }
  assert (Hhere : (exists arr post, (arrived, b) :: turns = (arr, ShutdownBranch) :: post
      /\ shutdown_ready rx arr = true) <-> b = ShutdownBranch /\ shutdown_ready rx arrived = true).
  { naive_solver. }
  transitivity ((b = ShutdownBranch /\ shutdown_ready rx arrived = true)
                \/ (acceptor (heard rx arrived) turns).2 = true).
  - destruct b; simpl; [naive_solver | naive_solver |]. destruct (shutdown_ready rx arrived); naive_solver.
  - rewrite Hrest, <- Hhere. split.
    + intros [(arr & post & E & Hs) | (pre & arr & post & E & Hs)].
      * exists [], arr, post. split; [done |]. by rewrite heard_nil.
      * by exists ((arrived, b) :: pre), arr, post.
    + intros ([|t pre] & arr & post & E & Hs); simpl in E.
      * left. exists arr, post. split; [done |]. by rewrite heard_nil in Hs.
      * right. injection E as <- E. exists pre, arr, post. by subst.
Qed.

(** ** Properties *)

(** Graceful shutdown ends: once the loop has polled 301 times, sleeping
    100 ms between polls, it has returned; it returns at the first poll that
    finds no active connection, or at the first one past the 30 s deadline that
    still finds some. *)
Theorem graceful_shutdown_ends began obs :
  paced began obs = true ->
  (301 <= length obs -> is_Some (wait_for_graceful_shutdown began obs))
  /\ forall r, wait_for_graceful_shutdown began obs = Some r ->
     exists pre active time post, obs = pre ++ (active, time) :: post
       /\ Forall (fun o => o.1 <> 0%N /\ (o.2 < began + 30000)%N) pre
       /\ (r = Complete <-> active = 0%N)
       /\ (r = Expired -> (began + 30000 <= time)%N).
Proof.
  intros Hp. split; [by apply wait_returns |]. unfold wait_for_graceful_shutdown.
  intros r (pre & a & t & post & -> & Hpre & Hr)%graceful_spec.
  exists pre, a, t, post. split; [done |]. split; [done |]. destruct r; [naive_solver |].
  destruct Hr as [Ha Ht]. split; [split; [done | congruence] | done].
Qed.

Lemma graceful_shutdown_ends_witness :
  is_Some (wait_for_graceful_shutdown 0 (map (fun k => (1%N, (100 * N.of_nat k)%N)) (seq 0 301))).
Proof.
  apply (graceful_shutdown_ends 0 (map (fun k => (1%N, (100 * N.of_nat k)%N)) (seq 0 301)));
    [vm_compute; reflexivity | rewrite length_map, length_seq; lia].
Defined.

(** The acceptors that run. *)
Definition listening (e : env) (par : option N) (sys : nat -> SockOp -> result unit IoError)
    (port : N) : list nat :=
  match start e par sys port with Listening ls => ls | Disabled | NoAcceptors => [] end.

(** A proxy returns once each of its acceptors has heard the signal. *)
Lemma run_returns {C : Type} rx e par sys port (turns : nat -> list (turn C)) began obs :
  paced began obs = true -> 301 <= length obs ->
  (forall i, i ∈ listening e par sys port -> signalled_turn rx (turns i)) ->
  is_Some (run_listener rx e par sys port turns began obs).2.
Proof.
  intros Hp Hl Hs. unfold run_listener, listening in *. destruct (start e par sys port) as [| |ls]; [done.. |].
  simpl. replace (forallb _ _) with true; [by apply wait_returns |]. symmetry. apply forallb_forall.
  intros x Hx. apply list_elem_of_In, list_elem_of_fmap in Hx as (i & -> & Hi). by apply acceptor_ends, Hs.
Qed.

(** C37: stopping a proxy: once the handlers have been polled for 301 times,
    [run] has returned if and only if each of its acceptors took its shutdown
    branch at a turn at which the signal was on.  That needs a channel on which
    [true] was sent or whose sender is gone: without one, or without a signal, a
    listening proxy never stops. *)
Theorem run_stops {C : Type} rx e par sys port (turns : nat -> list (turn C)) began obs :
  paced began obs = true -> 301 <= length obs ->
  (is_Some (run_listener rx e par sys port turns began obs).2 <->
   forall i, i ∈ listening e par sys port -> signalled_turn rx (turns i))
  /\ forall i, signalled_turn rx (turns i) ->
     exists history, rx = Some history
       /\ (Send true ∈ history ++ concat (map fst (turns i))
           \/ SenderDropped ∈ history ++ concat (map fst (turns i))).
Proof.
  intros Hp Hl. split.
  - unfold run_listener, listening. destruct (start e par sys port) as [| |ls]; simpl;
      [split; [intros _ i H%elem_of_nil | eauto]; done.. |].
    transitivity (forallb snd (map (fun i => acceptor rx (turns i)) ls) = true).
    + destruct (forallb _ _); [|by split; [intros [? ?] | ]]. split; [done |]. intros _.
      by apply wait_returns.
    + rewrite forallb_forall. setoid_rewrite <- list_elem_of_In. setoid_rewrite list_elem_of_fmap.
      setoid_rewrite <- acceptor_ends. naive_solver.
  - intros i (pre & arrived & post & -> & (h & Hh & Hs)%shutdown_ready_spec).
    destruct rx as [history|]; simpl in Hh; [|done]. apply (inj Some) in Hh. subst h.
    exists history. split; [done |]. rewrite map_app, concat_app. simpl.
    assert (Hv : watch_value (history ++ concat (map fst pre)) = true ->
                 Send true ∈ history ++ concat (map fst pre)) by apply watch_value_true.
    set_solver.
Qed.

Lemma run_stops_witness :
  is_Some (run_listener (C := nat) (Some [Send true]) ∅ None (fun _ _ => Ok tt) 4143
    (fun _ => [([], ShutdownBranch)]) 0 (map (fun k => (0%N, (100 * N.of_nat k)%N)) (seq 0 301))).2.
Proof.
  apply (run_stops (C := nat) (Some [Send true]) ∅ None (fun _ _ => Ok tt) 4143
    (fun _ => [([], ShutdownBranch)]) 0 (map (fun k => (0%N, (100 * N.of_nat k)%N)) (seq 0 301)));
    [vm_compute; reflexivity | rewrite length_map, length_seq; lia |].
  intros i _. exists [], [], []. split; reflexivity.
Defined.

(** A host upstream without a port is unusable with the production resolver: its
    answers carry port 0, and that is the port the proxy dials. *)
Theorem portless_host_dials_zero r now name addr :
  resolve_target (Some (fun _ n => resolve_inner (lookup_name (R := HickoryResolver) r n))) now
    (Host name None) = Ok addr ->
  sa_port addr = 0%N.
Proof.
  simpl. destruct (lookup_ip r name) as [[|ip ips]|e]; simpl; [done | | done].
  by intros [= <-].
Qed.

(** A proxy whose port is not 0 listens on exactly those of its acceptors
    (between 1 and 16) whose socket set-up succeeded, and does not start when
    there are none; port 0 disables it. *)
Theorem start_spec e par sys port :
  (1 <= num_acceptors e par <= 16)%N /\
  start e par sys port =
    if decide (port = 0%N) then Disabled
    else match filter (fun i => (bind_reuseport (sys i) (any_ipv4 port)).2 = Ok tt)
                 (seq 0 (N.to_nat (num_acceptors e par))) with
         | [] => NoAcceptors
         | ls => Listening ls
         end.
Proof.
  split.
  - unfold num_acceptors. destruct (_ ≫= _); [apply clamp_bounds; lia | lia].
  - unfold start. destruct (decide (port = 0%N)) as [->|Hne]; [done |].
    rewrite (proj2 (N.eqb_neq _ _) Hne). by rewrite bind_all_spec.
Qed.
