(* ===== verification/Inbound.v ===== *)
(** * The inbound proxy ([src/proxy/tcp.rs])

    Terminates mutual TLS from a peer proxy, authorizes the peer, and relays to
    the local upstream.  The handler of a connection is a task; what the network
    did is an argument, what the handler does is its events. *)

From S2P Require Import Prelude Bytes Common Glob Identity Policy ProtocolDetect Net Metrics.
From S2P Require Import ProxyBase ConfigLoad Dns Tunnels Process Holdings Tasks Handshake Events.
From S2P Require Import Mux Listener.

Set Default Proof Using "Type".

(** The semaphore and the counter of a running proxy are in the shared state
    ([inbound_slots]); the field is what they are created with. *)
Record TcpProxy (T : Type) := MkTcpProxy {
  default_upstream : option UpstreamTarget;
  slots : Slots;
  listen_port : N;
  tls_server : T;
  policy : PolicyEngine;
  discovery : option Discovery;
  shutdown : option (list watch_event);
  local_id : SpiffeId;
}.
Arguments MkTcpProxy {T} _ _ _ _ _ _ _ _.
Arguments default_upstream {T} _.
Arguments slots {T} _.
Arguments listen_port {T} _.
Arguments tls_server {T} _.
Arguments policy {T} _.
Arguments discovery {T} _.
Arguments shutdown {T} _.
Arguments local_id {T} _.

Module Inbound.
Section Proxy.
Context {T : Type} `{TlsHandshake T}.

Definition new_with_discovery (config : ProxyConfig) (port : N) (tls : T) (engine : PolicyEngine)
    (disc : option Discovery) : eval (TcpProxy T) :=
  let max_conn := default 1024%N (pc_max_connections config) in
  id ← Cfg.local_identity (pc_identity config) (pc_trust_domain config);
  slots ← slots_new max_conn;
  Some (MkTcpProxy (Upstream.from_config (pc_default_upstream config)) slots port tls engine disc None id).

Definition new_with_port (config : ProxyConfig) (port : N) (tls : T) (engine : PolicyEngine) :
    eval (TcpProxy T) := new_with_discovery config port tls engine None.
Definition new (config : ProxyConfig) (tls : T) (engine : PolicyEngine) : eval (TcpProxy T) :=
  new_with_discovery config ports.INBOUND_PROXY tls engine None.

Definition with_discovery (self : TcpProxy T) (d : Discovery) : TcpProxy T :=
  MkTcpProxy (default_upstream self) (slots self) (listen_port self) (tls_server self) (policy self)
    (Some d) (shutdown self) (local_id self).
Definition with_shutdown (self : TcpProxy T) (rx : list watch_event) : TcpProxy T :=
  MkTcpProxy (default_upstream self) (slots self) (listen_port self) (tls_server self) (policy self)
    (discovery self) (Some rx) (local_id self).

Definition resolve_upstream (self : TcpProxy T) (now : N) (upstream : UpstreamTarget) :
    result SocketAddr InterlinkError := resolve_target (discovery self) now upstream.

(** The configured upstream wins over the original destination. *)
Definition choose_upstream (self : TcpProxy T) (original_dst : option SocketAddr) :
    option UpstreamTarget :=
  match default_upstream self with
  | Some u => Some u
  | None => Socket <$> original_dst
  end.

Definition handle_connection (self : TcpProxy T) (c : InboundConn) (upstream : UpstreamTarget) :
    Prog Event unit :=
  _ ← record Met.record_connection_start;
  match resolve_upstream self (in_resolved_at c) upstream with
  | Err _ => record Met.record_connection_failed
  | Ok addr =>
      (* [tokio::join!]: the dial overlaps the handshake *)
      _ ← emit (ConnectUpstream addr);
      tls ← accept (tls_server self) (in_attempt c);
      match tls with
      | Err _ =>
          _ ← record Met.record_handshake_error;
          _ ← (if is_ok (in_upstream_connect c) then emit ShutdownUpstream else mret tt);
          record Met.record_connection_failed
      | Ok tls_stream =>
          _ ← record (Met.record_handshake (in_handshake_elapsed c));
          match in_upstream_connect c with
          | Err _ => record Met.record_connection_failed
          | Ok _ =>
              let peer_id := peer_identity tls_stream in
              decision ← lift (Engine.evaluate (policy self) peer_id (local_id self));
              _ ← record (Met.record_policy decision);
              match decision with
              | Deny _ =>
                  _ ← emit ShutdownUpstream;
                  record Met.record_connection_failed
              | Allow =>
                  if bool_decide (negotiated_alpn (inner tls_stream) = Some ALPN_MUX) then
                    _ ← emit ShutdownUpstream;
                    _ ← emit (ServeTunnel addr peer_id);
                    _ ← serve_tunnel addr peer_id (in_tunnel_events c);
                    record Met.record_tunnel_closed
                  else
                    match in_first_read c with
                    | Err _ | Ok [] => record Met.record_connection_failed
                    | Ok bytes =>
                        let detect_buf := take buffers.PROTOCOL_DETECT bytes in
                        _ ← lift (detect detect_buf);
                        _ ← emit (WriteUpstream detect_buf);
                        match in_write_first c with
                        | Err _ => record Met.record_connection_failed
                        | Ok _ =>
                            _ ← emit Relay;
                            _ ← record_relay_result (in_copied c) (in_elapsed c);
                            mret tt
                        end
                    end
              end
          end
      end
  end.

(** The original destination of an accepted connection, and its fate. *)
Definition handle_accept (self : TcpProxy T) (conn : option SocketAddr * InboundConn) : Prog Event unit :=
  let '(original_dst, c) := conn in
  try_spawn InboundSide (choose_upstream self original_dst) (HandleInbound c) (handle_connection self c).

(** [run]: bind, accept until shutdown, then wait for the handlers; the task of
    each acceptor. *)
Definition run {C : Type} (self : TcpProxy T) (e : env) (parallelism : option N)
    (sys : nat -> SockOp -> result unit IoError) (turns : nat -> list (turn C))
    (began : N) (obs : list (N * N)) : list C * option ShutdownOutcome :=
  run_listener (shutdown self) e parallelism sys (listen_port self) turns began obs.

Definition acceptor_task (self : TcpProxy T) (turns : list (turn (option SocketAddr * InboundConn))) :
    Prog Event unit :=
  acceptor_task (handle_accept self) (shutdown self) turns.
End Proxy.
End Inbound.

(** ** The protocol of a connection *)

Section Outcome.
Context (parse_x509 : str -> result (list X509Extension) str).
Context {T : Type} `{HA : TlsAuthentic parse_x509 T}.
Context (self : TcpProxy T).
(** What the TLS library promises of every session it completes. *)
Context (vetted : Session -> Prop).
Implicit Types (c : InboundConn) (u : UpstreamTarget).

(** The peer whose session was authenticated, and what the policy says. *)
Definition authenticated c (peer : SpiffeId) (d : Decision) : Prop :=
  exists s, in_attempt c = HandshakeDone (inner s) /\ vetted (inner s) /\ authentic parse_x509 s
    /\ peer_identity s = peer /\ verdict (policy self) peer (local_id self) = d.

(** What the handler may do next, after the actions it has taken. *)
Inductive inbound_may c u : list Event -> Event -> Prop :=
| may_connect addr :
    Inbound.resolve_upstream self (in_resolved_at c) u = Ok addr ->
    inbound_may c u [] (ConnectUpstream addr)
| may_shutdown addr : inbound_may c u [ConnectUpstream addr] ShutdownUpstream
| may_serve addr peer :
    authenticated c peer Allow -> in_alpn c = Some ALPN_MUX ->
    inbound_may c u [ConnectUpstream addr; ShutdownUpstream] (ServeTunnel addr peer)
| may_write addr peer bytes :
    authenticated c peer Allow -> in_alpn c <> Some ALPN_MUX ->
    in_first_read c = Ok bytes -> bytes <> [] ->
    inbound_may c u [ConnectUpstream addr] (WriteUpstream (take 32 bytes))
| may_relay addr peer bytes :
    authenticated c peer Allow -> in_alpn c <> Some ALPN_MUX -> in_write_first c = Ok tt ->
    inbound_may c u [ConnectUpstream addr; WriteUpstream bytes] Relay.

(** Every way a connection can end: the actions taken and the accounting. *)
Inductive inbound_outcome c u : list Event -> charge -> Prop :=
| out_unresolved e :
    Inbound.resolve_upstream self (in_resolved_at c) u = Err e ->
    inbound_outcome c u [] (MkCharge 1 1 0 0)
| out_handshake addr :
    Inbound.resolve_upstream self (in_resolved_at c) u = Ok addr ->
    inbound_outcome c u
      (ConnectUpstream addr :: if is_ok (in_upstream_connect c) then [ShutdownUpstream] else [])
      (MkCharge 1 1 0 0)
| out_no_upstream addr e :
    Inbound.resolve_upstream self (in_resolved_at c) u = Ok addr -> in_upstream_connect c = Err e ->
    inbound_outcome c u [ConnectUpstream addr] (MkCharge 1 1 0 0)
| out_denied addr peer reason :
    Inbound.resolve_upstream self (in_resolved_at c) u = Ok addr -> authenticated c peer (Deny reason) ->
    inbound_outcome c u [ConnectUpstream addr; ShutdownUpstream] (MkCharge 1 1 0 0)
| out_tunnel addr peer :
    Inbound.resolve_upstream self (in_resolved_at c) u = Ok addr -> authenticated c peer Allow ->
    inbound_outcome c u [ConnectUpstream addr; ShutdownUpstream; ServeTunnel addr peer] no_charge
| out_nothing_read addr peer :
    Inbound.resolve_upstream self (in_resolved_at c) u = Ok addr -> authenticated c peer Allow ->
    inbound_outcome c u [ConnectUpstream addr] (MkCharge 1 1 0 0)
| out_write_failed addr peer bytes e :
    Inbound.resolve_upstream self (in_resolved_at c) u = Ok addr -> authenticated c peer Allow ->
    in_first_read c = Ok bytes -> in_write_first c = Err e ->
    inbound_outcome c u [ConnectUpstream addr; WriteUpstream (take 32 bytes)] (MkCharge 1 1 0 0)
| out_relayed addr peer bytes :
    Inbound.resolve_upstream self (in_resolved_at c) u = Ok addr -> authenticated c peer Allow ->
    in_first_read c = Ok bytes -> bytes <> [] -> in_write_first c = Ok tt ->
    inbound_outcome c u [ConnectUpstream addr; WriteUpstream (take 32 bytes); Relay]
      (relay_charge (in_copied c)).

Section Handler.
Context (C : Contract Event) (c : InboundConn) (u : UpstreamTarget).
Hypothesis Hcaches : caches parse_x509 C.
Hypothesis Hmay : forall acts e, inbound_may c u acts e -> allowed C (HandleInbound c u :: acts) e.
Hypothesis Hfinish : forall acts ch t,
  inbound_outcome c u acts ch -> finished C (MkTrail (idle t) ch (HandleInbound c u :: acts)).
Hypothesis Hrest : forall addr peer,
  resting C (MkTrail (busy InboundSide []) (MkCharge 0 0 1 0)
               [HandleInbound c u; ConnectUpstream addr; ShutdownUpstream; ServeTunnel addr peer]).
Hypothesis Hstream : forall addr peer o,
  Inbound.resolve_upstream self (in_resolved_at c) u = Ok addr -> authenticated c peer Allow ->
  named C (RelayStream addr peer o).
Hypothesis Hsallow : forall addr peer o acts e rest ch,
  stream_outcome addr o (acts ++ e :: rest) ch -> allowed C (RelayStream addr peer o :: acts) e.
Hypothesis Hsfinish : forall addr peer o tr acts,
  said tr = RelayStream addr peer o :: acts -> stream_outcome addr o acts (spent tr) ->
  holds tr = nothing_held -> finished C tr.
Hypothesis Hw : wf_engine (policy self).
Hypothesis Hl : utf8_id (local_id self).
Hypothesis Hvet : forall s, in_attempt c = HandshakeDone s -> vetted s.

(** The last recording call of a branch, with the actions and the accounting. *)
Ltac ended acts ch :=
  apply (wp_record_last C); [by repeat split |]; exists []; split; [done |]; apply (Hfinish acts ch).

Lemma inbound_handler_ok :
  handler_ok C InboundSide (HandleInbound c u) (Inbound.handle_connection self c u).
Proof using All.
  unfold handler_ok, Inbound.handle_connection. apply (wp_record C); [by repeat split |].
  destruct (Inbound.resolve_upstream self (in_resolved_at c) u) as [addr|e] eqn:Eu.
  2: { ended (@nil Event) (MkCharge 1 1 0 0). by econstructor. }
  apply (wp_emit C); [apply Hmay; by constructor |].
  eapply wp_bind; [by apply (accept_authentic parse_x509 (tls_server self) (in_attempt c)) |].
  intros r tr [-> Hs]. destruct r as [s|e].
  2: { apply (wp_record_quiet C); [by repeat constructor |]. pose proof (out_handshake c u addr Eu) as Hout.
       destruct (is_ok (in_upstream_connect c)).
       - apply (wp_emit C); [apply Hmay; by constructor |]. ended [ConnectUpstream addr; ShutdownUpstream] (MkCharge 1 1 0 0). done.
       - apply (wp_lift C tt). ended [ConnectUpstream addr] (MkCharge 1 1 0 0). done. }
  destruct (Hs s eq_refl) as [Hd Hauth]. apply (wp_record_quiet C); [by repeat constructor |].
  destruct (in_upstream_connect c) as [[]|e] eqn:Ec.
  2: { ended [ConnectUpstream addr] (MkCharge 1 1 0 0). by eapply out_no_upstream. }
  pose proof Hauth as (leaf & rest & _ & _ & _ & Hu). cbv zeta.
  rewrite (evaluate_verdict _ _ _ Hw Hu Hl). apply (wp_lift C), (wp_record_quiet C).
  { by destruct (verdict _ _ _); repeat constructor. }
  assert (Hv : authenticated c (peer_identity s)
                 (verdict (policy self) (peer_identity s) (local_id self))) by (exists s; auto 6).
  destruct (verdict _ _ _) as [|reason].
  2: { apply (wp_emit C); [apply Hmay; by constructor |].
       ended [ConnectUpstream addr; ShutdownUpstream] (MkCharge 1 1 0 0). by eapply out_denied. }
  assert (Halpn : in_alpn c = negotiated_alpn (inner s)) by (unfold in_alpn; by rewrite Hd).
  destruct (bool_decide_reflect (negotiated_alpn (inner s) = Some ALPN_MUX)); rewrite <- Halpn in *.
  { apply (wp_emit C); [apply Hmay; by constructor |].
    apply (wp_emit C); [apply Hmay; by constructor |].
    eapply wp_bind; [apply (wp_serve_tunnel C); [done | done | eauto | apply Hrest] |]. intros [] tr ->.
    ended [ConnectUpstream addr; ShutdownUpstream; ServeTunnel addr (peer_identity s)] no_charge.
    by apply out_tunnel. }
  destruct (in_first_read c) as [[|b bytes]|e] eqn:Er.
  1, 3: (ended [ConnectUpstream addr] (MkCharge 1 1 0 0); by eapply out_nothing_read).
  destruct (detect_spec (take buffers.PROTOCOL_DETECT (b :: bytes))) as (proto & -> & _).
  apply (wp_lift C), (wp_emit C); [apply Hmay; by econstructor |].
  destruct (in_write_first c) as [[]|e] eqn:Ew.
  2: { ended [ConnectUpstream addr; WriteUpstream (take 32 (b :: bytes))] (MkCharge 1 1 0 0).
       by eapply out_write_failed. }
  apply (wp_emit C); [apply Hmay; by econstructor |]. apply wp_relay_result; [done |]. exists []. split; [done |].
  apply (Hfinish [ConnectUpstream addr; WriteUpstream (take 32 (b :: bytes)); Relay]).
  pose proof (out_relayed c u addr _ _ Eu Hv Er ltac:(done) Ew) as Hout.
  unfold relay_charge in Hout. by destruct (in_copied c).
Qed.
End Handler.
End Outcome.

(** The inbound proxy has no self-connect guard: without a configured
    upstream, an accepted connection whose original destination is the proxy's
    own listening address is admitted with that address as its upstream, and the
    first thing its handler does is to dial the proxy itself, before anything of
    the handshake. *)
Theorem inbound_dials_itself {T} `{TlsHandshake T} (self : TcpProxy T) c sa :
  default_upstream self = None -> sa_port sa = listen_port self ->
  Inbound.handle_accept self (Some sa, c)
    = try_spawn InboundSide (Some (Socket sa)) (HandleInbound c) (Inbound.handle_connection self c)
  /\ exists rest, Inbound.handle_connection self c (Socket sa)
     = Act (RecordMetric GaugeIncrement) (fun _ => Emit (ConnectUpstream sa) rest).
Proof.
  intros Hd Hs. unfold Inbound.handle_accept, Inbound.choose_upstream. rewrite Hd.
  split; [done |]. by eexists.
Qed.

Module InboundDemo.
Definition proxy (engine : PolicyEngine) (upstream : option UpstreamTarget) : TcpProxy TlsServer :=
  MkTcpProxy upstream (MkSlots 8 0) 4143 Demo.server engine None None Demo.id.
Definition stream : RelayOutcome := MkRelay (Ok tt) (Ok (1%N, 2%N)) 3.
Definition conn (alpn : option str) : InboundConn :=
  MkInbound 0 (HandshakeDone (Demo.session alpn)) (Ok tt) (Ok (bs "GET / HTTP/1.1")) (Ok tt)
    (Ok (14%N, 2%N)) [NewStream stream; ConnClosed] 5 9.
Definition target : UpstreamTarget := Socket (any_ipv4 80).

Lemma inbound_dials_itself_witness :
  exists rest, @Inbound.handle_connection _ (TlsServer_handshake Demo.parse) (proxy Engine.new None)
    (conn None) (Socket (any_ipv4 4143))
    = Act (RecordMetric GaugeIncrement) (fun _ => Emit (ConnectUpstream (any_ipv4 4143)) rest).
Proof.
  apply (@inbound_dials_itself TlsServer (TlsServer_handshake Demo.parse) (proxy Engine.new None)
    (conn None) (any_ipv4 4143)); reflexivity.
Defined.
End InboundDemo.
