(* ===== verification/Outbound.v ===== *)
(** * The outbound proxy ([src/proxy/outbound.rs])

    Takes a local plaintext connection, finds or opens an mTLS path to the
    upstream (a stream of a shared tunnel or a dedicated session), authorizes
    the peer, and relays.  The handler of a connection is a task over the shared
    tunnel pool and its creation locks. *)

From S2P Require Import Prelude Bytes Common Glob Identity Policy Net Metrics.
From S2P Require Import ProxyBase ConfigLoad Dns Tunnels Process Holdings Tasks Handshake Events.
From S2P Require Import Mux Listener.

Set Default Proof Using "Type".

(** The pool, the semaphore and the counter of the running proxy are in the
    shared state ([mux_pool], [creating], [outbound_slots]); [slots] is what the
    last two are created with, and the pool starts empty. *)
Record OutboundProxy (T : Type) := MkOutbound {
  slots : Slots;
  default_upstream : option UpstreamTarget;
  mux_enabled : bool;
  listen_port : N;
  tls_client : T;
  policy : PolicyEngine;
  discovery : option Discovery;
  shutdown : option (list watch_event);
  local_id : SpiffeId;
}.
Arguments MkOutbound {T} _ _ _ _ _ _ _ _ _.
Arguments slots {T} _.
Arguments default_upstream {T} _.
Arguments mux_enabled {T} _.
Arguments listen_port {T} _.
Arguments tls_client {T} _.
Arguments policy {T} _.
Arguments discovery {T} _.
Arguments shutdown {T} _.
Arguments local_id {T} _.

Module Outbound.
Section Proxy.
Context {T : Type} `{TlsHandshake T}.

Definition new_with_discovery (config : ProxyConfig) (port : N) (tls : T) (engine : PolicyEngine)
    (disc : option Discovery) : eval (OutboundProxy T) :=
  let max_conn := default 1024%N (pc_max_connections config) in
  id ← Cfg.local_identity (pc_identity config) (pc_trust_domain config);
  slots ← slots_new max_conn;
  Some (MkOutbound slots (Upstream.from_config (pc_default_upstream config))
          (pc_mux config) port tls engine disc None id).

Definition new_with_port (config : ProxyConfig) (port : N) (tls : T) (engine : PolicyEngine) :
    eval (OutboundProxy T) := new_with_discovery config port tls engine None.
Definition new (config : ProxyConfig) (tls : T) (engine : PolicyEngine) : eval (OutboundProxy T) :=
  new_with_discovery config ports.OUTBOUND_PROXY tls engine None.

Definition with_discovery (self : OutboundProxy T) (d : Discovery) : OutboundProxy T :=
  MkOutbound (slots self) (default_upstream self) (mux_enabled self) (listen_port self)
    (tls_client self) (policy self) (Some d) (shutdown self) (local_id self).
Definition with_shutdown (self : OutboundProxy T) (rx : list watch_event) : OutboundProxy T :=
  MkOutbound (slots self) (default_upstream self) (mux_enabled self) (listen_port self)
    (tls_client self) (policy self) (discovery self) (Some rx) (local_id self).

Definition resolve_upstream (self : OutboundProxy T) (now : N) (upstream : UpstreamTarget) :
    result SocketAddr InterlinkError := resolve_target (discovery self) now upstream.

(** The original destination, unless it is this proxy's own port, wins over the
    configured upstream. *)
Definition choose_upstream (self : OutboundProxy T) (original_dst : option SocketAddr) :
    option UpstreamTarget :=
  match (sa ← original_dst; if (sa_port sa =? listen_port self)%N then None else Some sa) with
  | Some sa => Some (Socket sa)
  | None => default_upstream self
  end.

(** [None]: the tunnel was dead and is evicted; [k] is the number of the attempt. *)
Definition try_tunnel_stream (self : OutboundProxy T) (c : OutboundConn) (k : nat) (tunnel : Tunnel)
    (upstream : SocketAddr) : Prog Event (option Route) :=
  decision ← lift (Engine.evaluate (policy self) (local_id self) (tunnel_peer tunnel));
  _ ← record (Met.record_policy decision);
  match decision with
  | Deny _ => mret (Some Denied)
  | Allow =>
      r ← open_stream tunnel (out_opens c k);
      match r with
      | Ok _ => mret (Some (MuxStream tunnel))
      | Err _ => _ ← call (Evict upstream tunnel); mret None
      end
  end.

Definition establish (self : OutboundProxy T) (c : OutboundConn) (k : nat) (upstream : SocketAddr) :
    Prog Event Route :=
  r ← connect (tls_client self) upstream (out_attempt c upstream);
  match r with
  | Err _ => _ ← record Met.record_handshake_error; mret Failed
  | Ok tls_stream =>
      _ ← record (Met.record_handshake (out_handshake_elapsed c));
      let upstream_id := peer_identity tls_stream in
      decision ← lift (Engine.evaluate (policy self) (local_id self) upstream_id);
      _ ← record (Met.record_policy decision);
      match decision with
      | Deny _ => mret Denied
      | Allow =>
          if bool_decide (negotiated_alpn (inner tls_stream) = Some ALPN_MUX) then
            tunnel ← register upstream (inner tls_stream) upstream_id;
            r ← open_stream tunnel (out_opens c k);
            match r with
            | Ok _ => mret (MuxStream tunnel)
            | Err _ => _ ← call (Evict upstream tunnel); mret Failed
            end
          else mret (Legacy (inner tls_stream))
      end
  end.

(** [for _ in 0..4]: [n] attempts left, [k] made. *)
Fixpoint attempts (self : OutboundProxy T) (c : OutboundConn) (upstream : SocketAddr) (n k : nat) :
    Prog Event Route :=
  match n with
  | 0 => mret Failed
  | S n' =>
      let retry tunnel :=
        r ← try_tunnel_stream self c k tunnel upstream;
        match r with
        | Some route => mret route
        | None => attempts self c upstream n' (S k)
        end in
      picked ← pick_under_cap upstream;
      match picked with
      | Some tunnel => retry tunnel
      | None =>
          _ ← call (Lock upstream);
          picked ← pick_under_cap upstream;
          match picked with
          | Some tunnel => _ ← call (Unlock upstream); retry tunnel
          | None =>
              grow ← call (CanGrow upstream);
              if grow : bool then
                route ← establish self c k upstream;
                _ ← call (Unlock upstream);
                mret route
              else
                _ ← call (Unlock upstream);
                picked ← pick_any upstream;
                match picked with
                | Some tunnel => retry tunnel
                | None => attempts self c upstream n' (S k)
                end
          end
      end
  end.

Definition route (self : OutboundProxy T) (c : OutboundConn) (upstream : SocketAddr) : Prog Event Route :=
  if negb (mux_enabled self) then establish self c 0 upstream
  else attempts self c upstream 4 0.

(** A stream gives its slot back when it is dropped, after the relay. *)
Definition handle_connection (self : OutboundProxy T) (c : OutboundConn) (target : UpstreamTarget) :
    Prog Event unit :=
  _ ← record Met.record_connection_start;
  match resolve_upstream self (out_resolved_at c) target with
  | Err _ => record Met.record_connection_failed
  | Ok upstream =>
      r ← route self c upstream;
      match r with
      | MuxStream t =>
          _ ← record Met.record_mux_stream;
          _ ← emit (RelayOver r);
          _ ← record_relay_result (out_copied c) (out_elapsed c);
          call (Release t)
      | Legacy _ =>
          _ ← emit (RelayOver r);
          _ ← record_relay_result (out_copied c) (out_elapsed c);
          mret tt
      | Denied | Failed => record Met.record_connection_failed
      end
  end.

(** The original destination of an accepted connection, and its fate. *)
Definition handle_accept (self : OutboundProxy T) (conn : option SocketAddr * OutboundConn) :
    Prog Event unit :=
  let '(original_dst, c) := conn in
  try_spawn OutboundSide (choose_upstream self original_dst) (HandleOutbound c) (handle_connection self c).

Definition run {C : Type} (self : OutboundProxy T) (e : env) (parallelism : option N)
    (sys : nat -> SockOp -> result unit IoError) (turns : nat -> list (turn C))
    (began : N) (obs : list (N * N)) : list C * option ShutdownOutcome :=
  run_listener (shutdown self) e parallelism sys (listen_port self) turns began obs.

Definition acceptor_task (self : OutboundProxy T) (turns : list (turn (option SocketAddr * OutboundConn))) :
    Prog Event unit :=
  acceptor_task (handle_accept self) (shutdown self) turns.
End Proxy.
End Outbound.

(** ** The protocol of a connection *)

Section Routes.
Context (parse_x509 : str -> result (list X509Extension) str).
Context {T : Type} `{HA : TlsAuthentic parse_x509 T}.
Context (self : OutboundProxy T).
(** What the TLS library promises of every session it completes. *)
Context (vetted : Session -> Prop).
Implicit Types (c : OutboundConn) (u : UpstreamTarget).

(** A tunnel carries the identity its session was authenticated with. *)
Definition tunnel_session (t : Tunnel) (s : Session) : Prop :=
  exists x, inner x = s /\ authentic parse_x509 x /\ vetted s /\ peer_identity x = tunnel_peer t
    /\ negotiated_alpn s = Some ALPN_MUX
    /\ verdict (policy self) (local_id self) (tunnel_peer t) = Allow.
Definition tunnel_authentic (t : Tunnel) : Prop :=
  exists s, authentic parse_x509 s /\ vetted (inner s) /\ peer_identity s = tunnel_peer t
    /\ negotiated_alpn (inner s) = Some ALPN_MUX.

(** What a route to this address may be: a stream of a tunnel that was dialled
    there, or a session of its own with it. *)
Definition route_allowed c (addr : SocketAddr) (r : Route) : Prop :=
  match r with
  | MuxStream t => tunnel_authentic t /\ tunnel_link t = addr
      /\ verdict (policy self) (local_id self) (tunnel_peer t) = Allow
  | Legacy s => exists x, out_attempt c addr = HandshakeDone s /\ inner x = s /\ authentic parse_x509 x
      /\ vetted s /\ negotiated_alpn s <> Some ALPN_MUX
      /\ verdict (policy self) (local_id self) (peer_identity x) = Allow
  | Denied | Failed => True
  end.

(** A route that data can flow over. *)
Definition open_route (r : Route) : bool :=
  match r with MuxStream _ | Legacy _ => true | Denied | Failed => false end.

(** What the handler may do: relay once, over an allowed route. *)
Inductive outbound_may c u : list Event -> Event -> Prop :=
| may_relay_over addr r :
    Outbound.resolve_upstream self (out_resolved_at c) u = Ok addr ->
    open_route r = true -> route_allowed c addr r -> outbound_may c u [] (RelayOver r).

(** Every way a connection can end: the actions taken and the accounting. *)
Inductive outbound_outcome c u : list Event -> charge -> Prop :=
| out_refused : outbound_outcome c u [] (MkCharge 1 1 0 0)
| out_relayed_over addr r :
    Outbound.resolve_upstream self (out_resolved_at c) u = Ok addr ->
    open_route r = true -> route_allowed c addr r ->
    outbound_outcome c u [RelayOver r] (relay_charge (out_copied c)).

Section Handler.
Context (C : Contract Event) (c : OutboundConn) (u : UpstreamTarget).
Hypothesis Hcaches : caches parse_x509 C.
Hypothesis Hgood : forall t, good_tunnel C t <-> tunnel_authentic t.
Hypothesis Hmay : forall acts e, outbound_may c u acts e -> allowed C (HandleOutbound c u :: acts) e.
Hypothesis Hfinish : forall acts ch t,
  outbound_outcome c u acts ch -> finished C (MkTrail (idle t) ch (HandleOutbound c u :: acts)).
Hypothesis Hdriver : forall addr t s,
  tunnel_session t s -> tunnel_link t = addr -> named C (DriveTunnel addr t s)
  /\ finished C (MkTrail nothing_held no_charge [DriveTunnel addr t s]).
Hypothesis Hw : wf_engine (policy self).
Hypothesis Hl : utf8_id (local_id self).
Hypothesis Hvet : forall addr s, out_attempt c addr = HandshakeDone s -> vetted s.
(** The TLS library negotiates only what is offered. *)
Hypothesis Halpn : forall s, vetted s -> mux_enabled self = false -> negotiated_alpn s <> Some ALPN_MUX.

(** What the handler holds while it looks for a route: the lock of a peer, what it
    has found under it (room, and no tunnel at all), the tunnels it was given, and
    the slot it has reserved. *)
Definition routing (g : option SocketAddr) (room bare : bool) (ts : list Tunnel) (slot : option Tunnel) : Held :=
  MkHeld (Some OutboundSide) (Some OutboundSide) g room bare ts slot.

(** A quiet call: the history is as before. *)
Lemma quiet ch (h : Held) (sd : list Event) : MkTrail h (add_charge ch no_charge) sd = MkTrail h ch sd.
Proof. by rewrite (right_id no_charge add_charge). Qed.

(** A pick counts as a search of the bare pool only under the lock. *)
Lemma pick_unlocked addr r ts ch (sd : list Event) :
  note (TunnelsOf addr) r (MkTrail (routing None false false ts None) ch sd)
  = MkTrail (routing None false false (default [] r ++ ts) None) ch sd.
Proof. unfold note. cbn. rewrite quiet, andb_false_r. done. Qed.
Lemma pick_locked addr r ts ch (sd : list Event) :
  note (TunnelsOf addr) r (MkTrail (routing (Some addr) false false ts None) ch sd)
  = MkTrail (routing (Some addr) false (bool_decide (default [] r = [])) (default [] r ++ ts) None) ch sd.
Proof. unfold note. cbn. rewrite quiet, (bool_decide_eq_true_2 (Some addr = Some addr)), andb_true_r by done. done. Qed.

Definition slot_of (r : Route) : option Tunnel := match r with MuxStream t => Some t | _ => None end.

(** The route found, with nothing charged and nothing said. *)
Definition routed (addr : SocketAddr) (g : option SocketAddr) (ch : charge) (sd : list Event) (r : Route)
    (tr : Trail Event) : Prop :=
  route_allowed c addr r /\ exists room bare ts, (g = None -> room = false /\ bare = false)
    /\ tr = MkTrail (routing g room bare ts (slot_of r)) ch sd.

Lemma peer_utf8 t : tunnel_authentic t -> utf8_id (tunnel_peer t).
Proof. by intros (s & (leaf & rest & _ & _ & _ & Hu) & _ & <- & _). Qed.

(** Counting a verdict leaves no trace. *)
Lemma policy_quiet d : Forall (fun op => op_charge op = no_charge) (Met.record_policy d).
Proof. by destruct d; repeat constructor. Qed.

Lemma try_tunnel_wp k t ts addr ch sd :
  t ∈ ts -> tunnel_authentic t -> tunnel_link t = addr ->
  wp C (Outbound.try_tunnel_stream self c k t addr) (MkTrail (routing None false false ts None) ch sd)
    (fun r tr => match r with
                 | Some r => routed addr None ch sd r tr
                 | None => tr = MkTrail (routing None false false ts None) ch sd
                 end).
Proof using Hw Hl.
  intros Hin Ht Hlink. unfold Outbound.try_tunnel_stream.
  rewrite (evaluate_verdict _ _ _ Hw Hl (peer_utf8 t Ht)). apply (wp_lift C), (wp_record_quiet C); [apply policy_quiet |].
  destruct (verdict _ _ _) eqn:Ev; [|split; [done |]; by exists false, false, ts].
  apply (wp_open_stream C); [done..| |].
  - intros _. split; [done |]. by exists false, false, ts.
  - intros e. apply (wp_call C (Evict addr t)); [done |]. intros ? ? ? [] ? _ _ _.
    rewrite note_quiet by done. done.
Qed.

(** The pool may be given a tunnel under the lock, when there is room for it; with
    few connections, only the first. *)
Lemma register_wp addr s peer bare ts ch sd :
  (forall id, tunnel_authentic (MkTunnel id peer addr)) -> (forall id, tunnel_session (MkTunnel id peer addr) s) ->
  ((max_permits C OutboundSide <= STREAMS_PER_TUNNEL)%N -> bare = true) ->
  wp C (register addr s peer) (MkTrail (routing (Some addr) true bare ts None) ch sd)
    (fun t tr => tunnel_peer t = peer /\ tunnel_link t = addr
       /\ tr = MkTrail (routing (Some addr) false false (t :: ts) None) ch sd).
Proof using Hgood Hdriver.
  intros Ha Hs Hbare. unfold register. apply (wp_call C (NewTunnel addr peer)).
  { split; [|done]. intros id. by apply Hgood. }
  intros p hs i t p' _ _ Hap. assert (Hp : t = MkTunnel (tunnel_id t) peer addr) by (by injection Hap as <- _).
  unfold note. cbn [holds spent said held_after call_charge]. rewrite quiet.
  apply (wp_call C (Push addr t)).
  { split; [|done]. repeat (split; [done |]). split; [by left | by rewrite Hp]. }
  intros ? ? ? [] ? _ _ _. unfold note. cbn [holds spent said held_after call_charge]. rewrite quiet.
  apply (wp_record_quiet C); [by repeat constructor |]. rewrite Hp. apply (wp_spawn C).
  - by apply Hdriver.
  - split; [done |]. intros ? ? ? [] ? _ _ _. simpl. rewrite note_quiet by done. by apply Hdriver.
  - done.
Qed.

(** A dial may be made with room for a tunnel under the lock, or when tunnels are
    not used. *)
Definition may_dial (addr : SocketAddr) (g : option SocketAddr) (room bare : bool) : Prop :=
  (g = Some addr /\ room = true /\ ((max_permits C OutboundSide <= STREAMS_PER_TUNNEL)%N -> bare = true))
  \/ (g = None /\ room = false /\ bare = false /\ mux_enabled self = false).

Lemma establish_wp k addr g room bare ts ch sd :
  may_dial addr g room bare ->
  wp C (Outbound.establish self c k addr) (MkTrail (routing g room bare ts None) ch sd) (routed addr g ch sd).
Proof using HA Hcaches Hgood Hdriver Hw Hl Hvet Halpn.
  intros Hg. assert (Hroom : g = None -> room = false /\ bare = false) by (destruct Hg as [(-> & _)|(_ & ? & ? & _)]; done).
  unfold Outbound.establish.
  eapply wp_bind; [by apply (connect_authentic parse_x509 (tls_client self) addr (out_attempt c addr)) |].
  intros r tr [-> Hs]. destruct r as [s|e]; (apply (wp_record_quiet C); [by repeat constructor |]).
  2: { split; [done |]. by exists room, bare, ts. }
  destruct (Hs s eq_refl) as [Hd Hauth]. pose proof Hauth as (leaf & rest & _ & _ & _ & Hu).
  pose proof (Hvet _ _ Hd) as Hvs. cbv zeta. rewrite (evaluate_verdict _ _ _ Hw Hl Hu).
  apply (wp_lift C), (wp_record_quiet C); [apply policy_quiet |].
  destruct (verdict _ _ _) eqn:Ev; [|split; [done |]; by exists room, bare, ts].
  destruct (bool_decide_reflect (negotiated_alpn (inner s) = Some ALPN_MUX)) as [Hm|Hm].
  2: { split; [exists s; auto 7 |]. by exists room, bare, ts. }
  destruct Hg as [(-> & -> & Hbare)|(_ & _ & _ & Hoff)]; [|by destruct (Halpn _ Hvs Hoff)].
  assert (Ht : forall id, tunnel_authentic (MkTunnel id (peer_identity s) addr)) by (intros id; exists s; auto 6).
  eapply wp_bind; [apply register_wp; [done | intros id; exists s; by auto 8 | done] |]. intros t tr (Hpeer & Hlink & ->).
  apply (wp_open_stream C); [by left | done..| |].
  - intros _. split; [|by exists false, false, (t :: ts)]. destruct t as [id peer link]. simpl in Hpeer, Hlink. subst peer link. by split.
  - intros e. apply (wp_call C (Evict addr t)); [done |]. intros ? ? ? [] ? _ _ _.
    rewrite note_quiet by done. split; [done |]. by exists false, false, (t :: ts).
Qed.

(** Make a call whose answer [r] needs no fact of the state. *)
Ltac act c r :=
  let p := fresh in let hs := fresh in let i := fresh in let p' := fresh in
  apply (wp_call C c); [done |]; intros p hs i r p' _ _ _; clear p hs i p';
  unfold note; cbn [holds spent said held_after call_charge]; rewrite quiet.

Lemma attempts_wp addr n : forall k ts ch sd,
  wp C (Outbound.attempts self c addr n k) (MkTrail (routing None false false ts None) ch sd) (routed addr None ch sd).
Proof using HA Hcaches Hgood Hdriver Hw Hl Hvet Halpn.
  induction n as [|n IH]; intros k ts ch sd; [split; [done |]; by exists false, false, ts |].
  assert (Hretry : forall t l l', t ∈ l /\ tunnel_link t = addr /\ good_tunnel C t ->
    wp C (r ← Outbound.try_tunnel_stream self c k t addr;
          match r with Some route => mret route | None => Outbound.attempts self c addr n (S k) end)
      (MkTrail (routing None false false (l ++ l') None) ch sd) (routed addr None ch sd)).
  { intros t l l' (Hin & Hlink & Ht%Hgood). eapply wp_bind; [apply try_tunnel_wp; try done; apply elem_of_app; by left |].
    intros [r|] tr Hr; [done |]. rewrite Hr. apply IH. }
  cbn [Outbound.attempts]. cbv zeta.
  eapply wp_bind; [by apply wp_pick_under_cap |]. intros r tr (l1 & -> & Hr). rewrite pick_unlocked.
  destruct r as [t|]; [by apply Hretry |]. clear Hr.
  act (Lock addr) r. destruct r. cbn [routing held_permit held_count held_guard held_room held_bare held_tunnels held_slot].
  fold (routing (Some addr) false false (default [] l1 ++ ts) None).
  eapply wp_bind; [by apply wp_pick_under_cap |]. intros r tr (l2 & -> & Hr). rewrite pick_locked.
  destruct r as [t|]; [act (Unlock addr) r'; destruct r'; by apply Hretry |].
  act (CanGrow addr) grow. destruct grow.
  { eapply wp_bind.
    - cbn [held_permit held_count held_guard held_room held_bare held_tunnels held_slot routing andb orb].
      rewrite bool_decide_true by done. apply establish_wp. left. split; [done |]. split; [done |].
      intros Hm. by rewrite bool_decide_true by (by apply Hr).
    - intros route tr (Ha & room & bare & l & _ & ->). act (Unlock addr) r. destruct r.
      split; [done |]. by exists false, false, l. }
  act (Unlock addr) r. destruct r. clear Hr.
  eapply wp_bind; [apply wp_pick_any |]. intros r tr (l3 & -> & Hr). rewrite pick_unlocked.
  destruct r as [t|]; [by apply Hretry | apply IH].
Qed.

Lemma route_wp addr ch sd :
  wp C (Outbound.route self c addr) (MkTrail (busy OutboundSide []) ch sd) (routed addr None ch sd).
Proof using HA Hcaches Hgood Hdriver Hw Hl Hvet Halpn.
  unfold Outbound.route. destruct (negb (mux_enabled self)) eqn:E; [|apply attempts_wp].
  apply establish_wp. right. by apply negb_true_iff in E.
Qed.

(** The last recording call of a branch, with the actions and the accounting. *)
Ltac ended ts acts ch :=
  apply (wp_record_last C); [by repeat split |]; exists ts; split; [done |]; apply (Hfinish acts ch).

Lemma outbound_handler_ok :
  handler_ok C OutboundSide (HandleOutbound c u) (Outbound.handle_connection self c u).
Proof using All.
  unfold handler_ok, Outbound.handle_connection. apply (wp_record C); [by repeat split |].
  destruct (Outbound.resolve_upstream self (out_resolved_at c) u) as [addr|e] eqn:Eu.
  2: { ended (@nil Tunnel) (@nil Event) (MkCharge 1 1 0 0). constructor. }
  eapply wp_bind; [apply route_wp |]. intros r tr (Ha & room & bare & ts & Hroom & ->).
  destruct (Hroom eq_refl) as [-> ->].
  destruct r as [t'|s| |].
  3, 4: (ended ts (@nil Event) (MkCharge 1 1 0 0); constructor).
  - pose proof (out_relayed_over c u addr (MuxStream t') Eu eq_refl Ha) as Hout.
    apply (wp_record_quiet C); [by repeat constructor |]. apply (wp_emit C); [apply Hmay; by econstructor |].
    apply wp_relay_result; [done |]. split; [done |]. intros ? ? ? [] ? _ _ _. exists ts. split; [done |].
    apply (Hfinish [RelayOver (MuxStream t')]). unfold relay_charge in Hout. by destruct (out_copied c).
  - pose proof (out_relayed_over c u addr (Legacy s) Eu eq_refl Ha) as Hout.
    apply (wp_emit C); [apply Hmay; by econstructor |].
    apply wp_relay_result; [done |]. exists ts. split; [done |].
    apply (Hfinish [RelayOver (Legacy s)]). unfold relay_charge in Hout. by destruct (out_copied c).
Qed.
End Handler.
End Routes.

(** C40: handshake avoidance: when a pooled tunnel to the upstream has spare
    capacity, the policy allows its peer, and the tunnel answers, a connection
    that is not disturbed becomes a stream of the least loaded tunnel: no
    handshake is made, no tunnel is opened, and the tunnel's load grows by one. *)
Theorem pooled_tunnel_reused {T} `{TlsHandshake T} (self : OutboundProxy T) c addr tr p t :
  mux_enabled self = true -> wf_engine (policy self) ->
  utf8_id (local_id self) -> utf8_id (tunnel_peer t) ->
  Pool.least_under_cap (mux_pool p) addr = Some t ->
  verdict (policy self) (local_id self) (tunnel_peer t) = Allow -> out_opens c 0 = Opened ->
  exists tr' p', exec (Outbound.route self c addr) tr p = Some (MuxStream t, tr', p')
    /\ Pool.load (mux_pool p') t = fetch_add_1 (Pool.load (mux_pool p) t)
    /\ peers (mux_pool p') = peers (mux_pool p) /\ creating p' = creating p
    /\ handshakes_total (proc_metrics p') = handshakes_total (proc_metrics p)
    /\ mux_tunnels_opened_total (proc_metrics p') = mux_tunnels_opened_total (proc_metrics p).
Proof.
  intros Hm Hw Hl Ht Hpick Hv Ho. unfold Outbound.route. rewrite Hm.
  cbn [negb Outbound.attempts]. cbv zeta. rewrite exec_bind, (proj1 (pick_alone addr tr p)), Hpick.
  unfold Outbound.try_tunnel_stream. rewrite (evaluate_verdict _ _ _ Hw Hl Ht), Hv, Ho.
  do 2 eexists. split; [reflexivity |]. split; [|done].
  cbn [mux_pool set_pool]. unfold Pool.reserve. rewrite load_update. by rewrite N.eqb_refl.
Qed.

Module OutboundDemo.
Definition proxy : OutboundProxy TlsClient :=
  MkOutbound (MkSlots 8 0) None true 4140 Demo.client Demo.allow_all None None Demo.id.
Definition conn (alpn : option str) : OutboundConn :=
  MkOutConn 0 (fun _ => HandshakeDone (Demo.session alpn)) (fun _ => Opened) (Ok (3%N, 4%N)) 5 9.
Definition target : SocketAddr := socket_addr (V4 10 0 0 1) 443.
Definition tunnel : Tunnel := MkTunnel 0 Demo.id target.
Definition pool_one : Proc :=
  set_pool (Pool.push Pool.new target tunnel) (proc_new 8 8).

Lemma pooled_tunnel_reused_witness :
  exists tr' p', exec (@Outbound.route _ (TlsClient_handshake Demo.parse) proxy (conn None) target)
    (trail_new (Accepting OutboundSide)) pool_one = Some (MuxStream tunnel, tr', p').
Proof.
  destruct (@pooled_tunnel_reused TlsClient (TlsClient_handshake Demo.parse) proxy (conn None)
    target (trail_new (Accepting OutboundSide)) pool_one tunnel) as (tr' & p' & Hr & _);
    [reflexivity | apply Demo.allow_all_wf | apply Demo.id_utf8 | apply Demo.id_utf8
    | vm_compute; reflexivity | vm_compute; reflexivity | reflexivity |].
  exists tr', p'. exact Hr.
Defined.
End OutboundDemo.
