(* ===== verification/System.v ===== *)
(** * The running process

    Both proxies at work in one process: the acceptors, the handlers they
    spawn, the relays of tunnelled streams and the tunnel drivers, interleaved
    in any order over the shared state. *)

From S2P Require Import Prelude Bytes Common Glob Identity Policy Net Metrics ProxyBase ConfigLoad Dns.
From S2P Require Import Tunnels Process Holdings Tasks Handshake Events Mux Listener Inbound Outbound.

Set Default Proof Using "Type".

(** ** Starting *)

(** The turns of the acceptors of either proxy. *)
Abbreviation InTurns := (list (list (turn (option SocketAddr * InboundConn)))) (only parsing).
Abbreviation OutTurns := (list (list (turn (option SocketAddr * OutboundConn)))) (only parsing).

Definition start_process {Ti To} `{TlsHandshake Ti} `{TlsHandshake To} (inb : TcpProxy Ti)
    (outb : OutboundProxy To) (ins : InTurns) (outs : OutTurns) : Machine (E := Event) :=
  MkMachine
    (map (fun turns => (Inbound.acceptor_task inb turns, trail_new (Accepting InboundSide))) ins
     ++ map (fun turns => (Outbound.acceptor_task outb turns, trail_new (Accepting OutboundSide))) outs)
    (proc_new (permits (Inbound.slots inb)) (permits (Outbound.slots outb))).

(** What the acceptors are offered. *)
Definition offers {C : Type} (all : list (list (turn C))) (c : C) : Prop :=
  exists turns arrived, turns ∈ all /\ (arrived, Accept c) ∈ turns.

Lemma accepted_offered {C : Type} rx (turns : list (turn C)) c :
  c ∈ (acceptor rx turns).1 -> exists arrived, (arrived, Accept c) ∈ turns.
Proof.
  revert rx. induction turns as [|[arrived b] turns IH]; intros rx; simpl; [by intros ?%elem_of_nil |].
  destruct b as [c'| |]; simpl.
  - intros [->|H]%elem_of_cons; [exists arrived; by left |]. destruct (IH _ H) as [a Ha]. exists a. by right.
  - intros H. destruct (IH _ H) as [a Ha]. exists a. by right.
  - destruct (shutdown_ready rx arrived); [by intros ?%elem_of_nil |].
    intros H. destruct (IH _ H) as [a Ha]. exists a. by right.
Qed.

Section System.
Context (parse_x509 : str -> result (list X509Extension) str).
Context {Ti : Type} `{HAi : TlsAuthentic parse_x509 Ti}.
Context {To : Type} `{HAo : TlsAuthentic parse_x509 To}.
Context (inb : TcpProxy Ti) (outb : OutboundProxy To).
(** What the TLS library promises of the sessions it completes, as a server
    and as a client. *)
Context (served : Session -> Prop) (connected : Session -> Prop).
(** The connections offered to the acceptors. *)
Context (ins : InTurns) (outs : OutTurns).

(** ** The contract of the tasks *)

Abbreviation in_authenticated := (authenticated parse_x509 inb served).
Abbreviation in_may := (inbound_may parse_x509 inb served).
Abbreviation in_outcome := (inbound_outcome parse_x509 inb served).
Abbreviation out_may := (outbound_may parse_x509 outb connected).
Abbreviation out_outcome := (outbound_outcome parse_x509 outb connected).

(** A connection that was offered, with the upstream chosen for it. *)
Definition accepts_inbound (c : InboundConn) (u : UpstreamTarget) : Prop :=
  exists dst, offers ins (dst, c) /\ Inbound.choose_upstream inb dst = Some u.
Definition accepts_outbound (c : OutboundConn) (u : UpstreamTarget) : Prop :=
  exists dst, offers outs (dst, c) /\ Outbound.choose_upstream outb dst = Some u.

Definition interlink : Contract Event := {|
  good_entry := entry_ok parse_x509;
  good_tunnel := tunnel_authentic parse_x509 connected;
  max_permits := fun s =>
    match s with
    | InboundSide => permits (Inbound.slots inb)
    | OutboundSide => permits (Outbound.slots outb)
    end;
  named := fun e =>
    match e with
    | Accepting _ => True
    | HandleInbound c u => accepts_inbound c u
    | HandleOutbound c u => accepts_outbound c u
    | RelayStream addr peer _ => exists c u, accepts_inbound c u
        /\ Inbound.resolve_upstream inb (in_resolved_at c) u = Ok addr /\ in_authenticated c peer Allow
    | DriveTunnel addr t s => tunnel_session parse_x509 outb connected t s /\ tunnel_link t = addr
    | _ => False
    end;
  allowed := fun l e =>
    match l with
    | Accepting _ :: _ => e = DropClient \/ e = RejectClient
    | HandleInbound c u :: acts => in_may c u acts e
    | HandleOutbound c u :: acts => out_may c u acts e
    | RelayStream addr _ o :: acts => exists rest ch, stream_outcome addr o (acts ++ e :: rest) ch
    | _ => False
    end;
  finished := fun tr =>
    released (holds tr) /\
    match said tr with
    | Accepting _ :: _ => spent tr = no_charge
    | HandleInbound c u :: acts => in_outcome c u acts (spent tr)
    | HandleOutbound c u :: acts => out_outcome c u acts (spent tr)
    | RelayStream addr _ o :: acts => stream_outcome addr o acts (spent tr)
    | DriveTunnel _ _ _ :: acts => acts = [] /\ spent tr = no_charge
    | _ => False
    end;
  resting := fun tr =>
    match said tr with
    | Accepting _ :: _ => released (holds tr) /\ spent tr = no_charge
    | [HandleInbound _ _; ConnectUpstream _; ShutdownUpstream; ServeTunnel _ _] =>
        held_guard (holds tr) = None
    | _ => False
    end;
|}.

Lemma interlink_caches : caches parse_x509 interlink.
Proof. by intros der id. Qed.

Lemma interlink_releases : releases interlink.
Proof.
  split; [by intros tr [Hr _] |]. intros tr Hr. simpl in Hr.
  destruct (said tr) as [|[] acts]; try done; [by destruct Hr as [(_ & _ & ? & _) _] |].
  by repeat (step_match; try done).
Qed.

(** A finished task has no connection in flight. *)
Lemma outcome_settled tr : finished interlink tr -> d_active (spent tr) = 0%Z.
Proof.
  intros [_ Hf]. assert (Hr : forall r : result (N * N) IoError, d_active (relay_charge r) = 0%Z) by (by intros []).
  destruct (said tr) as [|[] acts]; try done; try (by rewrite Hf).
  1, 2, 3: destruct Hf; done.
  by destruct Hf as [_ ->].
Qed.

(** ** The running process keeps the contract *)

(** What a deployment must satisfy: policies and identities as the constructors
    make them, limits the semaphores accept, TLS sessions as the library
    promises, and no protocol negotiated that was not offered. *)
Record deployed : Prop := {
  dep_policy_in : wf_engine (Inbound.policy inb);
  dep_policy_out : wf_engine (Outbound.policy outb);
  dep_id_in : utf8_id (Inbound.local_id inb);
  dep_id_out : utf8_id (Outbound.local_id outb);
  dep_max_in : (permits (Inbound.slots inb) <= MAX_PERMITS)%N;
  dep_max_out : (permits (Outbound.slots outb) <= MAX_PERMITS)%N;
  dep_served : forall dst c s, offers ins (dst, c) -> in_attempt c = HandshakeDone s -> served s;
  dep_connected : forall dst c addr s, offers outs (dst, c) -> out_attempt c addr = HandshakeDone s -> connected s;
  dep_alpn : forall s, connected s -> Outbound.mux_enabled outb = false ->
    negotiated_alpn s <> Some ALPN_MUX;
}.

(** The configurations the process can reach, with at most 2^64 tunnels opened
    so far. *)
Definition reachable (cfg : Machine (E := Event)) : Prop :=
  steps step (start_process inb outb ins outs) cfg /\ (tunnel_ids (proc cfg) <= 2 ^ 64)%N.

Section Run.
Hypothesis Hdep : deployed.

Lemma in_handler c u :
  accepts_inbound c u ->
  handler_ok interlink InboundSide (HandleInbound c u) (Inbound.handle_connection inb c u).
Proof using HAi HAo Hdep.
  intros Hacc. eapply (inbound_handler_ok parse_x509 inb served).
  - apply interlink_caches.
  - done.
  - intros acts ch t Ho. by split; [apply idle_released |].
  - done.
  - intros addr peer o Hr Ha. by exists c, u.
  - intros. by do 2 eexists.
  - intros addr peer o tr acts Hsd Ho Hh. split; [rewrite Hh; by repeat split | by rewrite Hsd].
  - apply (dep_policy_in Hdep).
  - apply (dep_id_in Hdep).
  - intros s. destruct Hacc as (dst & Hoff & _). by apply (dep_served Hdep dst).
Qed.

Lemma out_handler c u :
  accepts_outbound c u ->
  handler_ok interlink OutboundSide (HandleOutbound c u) (Outbound.handle_connection outb c u).
Proof using HAi HAo Hdep.
  intros Hacc. eapply (outbound_handler_ok parse_x509 outb connected).
  - apply interlink_caches.
  - done.
  - done.
  - intros acts ch t Ho. by split; [apply idle_released |].
  - intros addr t s Ht Hlink. by repeat split.
  - apply (dep_policy_out Hdep).
  - apply (dep_id_out Hdep).
  - intros addr s. destruct Hacc as (dst & Hoff & _). by apply (dep_connected Hdep dst).
  - apply (dep_alpn Hdep).
Qed.

Lemma started_ok : config_ok interlink (start_process inb outb ins outs).
Proof using HAi HAo Hdep.
  assert (Hacc : forall s (m : Prog Event unit),
    wp interlink m (trail_new (Accepting s)) (fun _ => accepting s) ->
    thread_ok interlink (m, trail_new (Accepting s))).
  { intros s m Hm. split; [|by constructor | done]. eapply wp_mono; [exact Hm |].
    intros [] tr (Hh & Hsp & acts & Hsd). split; [rewrite Hh; by repeat split | by rewrite Hsd, Hsp]. }
  assert (Hwaits : forall s tr, accepting s tr -> resting interlink tr).
  { intros s tr (Hh & Hsp & acts & Hsd). simpl. rewrite Hsd, Hh. by repeat split. }
  assert (Hnew : forall s, accepting s (trail_new (Accepting s))) by (intros s; repeat split; by eexists).
  split.
  - apply (inv_new _ _ (max_permits interlink)).
    + intros []; [apply (dep_max_in Hdep) | apply (dep_max_out Hdep)].
    + unfold holdings, trails. simpl. rewrite !map_app, Forall_app, !map_map, !Forall_map.
      split; by apply Forall_true.
  - simpl. rewrite Forall_app, !Forall_map. split; apply Forall_forall; intros turns Hturns; simpl; apply Hacc.
    + apply wp_acceptor; [|apply Hwaits | done]. intros [dst c] tr Hc Ha. destruct (accepted_offered _ _ _ Hc) as [a Hin].
      apply wp_try_spawn; [split; simpl; auto | | done]. intros u Hu.
      assert (accepts_inbound c u) by (exists dst; split; [by exists turns, a | done]).
      split; [done | by apply in_handler].
    + apply wp_acceptor; [|apply Hwaits | done]. intros [dst c] tr Hc Ha. destruct (accepted_offered _ _ _ Hc) as [a Hin].
      apply wp_try_spawn; [split; simpl; auto | | done]. intros u Hu.
      assert (accepts_outbound c u) by (exists dst; split; [by exists turns, a | done]).
      split; [done | by apply out_handler].
Qed.

Lemma reachable_ok cfg : reachable cfg -> config_ok interlink cfg.
Proof using HAi HAo Hdep. intros [Hs Hid]. eapply tasks_sound; [apply started_ok | done | done]. Qed.

Lemma thread_at cfg m tr : reachable cfg -> (m, tr) ∈ threads cfg -> thread_ok interlink (m, tr).
Proof using HAi HAo Hdep.
  intros Hr Hin. exact (proj1 (Forall_forall _ _) (ok_threads _ _ (reachable_ok cfg Hr)) _ Hin).
Qed.
End Run.

(** The registry is what the tasks have charged. *)
Lemma reachable_accounted cfg : reachable cfg -> accounted cfg.
Proof.
  intros [Hs _]. eapply steps_invariant; [|apply step_accounted | exact Hs].
  unfold accounted, total_spent, trails. simpl. rewrite !map_app, !map_map. simpl. rewrite foldr_app.
  assert (Hz : forall X (l : list X), foldr add_charge no_charge (map (fun _ => no_charge) l) = no_charge).
  { intros X l. induction l as [|x l IH]; simpl; [done |]. by rewrite IH. }
  by rewrite !Hz.
Qed.

Lemma reachable_gauge cfg : deployed -> reachable cfg -> gauge_exact cfg.
Proof using HAi HAo.
  intros Hdep [Hs Hid]. remember (start_process inb outb ins outs) as a eqn:Ea.
  induction Hs as [a|a b d Hbd IH Hst]; subst a.
  - intros _. rewrite count_zero; [done |]. intros i tr Htr. unfold trails in Htr. simpl in Htr.
    rewrite map_app, !map_map in Htr. apply list_elem_of_lookup_2 in Htr.
    apply elem_of_app in Htr as [Htr|Htr]; by apply list_elem_of_fmap in Htr as (? & -> & _).
  - pose proof (step_ids _ _ Hst). assert (Hid' : (tunnel_ids (proc b) <= 2 ^ 64)%N) by lia.
    apply (step_gauge interlink b d); [by apply reachable_ok | apply reachable_ok; [done | split; [|done]] | by apply IH | done].
    eapply steps_trans; [exact Hbd | by apply steps_one].
Qed.

(** A task that has ended holds nothing and has nothing in flight. *)
Lemma ended_clean cfg i tr :
  deployed -> reachable cfg -> threads cfg !! i = Some (Ret tt, tr) ->
  released (holds tr) /\ in_flight tr = false.
Proof using HAi HAo.
  intros Hdep Hr Hth. apply list_elem_of_lookup_2 in Hth.
  pose proof (ok_wp _ _ (thread_at Hdep _ _ _ Hr Hth)) as Hf. cbn [fst snd wp] in Hf.
  split; [apply Hf |]. unfold in_flight. by rewrite (outcome_settled tr Hf).
Qed.

(** Actions by which a peer reaches the upstream or the tunnel. *)
Definition peer_reaches (a : Event) : bool :=
  match a with
  | ServeTunnel _ _ | WriteUpstream _ | Relay => true
  | _ => false
  end.

(** What the histories of the handlers show. *)
Lemma inbound_reaches cfg m tr :
  deployed -> reachable cfg -> (m, tr) ∈ threads cfg ->
  match said tr with
  | HandleInbound c u :: acts => forall a, a ∈ acts -> peer_reaches a = true ->
      exists s, in_attempt c = HandshakeDone (inner s) /\ served (inner s) /\ authentic parse_x509 s
        /\ verdict (Inbound.policy inb) (peer_identity s) (Inbound.local_id inb) = Allow
        /\ (forall addr peer, a = ServeTunnel addr peer -> peer = peer_identity s)
  | RelayStream addr peer _ :: _ =>
      exists c u s, accepts_inbound c u /\ Inbound.resolve_upstream inb (in_resolved_at c) u = Ok addr
        /\ in_attempt c = HandshakeDone (inner s) /\ served (inner s) /\ authentic parse_x509 s
        /\ peer_identity s = peer
        /\ verdict (Inbound.policy inb) peer (Inbound.local_id inb) = Allow
  | _ => True
  end.
Proof using HAi HAo.
  intros Hdep Hr Hin. destruct (thread_at Hdep _ _ _ Hr Hin) as [_ Htold _]. cbn [snd] in Htold.
  destruct (said tr) as [|n acts]; [done |]. destruct (told_allowed _ _ _ Htold) as [Hn Ha].
  destruct n as [|c u| |addr peer o| | | | | | | | |]; try done.
  - intros a (pre & post & Heq)%list_elem_of_split Hp. specialize (Ha _ _ _ Heq). simpl in Ha.
    destruct Ha; try done; match goal with Hau : authenticated _ _ _ _ _ _ |- _ =>
      destruct Hau as (s & ? & ? & ? & <- & ?) end; exists s; repeat (split; [done |]);
      by intros ? ? [= _ <-].
  - destruct Hn as (c & u & Hacc & Hres & s & ? & ? & ? & <- & ?). by exists c, u, s.
Qed.

(** A handler serves a tunnel exactly on a session that negotiated one. *)
Lemma inbound_protocol cfg m tr c u acts :
  deployed -> reachable cfg -> (m, tr) ∈ threads cfg -> said tr = HandleInbound c u :: acts ->
  forall a, a ∈ acts -> match a with
                        | ServeTunnel _ _ => in_alpn c = Some ALPN_MUX
                        | WriteUpstream _ | Relay => in_alpn c <> Some ALPN_MUX
                        | _ => True
                        end.
Proof using HAi HAo.
  intros Hdep Hr Hin Hsd a (pre & post & Heq)%list_elem_of_split.
  destruct (thread_at Hdep _ _ _ Hr Hin) as [_ Htold _]. cbn [snd] in Htold. rewrite Hsd in Htold.
  destruct (told_allowed _ _ _ Htold) as [_ Ha]. specialize (Ha _ _ _ Heq). simpl in Ha. by destruct Ha.
Qed.

Lemma outbound_relays cfg m tr :
  deployed -> reachable cfg -> (m, tr) ∈ threads cfg ->
  forall c u acts a, said tr = HandleOutbound c u :: acts -> a ∈ acts ->
  exists r addr, acts = [RelayOver r] /\ a = RelayOver r /\ open_route r = true
    /\ Outbound.resolve_upstream outb (out_resolved_at c) u = Ok addr
    /\ route_allowed parse_x509 outb connected c addr r.
Proof using HAi HAo.
  intros Hdep Hr Hin c u acts a Hsd Ha. destruct (thread_at Hdep _ _ _ Hr Hin) as [_ Htold _].
  cbn [snd] in Htold. rewrite Hsd in Htold. destruct (told_allowed _ _ _ Htold) as [_ Hal].
  assert (Hpre : forall pre e post, acts = pre ++ e :: post -> pre = []).
  { intros pre e post Heq. specialize (Hal _ _ _ Heq). simpl in Hal. by inversion Hal. }
  apply list_elem_of_split in Ha as (pre & post & Heq). pose proof (Hpre _ _ _ Heq) as ->.
  specialize (Hal _ _ _ Heq). simpl in Heq. subst acts.
  destruct post as [|z post]; [|by discriminate (Hpre [a] z post eq_refl)].
  inversion Hal as [addr r Ha Ho Hro]. subst a. by exists r, addr.
Qed.

(** The driver of a tunnel owns the session its peer was authenticated on. *)
Lemma driver_session cfg m tr addr t s acts :
  deployed -> reachable cfg -> (m, tr) ∈ threads cfg -> said tr = DriveTunnel addr t s :: acts ->
  tunnel_session parse_x509 outb connected t s.
Proof using HAi HAo.
  intros Hdep Hr Hin Hsd. destruct (thread_at Hdep _ _ _ Hr Hin) as [_ Htold _]. cbn [snd] in Htold.
  rewrite Hsd in Htold. by destruct (told_allowed _ _ _ Htold) as [[? _] _].
Qed.

(** ** Properties *)

(** C1: inbound authorization: whatever the tasks of the process do, in any
    order, a handler writes to the upstream, relays, or serves a tunnel only for
    a peer whose handshake completed as the TLS library promises, whose identity
    was read from the leaf certificate of that session, and whom the policy
    allows to reach this proxy's identity; and a stream is relayed only for the
    peer of such a connection, to the upstream of that connection. *)
Theorem inbound_authorized cfg m tr :
  deployed -> reachable cfg -> (m, tr) ∈ threads cfg ->
  match said tr with
  | HandleInbound c u :: acts => forall a, a ∈ acts -> peer_reaches a = true ->
      exists s, in_attempt c = HandshakeDone (inner s) /\ served (inner s) /\ authentic parse_x509 s
        /\ verdict (Inbound.policy inb) (peer_identity s) (Inbound.local_id inb) = Allow
        /\ (forall addr peer, a = ServeTunnel addr peer -> peer = peer_identity s)
  | RelayStream addr peer _ :: _ =>
      exists c u s, accepts_inbound c u /\ Inbound.resolve_upstream inb (in_resolved_at c) u = Ok addr
        /\ in_attempt c = HandshakeDone (inner s) /\ served (inner s) /\ authentic parse_x509 s
        /\ peer_identity s = peer
        /\ verdict (Inbound.policy inb) peer (Inbound.local_id inb) = Allow
  | _ => True
  end.
Proof using HAi HAo. apply inbound_reaches. Qed.

(** C2: outbound authorization: a handler relays only over a path whose peer was
    authenticated by its certificate and whom the policy lets this workload
    reach, and that leads to the very address its upstream resolved to: a
    shared tunnel was dialled there, its identity is the one its handshake
    established, and it is checked again for every stream.  Every pooled tunnel
    is authentic and pooled under the address it was dialled to, whatever the
    tasks do in whatever order. *)
Theorem outbound_authorized cfg m tr :
  deployed -> reachable cfg -> (m, tr) ∈ threads cfg ->
  (forall addr ts t, peers (mux_pool (proc cfg)) !! addr = Some ts -> t ∈ ts ->
     tunnel_authentic parse_x509 connected t /\ tunnel_link t = addr)
  /\ forall c u acts a, said tr = HandleOutbound c u :: acts -> a ∈ acts ->
     exists r addr, acts = [RelayOver r] /\ a = RelayOver r /\ open_route r = true
       /\ Outbound.resolve_upstream outb (out_resolved_at c) u = Ok addr
       /\ route_allowed parse_x509 outb connected c addr r.
Proof using HAi HAo.
  intros Hdep Hr Hin. split; [|by apply (outbound_relays cfg m)].
  intros addr ts t Hts Ht.
  by destruct (inv_pooled _ _ _ _ _ (ok_inv _ _ (reachable_ok Hdep cfg Hr)) _ _ _ Hts Ht) as [[_ ?] ?].
Qed.

(** C13: no task ever panics: neither a handler, nor an acceptor, a stream relay
    or a tunnel driver, whatever peers and clients send and however tasks
    interleave. *)
Theorem tasks_never_panic cfg m tr :
  deployed -> reachable cfg -> (m, tr) ∈ threads cfg -> m <> Panic.
Proof using HAi HAo. intros Hdep Hr Hin ->. by destruct (thread_at Hdep _ _ _ Hr Hin). Qed.

(** C9: accounting: at every moment, also between the operations of one recording
    call, the counters of connections and errors and the histogram of durations
    hold exactly what the tasks have charged to them (the counters modulo 2^64),
    and as long as no more than 2^53 tasks were spawned the active gauge is the
    number of tasks that have a connection in flight.  A task that has ended has
    charged one connection, as an error unless it was relayed without one; a
    tunnel itself, an acceptor and a driver charge none. *)
Theorem process_accounted cfg :
  deployed -> reachable cfg ->
  tallies (proc_metrics (proc cfg)) (total_spent cfg)
  /\ (few_tasks cfg ->
      connections_active (proc_metrics (proc cfg)) = Z.of_nat (count in_flight (trails cfg)))
  /\ forall tr, (Ret tt, tr) ∈ threads cfg ->
     match said tr with
     | HandleInbound c u :: acts => spent tr =
         if existsb (fun a => match a with ServeTunnel _ _ => true | _ => false end) acts then no_charge
         else if existsb (fun a => match a with Relay => true | _ => false end) acts
         then relay_charge (in_copied c) else MkCharge 1 1 0 0
     | HandleOutbound c u :: acts => spent tr =
         if bool_decide (acts = []) then MkCharge 1 1 0 0 else relay_charge (out_copied c)
     | RelayStream addr peer o :: acts => spent tr =
         if is_ok (relay_connect o) then relay_charge (relay_copy o) else MkCharge 1 1 0 0
     | _ => spent tr = no_charge
     end.
Proof using HAi HAo.
  intros Hdep Hr. split; [by apply reachable_accounted |]. split; [by apply reachable_gauge |].
  intros tr Hin. destruct (ok_wp _ _ (thread_at Hdep _ _ _ Hr Hin)) as [_ Hf]. cbn [snd] in Hf.
  destruct (said tr) as [|[] acts]; try done.
  - destruct Hf; simpl; try done. by destruct (is_ok _).
  - by destruct Hf.
  - destruct Hf as [e He|He]; by rewrite He.
  - by destruct Hf.
Qed.

(** C11: admission control: permits are conserved, the active counter of a proxy
    is the number of its handlers that are counted, never more than the
    configured maximum, and each handler that is counted holds a permit. *)
Theorem admission_conserved cfg s :
  deployed -> reachable cfg ->
  let slots := get_slots s (proc cfg) in
  (permits slots + N.of_nat (count (permit_of s) (holdings cfg)) = max_permits interlink s)%N
  /\ active_connections slots = N.of_nat (count (counted s) (holdings cfg))
  /\ (active_connections slots <= max_permits interlink s)%N
  /\ forall i h, holdings cfg !! i = Some h -> held_count h = Some s -> held_permit h = Some s.
Proof using HAi HAo.
  intros Hdep Hr. pose proof (ok_inv _ _ (reachable_ok Hdep cfg Hr)) as Hi.
  split; [apply (inv_permits _ _ _ _ _ Hi) |]. split; [apply (inv_active _ _ _ _ _ Hi) |].
  split; [apply (slot_bounds _ _ _ _ _ Hi) |]. intros i h Hh.
  apply (hw_count h (inv_held _ _ _ _ _ Hi _ _ Hh)).
Qed.

(** C21: no counter wraps around: the active counters and the live counters of
    the tunnels stay at or below the limits of the semaphores, far below 2^64,
    so every [fetch_add] adds one, and every [fetch_sub] by a task that is
    counted, or whose stream ends, takes one off. *)
Theorem counters_never_wrap cfg :
  deployed -> reachable cfg ->
  (forall s, active_connections (get_slots s (proc cfg)) <= MAX_PERMITS
     /\ fetch_add_1 (active_connections (get_slots s (proc cfg)))
        = active_connections (get_slots s (proc cfg)) + 1
     /\ forall i h, holdings cfg !! i = Some h -> held_count h = Some s ->
        fetch_sub_1 (active_connections (get_slots s (proc cfg))) + 1
        = active_connections (get_slots s (proc cfg)))%N
  /\ (forall t, Pool.load (mux_pool (proc cfg)) t <= MAX_PERMITS
     /\ fetch_add_1 (Pool.load (mux_pool (proc cfg)) t) = Pool.load (mux_pool (proc cfg)) t + 1
     /\ forall i h, holdings cfg !! i = Some h -> held_slot h = Some t ->
        fetch_sub_1 (Pool.load (mux_pool (proc cfg)) t) + 1 = Pool.load (mux_pool (proc cfg)) t)%N.
Proof using HAi HAo.
  intros Hdep Hr. pose proof (ok_inv _ _ (reachable_ok Hdep cfg Hr)) as Hi.
  destruct (slot_bounds _ _ _ _ _ Hi) as (Hb & _ & Hload). split.
  - intros s. specialize (Hb s). pose proof (inv_max _ _ _ _ _ Hi s) as Hm.
    assert (MAX_PERMITS + 1 < 2 ^ 64)%N by (unfold MAX_PERMITS; lia).
    split; [lia |]. split; [apply fetch_add_1_small; lia |]. intros i h Hh Hc.
    assert (1 <= active_connections (get_slots s (proc cfg)))%N.
    { rewrite (inv_active _ _ _ _ _ Hi). assert (1 <= count (counted s) (holdings cfg)); [|lia].
      apply (count_pos _ _ i h); [done | by apply bool_decide_eq_true]. }
    rewrite fetch_sub_1_small; lia.
  - intros t. specialize (Hload t). pose proof (inv_max _ _ _ _ _ Hi OutboundSide) as Hm.
    assert (MAX_PERMITS + 1 < 2 ^ 64)%N by (unfold MAX_PERMITS; lia).
    split; [lia |]. split; [apply fetch_add_1_small; lia |]. intros i h Hh Hs.
    pose proof (used_load _ _ _ _ _ _ _ _ Hi Hh Hs). rewrite fetch_sub_1_small; lia.
Qed.

(** C10: the tunnel pool is bounded: however connections to a peer interleave,
    whatever handshakes and opens succeed and whichever tunnels die, at most 16
    tunnels to the peer are pooled, counting one that is being established; and a
    proxy that admits at most 200 connections keeps at most one, counting one that
    is being established, although the picks read the loads of the tunnels one by
    one while other connections come and go. *)
Theorem tunnels_bounded cfg addr :
  deployed -> reachable cfg ->
  Pool.tunnel_count (mux_pool (proc cfg)) addr + count (room_at addr) (holdings cfg) <= 16
  /\ ((permits (Outbound.slots outb) <= 200)%N ->
      Pool.tunnel_count (mux_pool (proc cfg)) addr + count (bare_at addr) (holdings cfg) <= 1).
Proof using HAi HAo.
  intros Hdep Hr. pose proof (ok_inv _ _ (reachable_ok Hdep cfg Hr)) as Hi.
  split; [apply (inv_room _ _ _ _ _ Hi addr) | intros Hm; by apply (inv_single _ _ _ _ _ Hi)].
Qed.

(** Creation is single-flight: at most one task holds the creation lock of a
    peer, so at most one is establishing a tunnel to it. *)
Theorem single_creator cfg addr i j x y :
  deployed -> reachable cfg ->
  holdings cfg !! i = Some x -> holdings cfg !! j = Some y ->
  held_guard x = Some addr -> held_guard y = Some addr -> i = j.
Proof using HAi HAo.
  intros Hdep Hr Hx Hy Hgx Hgy. destruct (decide (i = j)) as [|Hne]; [done |]. exfalso.
  pose proof (inv_locks _ _ _ _ _ (ok_inv _ _ (reachable_ok Hdep cfg Hr)) addr) as Hl.
  assert (2 <= count (guards addr) (holdings cfg)).
  { apply (count_two _ _ i j x y); try done; by apply bool_decide_eq_true. }
  unfold lock_bit in Hl. destruct (decide _); lia.
Qed.

(** C20: the live counter the pool balances by is exact: it equals the number of
    tasks that have a stream open on the tunnel or are opening one, after any
    history of opens, failures, evictions and ends. *)
Theorem live_counter_exact cfg t :
  deployed -> reachable cfg ->
  Pool.load (mux_pool (proc cfg)) t = N.of_nat (count (uses (tunnel_id t)) (holdings cfg)).
Proof using HAi HAo.
  intros Hdep Hr. apply (inv_live _ _ _ _ _ (ok_inv _ _ (reachable_ok Hdep cfg Hr)) t).
Qed.

(** A task that waits for input: an acceptor for a connection, or an inbound handler
    for the next stream of its tunnel. *)
Definition awaits_input (tr : Trail Event) : Prop :=
  match said tr with
  | Accepting _ :: _ | [HandleInbound _ _; ConnectUpstream _; ShutdownUpstream; ServeTunnel _ _] =>
      held_guard (holds tr) = None
  | _ => False
  end.

Lemma idle_awaits cfg tr : deployed -> reachable cfg -> (Idle, tr) ∈ threads cfg -> awaits_input tr.
Proof using HAi HAo.
  intros Hdep Hr Hin. pose proof (ok_wp _ _ (thread_at Hdep _ _ _ Hr Hin)) as Hf. cbn [fst snd wp] in Hf.
  pose proof (proj2 interlink_releases _ Hf) as Hg. unfold awaits_input. simpl in Hf.
  by repeat (step_match; try done).
Qed.

(** C23: no deadlock: a task that has not ended can act, or it is an acceptor or the
    handler of a tunnel and waits, without a lock, for what the network sends next,
    or it waits for a creation lock which another task holds that can act. *)
Theorem lock_holder_acts cfg i m tr :
  deployed -> reachable cfg -> threads cfg !! i = Some (m, tr) -> m <> Ret tt ->
  is_Some (step_thread i cfg)
  \/ (m = Idle /\ awaits_input tr)
  \/ exists addr j m' tr', next_call m = Some (Lock addr) /\ threads cfg !! j = Some (m', tr')
     /\ held_guard (holds tr') = Some addr /\ is_Some (step_thread j cfg).
Proof using HAi HAo.
  intros Hdep Hr Hth Hne. pose proof (reachable_ok Hdep cfg Hr) as Hok.
  assert (Hidle : m = Idle \/ m <> Idle) by (destruct m; auto). destruct Hidle as [->|Hni].
  { right. left. split; [done |]. apply (idle_awaits cfg); [done | done |]. by eapply list_elem_of_lookup_2. }
  destruct (step_or_wait _ _ _ _ _ Hok Hth Hne Hni) as [?|(addr & Hn & Hin)]; [by left | right; right].
  destruct (holder_acts _ _ _ _ _ _ interlink_releases Hok Hth Hn Hin) as (j & m' & tr' & ? & ? & ?).
  by exists addr, j, m', tr'.
Qed.

(** A task that has ended, or an acceptor that waits for the next connection. *)
Definition settled (t : Prog Event unit * Trail Event) : Prop :=
  t.1 = Ret tt \/ (t.1 = Idle /\ exists s acts, said t.2 = Accepting s :: acts).

Lemma settled_clean cfg i m tr :
  deployed -> reachable cfg -> threads cfg !! i = Some (m, tr) -> settled (m, tr) ->
  released (holds tr) /\ in_flight tr = false.
Proof using HAi HAo.
  intros Hdep Hr Hth [Hm|[Hm (s & acts & Hsd)]]; cbn [fst snd] in *; subst m; [by apply (ended_clean cfg i) |].
  apply list_elem_of_lookup_2 in Hth. pose proof (ok_wp _ _ (thread_at Hdep _ _ _ Hr Hth)) as Hf.
  cbn [fst snd wp] in Hf. simpl in Hf. rewrite Hsd in Hf. destruct Hf as [Hrel Hsp].
  split; [done |]. unfold in_flight. by rewrite Hsp.
Qed.

(** C22: a process whose connections are over is clean: when every task has ended or
    is an acceptor that waits for the next connection, every permit is free, the
    active counters are zero, and so is the active gauge (up to 2^53 tasks), no
    creation lock is held, and no tunnel counts a live stream. *)
Theorem quiescent_clean cfg :
  deployed -> reachable cfg -> Forall settled (threads cfg) ->
  (forall s, permits (get_slots s (proc cfg)) = max_permits interlink s
     /\ active_connections (get_slots s (proc cfg)) = 0%N)
  /\ (few_tasks cfg -> connections_active (proc_metrics (proc cfg)) = 0%Z)
  /\ creating (proc cfg) = ∅
  /\ forall t, Pool.load (mux_pool (proc cfg)) t = 0%N.
Proof using HAi HAo.
  intros Hdep Hr Hall. pose proof (ok_inv _ _ (reachable_ok Hdep cfg Hr)) as Hi.
  rewrite Forall_lookup in Hall.
  assert (Hclean : forall i tr, trails cfg !! i = Some tr -> released (holds tr) /\ in_flight tr = false).
  { intros i tr Htr. unfold trails in Htr. rewrite list_lookup_fmap in Htr.
    destruct (threads cfg !! i) as [[m tr']|] eqn:Hth; [|done]. injection Htr as <-.
    exact (settled_clean cfg i m tr' Hdep Hr Hth (Hall _ _ Hth)). }
  assert (Hzero : forall P, (forall h, released h -> P h = false) -> count P (holdings cfg) = 0).
  { intros P HP. apply count_zero. intros i h Hh. unfold holdings in Hh. rewrite list_lookup_fmap in Hh.
    destruct (trails cfg !! i) as [tr|] eqn:Htr; [|done]. injection Hh as <-. apply HP. by apply (Hclean i). }
  split; [|split; [|split]].
  - intros s. rewrite <- (inv_permits _ _ _ _ _ Hi s), (inv_active _ _ _ _ _ Hi s).
    rewrite !Hzero; [split; [lia | done] | |]; intros h (Hp & Hc & _);
      apply bool_decide_eq_false; congruence.
  - intros Hfew. rewrite (reachable_gauge cfg Hdep Hr Hfew), count_zero; [done |]. intros i tr Htr. by apply (Hclean i).
  - apply set_eq. intros a. rewrite elem_of_empty. split; [|done]. intros Ha.
    pose proof (inv_locks _ _ _ _ _ Hi a) as Hl. unfold lock_bit in Hl. rewrite decide_True in Hl by done.
    rewrite Hzero in Hl; [done |]. intros h (_ & _ & Hg & _). apply bool_decide_eq_false. congruence.
  - intros t. rewrite (inv_live _ _ _ _ _ Hi t), Hzero; [done |]. intros h (_ & _ & _ & Hs).
    unfold uses. by rewrite Hs.
Qed.

(** C34: the upstream receives the peer's bytes from the first one on: the only
    bytes a handler writes before the relay are the non-empty prefix (at most
    32) that protocol detection has read, unchanged, and the relay starts only
    after they were written. *)
Theorem inbound_forwards_prefix cfg m tr c u acts :
  deployed -> reachable cfg -> (m, tr) ∈ threads cfg -> said tr = HandleInbound c u :: acts ->
  Relay ∈ acts ->
  exists addr bytes, Inbound.resolve_upstream inb (in_resolved_at c) u = Ok addr
    /\ in_first_read c = Ok bytes /\ bytes <> [] /\ in_write_first c = Ok tt
    /\ acts = [ConnectUpstream addr; WriteUpstream (take 32 bytes); Relay].
Proof using HAi HAo.
  intros Hdep Hr Hin Hsd Hrel. destruct (thread_at Hdep _ _ _ Hr Hin) as [_ Htold _]. cbn [snd] in Htold.
  rewrite Hsd in Htold. destruct (told_allowed _ _ _ Htold) as [_ Hal]. simpl in Hal.
  apply list_elem_of_split in Hrel as (pre & post & Heq). pose proof (Hal _ _ _ Heq) as Hm.
  inversion Hm as [| | | |addr peer bytes Hau Hraw Hwr Hpre]. subst pre. simpl in Heq.
  pose proof (Hal [] _ _ Heq) as H1. inversion H1 as [a Hres| | | |]. subst a.
  pose proof (Hal [_] _ _ Heq) as H2. inversion H2 as [| | |a p b Hau' Hraw' Hread Hne| ]. subst.
  exists addr, b. do 4 (split; [done |]). destruct post as [|z post]; [done |].
  pose proof (Hal [_; _; _] z post eq_refl) as Hlast. inversion Hlast.
Qed.

(** C35: a dial that succeeded for a peer that is not let in is undone: when a
    handler has ended whose upstream resolved and was reached, but whose peer did
    not authenticate, or was denied, it has dialled the upstream and shut the
    socket down, and nothing else. *)
Theorem inbound_refused_closes cfg tr c u acts addr :
  deployed -> reachable cfg -> (Ret tt, tr) ∈ threads cfg -> said tr = HandleInbound c u :: acts ->
  Inbound.resolve_upstream inb (in_resolved_at c) u = Ok addr -> in_upstream_connect c = Ok tt ->
  (forall s, ~ (in_attempt c = HandshakeDone (inner s) /\ authentic parse_x509 s
               /\ verdict (Inbound.policy inb) (peer_identity s) (Inbound.local_id inb) = Allow)) ->
  acts = [ConnectUpstream addr; ShutdownUpstream].
Proof using HAi HAo.
  intros Hdep Hr Hin Hsd Hres Hup Hno.
  destruct (ok_wp _ _ (thread_at Hdep _ _ _ Hr Hin)) as [_ Hf]. cbn [snd] in Hf. rewrite Hsd in Hf.
  assert (Hau : forall peer, ~ in_authenticated c peer Allow).
  { intros peer (s & Hd & _ & Ha & <- & Hv). by apply (Hno s). }
  inversion Hf; simplify_eq; rewrite ?Hup in *; simpl in *; try congruence;
    match goal with Ha : authenticated _ _ _ _ _ _ |- _ => by destruct (Hau _ Ha) end.
Qed.
End System.

(** ** A concrete process

    One acceptor of each proxy; the inbound one is offered a tunnel with one
    stream and a plain connection, the outbound one two connections to the same
    peer. *)
Module SystemDemo.
Definition inb (engine : PolicyEngine) : TcpProxy TlsServer :=
  InboundDemo.proxy engine (Some InboundDemo.target).
Definition outb : OutboundProxy TlsClient := OutboundDemo.proxy.
Definition ins : InTurns :=
  [[([], Accept (None, InboundDemo.conn (Some ALPN_MUX))); ([], Accept (None, InboundDemo.conn None))]].
Definition outs : OutTurns :=
  [[([], Accept (Some OutboundDemo.target, OutboundDemo.conn (Some ALPN_MUX)));
    ([], Accept (Some OutboundDemo.target, OutboundDemo.conn (Some ALPN_MUX)))]].
Definition any_session (_ : Session) : Prop := True.

Definition boot (engine : PolicyEngine) : Machine :=
  @start_process _ _ (TlsServer_handshake Demo.parse) (TlsClient_handshake Demo.parse) (inb engine) outb ins outs.

Abbreviation demo_deployed engine := (deployed (inb engine) outb any_session any_session ins outs).
Abbreviation demo_reachable engine :=
  (@reachable _ (TlsServer_handshake Demo.parse) _ (TlsClient_handshake Demo.parse) (inb engine) outb ins outs).

Lemma boot_deployed engine : wf_engine engine -> demo_deployed engine.
Proof.
  intros Hw. split; try done; try apply Demo.id_utf8; try apply Demo.allow_all_wf;
    try (unfold MAX_PERMITS; simpl; lia).
Qed.

Lemma driven_reachable engine n :
  (tunnel_ids (proc (drive n (boot engine))) <= 2 ^ 64)%N -> demo_reachable engine (drive n (boot engine)).
Proof. intros H. split; [apply drive_steps | done]. Qed.

Definition task (cfg : Machine) (i : nat) : Prog Event unit * Trail Event :=
  default (Ret tt, trail_new DropClient) (threads cfg !! i).
Definition ended_cfg : Machine := drive 200 (boot Demo.allow_all).
Definition denied_cfg : Machine := drive 200 (boot Engine.new).
Definition busy_cfg : Machine := drive 47 (boot Demo.allow_all).
(** A connection in the middle of being recorded. *)
Definition recording_cfg : Machine := drive 62 (boot Demo.allow_all).
Definition blocked_cfg : Machine := default busy_cfg (play [5; 5] busy_cfg).

#[local] Existing Instance TlsServer_handshake.
#[local] Existing Instance TlsClient_handshake.

Lemma ended_reachable : demo_reachable Demo.allow_all ended_cfg.
Proof. apply driven_reachable. vm_compute. discriminate. Qed.
Lemma denied_reachable : demo_reachable Engine.new denied_cfg.
Proof. apply driven_reachable. vm_compute. discriminate. Qed.
Lemma busy_reachable : demo_reachable Demo.allow_all busy_cfg.
Proof. apply driven_reachable. vm_compute. discriminate. Qed.
Lemma recording_reachable : demo_reachable Demo.allow_all recording_cfg.
Proof. apply driven_reachable. vm_compute. discriminate. Qed.
Lemma blocked_reachable : demo_reachable Demo.allow_all blocked_cfg.
Proof.
  split; [|vm_compute; discriminate].
  exact (steps_trans _ _ _ _ (proj1 busy_reachable) (played_steps [5; 5] busy_cfg)).
Qed.
Lemma task_in cfg i : i < length (threads cfg) -> task cfg i ∈ threads cfg.
Proof.
  intros H. destruct (lookup_lt_is_Some_2 _ _ H) as [x Hx]. unfold task. rewrite Hx.
  by eapply list_elem_of_lookup_2.
Qed.

Abbreviation at_demo f := (f Demo.parse TlsServer _ (TlsServer_authentic _ Demo.parse_utf8) TlsClient _
  (TlsClient_authentic _ Demo.parse_utf8) (inb Demo.allow_all) outb any_session any_session ins outs).

Lemma said_relayed : said (task ended_cfg 3).2
  = [HandleInbound (InboundDemo.conn None) InboundDemo.target; ConnectUpstream (any_ipv4 80);
     WriteUpstream (bs "GET / HTTP/1.1"); Relay].
Proof. vm_compute. reflexivity. Qed.
Lemma said_over : said (task ended_cfg 4).2
  = [HandleOutbound (OutboundDemo.conn (Some ALPN_MUX)) (Socket OutboundDemo.target);
     RelayOver (MuxStream OutboundDemo.tunnel)].
Proof. vm_compute. reflexivity. Qed.
Lemma ended_tasks : length (threads ended_cfg) = 8.
Proof. vm_compute. reflexivity. Qed.

Lemma inbound_authorized_witness :
  exists s, in_attempt (InboundDemo.conn None) = HandshakeDone (inner s)
    /\ verdict Demo.allow_all (peer_identity s) Demo.id = Allow.
Proof.
  pose proof (at_demo (@inbound_authorized) ended_cfg (task ended_cfg 3).1 (task ended_cfg 3).2
    (boot_deployed _ Demo.allow_all_wf) ended_reachable) as H.
  rewrite said_relayed, <- surjective_pairing in H.
  destruct (H (task_in ended_cfg 3 ltac:(rewrite ended_tasks; lia)) Relay ltac:(right; right; left) eq_refl)
    as (s & Hs & _ & _ & Hv & _).
  exists s. split; [exact Hs | exact Hv].
Defined.

Lemma outbound_authorized_witness :
  exists r addr, open_route r = true
    /\ route_allowed Demo.parse outb any_session (OutboundDemo.conn (Some ALPN_MUX)) addr r.
Proof.
  pose proof (at_demo (@outbound_authorized) ended_cfg (task ended_cfg 4).1 (task ended_cfg 4).2
    (boot_deployed _ Demo.allow_all_wf) ended_reachable) as H.
  rewrite <- surjective_pairing in H.
  destruct (H (task_in ended_cfg 4 ltac:(rewrite ended_tasks; lia))) as [_ H'].
  destruct (H' _ _ _ (RelayOver (MuxStream OutboundDemo.tunnel)) said_over ltac:(left))
    as (r & addr & _ & _ & Ho & _ & Hr).
  exists r, addr. split; [exact Ho | exact Hr].
Defined.

Lemma busy_tasks : length (threads busy_cfg) = 7.
Proof. vm_compute. reflexivity. Qed.

Lemma tasks_never_panic_witness : (task busy_cfg 4).1 <> Panic.
Proof.
  apply (at_demo (@tasks_never_panic) busy_cfg _ (task busy_cfg 4).2 (boot_deployed _ Demo.allow_all_wf)
    busy_reachable). rewrite <- surjective_pairing. apply task_in. rewrite busy_tasks. lia.
Defined.

Lemma recording_few : few_tasks recording_cfg.
Proof. vm_compute. discriminate. Qed.
Lemma recording_flights : count in_flight (trails recording_cfg) = 1.
Proof. vm_compute. reflexivity. Qed.
Lemma recording_charges : d_total (total_spent recording_cfg) = 2%Z.
Proof. vm_compute. reflexivity. Qed.

Lemma process_accounted_witness :
  connections_active (proc_metrics (proc recording_cfg)) = 1%Z
  /\ Z.of_N (connections_total (proc_metrics (proc recording_cfg))) = 2%Z.
Proof.
  destruct (at_demo (@process_accounted) recording_cfg (boot_deployed _ Demo.allow_all_wf) recording_reachable)
    as (Ht & Hg & _).
  split; [rewrite (Hg recording_few), recording_flights; reflexivity |].
  rewrite (tally_total _ _ Ht), recording_charges. reflexivity.
Defined.

Lemma admission_conserved_witness :
  (permits (get_slots OutboundSide (proc busy_cfg))
   + N.of_nat (count (permit_of OutboundSide) (holdings busy_cfg)) = 8)%N.
Proof.
  destruct (at_demo (@admission_conserved) busy_cfg OutboundSide (boot_deployed _ Demo.allow_all_wf)
    busy_reachable) as [H _].
  exact H.
Defined.

Lemma counters_never_wrap_witness :
  (fetch_add_1 (active_connections (get_slots OutboundSide (proc busy_cfg)))
   = active_connections (get_slots OutboundSide (proc busy_cfg)) + 1)%N.
Proof.
  apply (at_demo (@counters_never_wrap) busy_cfg (boot_deployed _ Demo.allow_all_wf) busy_reachable).
Defined.

Lemma tunnels_bounded_witness :
  Pool.tunnel_count (mux_pool (proc busy_cfg)) OutboundDemo.target
  + count (room_at OutboundDemo.target) (holdings busy_cfg) <= 16
  /\ Pool.tunnel_count (mux_pool (proc busy_cfg)) OutboundDemo.target
      + count (bare_at OutboundDemo.target) (holdings busy_cfg) <= 1.
Proof.
  destruct (at_demo (@tunnels_bounded) busy_cfg OutboundDemo.target (boot_deployed _ Demo.allow_all_wf) busy_reachable)
    as [H16 H1].
  split; [exact H16 | apply H1; vm_compute; discriminate].
Defined.

Lemma live_counter_exact_witness :
  Pool.load (mux_pool (proc busy_cfg)) OutboundDemo.tunnel
  = N.of_nat (count (uses 0) (holdings busy_cfg)).
Proof.
  apply (at_demo (@live_counter_exact) busy_cfg OutboundDemo.tunnel (boot_deployed _ Demo.allow_all_wf) busy_reachable).
Defined.

Lemma lock_holder_acts_witness :
  exists j m tr, threads blocked_cfg !! j = Some (m, tr)
    /\ held_guard (holds tr) = Some OutboundDemo.target /\ is_Some (step_thread j blocked_cfg).
Proof.
  destruct (at_demo (@lock_holder_acts) blocked_cfg 5 (task blocked_cfg 5).1 (task blocked_cfg 5).2
    (boot_deployed _ Demo.allow_all_wf) blocked_reachable)
    as [[c Hc]|[[Hc _]|(addr & j & m & tr & Hn & Hj & Hg & Hs)]];
    [vm_compute; reflexivity | vm_compute; discriminate | vm_compute in Hc; discriminate
    | vm_compute in Hc; discriminate |].
  exists j, m, tr. split; [exact Hj |]. split; [|exact Hs]. vm_compute in Hn. injection Hn as <-. exact Hg.
Defined.

Lemma ended_settled : Forall settled (threads ended_cfg).
Proof.
  assert (H : Forall (fun t => match t with
    | (Ret _, _) | (Idle, MkTrail _ _ (Accepting _ :: _)) => true | _ => false end = true) (threads ended_cfg))
    by (vm_compute; repeat constructor).
  eapply Forall_impl; [exact H |]. intros [[[]| | | | |] [h ch [|[] l]]]; try discriminate; intros _.
  all: first [by left | right; split; [done |]; by eexists _, _].
Qed.

Lemma quiescent_clean_witness :
  creating (proc ended_cfg) = ∅ /\ active_connections (get_slots InboundSide (proc ended_cfg)) = 0%N.
Proof.
  destruct (at_demo (@quiescent_clean) ended_cfg (boot_deployed _ Demo.allow_all_wf) ended_reachable ended_settled)
    as (Hs & _ & Hc & _).
  split; [exact Hc | exact (proj2 (Hs InboundSide))].
Defined.

Lemma inbound_forwards_prefix_witness :
  exists addr bytes, bytes <> []
    /\ [ConnectUpstream (any_ipv4 80); WriteUpstream (bs "GET / HTTP/1.1"); Relay]
       = [ConnectUpstream addr; WriteUpstream (take 32 bytes); Relay].
Proof.
  pose proof (at_demo (@inbound_forwards_prefix) ended_cfg (task ended_cfg 3).1 (task ended_cfg 3).2
    (InboundDemo.conn None) InboundDemo.target
    [ConnectUpstream (any_ipv4 80); WriteUpstream (bs "GET / HTTP/1.1"); Relay]
    (boot_deployed _ Demo.allow_all_wf) ended_reachable) as H.
  rewrite <- surjective_pairing in H.
  destruct (H (task_in ended_cfg 3 ltac:(rewrite ended_tasks; lia)) said_relayed
    ltac:(right; right; left)) as (addr & bytes & _ & _ & Hb & _ & Ha).
  exists addr, bytes. split; [exact Hb | exact Ha].
Defined.

Lemma denied_tasks : length (threads denied_cfg) = 7 /\ (task denied_cfg 3).1 = Ret tt.
Proof. split; vm_compute; reflexivity. Qed.

(** What the handler of the plain connection did in the process that denies all. *)
Definition refused_acts : list Event := tail (said (task denied_cfg 3).2).
Lemma said_denied :
  said (task denied_cfg 3).2 = HandleInbound (InboundDemo.conn None) InboundDemo.target :: refused_acts.
Proof. vm_compute. reflexivity. Qed.

Lemma inbound_refused_closes_witness : refused_acts = [ConnectUpstream (any_ipv4 80); ShutdownUpstream].
Proof.
  apply (@inbound_refused_closes Demo.parse TlsServer _ (TlsServer_authentic _ Demo.parse_utf8) TlsClient _
    (TlsClient_authentic _ Demo.parse_utf8) (inb Engine.new) outb any_session any_session ins outs
    denied_cfg (task denied_cfg 3).2 (InboundDemo.conn None) InboundDemo.target
    refused_acts (any_ipv4 80) (boot_deployed _ wf_new) denied_reachable).
  - rewrite <- (proj2 denied_tasks), <- surjective_pairing. apply task_in. rewrite (proj1 denied_tasks). lia.
  - exact said_denied.
  - reflexivity.
  - reflexivity.
  - intros s (_ & _ & Hv). revert Hv. unfold verdict, applicable. simpl. discriminate.
Defined.
End SystemDemo.
