(* ===== verification/Resolution.v ===== *)
(** * Where connections go: upstreams, name resolution and the proxies

    The proxies composed with service discovery: what discovery answers a
    connection is what a call of [resolve] has returned in some run of
    [src/discovery/dns.rs] among other callers, over a resolver that has an
    address list for a name or has not, and every address a handler dials, or
    relays over, follows from the connection's upstream. *)

From S2P Require Import Prelude Bytes Common Glob Identity Policy Net Metrics ProxyBase ConfigLoad Dns.
From S2P Require Import Tunnels Process Holdings Tasks Handshake Events Mux Listener Inbound Outbound System.

Set Default Proof Using "Type".

(** ** Discovery as the proxies see it *)

Section Dns.
(** What the resolver may answer: [resolves name l] if [l] is a list it has for the
    name. *)
Context (resolves : str -> list SocketAddr -> Prop).

(** A run of discovery, with any callers, expiry and clearing of the cache, in which
    the answers to the lookups were those of the resolver. *)
Definition resolver_run (s : ServiceDiscovery) : Prop :=
  (exists t, steps disc_step (Disc.with_resolver t) s)
  /\ forall name l, (name, l) ∈ answers s -> resolves name l.

(** Every endpoint list that discovery hands to a connection is the result of a
    call for the same name in such a run. *)
Definition backed_by_dns (discovery : option Discovery) : Prop :=
  forall resolve at_time name ep, discovery = Some resolve -> resolve at_time name = Ok ep ->
    exists s i, resolver_run s /\ tasks s !! i = Some (Returned name (Ok ep)).

(** The addresses an upstream stands for: itself, or the first one of a list that
    the resolver has for its name, with the configured port if there is one. *)
Definition leads_to (u : UpstreamTarget) (addr : SocketAddr) : Prop :=
  match u with
  | Socket sa => addr = sa
  | Host name port => exists first rest, resolves name (first :: rest)
      /\ addr = socket_addr (sa_ip first) (default (sa_port first) port)
  end.

Lemma resolve_leads discovery at_time u addr :
  backed_by_dns discovery -> resolve_target discovery at_time u = Ok addr -> leads_to u addr.
Proof.
  intros Hb Hr. destruct u as [sa|name port]; simpl in *; [by injection Hr as <- |].
  destruct discovery as [resolve|]; [|done].
  destruct (resolve at_time name) as [ep|] eqn:Er; simpl in Hr; [|done].
  destruct (addrs ep) as [|first rest] eqn:Ea; simpl in Hr; [done |]. injection Hr as <-.
  destruct (Hb _ _ _ _ eq_refl Er) as (s & i & [[t Hs] Hall] & Ht). exists first, rest. split; [|done].
  apply Hall. rewrite <- Ea.
  by apply (wf_result s (disc_reachable_wf _ _ Hs) i (Returned name (Ok ep)) ep Ht).
Qed.
End Dns.

Section Resolution.
Context (resolves : str -> list SocketAddr -> Prop).
Context (parse_x509 : str -> result (list X509Extension) str).
Context {Ti : Type} `{HAi : TlsAuthentic parse_x509 Ti}.
Context {To : Type} `{HAo : TlsAuthentic parse_x509 To}.
Context (inb : TcpProxy Ti) (outb : OutboundProxy To).
Context (served : Session -> Prop) (connected : Session -> Prop).
Context (ins : InTurns) (outs : OutTurns).

(** C6: connections go where their upstream says: in every reachable state of
    the process an inbound handler has dialled only the address its upstream
    stands for, a relayed stream goes to that of its tunnel's connection, and an
    outbound handler relays only over a connection dialled to that of its own.
    For a host name it is the first address of a list that the resolver has for
    this very name (with the configured port, if any), whatever lookups of other
    names run at the same time, share the cache, or are waited for. *)
Theorem connections_lead_to_upstream cfg m tr :
  deployed inb outb served connected ins outs ->
  reachable inb outb ins outs cfg ->
  backed_by_dns resolves (Inbound.discovery inb) -> backed_by_dns resolves (Outbound.discovery outb) ->
  (m, tr) ∈ threads cfg ->
  match said tr with
  | HandleInbound c u :: acts => forall addr, ConnectUpstream addr ∈ acts -> leads_to resolves u addr
  | RelayStream addr _ _ :: acts =>
      (exists c u, accepts_inbound inb ins c u /\ leads_to resolves u addr)
      /\ forall a, ConnectUpstream a ∈ acts -> a = addr
  | HandleOutbound c u :: acts => forall r, RelayOver r ∈ acts ->
      exists addr, leads_to resolves u addr /\
        match r with
        | MuxStream t => tunnel_link t = addr
        | Legacy s => out_attempt c addr = HandshakeDone s
        | _ => False
        end
  | _ => True
  end.
Proof using HAi HAo.
  intros Hdep Hr Hbi Hbo Hin. destruct (thread_at parse_x509 _ _ _ _ _ _ Hdep _ _ _ Hr Hin) as [_ Htold _].
  cbn [snd] in Htold. destruct (said tr) as [|n acts] eqn:Hsd; [done |].
  destruct (told_allowed _ _ _ Htold) as [Hn Ha].
  destruct n as [|c u|c u|addr peer o| | | | | | | | |]; try done.
  - intros addr (pre & post & Heq)%list_elem_of_split. specialize (Ha _ _ _ Heq). simpl in Ha.
    inversion Ha as [addr' Hres| | | |]; subst. exact (resolve_leads _ _ _ _ _ Hbi Hres).
  - intros r Hrel.
    destruct (outbound_relays parse_x509 _ _ _ _ _ _ _ _ _ Hdep Hr Hin _ _ _ _ Hsd Hrel)
      as (r' & addr & _ & [= <-] & Ho & Hres & Hall).
    exists addr. split; [exact (resolve_leads _ _ _ _ _ Hbo Hres) |]. destruct r as [t|s| |]; try done; [by destruct Hall as (_ & ? & _) |].
    by destruct Hall as (x & ? & _).
  - destruct Hn as (c & u & Hacc & Hres & _). split; [exists c, u; split; [done | exact (resolve_leads _ _ _ _ _ Hbi Hres)] |].
    intros a (pre & post & Heq)%list_elem_of_split. destruct (Ha _ _ _ Heq) as (rest & ch & Hout).
    inversion Hout as [e He Hl Hc|He Hl Hc]; clear -Hl; destruct pre as [|x [|y [|z pre]]]; by simplify_eq/=.
Qed.
End Resolution.

(** An inbound proxy with a host name as its upstream, and one connection. *)
Module ResolutionDemo.
Definition resolve (_ : N) (name : str) : result ResolvedEndpoints InterlinkError :=
  if bool_decide (name = bs "svc") then Ok demo_ep else Err (DnsResolution (bs "lookup failed")).
Definition upstream : UpstreamTarget := Host (bs "svc") (Some 8080%N).
Definition inb : TcpProxy TlsServer :=
  MkTcpProxy (Some upstream) (MkSlots 8 0) 4143 Demo.server Demo.allow_all (Some resolve) None Demo.id.
Definition ins : InTurns := [[([], Accept (None, InboundDemo.conn None))]].
Definition cfg : Machine := drive 100 (@start_process _ _ (TlsServer_handshake Demo.parse)
  (TlsClient_handshake Demo.parse) inb SystemDemo.outb ins []).

(** The resolver knows one name. *)
Definition zone (name : str) (l : list SocketAddr) : Prop := name = bs "svc" /\ l = addrs demo_ep.

Lemma resolve_backed : backed_by_dns zone (Inbound.discovery inb).
Proof.
  intros f at_time name ep [= <-]. unfold resolve. case_bool_decide as Hn; [|done]. intros [= <-]. subst name.
  exists (demo_one 7), 0. split; [|vm_compute; reflexivity].
  split; [eexists; apply demo_one_reachable |]. intros name l H.
  assert (Ha : answers (demo_one 7) = [(bs "svc", addrs demo_ep)]) by (vm_compute; reflexivity).
  rewrite Ha in H. apply list_elem_of_singleton in H. by injection H as -> ->.
Qed.

#[local] Existing Instance TlsServer_handshake.
#[local] Existing Instance TlsClient_handshake.

Lemma demo_deployed :
  deployed inb SystemDemo.outb SystemDemo.any_session SystemDemo.any_session ins [].
Proof.
  split; try done; try apply Demo.id_utf8; try apply Demo.allow_all_wf; try (unfold MAX_PERMITS; simpl; lia).
Qed.
Lemma demo_reached :
  @reachable _ (TlsServer_handshake Demo.parse) _ (TlsClient_handshake Demo.parse) inb SystemDemo.outb ins [] cfg.
Proof. split; [apply drive_steps | vm_compute; discriminate]. Qed.
Lemma demo_said : said (SystemDemo.task cfg 1).2 = [HandleInbound (InboundDemo.conn None) upstream;
  ConnectUpstream (socket_addr (V4 10 0 0 1) 8080); WriteUpstream (bs "GET / HTTP/1.1"); Relay].
Proof. vm_compute. reflexivity. Qed.
Lemma demo_tasks : length (threads cfg) = 2.
Proof. vm_compute. reflexivity. Qed.
Lemma outbound_backed : backed_by_dns zone (Outbound.discovery SystemDemo.outb).
Proof. by intros f. Qed.

Lemma connections_lead_to_upstream_witness :
  exists first rest, zone (bs "svc") (first :: rest)
    /\ socket_addr (V4 10 0 0 1) 8080 = socket_addr (sa_ip first) 8080.
Proof.
  pose proof (@connections_lead_to_upstream zone Demo.parse TlsServer _ (TlsServer_authentic _ Demo.parse_utf8)
    TlsClient _ (TlsClient_authentic _ Demo.parse_utf8) inb SystemDemo.outb SystemDemo.any_session
    SystemDemo.any_session ins [] cfg (SystemDemo.task cfg 1).1 (SystemDemo.task cfg 1).2
    demo_deployed demo_reached resolve_backed outbound_backed) as H.
  rewrite demo_said, <- surjective_pairing in H.
  exact (H (SystemDemo.task_in cfg 1 ltac:(rewrite demo_tasks; lia)) _ ltac:(left)).
Defined.
End ResolutionDemo.
