(* ===== verification/Daemon.v ===== *)
(** * The daemon ([src/main.rs])

    Configuration, identity, credentials, the start-up policy, and the wiring
    of the two proxies and the admin server around one credential reloader. *)

From S2P Require Import Prelude Bytes Common Glob Identity Policy Net Metrics ProxyBase ConfigLoad.
From S2P Require Import Provider Reload Rotation Admin Dns Tunnels Process Holdings Tasks Handshake Events Mux.
From S2P Require Import Listener Inbound Outbound System.

Set Default Proof Using "Type".

(** The error of [main]: a boxed error of the crate or of a library. *)
Inductive MainError := Interlink (e : InterlinkError) | Boxed (msg : str).

(** Step 5: default-deny except for this workload's own identity; an explicit
    environment variable turns the default into allow. *)
Definition startup_policy (e : env) (identity : SpiffeId) : eval PolicyEngine :=
  let identity_uri := Id.to_uri identity in
  rule ← patterns.allow identity_uri identity_uri (bs "allow replicas of this workload identity");
  let engine := Engine.set_global_policies Engine.new [rule] in
  Some (if bool_decide (e !! bs "INTERLINK_ALLOW_ALL" = Some (bs "true"))
        then Engine.set_default_decision engine Allow else engine).

Record Daemon := MkDaemon {
  tls : TlsCredentialReloader;
  admin : AdminServer TlsCredentialReloader;
  inbound : TcpProxy TlsCredentialReloader;
  outbound : OutboundProxy TlsCredentialReloader;
}.

Section Main.
Context (path_display : str -> str) (io_display : IoError -> str).
Context (pem_certs : str -> result (list str) IoError).
Context (pem_private_key : str -> result (option PrivateKeyDer) IoError).
Context (server_name_try_from : str -> result str str).
Context (parse_x509 : str -> result (list X509Extension) str).
Context (root_add : str -> result unit TlsError).
Context (client_auth_cert : list str -> PrivateKeyDer -> result unit TlsError).
Context (single_cert : list str -> PrivateKeyDer -> result unit TlsError).
Context (client_verifier : list str -> result unit str).
Context (parsed_certificate : str -> result unit TlsError).
Context (signed_by_trust_anchor : list str -> str -> list str -> N -> result unit TlsError).
Context (serde_json_from_str : str -> result Config str).
Context (path_exists : str -> bool) (read_to_string : str -> result str str).
(** [ServiceDiscovery::new] and what its [resolve] answers. *)
Context (discovery_new : result Discovery str).

Definition boxed {A} (r : eval (result A InterlinkError)) : eval (result A MainError) :=
  match r with
  | Some r => Some (map_err Interlink r)
  | None => None
  end.

(** Steps 1 to 9; the metrics exporter's failure is not fatal and the signal
    wait of step 10 is outside. *)
Definition main (e os_env : env) (w : World) : eval (result Daemon MainError) :=
  config <-! boxed (Cfg.load serde_json_from_str path_exists read_to_string e) ;;
  identity ← Cfg.local_identity (cfg_identity config) (cfg_trust_domain config);
  let credential_paths := Paths.from_config os_env config in
  tls <-! boxed (load path_display io_display pem_certs pem_private_key server_name_try_from
                   parse_x509 root_add client_auth_cert single_cert client_verifier
                   parsed_certificate signed_by_trust_anchor
                   w credential_paths identity (cfg_mux config)) ;;
  policy ← startup_policy e identity;
  discovery <-! Some (map_err Boxed discovery_new) ;;
  let admin := Admin.with_reload_handler (Admin.with_shutdown Admin.new []) tls in
  inbound ← Inbound.new_with_discovery (Cfg.to_proxy_config config) (proxy_inbound_port config) tls
              policy (if cfg_default_upstream config then None else Some discovery);
  outbound ← Outbound.new_with_discovery (Cfg.to_proxy_config config) (proxy_outbound_port config) tls
               policy (Some discovery);
  Some (Ok (MkDaemon tls admin (Inbound.with_shutdown inbound [])
              (Outbound.with_shutdown outbound []))).

(** Step 10: one [shutdown_tx.send(true)] reaches every receiver. *)
Definition signal_shutdown (d : Daemon) : Daemon :=
  MkDaemon (tls d) (Admin.with_shutdown (admin d) [Send true])
    (Inbound.with_shutdown (inbound d) [Send true])
    (Outbound.with_shutdown (outbound d) [Send true]).

(** [wait_for_shutdown_signal]: what installing the handler of SIGTERM reports,
    and which branch of the select comes first. *)
Inductive Signal := CtrlC (r : result unit IoError) | Terminate.

Definition wait_for_shutdown_signal (install : result unit IoError) (first : Signal) : result unit IoError :=
  _ <-? install ;;
  match first with CtrlC r => r | Terminate => Ok tt end.

(** Step 10: an error of the wait is logged, and shutdown goes ahead. *)
Definition await_shutdown (d : Daemon) (install : result unit IoError) (first : Signal) : Daemon :=
  match wait_for_shutdown_signal install first with
  | Ok _ => signal_shutdown d
  | Err _ => signal_shutdown d
  end.

(** Shutdown stops both proxies, whatever the wait for the signal reported: if
    each acceptor is polled for the signal once more and the handlers are
    watched for 301 polls, [run] of either proxy has returned. *)
Theorem shutdown_stops_proxies {C : Type} d install first e par sys (ins outs : nat -> list (turn C))
    began obs :
  paced began obs = true -> 301 <= length obs ->
  (forall i, exists pre post, ins i = pre ++ ([], ShutdownBranch) :: post /\ concat (map fst pre) = []) ->
  (forall i, exists pre post, outs i = pre ++ ([], ShutdownBranch) :: post /\ concat (map fst pre) = []) ->
  let d' := await_shutdown d install first in
  is_Some (Inbound.run (inbound d') e par sys ins began obs).2
  /\ is_Some (Outbound.run (outbound d') e par sys outs began obs).2.
Proof.
  intros Hp Hl Hi Ho d'. assert (Hd : d' = signal_shutdown d).
  { unfold d', await_shutdown. by destruct (wait_for_shutdown_signal install first). }
  rewrite Hd. split; apply run_returns; try done; intros i _.
  - destruct (Hi i) as (pre & post & -> & Hq). exists pre, [], post. by rewrite Hq.
  - destruct (Ho i) as (pre & post & -> & Hq). exists pre, [], post. by rewrite Hq.
Qed.
End Main.

(** ** Lemmas *)

Lemma startup_policy_total e id :
  utf8_id id -> valid_id id ->
  exists cp, Pattern.from_uri (Id.to_uri id) = Some (Ok cp) /\ wf_pattern cp
    /\ startup_policy e id = Some (MkEngine ∅
         [MkRule cp cp Allow (bs "allow replicas of this workload identity")]
         (if bool_decide (e !! bs "INTERLINK_ALLOW_ALL" = Some (bs "true")) then Allow
          else Deny (bs "no matching policy"))).
Proof.
  intros Hu Hv. pose proof (to_uri_grammar id (proj1 Hv)) as Hg.
  pose proof (pattern_from_uri _ _ _ _ (to_uri_utf8 id Hu) Hg) as Hf.
  eexists. split; [exact Hf |]. split; [by eapply wf_from_uri; [apply to_uri_utf8 | exact Hf] |].
  unfold startup_policy, patterns.allow, patterns.compile. rewrite Hf. run_bind. simpl.
  by destruct (bool_decide _).
Qed.

(** The start-up policy of a valid identity free of wildcards. *)
Lemma startup_verdict e id engine src dst :
  utf8_id id -> valid_id id -> star_free (namespace id) -> star_free (service_account id) ->
  startup_policy e id = Some engine ->
  verdict engine src dst = Allow <->
  (src = id /\ dst = id) \/ e !! bs "INTERLINK_ALLOW_ALL" = Some (bs "true").
Proof.
  intros Hu Hv Fn Fs He. destruct (startup_policy_total e id Hu Hv) as (cp & Hf & Hw & Hs).
  rewrite Hs in He. apply (inj Some) in He. subst engine.
  destruct (identity_as_pattern id cp Hu Hv Hf) as [Hself Honly]. specialize (Honly Fn Fs).
  assert (Hm : forall x, pattern_matches cp x = bool_decide (x = id)).
  { intros x. destruct (bool_decide_reflect (x = id)) as [->|Hne]; [done |].
    destruct (pattern_matches cp x) eqn:E; [|done]. by apply Honly in E. }
  match goal with |- context [bool_decide ?P] => destruct (bool_decide_reflect P) as [HD|HD] end;
    revert HD; generalize (e !! bs "INTERLINK_ALLOW_ALL" = Some (bs "true")); intros D HD;
    unfold verdict, first_match, applicable; simpl; rewrite lookup_empty; simpl;
    unfold rule_matches; simpl; rewrite !Hm;
    destruct (bool_decide_reflect (src = id)), (bool_decide_reflect (dst = id)); simpl;
    split; intros; first [done | tauto].
Qed.

Lemma started_engine e id engine :
  utf8_id id -> startup_policy e id = Some engine -> wf_engine engine.
Proof.
  intros Hu. unfold startup_policy, patterns.allow.
  destruct (patterns.compile (Id.to_uri id)) as [cp|] eqn:E; simpl; [|done].
  apply compile_wf in E; [|by apply to_uri_utf8].
  intros [= <-]. destruct (bool_decide _);
    (split; simpl; [apply map_Forall_empty | apply Forall_singleton; by split]).
Qed.

(** ** Properties *)

(** C12: the start-up policy admits exactly this workload: for a valid identity
    free of wildcards, without the escape hatch, traffic from one identity to
    another is allowed if and only if both are the workload's own; with the
    escape hatch everything is allowed. *)
Theorem startup_policy_exact e id engine src dst :
  utf8_id id -> valid_id id -> star_free (namespace id) -> star_free (service_account id) ->
  startup_policy e id = Some engine -> utf8_id src -> utf8_id dst ->
  Engine.evaluate engine src dst = Some Allow <->
  (src = id /\ dst = id) \/ e !! bs "INTERLINK_ALLOW_ALL" = Some (bs "true").
Proof.
  intros Hu Hv Fn Fs He Us Ud. rewrite <- (startup_verdict e id engine src dst Hu Hv Fn Fs He).
  rewrite (evaluate_verdict _ _ _ (started_engine _ _ _ Hu He) Us Ud). split; intros H; [by apply (inj Some) in H | by rewrite H].
Qed.

Lemma startup_policy_exact_witness :
  exists engine, startup_policy ∅ Demo.id = Some engine
    /\ Engine.evaluate engine Demo.id Demo.id = Some Allow.
Proof.
  eexists. split; [vm_compute; reflexivity |].
  apply (startup_policy_exact ∅ Demo.id _ Demo.id Demo.id Demo.id_utf8);
    [by repeat split | by repeat constructor | by repeat constructor | vm_compute; reflexivity
    | apply Demo.id_utf8 | apply Demo.id_utf8 | left; split; reflexivity].
Defined.

Section Wiring.
Context (path_display : str -> str) (io_display : IoError -> str).
Context (pem_certs : str -> result (list str) IoError).
Context (pem_private_key : str -> result (option PrivateKeyDer) IoError).
Context (server_name_try_from : str -> result str str).
Context (parse_x509 : str -> result (list X509Extension) str).
Context (root_add : str -> result unit TlsError).
Context (client_auth_cert : list str -> PrivateKeyDer -> result unit TlsError).
Context (single_cert : list str -> PrivateKeyDer -> result unit TlsError).
Context (client_verifier : list str -> result unit str).
Context (parsed_certificate : str -> result unit TlsError).
Context (signed_by_trust_anchor : list str -> str -> list str -> N -> result unit TlsError).
Context (serde_json_from_str : str -> result Config str).
Context (path_exists : str -> bool) (read_to_string : str -> result str str).
Context (discovery_new : result Discovery str).

(** [main] with the libraries of this section. *)
Definition start_daemon : env -> env -> World -> eval (result Daemon MainError) :=
  (main path_display io_display pem_certs pem_private_key server_name_try_from parse_x509 root_add
     client_auth_cert single_cert client_verifier parsed_certificate signed_by_trust_anchor
     serde_json_from_str path_exists read_to_string discovery_new).

Abbreviation good := (good_generation parse_x509 client_auth_cert single_cert signed_by_trust_anchor).

Lemma started_daemon e os_env w d :
  start_daemon e os_env w = Some (Ok d) ->
  let id := expected_identity (tls d) in
  good id (Outbound.mux_enabled (outbound d)) (generation (tls d))
  /\ Inbound.local_id (inbound d) = id /\ Outbound.local_id (outbound d) = id
  /\ tls_server (inbound d) = tls d /\ tls_client (outbound d) = tls d
  /\ reload_handler (admin d) = Some (tls d)
  /\ startup_policy e id = Some (Inbound.policy (inbound d))
  /\ Outbound.policy (outbound d) = Inbound.policy (inbound d)
  /\ Reload.mux_enabled (tls d) = Outbound.mux_enabled (outbound d)
  /\ (permits (Inbound.slots (inbound d)) <= MAX_PERMITS)%N
  /\ Outbound.slots (outbound d) = Inbound.slots (inbound d).
Proof.
  unfold start_daemon, main. intros H. apply erbind_ok in H as (cfg & _ & H).
  destruct (Cfg.local_identity _ _) as [id|] eqn:Ei; [|done]. simpl in H.
  apply erbind_ok in H as (r & Hr & H).
  destruct (startup_policy e id) as [engine|] eqn:Ep; [|done]. run_bind. simpl in H.
  destruct discovery_new as [disc|]; simpl in H; [|done].
  unfold Inbound.new_with_discovery, Outbound.new_with_discovery, slots_new in H. simpl in H.
  rewrite Ei in H. simpl in H.
  destruct (N.ltb_spec MAX_PERMITS (max_connections cfg)); [done |]. simpl in H. injection H as <-. simpl.
  unfold boxed in Hr. destruct (load _ _ _ _ _ _ _ _ _ _ _ _ _ _ _ _) as [[x|]|] eqn:El; simplify_eq.
  injection Hr as ->. unfold load in El. apply erbind_ok in El as (gen & Hg & Hx).
  injection Hx as <-. simpl. unfold load_generation in Hg.
  destruct (join_error w); [done |]. apply build_generation_good in Hg. done.
Qed.

(** The generations of credentials the daemon has served: those its handshakes
    can have loaded, while admin requests reload its files. *)
Definition served_generation (d : Daemon) (gen : TlsGeneration) : Prop :=
  served_by path_display io_display pem_certs pem_private_key server_name_try_from parse_x509 root_add
    client_auth_cert single_cert client_verifier parsed_certificate signed_by_trust_anchor (tls d) gen.

Lemma served_good e os_env w d gen :
  start_daemon e os_env w = Some (Ok d) -> served_generation d gen ->
  good (expected_identity (tls d)) (Outbound.mux_enabled (outbound d)) gen.
Proof.
  intros Hd (r & Hs & <-)%served_reloaded. apply started_daemon in Hd as (Hg & _ & _ & _ & _ & _ & _ & _ & Hm & _).
  rewrite <- Hm in *.
  assert (Hinv : good (expected_identity (tls d)) (Reload.mux_enabled (tls d)) (generation r)
    /\ expected_identity r = expected_identity (tls d) /\ Reload.mux_enabled r = Reload.mux_enabled (tls d));
    [|apply Hinv].
  eapply (steps_invariant _ (fun s => good (expected_identity (tls d)) (Reload.mux_enabled (tls d)) (generation s)
    /\ expected_identity s = expected_identity (tls d) /\ Reload.mux_enabled s = Reload.mux_enabled (tls d)));
    [done | | exact Hs].
  intros a b Hinv Hst. revert Hinv. destruct Hst as [w' s x s' Hr]. intros (Hga & Hi & Hmx).
  eapply reload_good in Hr as (Hi' & Hm' & _ & Hg' & _); [|by rewrite Hi, Hmx].
  by rewrite Hi', Hm', Hi, Hmx in *.
Qed.

(** What the TLS library promises.  A client session is completed only when the
    configured verifier accepts the chain the server presented, and with an
    application protocol that was offered; a server session only when the
    client's chain was verified against the configured roots. *)
Context (client_chain_verified : list str -> str -> list str -> N -> result unit TlsError).

Definition connected_session (d : Daemon) (s : Session) : Prop :=
  exists gen, served_generation d gen
    /\ verified_session parse_x509 parsed_certificate signed_by_trust_anchor (connector (gen_client gen)) s
    /\ forall a, negotiated_alpn s = Some a -> a ∈ cc_alpn (connector (gen_client gen)).

Definition served_session (d : Daemon) (s : Session) : Prop :=
  exists gen leaf ims now, served_generation d gen /\ peer_certificates s = Some (leaf :: ims)
    /\ client_chain_verified (sc_roots (Handshake.acceptor (gen_server gen))) leaf ims now = Ok tt.

(** The upstream has a certificate of its identity that chains to roots the
    daemon has loaded, and is of the daemon's trust domain. *)
Definition trusted_upstream (d : Daemon) (peer : SpiffeId) : Prop :=
  trust_domain peer = trust_domain (Outbound.local_id (outbound d))
  /\ exists gen leaf ims now, served_generation d gen
       /\ signed_by_trust_anchor (cc_roots (connector (gen_client gen))) leaf ims now = Ok tt
       /\ spiffe_id_from_cert_der parse_x509 leaf = Some (Ok peer).

(** The client of the session presented a certificate of its identity, which the
    library verified. *)
Definition trusted_client (d : Daemon) (s : Session) (peer : SpiffeId) : Prop :=
  exists gen leaf ims now, served_generation d gen /\ peer_certificates s = Some (leaf :: ims)
    /\ client_chain_verified (sc_roots (Handshake.acceptor (gen_server gen))) leaf ims now = Ok tt
    /\ spiffe_id_from_cert_der parse_x509 leaf = Some (Ok peer).

Lemma connected_upstream e os_env w d s :
  parser_utf8 parse_x509 -> start_daemon e os_env w = Some (Ok d) ->
  authentic parse_x509 s -> connected_session d (inner s) -> trusted_upstream d (peer_identity s).
Proof.
  intros Hp Hd Ha (gen & Hg & Hv & _). pose proof (served_good _ _ _ _ _ Hd Hg) as Hgood.
  apply started_daemon in Hd as (_ & _ & Hlo & _).
  destruct (verified_peer _ _ _ _ _ Hp Ha Hv) as (Htd & leaf & ims & now & _ & Hs & Hid).
  split; [|by exists gen, leaf, ims, now]. rewrite Htd, Hlo. apply (good_domain _ _ _ _ _ _ _ Hgood).
Qed.

Lemma served_client d s :
  authentic parse_x509 s -> served_session d (inner s) ->
  trusted_client d (inner s) (peer_identity s).
Proof.
  intros (leaf & rest & Hl & Hid & _) (gen & leaf' & ims & now & Hg & Hl' & Hv).
  assert (leaf' = leaf) as -> by congruence. by exists gen, leaf, ims, now.
Qed.

(** What the world does to a running daemon: the sessions of the connections it
    is offered are as the library promises. *)
Record daemon_runs (d : Daemon) (ins : InTurns) (outs : OutTurns) (cfg : Machine (E := Event)) : Prop := {
  runs_served : forall dst c s, offers ins (dst, c) -> in_attempt c = HandshakeDone s -> served_session d s;
  runs_connected : forall dst c addr s, offers outs (dst, c) -> out_attempt c addr = HandshakeDone s ->
    connected_session d s;
  runs_reached : @reachable _ (Reloader_handshake parse_x509) _ (Reloader_handshake parse_x509)
    (inbound d) (outbound d) ins outs cfg;
}.

Lemma daemon_deployed e os_env w d ins outs cfg :
  parser_utf8 parse_x509 -> start_daemon e os_env w = Some (Ok d) ->
  utf8_id (expected_identity (tls d)) -> daemon_runs d ins outs cfg ->
  deployed (inbound d) (outbound d) (served_session d) (connected_session d) ins outs.
Proof.
  intros Hp Hd Hu [Hs Hc _].
  pose proof (started_daemon _ _ _ _ Hd) as (_ & Hli & Hlo & _ & _ & _ & Hpol & Hsame & _ & Hmax & Hsl).
  pose proof (started_engine _ _ _ Hu Hpol) as Hw.
  split; rewrite ?Hli, ?Hlo, ?Hsame, ?Hsl; try done.
  intros s (gen & Hg & _ & Ha) Hoff Hmux. pose proof (served_good _ _ _ _ _ Hd Hg) as Hgood.
  destruct (good_alpn _ _ _ _ _ _ _ Hgood) as [_ Hal]. rewrite Hoff in Hal. apply Ha in Hmux. rewrite Hal in Hmux.
  by apply mux_alpn in Hmux.
Qed.

(** A daemon that starts is wired around one identity: the credentials it
    serves were verified to carry the very identity both proxies authorize
    with, both proxies and the admin server share one reloader, the policy is
    the start-up policy of that identity, and the multiplexing protocol is
    offered exactly when the outbound proxy uses it. *)
Theorem daemon_wired e os_env w d :
  start_daemon e os_env w = Some (Ok d) ->
  let id := expected_identity (tls d) in
  good id (Outbound.mux_enabled (outbound d)) (generation (tls d))
  /\ Inbound.local_id (inbound d) = id /\ Outbound.local_id (outbound d) = id
  /\ tls_server (inbound d) = tls d /\ tls_client (outbound d) = tls d
  /\ reload_handler (admin d) = Some (tls d)
  /\ startup_policy e id = Some (Inbound.policy (inbound d))
  /\ Outbound.policy (outbound d) = Inbound.policy (inbound d).
Proof. intros Hd. pose proof (started_daemon _ _ _ _ Hd) as H. naive_solver. Qed.

(** C4: a running daemon relays outbound only to trusted peers: the path a
    connection is relayed over ends at a peer of the daemon's own trust domain,
    whose certificate chains to the roots of credentials the daemon has served,
    and whom the start-up policy lets this workload reach.  Tunnels opened
    earlier, connections handled at the same time and credentials reloaded
    meanwhile are included. *)
Theorem outbound_peers_trusted e os_env w d ins outs cfg m tr c u acts route :
  parser_utf8 parse_x509 -> start_daemon e os_env w = Some (Ok d) ->
  utf8_id (expected_identity (tls d)) -> daemon_runs d ins outs cfg ->
  (m, tr) ∈ threads cfg -> said tr = HandleOutbound c u :: acts -> RelayOver route ∈ acts ->
  exists peer, trusted_upstream d peer
    /\ verdict (Outbound.policy (outbound d)) (Outbound.local_id (outbound d)) peer = Allow
    /\ match route with
       | MuxStream t => tunnel_peer t = peer
       | Legacy s => exists x, inner x = s /\ authentic parse_x509 x /\ peer_identity x = peer
       | Denied | Failed => False
       end.
Proof.
  intros Hp Hd Hu Hruns Hin Hsd Hrel.
  pose proof (daemon_deployed _ _ _ _ _ _ _ Hp Hd Hu Hruns) as Hdep.
  destruct (@outbound_relays parse_x509 _ _ (Reloader_authentic parse_x509 Hp) _ _
    (Reloader_authentic parse_x509 Hp) _ _ _ _ _ _ _ _ _ Hdep (runs_reached _ _ _ _ Hruns) Hin
    _ _ _ _ Hsd Hrel) as (r & addr & _ & [= <-] & Ho & _ & Hal).
  destruct route as [t|s| |]; [| |done..].
  - destruct Hal as [(x & Hx & Hvx & Hid & _) [_ Hal]]. exists (tunnel_peer t).
    rewrite <- Hid in *. split; [by eapply connected_upstream |]. done.
  - destruct Hal as (x & _ & <- & Hx & Hvx & _ & Hal). exists (peer_identity x).
    split; [by eapply connected_upstream |]. split; [done |]. by exists x.
Qed.

(** C3: a running daemon lets in only trusted peers: when bytes of a connection reach
    the local workload, or a tunnel is served on it, the session of that very
    connection was completed, the chain that its client presented there was
    verified against the roots of credentials the daemon has served, the peer is
    the identity of the leaf of that chain, and the policy allows it; a stream is
    relayed only for the peer of such a connection, to the upstream of that
    connection.  Without the escape hatch the peer's identity is the daemon's
    own, if that is free of wildcards. *)
Theorem inbound_peers_trusted e os_env w d ins outs cfg m tr :
  parser_utf8 parse_x509 -> start_daemon e os_env w = Some (Ok d) ->
  let id := expected_identity (tls d) in
  utf8_id id -> daemon_runs d ins outs cfg -> (m, tr) ∈ threads cfg ->
  let let_in s peer := trusted_client d s peer
    /\ verdict (Inbound.policy (inbound d)) peer id = Allow
    /\ (valid_id id -> star_free (namespace id) -> star_free (service_account id) ->
        e !! bs "INTERLINK_ALLOW_ALL" <> Some (bs "true") -> peer = id) in
  match said tr with
  | HandleInbound c u :: acts => forall a, a ∈ acts -> peer_reaches a = true ->
      exists s peer, in_attempt c = HandshakeDone s /\ let_in s peer
        /\ forall addr p, a = ServeTunnel addr p -> p = peer
  | RelayStream addr peer o :: acts =>
      exists c u s, accepts_inbound (inbound d) ins c u
        /\ Inbound.resolve_upstream (inbound d) (in_resolved_at c) u = Ok addr
        /\ in_attempt c = HandshakeDone s /\ let_in s peer
  | _ => True
  end.
Proof.
  intros Hp Hd id Hu Hruns Hin let_in.
  pose proof (daemon_deployed _ _ _ _ _ _ _ Hp Hd Hu Hruns) as Hdep.
  pose proof (started_daemon _ _ _ _ Hd) as (_ & Hli & _ & _ & _ & _ & Hpol & _).
  assert (Hlet : forall s, authentic parse_x509 s -> served_session d (inner s) ->
    verdict (Inbound.policy (inbound d)) (peer_identity s) (Inbound.local_id (inbound d)) = Allow ->
    let_in (inner s) (peer_identity s)).
  { intros s Ha Hs Hv. rewrite Hli in Hv. split; [by apply served_client |]. split; [done |]. intros Hval Hns Hsa Hno.
    apply (startup_verdict e id _ _ _ Hu Hval Hns Hsa Hpol) in Hv as [[? _]|?]; [done | by destruct Hno]. }
  pose proof (@inbound_reaches parse_x509 _ _ (Reloader_authentic parse_x509 Hp) _ _
    (Reloader_authentic parse_x509 Hp) _ _ _ _ _ _ _ _ _ Hdep (runs_reached _ _ _ _ Hruns) Hin) as Hr.
  destruct (said tr) as [|[] acts]; try done.
  - intros a Ha Hpr. destruct (Hr a Ha Hpr) as (s & Hc & Hs & Hau & Hv & Hserve). exists (inner s), (peer_identity s). auto.
  - destruct Hr as (c & u & s & ? & ? & ? & Hs & Hau & <- & Hv). exists c, u, (inner s). auto.
Qed.

(** A host name as the configured upstream is unusable on the inbound side:
    the daemon gives the inbound proxy its resolver only when no upstream is
    configured, so every inbound connection to a configured host name fails to
    resolve, dials nothing, and counts as an error. *)
Theorem hostname_upstream_unreachable e os_env w d name port :
  start_daemon e os_env w = Some (Ok d) ->
  Inbound.default_upstream (inbound d) = Some (Host name port) ->
  forall original c tr p, Inbound.choose_upstream (inbound d) original = Some (Host name port)
    /\ exists tr' p', exec (@Inbound.handle_connection _ (Reloader_handshake parse_x509) (inbound d) c
                    (Host name port)) tr p = Some (tt, tr', p')
       /\ said tr' = said tr /\ spent tr' = add_charge (spent tr) (MkCharge 1 1 0 0).
Proof.
  unfold start_daemon, main. intros H Hd original c tr p. apply erbind_ok in H as (cfg & _ & H).
  destruct (Cfg.local_identity _ _) as [id|] eqn:Ei; [|done]. simpl in H.
  apply erbind_ok in H as (r & _ & H).
  destruct (startup_policy e id) as [engine|]; [|done]. simpl in H.
  destruct discovery_new as [disc|]; simpl in H; [|done].
  unfold Inbound.new_with_discovery, Outbound.new_with_discovery, slots_new in H. simpl in H.
  rewrite Ei in H. simpl in H. destruct (MAX_PERMITS <? max_connections cfg)%N; [done |]. simpl in H.
  injection H as <-.
  split; [unfold Inbound.choose_upstream; by rewrite Hd |].
  simpl in Hd. destruct (cfg_default_upstream cfg) as [v|]; [|done].
  do 2 eexists. split; [reflexivity |]. split; [done |]. apply charge_eq; simpl; lia.
Qed.
End Wiring.

(** A start on concrete files: every file holds one DER certificate or key, and
    the libraries accept everything. *)
Module DaemonDemo.
Definition environment : env := {[ bs "INTERLINK_IDENTITY" := bs "spiffe://td/ns/prod/sa/web" ]}.
Definition world : World := MkWorld (fun _ _ => Ok (bs "der")) 0 None.
Definition boot (e : env) : eval (result Daemon MainError) :=
  main id (fun _ => []) (fun _ => Ok []) (fun _ => Ok None) Ok Demo.parse (fun _ => Ok tt)
    (fun _ _ => Ok tt) (fun _ _ => Ok tt) (fun _ => Ok tt) (fun _ => Ok tt) (fun _ _ _ _ => Ok tt)
    (fun _ => Err []) (fun _ => false) (fun _ => Err []) (Ok (fun _ _ => Err (DnsResolution [])))
    e ∅ world.

Lemma daemon_wired_witness :
  exists d, boot environment = Some (Ok d) /\ Inbound.local_id (inbound d) = expected_identity (tls d).
Proof.
  destruct (boot environment) as [[d|]|] eqn:E; [|vm_compute in E; discriminate..].
  exists d. split; [reflexivity |]. eapply daemon_wired. exact E.
Defined.

(** One connection of each kind, on which the peer of the example presents its
    certificate. *)
Definition ins : InTurns := [[([], Accept (Some (any_ipv4 80), InboundDemo.conn None))]].
Definition outs : OutTurns := [[([], Accept (Some OutboundDemo.target, OutboundDemo.conn None))]].
Definition run (d : Daemon) : Machine (E := Event) :=
  drive 100 (@start_process _ _ (Reloader_handshake Demo.parse) (Reloader_handshake Demo.parse)
               (inbound d) (outbound d) ins outs).
Definition task (cfg : Machine) (i : nat) : Prog Event unit * Trail Event :=
  default (Ret tt, trail_new DropClient) (threads cfg !! i).

(** What the run of a daemon looks like from outside. *)
Definition visible (d : Daemon) : (N * list (list Event)) :=
  (tunnel_ids (proc (run d)), map (fun t => said t.2) (threads (run d))).

Definition seen : list (list Event) :=
  [[Accepting InboundSide]; [Accepting OutboundSide];
   [HandleInbound (InboundDemo.conn None) (Socket (any_ipv4 80)); ConnectUpstream (any_ipv4 80);
    WriteUpstream (bs "GET / HTTP/1.1"); Relay];
   [HandleOutbound (OutboundDemo.conn None) (Socket OutboundDemo.target); RelayOver (Legacy (Demo.session None))]].

Lemma boot_visible :
  match boot environment with Some (Ok d) => visible d = (0%N, seen) | _ => False end.
Proof. vm_compute. reflexivity. Qed.

Lemma said_task (cfg : Machine (E := Event)) (logs : list (list Event)) i l :
  map (fun t => said t.2) (threads cfg) = logs -> logs !! i = Some l ->
  exists m tr, (m, tr) ∈ threads cfg /\ said tr = l.
Proof.
  intros <- Hl. rewrite list_lookup_fmap in Hl. destruct (threads cfg !! i) as [[m tr]|] eqn:E; [|done].
  injection Hl as <-. exists m, tr. split; [by eapply list_elem_of_lookup_2 | done].
Qed.

Lemma seen_task d i l : visible d = (0%N, seen) -> seen !! i = Some l ->
  exists m tr, (m, tr) ∈ threads (run d) /\ said tr = l.
Proof. intros [= _ Hs]. by apply said_task. Qed.

Lemma boot_runs d :
  boot environment = Some (Ok d) ->
  expected_identity (tls d) = Demo.id
  /\ daemon_runs id (fun _ => []) (fun _ => Ok []) (fun _ => Ok None) Ok Demo.parse (fun _ => Ok tt)
    (fun _ _ => Ok tt) (fun _ _ => Ok tt) (fun _ => Ok tt) (fun _ => Ok tt) (fun _ _ _ _ => Ok tt)
    (fun _ _ _ _ => Ok tt) d ins outs (run d).
Proof.
  intros Hd. pose proof boot_visible as Hv. rewrite Hd in Hv. split.
  { vm_compute in Hd. by injection Hd as <-. }
  split.
  - intros dst c s (turns & a & Ht & Hin) Hc. apply list_elem_of_singleton in Ht as ->.
    apply list_elem_of_singleton in Hin. injection Hin as _ _ ->. injection Hc as <-.
    exists (generation (tls d)), (bs "leaf"), [bs "ca"], 0%N. split; [apply served_first |]. done.
  - intros dst c addr s (turns & a & Ht & Hin) Hc. apply list_elem_of_singleton in Ht as ->.
    apply list_elem_of_singleton in Hin. injection Hin as _ _ ->. injection Hc as <-.
    exists (generation (tls d)). split; [apply served_first |]. split; [|done].
    exists (bs "leaf"), [bs "ca"], [], [], 0%N. split; [reflexivity |].
    clear Hv. vm_compute in Hd. injection Hd as <-. vm_compute. reflexivity.
  - split; [apply drive_steps |]. injection Hv as Hid _. unfold run in *. rewrite Hid. done.
Qed.

Lemma outbound_peers_trusted_witness :
  exists d peer, boot environment = Some (Ok d)
    /\ verdict (Outbound.policy (outbound d)) (Outbound.local_id (outbound d)) peer = Allow.
Proof.
  pose proof boot_visible as Hv. destruct (boot environment) as [[d|]|] eqn:E; [|destruct Hv..].
  destruct (boot_runs d E) as [Hid Hruns].
  destruct (seen_task d 3 _ Hv eq_refl) as (m & tr & Hin & Hsaid).
  destruct (outbound_peers_trusted _ _ _ _ _ Demo.parse _ _ _ _ _ _ _ _ _ _
    (fun _ _ _ _ => Ok tt) environment ∅ world d ins outs
    (run d) m tr (OutboundDemo.conn None) (Socket OutboundDemo.target)
    [RelayOver (Legacy (Demo.session None))] (Legacy (Demo.session None)) Demo.parse_utf8 E) as (peer & _ & Hal & _);
    [rewrite Hid; apply Demo.id_utf8 | exact Hruns | exact Hin | exact Hsaid | left |].
  exists d, peer. split; [reflexivity | exact Hal].
Defined.

Lemma inbound_peers_trusted_witness :
  exists d s peer, boot environment = Some (Ok d) /\ in_attempt (InboundDemo.conn None) = HandshakeDone s
    /\ (exists leaf ims, peer_certificates s = Some (leaf :: ims)
        /\ spiffe_id_from_cert_der Demo.parse leaf = Some (Ok peer))
    /\ peer = expected_identity (tls d).
Proof.
  pose proof boot_visible as Hv. destruct (boot environment) as [[d|]|] eqn:E; [|destruct Hv..].
  destruct (boot_runs d E) as [Hid Hruns].
  destruct (seen_task d 2 _ Hv eq_refl) as (m & tr & Hin & Hsaid).
  pose proof (inbound_peers_trusted _ _ _ _ _ Demo.parse _ _ _ _ _ _ _ _ _ _
    (fun _ _ _ _ => Ok tt) environment ∅ world d ins outs
    (run d) m tr Demo.parse_utf8 E) as H. cbv zeta in H.
  rewrite Hid in H. specialize (H Demo.id_utf8 Hruns Hin). rewrite Hsaid in H.
  destruct (H Relay ltac:(right; right; left) eq_refl)
    as (s & peer & Hs & ((gen & leaf & ims & now & _ & Hl & _ & Hi) & _ & Hpeer) & _).
  exists d, s, peer. split; [reflexivity |]. split; [exact Hs |]. split; [exists leaf, ims; split; assumption |].
  rewrite Hid. apply Hpeer.
  - by repeat split.
  - by repeat constructor.
  - by repeat constructor.
  - vm_compute. discriminate.
Defined.

Definition with_host : env :=
  <[ bs "INTERLINK_DEFAULT_UPSTREAM" := bs "app:8080" ]> environment.
Definition booted : option Daemon :=
  match boot with_host with Some (Ok d) => Some d | _ => None end.

Lemma hostname_upstream_unreachable_witness :
  exists d, boot with_host = Some (Ok d)
    /\ Inbound.choose_upstream (inbound d) None = Some (Host (bs "app") (Some 8080%N)).
Proof.
  destruct (boot with_host) as [[d|]|] eqn:E; [|vm_compute in E; discriminate..].
  exists d. split; [reflexivity |].
  eapply (hostname_upstream_unreachable _ _ _ _ _ _ _ _ _ _ _ _ _ _ _ _ with_host ∅ world d
    (bs "app") (Some 8080%N)); [exact E | vm_compute in E; injection E as <-; reflexivity | | |].
  - exact (InboundDemo.conn None).
  - exact (trail_new (Accepting InboundSide)).
  - exact (proc_new 1 1).
Defined.
End DaemonDemo.

(** The identity of the environment survives the layering of the
    configuration, and a configuration that loads has a valid one. *)
Lemma with_env_identity c e uri c' :
  e !! bs "INTERLINK_IDENTITY" = Some uri -> Cfg.with_env c e = Ok c' -> cfg_identity c' = Some uri.
Proof.
  intros He. unfold Cfg.with_env. rewrite He. unfold rbind.
  do 4 (match goal with |- context [match ?x with Ok _ => _ | Err _ => _ end] => destruct x; [|done] end).
  by intros [= <-].
Qed.

Lemma load_identity serde exists_ read e uri :
  e !! bs "INTERLINK_IDENTITY" = Some uri -> utf8 uri ->
  exists r, Cfg.load serde exists_ read e = Some r /\
    forall cfg, r = Ok cfg -> cfg_identity cfg = Some uri /\ exists id, Id.from_uri uri = Some (Ok id).
Proof.
  intros He Hu. unfold Cfg.load. cbv zeta.
  destruct (if exists_ (Cfg.config_file e) then _ else _) as [c0|]; cbn [erbind]; [|err_branch].
  destruct (Cfg.with_env c0 e) as [c1|] eqn:Ew; cbn [erbind]; [|err_branch].
  pose proof (with_env_identity _ _ _ _ He Ew) as Hid.
  destruct (validate_total c1) as [v Hv]; [by rewrite Hid |]. rewrite Hv.
  destruct v as [[]|]; cbn [erbind]; [|err_branch]. eexists. split; [done |]. intros cfg [= <-].
  split; [done |]. apply validate_ok in Hv as (_ & _ & Hi). by rewrite Hid in Hi.
Qed.

(** C38: start-up never panics when the environment configures the identity and the
    connection limit of the configuration that loads is one the semaphores accept
    (validation does not check it, [unchecked_limit_panics]; without an identity see
    [unchecked_trust_domain_panics]): whatever the configuration file, the other
    variables and the credential files hold, [main] returns a daemon or an error. *)
Theorem startup_no_panic path_display io_display pem_certs pem_private_key server_name_try_from
    parse_x509 root_add client_auth_cert single_cert client_verifier parsed_certificate
    signed_by_trust_anchor serde_json_from_str path_exists read_to_string discovery_new e os_env w uri :
  parser_utf8 parse_x509 -> e !! bs "INTERLINK_IDENTITY" = Some uri -> utf8 uri ->
  (forall cfg, Cfg.load serde_json_from_str path_exists read_to_string e = Some (Ok cfg) ->
     (max_connections cfg <= MAX_PERMITS)%N) ->
  is_Some (main path_display io_display pem_certs pem_private_key server_name_try_from parse_x509
    root_add client_auth_cert single_cert client_verifier parsed_certificate signed_by_trust_anchor
    serde_json_from_str path_exists read_to_string discovery_new e os_env w).
Proof.
  intros Hp He Hu Hmax. unfold main.
  destruct (load_identity serde_json_from_str path_exists read_to_string e uri He Hu) as (r & Hload & Hr).
  rewrite Hload in *. destruct r as [cfg|err]; cbn [boxed map_err erbind]; [|by eexists].
  specialize (Hmax cfg eq_refl).
  destruct (Hr cfg eq_refl) as (Hid & id & Hf). destruct (from_uri_valid uri id Hu Hf) as [Hv Hu'].
  assert (Hl : Cfg.local_identity (cfg_identity cfg) (cfg_trust_domain cfg) = Some id).
  { unfold Cfg.local_identity. rewrite Hid, Hf. done. }
  rewrite Hl. run_bind. cbv zeta. apply erbind_total.
  { unfold load, load_generation. destruct (join_error w); [by eexists |].
    edestruct build_generation_total as [[gen|er] Hg]; [exact Hp | rewrite Hg..]; by eexists. }
  intros tls. destruct (startup_policy_total e id Hu' Hv) as (cp & _ & _ & ->). run_bind.
  destruct discovery_new as [disc|]; cbn [map_err]; [|by eexists].
  assert (Hslots : slots_new (max_connections cfg) = Some (MkSlots (max_connections cfg) 0)).
  { unfold slots_new. by rewrite (proj2 (N.ltb_ge _ _) Hmax). }
  unfold Inbound.new_with_discovery, Outbound.new_with_discovery.
  cbn [pc_identity pc_trust_domain pc_max_connections Cfg.to_proxy_config].
  replace (default 1024%N (Some (max_connections cfg))) with (max_connections cfg) by done.
  rewrite Hl. cbn [mbind option_bind]. rewrite Hslots. by eexists.
Qed.

Lemma startup_no_panic_witness : is_Some (DaemonDemo.boot DaemonDemo.environment).
Proof.
  apply (startup_no_panic _ _ _ _ _ Demo.parse _ _ _ _ _ _ _ _ _ _ DaemonDemo.environment ∅
    DaemonDemo.world (bs "spiffe://td/ns/prod/sa/web") Demo.parse_utf8);
    [vm_compute; reflexivity | by apply utf8_ascii |].
  intros cfg Hc. vm_compute in Hc. injection Hc as <-. vm_compute. discriminate.
Defined.

(** The connection limit is not checked against what the semaphores accept: a
    limit that validation lets pass aborts the construction of both proxies. *)
Theorem unchecked_limit_panics :
  exists cfg, Cfg.validate cfg = Some (Ok tt) /\ (max_connections cfg <= usize_max)%N /\
    forall (T : Type) (tls : T) engine disc port,
      Inbound.new_with_discovery (Cfg.to_proxy_config cfg) port tls engine disc = None
      /\ Outbound.new_with_discovery (Cfg.to_proxy_config cfg) port tls engine disc = None.
Proof.
  exists (MkConfig (bs "td") None 4143 4140 4190 (bs "info") usize_max None None None None true).
  split; [by vm_compute |]. split; [done |]. intros T tls engine disc port.
  unfold Inbound.new_with_discovery, Outbound.new_with_discovery.
  cbn [pc_identity pc_trust_domain pc_max_connections Cfg.to_proxy_config default
       cfg_identity cfg_trust_domain max_connections].
  destruct (Cfg.local_identity _ _); by vm_compute.
Qed.

(** Without a configured identity, a trust domain that validation accepts
    can abort start-up: the identity derived from it has no valid URI, and the
    start-up policy panics on it. *)
Theorem unchecked_trust_domain_panics :
  exists cfg, Cfg.validate cfg = Some (Ok tt) /\ cfg_identity cfg = None /\
    exists id, Cfg.local_identity None (cfg_trust_domain cfg) = Some id /\
      forall e, startup_policy e id = None.
Proof.
  exists (MkConfig (bs "a:b") None 4143 4140 4190 (bs "info") 1024 None None None None true).
  split; [by vm_compute |]. split; [done |].
  exists (MkSpiffeId (bs "a:b") (bs "default") (bs "proxy")). split; [by vm_compute |].
  intros e. unfold startup_policy, patterns.allow, patterns.compile.
  replace (Pattern.from_uri _) with
    (Pattern.from_uri (bs "spiffe://a:b/ns/default/sa/proxy")) by (by vm_compute).
  destruct (Pattern.from_uri (bs "spiffe://a:b/ns/default/sa/proxy")) as [[]|] eqn:E;
    vm_compute in E; try discriminate; done.
Qed.

(** A wildcard in the configured identity widens the start-up policy: the
    identity URI is also the pattern of the policy, so a workload configured
    with a [*] in its service account lets other service accounts of its
    namespace in. *)
Theorem wildcard_identity_widens :
  exists id engine, Id.from_uri (bs "spiffe://td/ns/prod/sa/*") = Some (Ok id)
    /\ startup_policy ∅ id = Some engine
    /\ Engine.evaluate engine (MkSpiffeId (bs "td") (bs "prod") (bs "web"))
         (MkSpiffeId (bs "td") (bs "prod") (bs "db")) = Some Allow.
Proof. do 2 eexists. split; [by vm_compute |]. split; by vm_compute. Qed.
