(* ===== verification/Mesh.v ===== *)
(** * Two daemons: one connection through the mesh

    The outbound proxy of one daemon and the inbound proxy of another are the two
    ends of a TLS session.  Each end decides on its own, from its own policy and
    from what the TLS library reports of the session; here are both ends of the
    same session side by side, with their credentials reloaded at any time. *)

From S2P Require Import Prelude Bytes Common Glob Identity Policy Net Metrics ProxyBase ConfigLoad.
From S2P Require Import Provider Reload Rotation Admin Dns Tunnels Process Holdings Tasks Handshake Events Mux.
From S2P Require Import Listener Inbound Outbound System Daemon.

Set Default Proof Using "Type".

(** The protocol a TLS server selects (RFC 7301): the first one of its own list
    that the client has offered. *)
Definition select_alpn (supported offered : list str) : option str :=
  head (filter (fun p => p ∈ offered) supported).

Section Mesh.
Context (path_display : str -> str) (io_display : IoError -> str).
Context (pem_certs : str -> result (list str) IoError).
Context (pem_private_key : str -> result (option PrivateKeyDer) IoError).
Context (server_name_try_from : str -> result str str).
Context (parse_x509 : str -> result (list X509Extension) str).
Context (root_add : str -> result unit TlsError).
Context (client_auth_cert : list str -> PrivateKeyDer -> result unit TlsError).
Context (single_cert : list str -> PrivateKeyDer -> result unit TlsError).
Context (client_verifier : list str -> result unit str).
Context (parsed_certificate : str -> result unit TlsError).
Context (signed_by_trust_anchor : list str -> str -> list str -> N -> result unit TlsError).
Context (client_chain_verified : list str -> str -> list str -> N -> result unit TlsError).

Abbreviation start := (start_daemon path_display io_display pem_certs pem_private_key server_name_try_from
  parse_x509 root_add client_auth_cert single_cert client_verifier parsed_certificate signed_by_trust_anchor).
Abbreviation serves := (served_generation path_display io_display pem_certs pem_private_key server_name_try_from
  parse_x509 root_add client_auth_cert single_cert client_verifier parsed_certificate signed_by_trust_anchor).
Abbreviation runs := (daemon_runs path_display io_display pem_certs pem_private_key server_name_try_from
  parse_x509 root_add client_auth_cert single_cert client_verifier parsed_certificate signed_by_trust_anchor
  client_chain_verified).

(** One session between the client end of [a] and the server end of [b], as each
    end sees it: the library hands each end the chain the other was configured
    with, and both ends the protocol selected. *)
Definition mesh_session (a b : Daemon) (sa sb : Session) : Prop :=
  exists gen_a gen_b chain key, serves a gen_a /\ serves b gen_b
    /\ cc_auth (connector (gen_client gen_a)) = Some (chain, key) /\ peer_certificates sb = Some chain
    /\ peer_certificates sa = Some (sc_certs (Handshake.acceptor (gen_server gen_b)))
    /\ let alpn := select_alpn (sc_alpn (Handshake.acceptor (gen_server gen_b)))
                     (cc_alpn (connector (gen_client gen_a))) in
       negotiated_alpn sa = alpn /\ negotiated_alpn sb = alpn.

(** A daemon that was started, with a configuration of its running process. *)
Record at_work (d : Daemon) (cfg : Machine (E := Event)) : Prop := {
  work_started : exists json exists_ read disc e os_env w, start json exists_ read disc e os_env w = Some (Ok d);
  work_utf8 : utf8_id (expected_identity (tls d));
  work_runs : exists ins outs, runs d ins outs cfg;
}.

Section Ends.
Context (a b : Daemon) (cfg_a cfg_b : Machine (E := Event)).
Hypothesis Hp : parser_utf8 parse_x509.
Hypothesis Ha : at_work a cfg_a.
Hypothesis Hb : at_work b cfg_b.

Lemma work_good d cfg gen : at_work d cfg -> serves d gen ->
  good_generation parse_x509 client_auth_cert single_cert signed_by_trust_anchor (expected_identity (tls d))
    (Outbound.mux_enabled (outbound d)) gen.
Proof. intros [(json & ex & rd & disc & e & os & w & Hd) _ _] Hg. by eapply served_good. Qed.

(** Each end reads the configured identity of the other. *)
Lemma mesh_identities sa sb x :
  mesh_session a b sa sb -> authentic parse_x509 x ->
  (inner x = sa -> peer_identity x = expected_identity (tls b))
  /\ (inner x = sb -> peer_identity x = expected_identity (tls a)).
Proof using Ha Hb.
  intros (gen_a & gen_b & chain & key & Hga & Hgb & Hauth & Hsb & Hsa & _) (leaf & rest & Hl & Hid & _).
  destruct (good_cert _ _ _ _ _ _ _ (work_good _ _ _ Ha Hga)) as (cert & ? & ? & ? & Hc & _ & _ & Hia & _).
  destruct (good_cert _ _ _ _ _ _ _ (work_good _ _ _ Hb Hgb)) as (cert' & ? & ? & ? & _ & Hc' & _ & Hib & _).
  split; intros Hx; rewrite Hx in Hl; [rewrite Hsa, Hc' in Hl | rewrite Hsb in Hl]; 
    simplify_eq; congruence.
Qed.

(** Both ends agree on multiplexing: they use it exactly when both enable it. *)
Lemma mesh_alpn sa sb :
  mesh_session a b sa sb ->
  negotiated_alpn sb = negotiated_alpn sa
  /\ (negotiated_alpn sa = Some ALPN_MUX <->
      Outbound.mux_enabled (outbound a) = true /\ Outbound.mux_enabled (outbound b) = true).
Proof using Ha Hb.
  intros (gen_a & gen_b & chain & key & Hga & Hgb & _ & _ & _ & Hna & Hnb). split; [congruence |].
  destruct (good_alpn _ _ _ _ _ _ _ (work_good _ _ _ Ha Hga)) as [_ Hca].
  destruct (good_alpn _ _ _ _ _ _ _ (work_good _ _ _ Hb Hgb)) as [Hsb Hcb].
  rewrite Hna, Hsb, Hca, Hcb. destruct (Outbound.mux_enabled (outbound a)), (Outbound.mux_enabled (outbound b));
    vm_compute; (split; [intros H; first [discriminate | by split] | intros [? ?]; first [discriminate | reflexivity]]).
Qed.

(** What the running ends rely on. *)
Lemma work_deployed d cfg : at_work d cfg ->
  exists ins outs served connected, deployed (inbound d) (outbound d) served connected ins outs
    /\ @reachable _ (Reloader_handshake parse_x509) _ (Reloader_handshake parse_x509)
         (inbound d) (outbound d) ins outs cfg
    /\ Inbound.local_id (inbound d) = expected_identity (tls d)
    /\ Outbound.local_id (outbound d) = expected_identity (tls d).
Proof using Hp.
  intros [(json & ex & rd & disc & e & os & w & Hd) Hu (ins & outs & Hr)].
  pose proof (started_daemon _ _ _ _ _ _ _ _ _ _ _ _ _ _ _ _ _ _ _ _ Hd) as (_ & Hli & Hlo & _).
  exists ins, outs. do 2 eexists. split; [by eapply daemon_deployed |]. split; [apply (runs_reached _ _ _ _ _ _ _ _ _ _ _ _ _ _ _ _ _ Hr) | done].
Qed.

(** The session that carries the bytes of a route: a session of its own, or the one
    that the driver of the tunnel owns. *)
Definition carries (cfg : Machine (E := Event)) (r : Route) (s : Session) : Prop :=
  match r with
  | Legacy s' => s' = s
  | MuxStream t => exists m tr addr acts, (m, tr) ∈ threads cfg /\ said tr = DriveTunnel addr t s :: acts
  | Denied | Failed => False
  end.

(** The end of [a]: bytes leave over the session only when the policy of [a] lets it
    reach [b]: as they are when no tunnel was negotiated, else on a tunnel to [b]. *)
Lemma client_end sa sb m tr c u acts r :
  mesh_session a b sa sb ->
  (m, tr) ∈ threads cfg_a -> said tr = HandleOutbound c u :: acts -> RelayOver r ∈ acts -> carries cfg_a r sa ->
  verdict (Outbound.policy (outbound a)) (expected_identity (tls a)) (expected_identity (tls b)) = Allow
  /\ match r with
     | MuxStream t => tunnel_peer t = expected_identity (tls b) /\ negotiated_alpn sa = Some ALPN_MUX
     | _ => negotiated_alpn sa <> Some ALPN_MUX
     end.
Proof using Hp Ha Hb.
  intros Hm Hin Hsd Hrel Hcar.
  destruct (work_deployed a cfg_a Ha) as (ins & outs & served & connected & Hdep & Hr & _ & Hlo).
  destruct (@outbound_relays parse_x509 _ _ (Reloader_authentic parse_x509 Hp) _ _
    (Reloader_authentic parse_x509 Hp) _ _ _ _ _ _ _ _ _ Hdep Hr Hin _ _ _ _ Hsd Hrel)
    as (r' & addr & _ & [= <-] & _ & _ & Hall).
  destruct r as [t|s| |]; [| |done..]; simpl in Hcar.
  - destruct Hall as (_ & _ & Hv). destruct Hcar as (md & td & ad & al & Hd & Hsaid).
    destruct (@driver_session parse_x509 _ _ (Reloader_authentic parse_x509 Hp) _ _
      (Reloader_authentic parse_x509 Hp) _ _ _ _ _ _ _ _ _ _ _ _ _ Hdep Hr Hd Hsaid) as (x & Hx & Hau & _ & Hid & Hn & _).
    destruct (mesh_identities sa sb x Hm Hau) as [Hpeer _]. specialize (Hpeer Hx).
    rewrite Hpeer in Hid. rewrite <- Hid, Hlo in Hv. done.
  - destruct Hall as (x & _ & Hx & Hau & _ & Hraw & Hv). subst s.
    destruct (mesh_identities sa sb x Hm Hau) as [Hid _]. rewrite (Hid Hx), Hlo in Hv. done.
Qed.

(** The end of [b]. *)
Lemma server_end sa sb m tr c u acts :
  mesh_session a b sa sb -> in_attempt c = HandshakeDone sb ->
  (m, tr) ∈ threads cfg_b -> said tr = HandleInbound c u :: acts ->
  forall e, e ∈ acts -> peer_reaches e = true ->
  verdict (Inbound.policy (inbound b)) (expected_identity (tls a)) (expected_identity (tls b)) = Allow
  /\ match e with
     | ServeTunnel _ peer => peer = expected_identity (tls a) /\ negotiated_alpn sa = Some ALPN_MUX
     | _ => negotiated_alpn sa <> Some ALPN_MUX
     end.
Proof using Hp Ha Hb.
  intros Hm Hc Hin Hsd e He Hpr. destruct (work_deployed b cfg_b Hb) as (ins & outs & served & connected & Hdep & Hr & Hli & _).
  pose proof (@inbound_reaches parse_x509 _ _ (Reloader_authentic parse_x509 Hp) _ _
    (Reloader_authentic parse_x509 Hp) _ _ _ _ _ _ _ _ _ Hdep Hr Hin) as Hreach.
  rewrite Hsd in Hreach. destruct (Hreach e He Hpr) as (x & Hd & _ & Hau & Hv & Hserve).
  pose proof (@inbound_protocol parse_x509 _ _ (Reloader_authentic parse_x509 Hp) _ _
    (Reloader_authentic parse_x509 Hp) _ _ _ _ _ _ _ _ _ _ _ _ Hdep Hr Hin Hsd e He) as Hproto.
  rewrite Hc in Hd. injection Hd as Hx. destruct (mesh_identities sa sb x Hm Hau) as [_ Hid].
  specialize (Hid (eq_sym Hx)). rewrite Hid, Hli in Hv. split; [done |].
  destruct (mesh_alpn sa sb Hm) as [Hsame _]. rewrite <- Hsame.
  assert (Halpn : in_alpn c = negotiated_alpn sb) by (unfold in_alpn; by rewrite Hc). rewrite <- Halpn.
  destruct e; try done. split; [|done]. by rewrite (Hserve _ _ eq_refl).
Qed.

(** C5: a connection between two running daemons is what both ends take it for,
    across reloads at either end.  Each end authenticates exactly the identity
    the other was configured with.  Bytes leave [a] over the session, as they are
    or as a stream of the tunnel it carries, only if the policy of [a] lets its
    identity reach that of [b]; they reach the workload of [b], or a tunnel there,
    only if the policy of [b] allows the same.  And the ends speak one protocol:
    multiplexing is used exactly when both enable it: then [a] sends only streams
    of a tunnel whose recorded peer is [b], and [b] serves a tunnel of the peer
    [a]; otherwise [a] opens no tunnel and [b] serves none. *)
Theorem mesh_connection sa sb m_a tr_a c u acts_a m_b tr_b c' u' acts_b :
  mesh_session a b sa sb ->
  (m_a, tr_a) ∈ threads cfg_a -> said tr_a = HandleOutbound c u :: acts_a ->
  (m_b, tr_b) ∈ threads cfg_b -> said tr_b = HandleInbound c' u' :: acts_b ->
  in_attempt c' = HandshakeDone sb ->
  let id_a := expected_identity (tls a) in
  let id_b := expected_identity (tls b) in
  let muxed := Outbound.mux_enabled (outbound a) = true /\ Outbound.mux_enabled (outbound b) = true in
  (forall x, authentic parse_x509 x ->
     (inner x = sa -> peer_identity x = id_b) /\ (inner x = sb -> peer_identity x = id_a))
  /\ (forall r, RelayOver r ∈ acts_a -> carries cfg_a r sa ->
        verdict (Outbound.policy (outbound a)) id_a id_b = Allow
        /\ match r with MuxStream t => tunnel_peer t = id_b /\ muxed | _ => ~ muxed end)
  /\ (forall e, e ∈ acts_b -> peer_reaches e = true ->
        verdict (Inbound.policy (inbound b)) id_a id_b = Allow
        /\ match e with ServeTunnel _ peer => peer = id_a /\ muxed | _ => ~ muxed end).
Proof using Hp Ha Hb.
  intros Hm Hia Hsa Hib Hsb Hc id_a id_b muxed. destruct (mesh_alpn sa sb Hm) as [_ Hmux].
  split; [intros x; by apply mesh_identities |]. split.
  - intros r Hrel Hcar. destruct (client_end _ _ _ _ _ _ _ _ Hm Hia Hsa Hrel Hcar) as [Hv Hn]. split; [done |].
    destruct r; try (intros Hboth%Hmux; by destruct Hn). destruct Hn as [? ?%Hmux]. done.
  - intros e He Hpr. destruct (server_end _ _ _ _ _ _ _ Hm Hc Hib Hsb e He Hpr) as [Hv Hproto].
    split; [done |]. destruct e; try (intros Hboth%Hmux; by destruct Hproto).
    destruct Hproto as [-> Hn]. split; [done |]. by apply Hmux.
Qed.
End Ends.
End Mesh.

(** Two replicas of the workload of [DaemonDemo]: one opens a tunnel to the other
    and sends a stream through it. *)
Module MeshDemo.
Import DaemonDemo.

Definition session : Session := MkSession false (Some [bs "der"]) (Some ALPN_MUX).
Definition client : OutboundConn :=
  MkOutConn 0 (fun _ => HandshakeDone session) (fun _ => Opened) (Ok (3%N, 4%N)) 5 9.
Definition server : InboundConn :=
  MkInbound 0 (HandshakeDone session) (Ok tt) (Ok (bs "GET / HTTP/1.1")) (Ok tt) (Ok (14%N, 2%N))
    [NewStream InboundDemo.stream; ConnClosed] 5 9.
Definition mesh_ins : InTurns := [[([], Accept (Some (any_ipv4 80), server))]].
Definition mesh_outs : OutTurns := [[([], Accept (Some OutboundDemo.target, client))]].
Definition mesh_run (d : Daemon) : Machine (E := Event) :=
  drive 100 (@start_process _ _ (Reloader_handshake Demo.parse) (Reloader_handshake Demo.parse)
               (inbound d) (outbound d) mesh_ins mesh_outs).
Definition tunnel : Tunnel := MkTunnel 0 Demo.id OutboundDemo.target.
Definition serving : list Event :=
  [ConnectUpstream (any_ipv4 80); ShutdownUpstream; ServeTunnel (any_ipv4 80) Demo.id].
Definition opening : list Event := [RelayOver (MuxStream tunnel)].

Definition mesh_seen : list (list Event) :=
  [[Accepting InboundSide]; [Accepting OutboundSide];
   HandleInbound server (Socket (any_ipv4 80)) :: serving;
   HandleOutbound client (Socket OutboundDemo.target) :: opening;
   [RelayStream (any_ipv4 80) Demo.id InboundDemo.stream; ConnectUpstream (any_ipv4 80); Relay];
   [DriveTunnel OutboundDemo.target tunnel session]].

Lemma mesh_visible :
  match boot environment with
  | Some (Ok d) =>
      tunnel_ids (proc (mesh_run d)) = 1%N /\ map (fun t => said t.2) (threads (mesh_run d)) = mesh_seen
  | _ => False
  end.
Proof. vm_compute. repeat split. Qed.

Lemma replica_session d :
  boot environment = Some (Ok d) ->
  mesh_session id (fun _ => []) (fun _ => Ok []) (fun _ => Ok None) Ok Demo.parse (fun _ => Ok tt)
    (fun _ _ => Ok tt) (fun _ _ => Ok tt) (fun _ => Ok tt) (fun _ => Ok tt) (fun _ _ _ _ => Ok tt)
    d d session session.
Proof.
  intros Hd. exists (generation (tls d)), (generation (tls d)), [bs "der"], (MkKey Pkcs8 (bs "der")).
  split; [apply served_first |]. split; [apply served_first |].
  vm_compute in Hd. injection Hd as <-. vm_compute. repeat split.
Qed.

Lemma replica_at_work d :
  boot environment = Some (Ok d) ->
  at_work id (fun _ => []) (fun _ => Ok []) (fun _ => Ok None) Ok Demo.parse (fun _ => Ok tt)
    (fun _ _ => Ok tt) (fun _ _ => Ok tt) (fun _ => Ok tt) (fun _ => Ok tt) (fun _ _ _ _ => Ok tt)
    (fun _ _ _ _ => Ok tt) d (mesh_run d).
Proof.
  intros Hd. pose proof mesh_visible as Hv. rewrite Hd in Hv. destruct Hv as [Hid _]. split.
  - by do 7 eexists.
  - clear Hid. vm_compute in Hd. injection Hd as <-. apply Demo.id_utf8.
  - exists mesh_ins, mesh_outs. split.
    + intros dst c s (turns & a & Ht & Hin) Hc. apply list_elem_of_singleton in Ht as ->.
      apply list_elem_of_singleton in Hin. injection Hin as _ _ ->. injection Hc as <-.
      exists (generation (tls d)), (bs "der"), [], 0%N. split; [apply served_first |]. done.
    + intros dst c addr s (turns & a & Ht & Hin) Hc. apply list_elem_of_singleton in Ht as ->.
      apply list_elem_of_singleton in Hin. injection Hin as _ _ ->. injection Hc as <-.
      exists (generation (tls d)). split; [apply served_first |]. clear Hid.
      vm_compute in Hd. injection Hd as <-. split.
      * exists (bs "der"), [], [], [], 0%N. split; [reflexivity |]. vm_compute. reflexivity.
      * intros p [= <-]. vm_compute. by repeat constructor.
    + split; [apply drive_steps |]. by rewrite Hid.
Qed.

Lemma mesh_connection_witness :
  exists d, boot environment = Some (Ok d)
    /\ verdict (Outbound.policy (outbound d)) (expected_identity (tls d)) (expected_identity (tls d)) = Allow
    /\ tunnel_peer tunnel = expected_identity (tls d)
    /\ verdict (Inbound.policy (inbound d)) (expected_identity (tls d)) (expected_identity (tls d)) = Allow
    /\ Outbound.mux_enabled (outbound d) = true.
Proof.
  pose proof mesh_visible as Hv. destruct (boot environment) as [[d|]|] eqn:E; [|destruct Hv..].
  destruct Hv as [_ Hv].
  destruct (said_task _ _ 2 _ Hv eq_refl) as (m_b & tr_b & Hin_b & Hsaid_b).
  destruct (said_task _ _ 3 _ Hv eq_refl) as (m_a & tr_a & Hin_a & Hsaid_a).
  destruct (said_task _ _ 5 _ Hv eq_refl) as (m_d & tr_d & Hin_d & Hsaid_d).
  destruct (mesh_connection _ _ _ _ _ Demo.parse _ _ _ _ _ _ _ d d (mesh_run d) (mesh_run d) Demo.parse_utf8
    (replica_at_work d E) (replica_at_work d E) session session m_a tr_a client (Socket OutboundDemo.target)
    opening m_b tr_b server (Socket (any_ipv4 80)) serving (replica_session d E) Hin_a Hsaid_a Hin_b Hsaid_b
    eq_refl) as (_ & Hout & Hin).
  destruct (Hout (MuxStream tunnel) ltac:(left)
    (ex_intro _ m_d (ex_intro _ tr_d (ex_intro _ _ (ex_intro _ [] (conj Hin_d Hsaid_d)))))) as (Hal & Hpeer & [Hmux _]).
  destruct (Hin (ServeTunnel (any_ipv4 80) Demo.id) ltac:(right; right; left) eq_refl) as (Hal' & _).
  exists d. split; [reflexivity |]. split; [exact Hal |]. split; [exact Hpeer |]. split; [exact Hal' | exact Hmux].
Defined.
End MeshDemo.
