(* ===== verification/Scenarios.v ===== *)
(** * The integration tests, replayed on the model

    The tests under [tests/] that drive the crate as a whole: the certificate
    authority, both endpoints, both proxies and the reloader together.  Here the
    authority issues, the endpoints are configured, the proxies are built and
    their tasks run by the definitions of the model, and the TLS library, the
    certificate generator and the network are replaced by the small ones of
    [Lab], which sign, verify and negotiate.  What the tests assert of the bytes
    a relay copies, and of elapsed time, is left out. *)

From S2P Require Import Prelude Bytes Common Glob Identity Policy ProtocolDetect Net Metrics ProxyBase ConfigLoad.
From S2P Require Import Provider CertAuthority Reload Rotation Admin Dns Tunnels Process Tasks Handshake Events Mux.
From S2P Require Import Listener Inbound Outbound System Mesh Conformance.

(** ** A laboratory library

    A certificate is the key that signed it, the key it certifies and a URI,
    separated by [#]; a root is its key.  A private key fits the certificate that
    names it, and a chain is valid when its leaf was signed by a trusted root. *)
Module Lab.
Definition hash : byte := "#"%char.
Definition field (i : nat) (cert : str) : str := default [] (split (fun b => bool_decide (b = hash)) cert !! i).
Definition first_uri (ps : CertificateParams) : str :=
  default [] (head (omap (fun san => match san with SanURI u => Some u | _ => None end) (subject_alt_names ps))).

Definition self_signed (_ : CertificateParams) (key : str) : result str str := Ok key.
Definition signed_by (ps : CertificateParams) (leaf root_cert root : str) : result str str :=
  Ok (root ++ [hash] ++ leaf ++ [hash] ++ first_uri ps).
Definition parse (cert : str) : result (list X509Extension) str :=
  Ok [MkExt SAN_OID (SubjectAlternativeName [OtherName; URI (field 2 cert)])].
Definition fits (chain : list str) (key : PrivateKeyDer) : result unit TlsError :=
  if bool_decide (head (map (field 1) chain) = Some (secret_der key)) then Ok tt
  else Err (General (bs "key mismatch")).
Definition chains (roots : list str) (leaf : str) (ims : list str) (now : N) : result unit TlsError :=
  if bool_decide (field 0 leaf ∈ roots) then Ok tt else Err (General (bs "unknown issuer")).
Definition accepts {A B} (_ : A) : result unit B := Ok tt.

Abbreviation Authority := (@CertificateAuthority (list Ascii.ascii) (list Ascii.ascii)).

(** An authority with a key of its own, and a leaf with its key. *)
Definition new_ca (key td : String.string) : result Authority InterlinkError :=
  ca_new (Ok (bs key)) self_signed id (bs td) 0.
Definition issue (ca : Authority) (key : String.string) (who : SpiffeId) (names : list String.string) :
    result (str * str) InterlinkError :=
  issue_leaf_with_key (Ok (bs key)) signed_by id id CaDemo.ia5 (fun n => Ok (replicate n zero)) ca who (map bs names) 0.

Definition provider (who : SpiffeId) (ca : Authority) : StaticIdentityProvider :=
  Static.new who (Trust.with_ca (Trust.new (trust_domain who)) (root_cert_der ca)).
Definition server (who : SpiffeId) (ca : Authority) (leaf : str * str) (alpn : list str) :
    result TlsServer InterlinkError :=
  server_new_with_alpn accepts fits accepts (provider who ca) leaf.1 (MkKey Pkcs8 leaf.2) alpn.
Definition client (who : SpiffeId) (ca : Authority) (leaf : str * str) (alpn : list str) :
    result TlsClient InterlinkError :=
  client_with_auth_alpn accepts fits (provider who ca) leaf.1 (MkKey Pkcs8 leaf.2) alpn.

(** The handshake between a client and a server: the client runs the crate's
    verifier on the server's chain, the server requires a chain that verifies, and
    the protocol is selected.  What each end sees of it. *)
Definition refused : Attempt := HandshakeFailed {| io_kind := InvalidData; io_msg := [] |}.
Definition shake (c : ClientConfig) (s : ServerConfig) : eval (Attempt * Attempt) :=
  let alpn := select_alpn (sc_alpn s) (cc_alpn c) in
  match sc_certs s, cc_auth c with
  | leaf :: ims, Some (mine :: rest, _) =>
      r ← verify_server_cert parse accepts chains (MkVerifier (cc_roots c) (cc_trust_domain c)) leaf ims [] [] 0;
      Some (match r, chains (sc_roots s) mine rest 0 with
            | Ok _, Ok _ => (HandshakeDone (MkSession false (Some (leaf :: ims)) alpn),
                             HandshakeDone (MkSession false (Some (mine :: rest)) alpn))
            | _, _ => (refused, refused)
            end)
  | _, _ => Some (refused, refused)
  end.

(** One handshake of the crate over it, from a fresh process. *)
Definition connect_pair (c : TlsClient) (s : TlsServer) : option (result TlsStream InterlinkError * result TlsStream InterlinkError) :=
  '(at_client, at_server) ← shake (connector c) (Handshake.acceptor s);
  '(r, _, _) ← exec (@connect _ (TlsClient_handshake parse) Event c (any_ipv4 0) at_client)
                 (trail_new DropClient) (proc_new 1 1);
  '(r', _, _) ← exec (@accept _ (TlsServer_handshake parse) Event s at_server)
                  (trail_new DropClient) (proc_new 1 1);
  Some (r, r').
End Lab.

(** ** [tests/spiffe_verify.rs] *)
Module SpiffeVerify.
Definition backend (td : String.string) : SpiffeId := MkSpiffeId (bs td) (bs "default") (bs "backend").
Definition frontend (td : String.string) : SpiffeId := MkSpiffeId (bs td) (bs "default") (bs "frontend").

(** The server certified by [server_ca] in one trust domain, dialled by a client
    that trusts [client_ca] and belongs to another. *)
Definition dial (server_ca client_ca server_td client_td : String.string) :
    option (result TlsStream InterlinkError) :=
  match (ca <-? Lab.new_ca server_ca server_td ;;
         leaf <-? Lab.issue ca "server key" (backend server_td) ["localhost"] ;;
         Lab.server (backend server_td) ca leaf alpn_protocols),
        (ca <-? Lab.new_ca client_ca client_td ;;
         leaf <-? Lab.issue ca "client key" (frontend client_td) ["localhost"] ;;
         Lab.client (frontend client_td) ca leaf alpn_protocols) with
  | Ok s, Ok c => '(r, _) ← Lab.connect_pair c s; Some r
  | _, _ => None
  end.
Definition peer (o : option (result TlsStream InterlinkError)) : eval (result SpiffeId InterlinkError) :=
  r ← o; Some (s <-? r ;; Ok (peer_identity s)).

Definition accepts_peer_dialed_by_address_not_in_san : bool :=
  is_ok_eq (peer (dial "A" "A" "mesh.local" "mesh.local")) (backend "mesh.local").
Definition rejects_peer_from_untrusted_ca : bool :=
  is_err (dial "A" "B" "mesh.local" "mesh.local").
Definition rejects_peer_from_wrong_trust_domain : bool :=
  is_err (dial "A" "A" "evil.local" "mesh.local").

Theorem spiffe_verify_passes :
  accepts_peer_dialed_by_address_not_in_san && rejects_peer_from_untrusted_ca
  && rejects_peer_from_wrong_trust_domain = true.
Proof. vm_compute. reflexivity. Qed.
End SpiffeVerify.

(** ** [tests/tls_reload.rs] *)
Module TlsReload.
Definition identity : SpiffeId := MkSpiffeId (bs "reload.test") (bs "workloads") (bs "interlink").
Definition other : SpiffeId := MkSpiffeId (bs "reload.test") (bs "workloads") (bs "other").
Definition files : TlsCredentialPaths :=
  Paths.new (bs "/tmp/dir/ca.der") (bs "/tmp/dir/tls.crt") (bs "/tmp/dir/tls.key").
Abbreviation Files := (str -> result str IoError) (only parsing).

(** The directory after [install_raw], and after [install]. *)
Definition install_raw (roots cert key : str) : Files := fun path =>
  if bool_decide (path = ca_bundle files) then Ok roots
  else if bool_decide (path = certificate files) then Ok cert
  else if bool_decide (path = private_key files) then Ok key
  else Err {| io_kind := InvalidData; io_msg := [] |}.
Definition authority : Lab.Authority := MkCA (bs "A") (bs "A") (bs "A") (bs "reload.test").
Definition untrusted : Lab.Authority := MkCA (bs "B") (bs "B") (bs "B") (bs "reload.test").
Definition leaf (ca : Lab.Authority) (key : String.string) (who : SpiffeId) : str * str :=
  match Lab.issue ca key who [] with Ok l => l | Err _ => ([], []) end.
Definition install (key : String.string) (who : SpiffeId) : Files :=
  install_raw (root_cert_der authority) (leaf authority key who).1 (leaf authority key who).2.

Definition do_load (disk : Files) : eval (result TlsCredentialReloader InterlinkError) :=
  load id (fun _ => []) (fun _ => Ok []) (fun _ => Ok None) Ok Lab.parse Lab.accepts Lab.fits Lab.fits
    Lab.accepts Lab.accepts Lab.chains (MkWorld (fun _ => disk) 0 None) files identity true.
Definition do_reload (disk : Files) (r : TlsCredentialReloader) :
    eval (result unit InterlinkError * TlsCredentialReloader) :=
  reload id (fun _ => []) (fun _ => Ok []) (fun _ => Ok None) Ok Lab.parse Lab.accepts Lab.fits Lab.fits
    Lab.accepts Lab.accepts Lab.chains (MkWorld (fun _ => disk) 0 None) r.

(** The certificate a handshake of the reloader with itself shows its client. *)
Definition served_in (gen : TlsGeneration) : option str :=
  '(at_client, _) ← Lab.connect_pair (gen_client gen) (gen_server gen);
  match at_client with Ok s => peer_certificates (inner s) ≫= head | Err _ => None end.
Definition assert_serves (r : TlsCredentialReloader) (cert : str) : bool :=
  bool_decide (served_in (generation r) = Some cert).
Definition first : str := (leaf authority "first" identity).1.
Definition second : str := (leaf authority "second" identity).1.

Definition valid_rotation_is_atomic : bool := yes (
  loaded ← do_load (install "first" identity);
  match loaded with
  | Ok r => '(result, r') ← do_reload (install "second" identity) r;
            Some (assert_serves r first && is_ok result && assert_serves r' second)
  | Err _ => None
  end).

(** The three reloads in their order: another identity, a key of another
    certificate, another authority. *)
Definition replacement : str := (leaf authority "replacement" identity).1.
Definition wrong_key : str := (leaf authority "wrong" identity).2.
Definition is_identity (r : result unit InterlinkError) : bool :=
  match r with Err (Common.Identity _) => true | _ => false end.
Definition is_tls (r : result unit InterlinkError) : bool := match r with Err (Tls _) => true | _ => false end.

Definition invalid_identity_key_and_trust_reloads_preserve_last_known_good : bool := yes (
  loaded ← do_load (install "first" identity);
  match loaded with
  | Ok r =>
      '(a, r1) ← do_reload (install "second" other) r;
      '(b, r2) ← do_reload (install_raw (root_cert_der authority) replacement wrong_key) r1;
      let bad := leaf untrusted "third" identity in
      '(c, r3) ← do_reload (install_raw (root_cert_der authority) bad.1 bad.2) r2;
      Some (is_identity a && assert_serves r1 first && is_tls b && assert_serves r2 first
            && is_tls c && assert_serves r3 first)
  | Err _ => None
  end).

(** Eight reloads and sixteen handshakes at once: the callers take the lock in
    the order they came, the handshakes fall anywhere between their steps. *)
Abbreviation run := (run_labels (rotate id (fun _ => []) (fun _ => Ok []) (fun _ => Ok None) Ok Lab.parse
  Lab.accepts Lab.fits Lab.fits Lab.accepts Lab.accepts Lab.chains)).
Definition one_reload (i : nat) : list Label :=
  [Acquire i; BeginHandshake; ReadNext i; ReadNext i; ReadNext i; Build i 0; BeginHandshake; Store i; ReleaseLock i].
Definition concurrent : list Label := replicate 8 CallReload ++ concat (map one_reload (seq 0 8)).

Definition repeated_reload_and_concurrent_handshakes_are_bounded : bool := yes (
  loaded ← do_load (install "first" identity);
  match loaded with
  | Ok r =>
      s ← run concurrent (rotation_new r (install "second" identity));
      Some (forallb (fun st => match outcome st with Some (Ok _) => true | _ => false end) (callers s)
            && bool_decide (length (handshakes s) = 16)
            && forallb (fun gen => bool_decide (served_in gen ∈ [Some first; Some second])) (handshakes s)
            && assert_serves (reloader s) second)
  | Err _ => None
  end).

Theorem tls_reload_passes :
  valid_rotation_is_atomic && invalid_identity_key_and_trust_reloads_preserve_last_known_good
  && repeated_reload_and_concurrent_handshakes_are_bounded = true.
Proof. vm_compute. reflexivity. Qed.
End TlsReload.

(** ** [tests/mux_tunnel.rs] *)
Module MuxTunnel.
Definition td : String.string := "mux.local".
Definition server_id : SpiffeId := MkSpiffeId (bs td) (bs "default") (bs "backend-proxy").
Definition client_id : SpiffeId := MkSpiffeId (bs td) (bs "default") (bs "frontend-proxy").
Definition names : list String.string := ["localhost"; "127.0.0.1"].
Definition echo_addr : String.string := "127.0.0.1:9000".
Definition inbound_addr : String.string := "127.0.0.1:4143".
Definition config (who : SpiffeId) (upstream : String.string) : ProxyConfig :=
  MkProxyConfig (bs td) (Some (Id.to_uri who)) (Some (bs upstream)) (Some 10000%N) true.

(** The two proxies of the mesh, and what the ends of their sessions see. *)
Record Mesh := MkMesh {
  inbound : TcpProxy TlsServer;
  outbound : OutboundProxy TlsClient;
  at_client : Attempt;
  at_server : Attempt;
}.

Definition alpn (mux : bool) : list str := if mux then alpn_protocols else legacy_alpn_protocols.
Definition endpoints (inbound_mux outbound_mux : bool) : result (TlsServer * TlsClient) InterlinkError :=
  ca <-? Lab.new_ca "A" td ;;
  scert <-? Lab.issue ca "server key" server_id names ;;
  ccert <-? Lab.issue ca "client key" client_id names ;;
  server <-? Lab.server server_id ca scert (alpn inbound_mux) ;;
  client <-? Lab.client client_id ca ccert (alpn outbound_mux) ;;
  Ok (server, client).

Definition start_mesh (inbound_mux outbound_mux : bool) : option Mesh :=
  match endpoints inbound_mux outbound_mux with
  | Ok (server, client) =>
      let any := bs "spiffe://mux.local/ns/default/sa/*" in
      rule ← patterns.allow any any (bs "mesh test");
      let policy := Engine.add_namespace_rule Engine.new (bs "default") rule in
      inbound ← Inbound.new_with_port (config server_id echo_addr) 4143 server policy;
      outbound ← Outbound.new_with_port (config client_id inbound_addr) 4140 client policy;
      '(c, s) ← Lab.shake (connector client) (Handshake.acceptor server);
      Some (MkMesh inbound outbound c s)
  | Err _ => None
  end.

(** The connections of the clients to the outbound proxy, and those of the
    outbound proxy to the inbound one, one per handshake. *)
Definition roundtrip (m : Mesh) : OutboundConn :=
  MkOutConn 0 (fun _ => at_client m) (fun _ => Opened) (Ok (3%N, 4%N)) 5 9.
Definition session_of (m : Mesh) (streams : nat) : InboundConn :=
  MkInbound 0 (at_server m) (Ok tt) (Ok (bs "hello")) (Ok tt) (Ok (3%N, 4%N))
    (replicate streams (NewStream (MkRelay (Ok tt) (Ok (3%N, 4%N)) 3)) ++ [ConnClosed]) 5 9.
Definition boot (m : Mesh) (clients : nat) (sessions : list nat) : Machine (E := Event) :=
  @start_process _ _ (TlsServer_handshake Lab.parse) (TlsClient_handshake Lab.parse) (inbound m) (outbound m)
    [map (fun n => ([], Accept (None, session_of m n))) sessions]
    [replicate clients ([], Accept (None, roundtrip m))].

Definition counter (f : InterlinkMetrics -> N) (cfg : Machine (E := Event)) : N := f (proc_metrics (proc cfg)).
Definition saying (f : Event -> bool) (cfg : Machine (E := Event)) : nat :=
  count (fun t => existsb f (said t.2)) (threads cfg).
Definition relays_out (e : Event) : bool := match e with RelayOver _ => true | _ => false end.
Definition relays_in (e : Event) : bool := match e with Relay => true | _ => false end.

(** The clients one after the other; then the sessions they caused, with their
    streams.  The handshakes, the connections the outbound proxy relayed, and
    those that reached the backend. *)
Definition sequential (inbound_mux outbound_mux : bool) (n : nat) : option (N * nat * nat) :=
  m ← start_mesh inbound_mux outbound_mux;
  let out := drive 1000 (boot m n []) in
  let handshakes := counter handshakes_total out in
  let tunnels := counter mux_tunnels_opened_total out in
  let sessions := if (tunnels =? 0)%N then replicate (N.to_nat handshakes) 1 else [n] in
  Some (handshakes, saying relays_out out, saying relays_in (drive 1000 (boot m 0 sessions))).

Definition test_mux_single_handshake_for_n_connections : bool :=
  bool_decide (sequential true true 5 = Some (1%N, 5, 5)).
Definition test_mux_fallback_to_legacy_peer : bool :=
  bool_decide (sequential false true 3 = Some (3%N, 3, 3)).
Definition test_mux_disabled_client_offers_legacy : bool :=
  bool_decide (sequential true false 3 = Some (3%N, 3, 3)).

(** All clients at once, with a backend that holds its replies: a task that relays
    stays there, and so do the drivers of the tunnels, whose next step is the end
    of their tunnel. *)
Definition held_here (e : Event) : bool :=
  match e with RelayOver _ | DriveTunnel _ _ _ => true | _ => false end.
Definition unheld (i : nat) (cfg : Machine (E := Event)) : Machine :=
  match threads cfg !! i with
  | Some (_, tr) => if existsb held_here (said tr) then cfg else default cfg (step_thread i cfg)
  | None => cfg
  end.

(** Every task takes a step in turn, or each runs as far as it comes before the
    next; the outbound acceptor, task 1, comes first. *)
Fixpoint rounds (k : nat) (cfg : Machine (E := Event)) : Machine :=
  match k with
  | 0 => cfg
  | S k' => rounds k' (foldl (fun c i => unheld i c) cfg (seq 0 (length (threads cfg))))
  end.
Definition accepted (m : Mesh) (n : nat) : Machine := Nat.iter (5 * n) (unheld 1) (boot m n []).
Definition in_turn (m : Mesh) (n : nat) : Machine :=
  foldl (fun c i => Nat.iter 40 (unheld i) c) (accepted m n) (seq 2 n).

(** The handshakes, the clients that are being relayed at the same time, and the
    errors. *)
Definition observe (cfg : Machine (E := Event)) : N * nat * N :=
  (counter handshakes_total cfg, saying relays_out cfg, counter connection_errors_total cfg).

Definition test_mux_concurrent_streams : bool := yes (
  m ← start_mesh true true;
  let cfg := rounds 80 (accepted m 10) in
  Some (bool_decide (observe cfg = (1%N, 10, 0%N)) && bool_decide (observe (drive 1000 cfg) = (1%N, 10, 0%N)))).
Definition test_mux_high_concurrency : bool := yes (
  m ← start_mesh true true; Some (bool_decide (observe (in_turn m 300) = (2%N, 300, 0%N)))).
(** More streams than one session of the multiplexer takes (512). *)
Definition test_mux_beyond_single_session_cap : bool := yes (
  m ← start_mesh true true; Some (bool_decide (observe (in_turn m 700) = (4%N, 700, 0%N)))).

Theorem mux_tunnel_passes :
  test_mux_single_handshake_for_n_connections && test_mux_fallback_to_legacy_peer
  && test_mux_disabled_client_offers_legacy && test_mux_concurrent_streams = true.
Proof. vm_compute. reflexivity. Qed.

Theorem mux_concurrency_passes : test_mux_high_concurrency && test_mux_beyond_single_session_cap = true.
Proof. vm_compute. reflexivity. Qed.
End MuxTunnel.

(** ** [tests/proxy_shutdown.rs] *)
Module ProxyShutdown.
Definition td : String.string := "shutdown-test.local".
Definition me : SpiffeId := MkSpiffeId (bs td) (bs "default") (bs "proxy").

(** A proxy on its port, and what its [run] gives: the outcome, once it has
    returned.  No connection comes; an accept loop takes its shutdown branch when
    it can, and no handler is active when the wait begins. *)
Definition make_proxy (port : N) : option (TcpProxy TlsServer) :=
  match (ca <-? Lab.new_ca "A" td ;;
         leaf <-? Lab.issue ca "key" me ["localhost"%string] ;;
         Lab.server me ca leaf alpn_protocols) with
  | Ok server =>
      Inbound.new_with_port (MkProxyConfig (bs td) (Some (Id.to_uri me)) (Some (bs "127.0.0.1:9")) (Some 4%N) true)
        port server Engine.new
  | Err _ => None
  end.
Definition run (proxy : TcpProxy TlsServer) (sys : SockOp -> result unit IoError)
    (turns : list (turn (option SocketAddr * InboundConn))) : option ShutdownOutcome :=
  (Inbound.run proxy ∅ (Some 4%N) (fun _ => sys) (fun _ => turns) 0 [(0%N, 0%N)]).2.
Definition works (_ : SockOp) : result unit IoError := Ok tt.
Definition occupied (op : SockOp) : result unit IoError :=
  match op with BindTo _ => Err {| io_kind := OtherKind; io_msg := bs "address in use" |} | _ => Ok tt end.

Definition completes (o : option ShutdownOutcome) : bool := match o with Some Complete => true | _ => false end.

(** The signal arrives while the loops wait; without it they do not end. *)
Definition test_watch_shutdown_stops_proxy : bool := yes (
  p ← make_proxy 4143;
  let p := Inbound.with_shutdown p [] in
  Some (completes (run p works [([], AcceptError); ([Send true], ShutdownBranch)])
        && negb (completes (run p works [([], AcceptError); ([], ShutdownBranch)])))).
Definition test_watch_shutdown_already_signalled : bool := yes (
  p ← make_proxy 4143; Some (completes (run (Inbound.with_shutdown p [Send true]) works [([], ShutdownBranch)]))).
Definition test_bind_failure_returns_instead_of_panicking : bool := yes (
  p ← make_proxy 4143; Some (completes (run p occupied []))).

Theorem proxy_shutdown_passes :
  test_watch_shutdown_stops_proxy && test_watch_shutdown_already_signalled
  && test_bind_failure_returns_instead_of_panicking = true.
Proof. vm_compute. reflexivity. Qed.
End ProxyShutdown.

(** ** [tests/mtls_handshake.rs] and [tests/e2e_proxy_test.rs] *)
Module EndToEnd.
Import PolicyTests ProtocolTests.

Definition test_spiffe_id_integration : bool :=
  let original := bs "spiffe://cluster.local/ns/default/sa/web-api" in
  match Id.from_uri original with
  | Some (Ok id) => bool_decide (Id.to_uri id = original)
                    && bool_decide (id = MkSpiffeId (bs "cluster.local") (bs "default") (bs "web-api"))
  | _ => false
  end.

Definition test_policy_engine_multi_namespace : bool := yes (
  same ← patterns.allow_same_namespace (bs "cluster.local") (bs "billing");
  graf ← patterns.allow (bs "spiffe://cluster.local/ns/billing/sa/*")
           (bs "spiffe://cluster.local/ns/monitoring/sa/grafana") (bs "billing can access grafana");
  let engine := Engine.add_namespace_rule (Engine.add_namespace_rule Engine.new (bs "billing") same)
                  (bs "monitoring") graf in
  let grafana := MkSpiffeId (bs "cluster.local") (bs "monitoring") (bs "grafana") in
  Some (decides engine (MkSpiffeId (bs "cluster.local") (bs "billing") (bs "invoice-worker")) grafana Allow
        && decides engine (MkSpiffeId (bs "cluster.local") (bs "default") (bs "hacker")) grafana
             (Deny (bs "no matching policy")))).

Definition test_policy_engine_allow : bool := yes (
  r ← patterns.allow (bs "spiffe://test.local/ns/default/sa/*") (bs "spiffe://test.local/ns/billing/sa/*")
        (bs "allow default to billing");
  Some (decides (Engine.add_namespace_rule Engine.new (bs "billing") r)
          (MkSpiffeId (bs "test.local") (bs "default") (bs "web"))
          (MkSpiffeId (bs "test.local") (bs "billing") (bs "api")) Allow)).

Definition test_protocol_detection_all_methods : bool :=
  forallb (fun m => detects (bs m ++ bs " / HTTP/1.1" ++ crlf) Http11)
    ["GET"; "POST"; "PUT"; "DELETE"; "HEAD"; "PATCH"; "OPTIONS"; "TRACE"; "CONNECT"]%string
  && detects (bs "PRI * HTTP/2.0" ++ crlf ++ crlf ++ bs "SM" ++ crlf ++ crlf) Http2
  && detects (byte_str [0; 1; 2; 3]%N) Tcp.
Definition test_proto_detection_edge_cases : bool := detects [] Tcp && detects (bs "12345678") Tcp.

(** The server reads the identity of its client; a client of an authority that the
    server does not trust is refused, also when the client would accept the
    server. *)
Definition at_server (server_ca : String.string) (client_ca client_roots : String.string) (who : SpiffeId) :
    eval (result TlsStream InterlinkError) :=
  let me := MkSpiffeId (trust_domain who) (bs "default") (bs "proxy") in
  match (ca <-? Lab.new_ca server_ca "test.local" ;;
         leaf <-? Lab.issue ca "server key" me ["localhost"%string] ;;
         Lab.server me ca leaf alpn_protocols),
        (ca <-? Lab.new_ca client_ca "test.local" ;;
         roots <-? Lab.new_ca client_roots "test.local" ;;
         leaf <-? Lab.issue ca "client key" who ["localhost"%string] ;;
         Lab.client who roots leaf alpn_protocols) with
  | Ok s, Ok c => '(_, r) ← Lab.connect_pair c s; Some r
  | _, _ => None
  end.
Definition test_client : SpiffeId := MkSpiffeId (bs "test.local") (bs "default") (bs "test-client").
Definition test_mtls_direct_handshake_and_echo : bool :=
  is_ok_eq (SpiffeVerify.peer (at_server "A" "A" "A" test_client)) test_client.
Definition test_mtls_rejects_untrusted_client_ca : bool :=
  is_err (at_server "A" "B" "B" test_client) && is_err (at_server "A" "B" "A" test_client).

Theorem end_to_end_passes :
  test_spiffe_id_integration && test_policy_engine_multi_namespace && test_policy_engine_allow
  && test_protocol_detection_all_methods && test_proto_detection_edge_cases
  && test_mtls_direct_handshake_and_echo && test_mtls_rejects_untrusted_client_ca = true.
Proof. vm_compute. reflexivity. Qed.
End EndToEnd.
